(* ===== verification/_CoqProject ===== *)
-Q . S2P
Prelude.v
GoRuntime.v
Float64.v
GoCrypto.v
Errors.v
Rand.v
Bandwidth.v
Partition.v
Trace.v
PipeState.v
Faults.v
FaultProps.v
Pipe.v
PipeInv.v
PipeProps.v
Deadline.v
Options.v
RawPipe.v
Conn.v
ConnProps.v
ConnRace.v
Replay.v
Directions.v
NetIP.v
NetIPProps.v
NetIP6.v
Addr.v
Addressing.v
AddrRoundtrip.v
Listener.v
Network.v
NetworkInv.v
NetworkFrame.v
NetworkListen.v
NetworkDial.v
NetworkFaults.v
NetworkFlows.v
NetworkExamples.v
DialThreads.v
DialSystem.v
Ends.v
SystemProps.v
SystemExamples.v
NetSpec.v
NetSpecProps.v
NetTrace.v
NetLedger.v
NetSystem.v
NetAbstract.v
NetRefine.v
NetSim.v
NetProgram.v
NetDrain.v
NetProgramExamples.v
NetCalls.v
CallsFrame.v
CallsInv.v
CallsActs.v
CallsSteps.v
CallsStep.v
CallsProps.v
CallsDone.v
CallsWhole.v
CallsExamples.v
