(* ===== verification/Prelude.v ===== *)
(** * netchaos: a verification development

    netchaos is an in-memory network for tests, written in Go: a [Network] gives
    out [net.Listener]s and [net.Conn]s and injects faults (partitions, packet
    loss, latency, bandwidth limits, duplication, corruption, resets) that are
    reproducible from a seed. This library models the whole package, function by
    function, and proves what makes it correct.

    ** The program and its parts

    A [Network] (netchaos.go) owns the fault settings, the set of partitioned
    pairs, an address book, the table of listeners, a registry of live
    connections per pair for Reset, and a registry of trace recorders. [Listen]
    enters a listener under a peer name and a port. [DialContext] resolves names,
    waits while the pair is partitioned, finds the listener, reserves a slot of
    its accept queue, takes an ordinal, builds a connection, registers it, and
    fills the slot. A connection (conn.go) is two ends over two crossed pipes; a
    [Read] or [Write] is a loop that checks for a local close, a reset and a
    deadline, tries the pipe, and blocks in a select on channels that are closed
    and replaced at every change. A pipe (pipe.go, latency.go) is a bounded queue
    of byte chunks with a second queue of delayed units; every admitted write
    goes through the evaluator (faults.go), which partitions it away, drops,
    corrupts, delays, duplicates or delivers it, drawing from four streams
    (rand.go) derived from seed, ordinal, side and kind.

    ** The files

    - [Prelude]: machine integers, tactics, hint databases, generic lemmas.
    - [GoRuntime]: results, panics and fuel of a Go call as a monad [go] with its
      weakest precondition [wp]; time; channel generations.
    - [Float64]: binary64 arithmetic, what the draws and rate checks use of it.
    - [GoCrypto]: SHA-256 and the ChaCha8 generator of the standard library.
    - [NetIP], [NetIPProps], [NetIP6]: parsing and printing of net/netip, net.IP,
      net.SplitHostPort and strconv, with their round trips.
    - [Errors]: errors.go and the errno files; [errors.Is]; [Platform] is the
      build tag.
    - [Rand]: rand.go. The class [DrawSource] is what the streams promise to
      everything above; [chacha8_source] is the generator of the program, and the
      scripted and constant sources serve the examples.
    - [Bandwidth]: serializationDelay of bandwidth.go.
    - [Partition]: pairs, the partitioned set and its notification, of partition.go.
    - [Trace]: trace.go.
    - [PipeState], [Pipe]: the state and the operations of pipe.go and latency.go.
    - [Faults]: the evaluator of faults.go, a definition per stage ([drawLoss],
      [drawLatency], [drawDuplicate], [drawCorrupt], [corruptUnit], [throttle],
      [clampRelease], [deliverNow], [deliverLater]), composed in [deliverUnit].
    - [FaultProps]: its properties.
    - [PipeInv]: the abstract byte stream [stream_step], the invariant [pipe_ok]
      of a pipe, and the refinement of the one by the other.
    - [PipeProps]: what a reader and a writer can rely on.
    - [RawPipe]: the blocking loops [read] and [write] of pipe.go, step by step,
      and a writer and a reader on one pipe.
    - [Deadline]: deadline.go.
    - [Options]: options.go and the With and validate functions of the fault files.
    - [Conn]: conn.go; [readStep] and [writeStep] are the atomic steps of a call,
      [Read] and [Write] the call with nothing in between.
    - [ConnProps]: what an uninterrupted call reports.
    - [ConnRace]: one connection under any number of concurrent closes, resets,
      reads, writes, timers and deadline changes ([world_step]).
    - [Replay]: the reference evaluation [judgeAll] of a sequence of writes, a
      function of the writes, the settings and four streams, and the proof that
      every run of a pipe is one.
    - [Directions]: what every pipe of an established connection satisfies
      ([direction_ok]), and that each operation of an end keeps it.
    - [Addr]: addr.go. [Addressing]: addressing.go. [AddrRoundtrip]: printed
      addresses and what they parse to.
    - [Listener]: listener.go and every interleaving of its operations.
    - [Network]: netchaos.go, reset.go, and the operations of the other files that
      need the Network. A [*listener] is an index in [n_heap], a [*conn] an index
      in [n_conns] and a side.
    - [NetworkInv]: the calls on a Network as transitions: [section_step] are
      those of one locked section, [call_step] all of them, each in one piece;
      with a dial in three more (resolve, reserve, connect) they are [net_step];
      and the invariant they keep, [net_ok]. [net_okP] is the invariant up to the
      work a call in progress has left ([pending]). [NetworkFrame]: what a call
      leaves alone.
    - [NetworkListen], [NetworkDial], [NetworkFaults], [NetworkFlows]: the
      properties of a whole Network. [NetworkExamples]: concrete runs and their
      witnesses.
    - [DialThreads]: [DialContext] cut at its locked sections: [dialPC] is where a
      dial stands, [threadStep] runs its next section, and [sys_step] interleaves
      any number of dials with each other and with every call. [DialSystem]: the
      sections keep the invariant and make progress. [Ends]: the addresses of
      connections. [SystemProps]: the properties of the whole. [SystemExamples]: a race of two dials, and the witnesses.
    - [NetSpec]: what a Network promises, as an abstract machine: listeners with
      queues, dials in progress, and connections of two byte streams each, with
      what callers see as the labels ([event]) of its transitions ([spec_step]).
      [NetSpecProps]: what they do to connections. [NetTrace]: the bytes of a
      stream along a run. [NetLedger]: who gets which connection along a run.
    - [NetSystem]: a whole program against a Network ([prog_step], [program]): the
      dials of [DialThreads], Read and Write calls as threads of the steps of
      [Conn], and the other calls. [NetAbstract]: the abstraction [absNet] from a
      Network and its dials to [NetSpec]. [NetRefine], [NetSim]: the simulation.
      [NetProgram], [NetDrain]: what it says of programs. [NetProgramExamples]: an
      executable program, and the witnesses.
    - [NetCalls]: [conn.Close], [listener.Close], [Partition], [Heal] and [Reset]
      cut at their locked sections: [netAction] is a section, [callProgram] the
      first one of a call, [runNetAction] runs one and says which follow it, and
      [calls_step] interleaves any number of these calls with dials and with
      every other section. [CallsFrame]: what the others leave alone. [CallsInv]:
      the invariant, which reads off the actions left to do what is still to be
      torn down. [CallsActs], [CallsSteps], [CallsStep]: every step keeps it.
      [CallsProps]: what the calls leave behind, and Reads and Writes among them.
      [CallsDone]: calls end. [CallsWhole]: a call with nothing in between is the
      operation of [Network]. [CallsExamples]: a Reset, a Close and a Close of a
      listener in the middle of one another, and the witnesses.

    ** What is proved

    - System: from [NewNetwork] on, in every state that calls and the sections of
      concurrent dials reach, the invariant of the Network and of every pipe
      ([system_invariant]); slots and ordinals accounted for
      ([slots_and_ordinals]); a Trace that is sorted, complete and independent of
      races ([trace_exact]); dials that end ([dial_progress]) and that, left
      alone, are the sequential program ([dial_alone]).
    - Calls: the same for calls cut at their sections, up to what is left to do
      ([cut_calls_invariant]); no teardown is lost ([teardown_complete]), errors
      name their true cause ([io_failures_truthful]), every call returns and
      none deadlock ([calls_finish]), and whole calls are cut calls that nothing
      interrupts ([call_in_one_piece]).
    - Refinement: whatever a program does, what it sees is a run of the abstract
      machine ([network_refines]). So every byte read was written, in order, on
      the other end ([program_streams]); EOF means that nothing is missing
      ([eof_means_all]) and can always be reached ([stream_finishes]); and every
      connection a dial returns goes to one caller of Accept, or stays queued, or
      is closed ([handed_out_once]).
    - Determinism: the faults of a direction are those of the reference evaluation
      ([faults_replay]), so equal seeds and writes give equal faults
      ([same_seed_same_faults]).
    - Draws: Bernoulli and bounded draws are exact and uniform; rejection ends;
      stream derivation is injective in its four parameters
      ([deriveStream_input_injective]).
    - Evaluator: the zero-draw gate, the dropped and the delivered unit, its
      content and its timing, no panic under validated settings nor of any Write
      in any good Network, which streams a unit draws from.
    - Pipe: refinement of a byte stream, order, reliable delivery without faults,
      back pressure, EOF last and once, wakeups, draining of delayed units,
      transfers that complete.
    - Connection: the true cause of every error, precedence of close and reset,
      no wakeup missed, under every interleaving; data from a dial to the other
      end's read.
    - Names: one peer per address, one address per peer and family, resolution
      that never changes, printed addresses that parse back; in every reachable
      state the addresses a program sees name their peers, and the pair a
      Partition or a Reset reaches the connection by ([visible_addresses]).
    - Network: every branch of Listen and of a dial, refinement of an
      uninterrupted dial by the transitions, reachability of a listener by name
      and address, partitions, resets, dialer timeouts, settings at run time,
      closing.
    - Three theorems state behaviour the program's own comments rule out:
      [corruption_decisions_depend_on_loss], [mismatched_dial_leaks_slot],
      [closed_pairs_stay_registered]; [zoned_literal_is_no_alias] and
      [self_partition_accepted] state corner cases of the naming rules.

    ** Bounds and fuel

    Go's [int], [int64], [uint64] and [byte] are [Z] with their wrap-around
    written where the source's arithmetic can reach it ([u64], [i64], [u8]). Byte
    counts of a pipe are unbounded: a pipe would have to hold 2^63 bytes. The one
    loop of the program with no bound, the rejection loop of [boundedUint64],
    takes the fuel of the class [RejectFuel]; theorems about it say what happens
    for every fuel. The loop of [peerIPLocked] has as fuel one more than the
    number of owned addresses, which [peer_addresses_distinct] shows is enough;
    the port loop of [Listen] has the source's own bound; an uninterrupted call
    of [Read] or [Write] takes at most eight steps, as [Read_precedence] and
    [Write_precedence] show. [threadRun] has as fuel the number of sections it
    may run; [dial_alone] shows that eleven are enough. Two counters of the
    source are taken to stay below 2^64: the ordinals ([sys_step] runs no section
    of a dial beyond) and the sequence numbers of a recorder ([trace_room], a
    guard of the Write transition). The arming count of a timer, which nothing
    reads, is unbounded.

    ** What is not modelled

    Goroutines are interleavings of atomic steps, one per locked section or
    channel operation: in [calls_step] every call is cut at them, Read and Write
    too where they run among the others ([io_among]). In [sys_step] only the dials
    are, in [prog_step], whose runs the abstract machine of [NetSpec] follows,
    Read and Write as well, and there a Close, a Close of a listener and a Reset
    are one step each. A select with several ready channels may take any; the
    scheduler may run any goroutine, and no fairness is assumed. One reading of
    the clock serves a locked section, and wall clock and monotonic clock do not
    drift apart. A fired timer is an absent one. A trace recorder is part of the pipe
    that owns it. Pointer identity of errors is equality of their trees. Panic
    messages are kept up to the value they quote, and the text of error messages
    ([Error] methods) is left out. doc.go is a comment, and the tests, the
    conformance suite and the benchmarks are not part of the program. *)

From stdpp Require Export base tactics numbers list gmap strings fin_maps fin_sets sorting.
From Stdlib Require Export ZArith Lia.

#[global] Open Scope Z_scope.

(** ** Machine integers *)

(** [u64 z] is the value of a Go [uint64] expression whose mathematical
    result is [z]. *)
Definition u64 (z : Z) : Z := z mod 2 ^ 64.

(** [i64 z] is the value of a Go [int64] (or 64-bit [int]) expression whose
    mathematical result is [z]: two's-complement wrap-around. *)
Definition i64 (z : Z) : Z := (z + 2 ^ 63) mod 2 ^ 64 - 2 ^ 63.

Definition is_u64 (z : Z) : Prop := 0 <= z < 2 ^ 64.
Definition is_i64 (z : Z) : Prop := - 2 ^ 63 <= z < 2 ^ 63.

Definition u8 (z : Z) : Z := z mod 2 ^ 8.
Definition is_byte (z : Z) : Prop := 0 <= z < 2 ^ 8.

(** ** Tactics *)

(** Turn boolean comparisons in the context and the goal into propositions. *)
Ltac zbool :=
  repeat match goal with
  | H : (_ <? _) = true |- _ => apply Z.ltb_lt in H
  | H : (_ <? _) = false |- _ => apply Z.ltb_ge in H
  | H : (_ <=? _) = true |- _ => apply Z.leb_le in H
  | H : (_ <=? _) = false |- _ => apply Z.leb_gt in H
  | H : (_ =? _) = true |- _ => apply Z.eqb_eq in H
  | H : (_ =? _) = false |- _ => apply Z.eqb_neq in H
  | H : (_ >=? _) = _ |- _ => rewrite Z.geb_leb in H
  | H : (_ >? _) = _ |- _ => rewrite Z.gtb_ltb in H
  | H : _ && _ = true |- _ => apply andb_true_iff in H; destruct H
  | H : _ || _ = false |- _ => apply orb_false_iff in H; destruct H
  | H : negb _ = true |- _ => apply negb_true_iff in H
  | H : negb _ = false |- _ => apply negb_false_iff in H
  end.

(** Case analysis on the scrutinee of the first [if] or [match] of the goal. *)
Ltac case_goal :=
  match goal with
  | |- context [if ?b then _ else _] => destruct b eqn:?
  | |- context [match ?x with _ => _ end] => destruct x eqn:?
  end.

(** ** Generic lemmas *)

Create HintDb netchaos.

Lemma u64_range z : is_u64 (u64 z).
Proof. unfold is_u64, u64. apply Z.mod_pos_bound. lia. Qed.

Lemma u64_id z : is_u64 z -> u64 z = z.
Proof. intros H. apply Z.mod_small. exact H. Qed.

Lemma i64_range z : is_i64 (i64 z).
Proof.
  unfold is_i64, i64. pose proof (Z.mod_pos_bound (z + 2 ^ 63) (2 ^ 64)). lia.
Qed.

Lemma i64_id z : is_i64 z -> i64 z = z.
Proof. unfold is_i64, i64. intros H. rewrite Z.mod_small; lia. Qed.

#[export] Hint Resolve u64_range i64_range : netchaos.

(** Powers of two split as the exponents add; stated for rewriting. *)
Lemma pow2_split a b : 0 <= a -> 0 <= b -> 2 ^ (a + b) = 2 ^ a * 2 ^ b.
Proof. intros. apply Z.pow_add_r; assumption. Qed.

Lemma pow2_pos a : 0 <= a -> 0 < 2 ^ a.
Proof. intros. apply Z.pow_pos_nonneg; lia. Qed.
