(* ===== verification/GoRuntime.v ===== *)
(** * What the model uses of the Go language: panics and divergence as
    values, time, and channel generations. *)
From S2P Require Import Prelude.

(** ** Outcomes of a Go call: a result, a run-time panic, or (for the one loop
    of the program with no a-priori bound) exhaustion of the fuel given. *)
Inductive go (A : Type) : Type :=
| Ret (a : A)
| Panic (msg : string)
| OutOfFuel.
Arguments Ret {A} _.
Arguments Panic {A} _.
Arguments OutOfFuel {A}.

#[global] Instance go_ret : MRet go := fun A a => Ret a.
#[global] Instance go_bind : MBind go := fun A B f m =>
  match m with
  | Ret a => f a
  | Panic msg => Panic msg
  | OutOfFuel => OutOfFuel
  end.
#[global] Instance go_fmap : FMap go := fun A B f m => m ≫= (fun a => Ret (f a)).

(** The call returned (it neither panicked nor ran out of fuel). *)
Definition returns {A} (m : go A) : Prop := exists a, m = Ret a.

Lemma go_bind_ret {A B} (m : go A) (f : A -> go B) b :
  m ≫= f = Ret b <-> exists a, m = Ret a /\ f a = Ret b.
Proof.
  split.
  - destruct m as [a|msg|]; cbn; [eauto|done|done].
  - intros (a & -> & H). exact H.
Qed.

Lemma go_bind_panic {A B} (m : go A) (f : A -> go B) msg :
  m ≫= f = Panic msg -> m = Panic msg \/ exists a, m = Ret a /\ f a = Panic msg.
Proof. destruct m as [a|m'|]; cbn; [eauto|intros [= ->]; eauto|done]. Qed.

(** Dereference of a pointer that may be nil. *)
Definition deref {A} (p : option A) : go A :=
  match p with
  | Some a => Ret a
  | None => Panic "nil pointer dereference"
  end.

(** Split a hypothesis [m ≫= f = Ret b] into its steps. *)
Ltac go_inv :=
  repeat match goal with
  | H : (_ ≫= _) = Ret _ |- _ => apply go_bind_ret in H as (? & ? & H)
  | H : Ret _ = Ret _ |- _ => injection H as H
  | H : (let '(_, _) := ?x in _) = Ret _ |- _ => destruct x eqn:?
  | H : Panic _ = Ret _ |- _ => discriminate H
  | H : OutOfFuel = Ret _ |- _ => discriminate H
  end.

(** ** Time

    A [time.Time] is the number of nanoseconds since Go's zero time, a
    [time.Duration] a signed 64-bit count of nanoseconds. Wall clock and
    monotonic clock advance together, as they do inside a testing/synctest
    bubble. *)
Definition Time : Type := Z.
Definition Duration : Type := Z.

Definition maxDuration : Duration := 2 ^ 63 - 1.
Definition minDuration : Duration := - 2 ^ 63.
Definition Second : Duration := 1000000000.

Definition zeroTime : Time := 0.
Definition time_IsZero (t : Time) : bool := t =? 0.
Definition time_After (t u : Time) : bool := u <? t.
Definition time_Before (t u : Time) : bool := t <? u.
Definition time_Add (t : Time) (d : Duration) : Time := t + d.

(** [t.Sub(u)] saturates at the ends of the Duration range. *)
Definition time_Sub (t u : Time) : Duration :=
  if t - u <? minDuration then minDuration
  else if maxDuration <? t - u then maxDuration
  else t - u.

(** [time.Until(t)] at the instant [now]. *)
Definition time_Until (now t : Time) : Duration := time_Sub t now.

Lemma time_Sub_exact t u : is_i64 (t - u) -> time_Sub t u = t - u.
Proof.
  unfold is_i64, time_Sub, minDuration, maxDuration. intros H.
  destruct (Z.ltb_spec (t - u) (- 2 ^ 63)); [lia|].
  destruct (Z.ltb_spec (2 ^ 63 - 1) (t - u)); [lia|done].
Qed.

Lemma time_Sub_nonneg t u : u <= t -> 0 <= time_Sub t u <= t - u.
Proof.
  unfold time_Sub, minDuration, maxDuration. intros H.
  destruct (Z.ltb_spec (t - u) (- 2 ^ 63)); [lia|].
  destruct (Z.ltb_spec (2 ^ 63 - 1) (t - u)); lia.
Qed.

Lemma time_Sub_pos t u : u < t -> 0 < time_Sub t u <= t - u.
Proof.
  unfold time_Sub, minDuration, maxDuration. intros H.
  destruct (Z.ltb_spec (t - u) (- 2 ^ 63)); [lia|].
  destruct (Z.ltb_spec (2 ^ 63 - 1) (t - u)); lia.
Qed.

Lemma time_Sub_nonpos t u : t <= u -> time_Sub t u <= 0.
Proof.
  unfold time_Sub, minDuration, maxDuration. intros H.
  destruct (Z.ltb_spec (t - u) (- 2 ^ 63)); [lia|].
  destruct (Z.ltb_spec (2 ^ 63 - 1) (t - u)); lia.
Qed.

(** ** Notification channels

    A "close and replace" channel is the number of times it has been replaced:
    a waiter holding generation [g] is woken as soon as the current generation
    exceeds [g]. *)
Definition generation : Type := nat.
Definition woken (held current : generation) : bool := Nat.ltb held current.

Definition zlen {A} (l : list A) : Z := Z.of_nat (length l).

Lemma zlen_nonneg {A} (l : list A) : 0 <= zlen l.
Proof. unfold zlen. lia. Qed.

Lemma zlen_app {A} (l1 l2 : list A) : zlen (l1 ++ l2) = zlen l1 + zlen l2.
Proof. unfold zlen. rewrite length_app. lia. Qed.

Lemma zlen_cons {A} (x : A) l : zlen (x :: l) = 1 + zlen l.
Proof. unfold zlen. cbn [length]. lia. Qed.

Create Rewrite HintDb zlen.
#[export] Hint Rewrite @zlen_app @zlen_cons : zlen.
#[export] Hint Resolve zlen_nonneg : netchaos.

(** ** Weakest preconditions

    [wp b m P]: [m] does not panic, what it returns satisfies [P], and it runs
    out of fuel only if [b] allows it. *)
Definition wp {A} (b : bool) (m : go A) (P : A -> Prop) : Prop :=
  match m with
  | Ret a => P a
  | Panic _ => False
  | OutOfFuel => b = true
  end.

Lemma wp_bind {A B} b (m : go A) (f : A -> go B) (P : B -> Prop) :
  wp b m (fun a => wp b (f a) P) -> wp b (m ≫= f) P.
Proof. by destruct m. Qed.

Lemma wp_mono {A} b (m : go A) (P Q : A -> Prop) :
  wp b m P -> (forall a, P a -> Q a) -> wp b m Q.
Proof. destruct m; cbn; auto. Qed.

Lemma wp_safe {A} (m : go A) P msg : wp true m P -> m <> Panic msg.
Proof. by destruct m. Qed.

Lemma wp_returns {A} (m : go A) P : wp false m P -> exists a, m = Ret a /\ P a.
Proof. destruct m; cbn; [eauto|done|done]. Qed.
