(* ===== verification/Float64.v ===== *)
(** * IEEE-754 binary64, as the program uses it (Go's float64): conversion of an
    unsigned integer, division and comparison, with the exactness facts the
    Bernoulli trial rests on. *)
From S2P Require Import Prelude.
From Stdlib Require Export SpecFloat.

Definition float64 : Type := spec_float.
Definition f64_prec : Z := 53.
Definition f64_emax : Z := 1024.

(** A Go float64 value: its mantissa and exponent are in the format. *)
Definition f64_valid (x : float64) : bool := valid_binary f64_prec f64_emax x.

Definition f64_of_u64 (x : Z) : float64 := binary_normalize f64_prec f64_emax x 0 false.
Definition f64_div (x y : float64) : float64 := SFdiv f64_prec f64_emax x y.
Definition f64_ltb (x y : float64) : bool := SFltb x y.
Definition f64_leb (x y : float64) : bool := SFleb x y.
Definition f64_is_nan (x : float64) : bool := match x with S754_nan => true | _ => false end.

Definition f64_zero : float64 := S754_zero false.
Definition f64_one : float64 := f64_of_u64 1.

(** The order of the dyadic rationals [m1 * 2^e1] and [m2 * 2^e2]. *)
Definition dyadic_lt (m1 e1 m2 e2 : Z) : Prop :=
  m1 * 2 ^ (e1 - Z.min e1 e2) < m2 * 2 ^ (e2 - Z.min e1 e2).

(** ** Mantissa digits *)

Lemma digits2_pos_size p : digits2_pos p = Pos.size p.
Proof. induction p; simpl; congruence. Qed.

Lemma digits2_bounds p :
  2 ^ (Zpos (digits2_pos p) - 1) <= Zpos p < 2 ^ Zpos (digits2_pos p).
Proof.
  rewrite digits2_pos_size. split.
  - pose proof (Pos.size_le p) as H.
    assert (2 ^ Zpos (Pos.size p) <= 2 * Zpos p) by (rewrite <- Pos2Z.inj_pow; lia).
    replace (Zpos (Pos.size p)) with ((Zpos (Pos.size p) - 1) + 1) in * by lia.
    rewrite pow2_split in H0 by lia.
    replace (Zpos (Pos.size p) - 1 + 1 - 1) with (Zpos (Pos.size p) - 1) by lia. lia.
  - pose proof (Pos.size_gt p). rewrite <- Pos2Z.inj_pow. lia.
Qed.

Lemma digits2_unique p d :
  2 ^ (d - 1) <= Zpos p < 2 ^ d -> Zpos (digits2_pos p) = d.
Proof.
  intros [Hl Hu]. pose proof (digits2_bounds p) as [Hl' Hu'].
  assert (0 < d) by (destruct (Z_lt_le_dec 0 d); [done|];
    assert (2 ^ d <= 2 ^ 0) by (destruct (Z.eq_dec d 0); [subst; lia|rewrite Z.pow_neg_r by lia; lia]); lia).
  destruct (Z.lt_trichotomy (Zpos (digits2_pos p)) d) as [H1|[H1|H1]]; [|done|].
  - pose proof (Z.pow_le_mono_r 2 (Zpos (digits2_pos p)) (d - 1)). lia.
  - pose proof (Z.pow_le_mono_r 2 d (Zpos (digits2_pos p) - 1)). lia.
Qed.

(** ** Canonical values compare as the numbers they denote *)

Lemma bounded_spec m e :
  bounded f64_prec f64_emax m e = true ->
  Z.max (Zpos (digits2_pos m) + e - 53) (-1074) = e /\ e <= 971.
Proof.
  unfold bounded, canonical_mantissa, fexp, emin, f64_prec, f64_emax. intros H. zbool.
  change (Z.sub 3 1024 - 53) with (-1074) in *. lia.
Qed.

Lemma bounded_exp_lt m1 e1 m2 e2 :
  bounded f64_prec f64_emax m1 e1 = true -> bounded f64_prec f64_emax m2 e2 = true ->
  e1 < e2 -> Zpos m1 < Zpos m2 * 2 ^ (e2 - e1).
Proof.
  intros [H1 _]%bounded_spec [H2 _]%bounded_spec Hlt.
  pose proof (digits2_bounds m1) as [_ Hu]. pose proof (digits2_bounds m2) as [Hl _].
  assert (Zpos (digits2_pos m2) = 53) as E2 by lia. rewrite E2 in Hl.
  pose proof (Z.pow_le_mono_r 2 (Zpos (digits2_pos m1)) 53).
  pose proof (Z.pow_le_mono_r 2 1 (e2 - e1)).
  change (2 ^ (53 - 1)) with 4503599627370496 in Hl. change (2 ^ 53) with 9007199254740992 in *. nia.
Qed.

Lemma f64_ltb_finite m1 e1 m2 e2 :
  bounded f64_prec f64_emax m1 e1 = true -> bounded f64_prec f64_emax m2 e2 = true ->
  f64_ltb (S754_finite false m1 e1) (S754_finite false m2 e2) = true
  <-> dyadic_lt (Zpos m1) e1 (Zpos m2) e2.
Proof.
  intros H1 H2. unfold f64_ltb, SFltb, SFcompare, dyadic_lt.
  destruct (Z.compare_spec e1 e2) as [->|Hlt|Hgt].
  - rewrite Z.min_id, Z.sub_diag, Z.pow_0_r, !Z.mul_1_r.
    change (Pos.compare_cont Eq m1 m2) with (Pos.compare m1 m2).
    destruct (Pos.compare_spec m1 m2); split; intros; subst; try done; lia.
  - rewrite Z.min_l, Z.sub_diag, Z.pow_0_r, Z.mul_1_r by lia.
    split; [|done]. intros _. by apply bounded_exp_lt.
  - rewrite Z.min_r, Z.sub_diag, Z.pow_0_r, Z.mul_1_r by lia.
    split; [done|]. intros H. pose proof (bounded_exp_lt m2 e2 m1 e1 H2 H1 ltac:(lia)). lia.
Qed.

(** ** Rounding leaves a value already in the format unchanged *)

Lemma iter_xO_value p n : Zpos (Pos.iter xO p n) = Zpos p * 2 ^ Zpos n.
Proof.
  induction n as [|n IH] using Pos.peano_ind.
  - change (Zpos (Pos.iter xO p 1)) with (Zpos (xO p)). change (2 ^ 1) with 2. lia.
  - rewrite Pos.iter_succ, Pos2Z.inj_succ, Z.pow_succ_r by lia.
    change (Zpos (xO (Pos.iter xO p n))) with (2 * Zpos (Pos.iter xO p n)). lia.
Qed.

Lemma shr_fexp_canonical m e :
  bounded f64_prec f64_emax m e = true ->
  shr_fexp f64_prec f64_emax (Zpos m) e loc_Exact = (Build_shr_record (Zpos m) false false, e).
Proof.
  intros [H _]%bounded_spec. unfold shr_fexp, fexp, emin, f64_prec, f64_emax.
  cbn [shr_record_of_loc Zdigits2].
  replace (Z.max _ _ - e) with 0; [done|].
  change (Z.sub 3 1024 - 53) with (-1074). lia.
Qed.

Lemma binary_round_aux_canonical s m e :
  bounded f64_prec f64_emax m e = true ->
  binary_round_aux f64_prec f64_emax s (Zpos m) e loc_Exact = S754_finite s m e.
Proof.
  intros H. unfold binary_round_aux. rewrite (shr_fexp_canonical m e H).
  cbn [shr_m loc_of_shr_record round_nearest_even].
  rewrite (shr_fexp_canonical m e H). cbn [shr_m].
  apply bounded_spec in H as [_ H]. unfold f64_emax, f64_prec.
  destruct (Z.leb_spec e (1024 - 53)); [done|lia].
Qed.

(** A 53-bit mantissa at an exponent in range is in the format. *)
Lemma bounded_53 m e :
  2 ^ 52 <= Zpos m < 2 ^ 53 -> -1074 <= e <= 971 -> bounded f64_prec f64_emax m e = true.
Proof.
  intros Hm He. unfold bounded, canonical_mantissa, fexp, emin, f64_prec, f64_emax.
  rewrite (digits2_unique m 53) by (change (53 - 1) with 52; lia).
  change (Z.sub 3 1024 - 53) with (-1074).
  apply andb_true_iff. split; [apply Z.eqb_eq|apply Z.leb_le]; lia.
Qed.

(** The 53-bit mantissa of a positive integer below 2^53. *)
Definition f64_mantissa (p : positive) : positive :=
  match (53 - Zpos (digits2_pos p))%Z with
  | Zpos n => Pos.iter xO p n
  | _ => p
  end.

Lemma f64_mantissa_spec p :
  Zpos p < 2 ^ 53 ->
  Zpos (digits2_pos p) <= 53 /\
  Zpos (f64_mantissa p) = Zpos p * 2 ^ (53 - Zpos (digits2_pos p)) /\
  2 ^ 52 <= Zpos (f64_mantissa p) < 2 ^ 53.
Proof.
  intros Hp. pose proof (digits2_bounds p) as [Hl Hu].
  assert (Zpos (digits2_pos p) <= 53) as Hd.
  { destruct (Z_le_gt_dec (Zpos (digits2_pos p)) 53); [done|].
    pose proof (Z.pow_le_mono_r 2 53 (Zpos (digits2_pos p) - 1)). lia. }
  split; [done|].
  assert (Zpos (f64_mantissa p) = Zpos p * 2 ^ (53 - Zpos (digits2_pos p))) as E.
  { unfold f64_mantissa. destruct (53 - Zpos (digits2_pos p)) as [|n|n] eqn:En; [lia| |lia].
    apply iter_xO_value. }
  split; [done|]. rewrite E.
  replace (2 ^ 52) with (2 ^ (Zpos (digits2_pos p) - 1) * 2 ^ (53 - Zpos (digits2_pos p)))
    by (rewrite <- pow2_split by lia; f_equal; lia).
  replace (2 ^ 53) with (2 ^ Zpos (digits2_pos p) * 2 ^ (53 - Zpos (digits2_pos p)))
    by (rewrite <- pow2_split by lia; f_equal; lia).
  pose proof (pow2_pos (53 - Zpos (digits2_pos p))). nia.
Qed.

(** Converting an integer below 2^53 is exact. *)
Lemma f64_of_u64_exact p :
  Zpos p < 2 ^ 53 ->
  f64_of_u64 (Zpos p) = S754_finite false (f64_mantissa p) (Zpos (digits2_pos p) - 53).
Proof.
  intros Hp. destruct (f64_mantissa_spec p Hp) as (Hd & _ & Hm).
  unfold f64_of_u64, binary_normalize, binary_round.
  replace (fexp f64_prec f64_emax (Zpos (digits2_pos p) + 0)) with (Zpos (digits2_pos p) - 53)
    by (unfold fexp, emin, f64_prec, f64_emax; change (Z.sub 3 1024 - 53) with (-1074); lia).
  assert (shl_align p 0 (Zpos (digits2_pos p) - 53)
          = (f64_mantissa p, Zpos (digits2_pos p) - 53)) as ->.
  { unfold shl_align, f64_mantissa.
    destruct (Zpos (digits2_pos p) - 53) as [|n|n] eqn:En; [|lia|].
    - replace (53 - Zpos (digits2_pos p)) with 0 by lia. f_equal.
    - replace (53 - Zpos (digits2_pos p)) with (Zpos n) by lia.
      unfold Z.sub. simpl. f_equal. }
  apply binary_round_aux_canonical, bounded_53; lia.
Qed.

(** The float64 constant [1 << 53]. *)
Definition f64_two53 : float64 := f64_of_u64 (2 ^ 53).

Lemma f64_two53_eq : f64_two53 = S754_finite false (2 ^ 52)%positive 1.
Proof. reflexivity. Qed.

Lemma zdiv_eucl_exact a b : 0 < b -> Z.div_eucl (a * b) b = (a, 0).
Proof.
  intros Hb. pose proof (Z.div_mul a b ltac:(lia)) as Hd.
  pose proof (Z.mod_mul a b ltac:(lia)) as Hm. unfold Z.div, Z.modulo in *.
  destruct (Z.div_eucl (a * b) b). congruence.
Qed.

(** The quotient of a 53-bit mantissa by 2^52 before rounding: doubled mantissa,
    no remainder. *)
Lemma f64_div_core_two53 m e :
  2 ^ 52 <= Zpos m < 2 ^ 53 -> -52 <= e <= 0 ->
  SFdiv_core_binary f64_prec f64_emax (Zpos m) e (Zpos (2 ^ 52)%positive) 1
  = (Zpos m * 2, e - 54, loc_Exact).
Proof.
  intros Hm He. unfold SFdiv_core_binary. cbn [Zdigits2].
  rewrite (digits2_unique m 53) by (change (53 - 1) with 52; lia).
  change (Zpos (digits2_pos (2 ^ 52))) with 53.
  replace (Z.min _ _) with (e - 54)
    by (unfold fexp, emin, f64_prec, f64_emax; change (Z.sub 3 1024 - 53) with (-1074); lia).
  replace (e - 1 - (e - 54)) with 53 by lia.
  rewrite Z.shiftl_mul_pow2 by lia.
  replace (Zpos m * 2 ^ 53) with (Zpos m * 2 * Zpos (2 ^ 52)%positive)
    by (change (Zpos (2 ^ 52)%positive) with (2 ^ 52); rewrite <- Z.mul_assoc; reflexivity).
  rewrite zdiv_eucl_exact by lia. reflexivity.
Qed.

(** Rounding the doubled mantissa halves it again, exactly. *)
Lemma binary_round_aux_double m e :
  2 ^ 52 <= Zpos m < 2 ^ 53 -> -52 <= e <= 0 ->
  binary_round_aux f64_prec f64_emax false (Zpos m * 2) (e - 54) loc_Exact
  = S754_finite false m (e - 53).
Proof.
  intros Hm He. unfold binary_round_aux.
  assert (bounded f64_prec f64_emax m (e - 53) = true) as Hb by (apply bounded_53; lia).
  replace (Zpos m * 2) with (Zpos (xO m)) by lia.
  assert (shr_fexp f64_prec f64_emax (Zpos (xO m)) (e - 54) loc_Exact
          = (Build_shr_record (Zpos m) false false, e - 53)) as ->.
  { unfold shr_fexp. cbn [Zdigits2].
    rewrite (digits2_unique (xO m) 54) by (change (54 - 1) with (52 + 1); change 54 with (53 + 1);
      rewrite !pow2_split by lia; lia).
    replace (fexp f64_prec f64_emax (54 + (e - 54)) - (e - 54)) with 1
      by (unfold fexp, emin, f64_prec, f64_emax; change (Z.sub 3 1024 - 53) with (-1074); lia).
    cbn. f_equal. lia. }
  cbn [shr_m loc_of_shr_record round_nearest_even].
  rewrite (shr_fexp_canonical _ _ Hb). cbn [shr_m].
  unfold f64_emax, f64_prec. destruct (Z.leb_spec (e - 53) (1024 - 53)); [done|lia].
Qed.

(** Dividing an integer below 2^53 by [1 << 53] is exact. *)
Lemma f64_div_two53_exact p :
  Zpos p < 2 ^ 53 ->
  f64_div (f64_of_u64 (Zpos p)) f64_two53
  = S754_finite false (f64_mantissa p) (Zpos (digits2_pos p) - 106).
Proof.
  intros Hp. destruct (f64_mantissa_spec p Hp) as (Hd & _ & Hm).
  pose proof (Pos2Z.is_pos (digits2_pos p)).
  rewrite f64_of_u64_exact, f64_two53_eq by done. unfold f64_div, SFdiv.
  rewrite f64_div_core_two53 by lia. cbn [xorb].
  rewrite binary_round_aux_double by lia. f_equal. lia.
Qed.

(** ** Comparing [x / 2^53] with a float64 *)

Lemma dyadic_lt_scale k m1 e1 m2 e2 :
  k <= e1 -> k <= e2 ->
  dyadic_lt m1 e1 m2 e2 <-> m1 * 2 ^ (e1 - k) < m2 * 2 ^ (e2 - k).
Proof.
  intros H1 H2. unfold dyadic_lt. set (n := Z.min e1 e2).
  replace (e1 - k) with ((e1 - n) + (n - k)) by lia.
  replace (e2 - k) with ((e2 - n) + (n - k)) by lia.
  rewrite !pow2_split by lia. pose proof (pow2_pos (n - k)). nia.
Qed.

(** The least integer at or above [2^53] times the finite value [m * 2^e]. *)
Definition f64_ceil53 (m : positive) (e : Z) : Z :=
  if 0 <=? e + 53 then Zpos m * 2 ^ (e + 53)
  else - ((- Zpos m) / 2 ^ (- (e + 53))).

Lemma f64_ceil53_spec x m e :
  x < f64_ceil53 m e <-> dyadic_lt x (-53) (Zpos m) e.
Proof.
  unfold f64_ceil53, dyadic_lt. destruct (Z.leb_spec 0 (e + 53)).
  - rewrite Z.min_l by lia. replace (-53 - -53) with 0 by lia.
    replace (e - -53) with (e + 53) by lia. lia.
  - rewrite Z.min_r by lia. replace (e - e) with 0 by lia.
    replace (-53 - e) with (- (e + 53)) by lia.
    pose proof (pow2_pos (- (e + 53)) ltac:(lia)) as Hp. set (s := 2 ^ (- (e + 53))) in *.
    rewrite Z.pow_0_r, Z.mul_1_r.
    pose proof (Z.div_mod (- Zpos m) s ltac:(lia)) as E.
    pose proof (Z.mod_pos_bound (- Zpos m) s Hp). split; intros; nia.
Qed.

Lemma f64_frac_ltb x m e :
  0 <= x < 2 ^ 53 -> bounded f64_prec f64_emax m e = true ->
  f64_ltb (f64_div (f64_of_u64 x) f64_two53) (S754_finite false m e) = true
  <-> x < f64_ceil53 m e.
Proof.
  intros Hx Hb. rewrite f64_ceil53_spec. destruct x as [|p|p]; [| |lia].
  - unfold f64_ltb. cbn. split; [|done]. intros _. unfold dyadic_lt.
    pose proof (pow2_pos (e - Z.min (-53) e)). nia.
  - destruct (f64_mantissa_spec p ltac:(lia)) as (Hd & Em & Hm).
    pose proof (Pos2Z.is_pos (digits2_pos p)).
    rewrite f64_div_two53_exact by lia.
    rewrite f64_ltb_finite by (try done; apply bounded_53; lia).
    set (k := Z.min e (Zpos (digits2_pos p) - 106)).
    rewrite (dyadic_lt_scale k) by lia. rewrite (dyadic_lt_scale k (Zpos p)) by lia.
    rewrite Em, <- Z.mul_assoc, <- pow2_split by lia.
    replace (53 - Zpos (digits2_pos p) + (Zpos (digits2_pos p) - 106 - k)) with (-53 - k) by lia.
    done.
Qed.

(** Comparison with the constant 1. *)
Lemma f64_one_eq : f64_one = S754_finite false (2 ^ 52)%positive (-52).
Proof. reflexivity. Qed.

Lemma f64_leb_ltb_finite m1 e1 m2 e2 :
  f64_leb (S754_finite false m1 e1) (S754_finite false m2 e2)
  = negb (f64_ltb (S754_finite false m2 e2) (S754_finite false m1 e1)).
Proof.
  unfold f64_leb, f64_ltb, SFleb, SFltb, SFcompare.
  rewrite (Z.compare_antisym e1 e2). destruct (e1 ?= e2); cbn; try done.
  change (Pos.compare_cont Eq m1 m2) with (Pos.compare m1 m2).
  change (Pos.compare_cont Eq m2 m1) with (Pos.compare m2 m1).
  rewrite (Pos.compare_antisym m1 m2). by destruct (m1 ?= m2)%positive.
Qed.

(** A finite rate at or above 1 has every 53-bit fraction below it. *)
Lemma f64_ge_one_ceil53 m e :
  bounded f64_prec f64_emax m e = true ->
  f64_leb f64_one (S754_finite false m e) = true -> 2 ^ 53 <= f64_ceil53 m e.
Proof.
  intros Hb. rewrite f64_one_eq, f64_leb_ltb_finite, negb_true_iff, <- not_true_iff_false.
  rewrite f64_ltb_finite by done.
  set (k := Z.min e (-53)). rewrite (dyadic_lt_scale k) by lia. intros Hge.
  assert (2 ^ 53 - 1 < f64_ceil53 m e) by (rewrite f64_ceil53_spec, (dyadic_lt_scale k) by lia;
    replace (Zpos (2 ^ 52)%positive * 2 ^ (-52 - k)) with (2 ^ 53 * 2 ^ (-53 - k)) in Hge
      by (replace (-52 - k) with (1 + (-53 - k)) by lia; rewrite (pow2_split 1) by lia;
          change (Zpos (2 ^ 52)%positive) with (2 ^ 52); lia);
    pose proof (pow2_pos (-53 - k)); nia). lia.
Qed.

Lemma f64_ceil53_nonneg m e : 0 < f64_ceil53 m e.
Proof.
  rewrite f64_ceil53_spec. unfold dyadic_lt.
  pose proof (pow2_pos (e - Z.min (-53) e)). nia.
Qed.
