(* ===== verification/GoCrypto.v ===== *)
(** * The two generators of Go's standard library the program derives its
    streams with: [crypto/sha256] (one-shot [Sum256]) and the ChaCha8 source of
    [math/rand/v2]. Both are executable; the draws they give are checked against
    the repository's own golden vectors in [Rand]. *)
From S2P Require Import Prelude.

(** ** 32-bit words *)

Definition u32 (z : Z) : Z := z mod 2 ^ 32.
Definition add32 (x y : Z) : Z := u32 (x + y).
Definition rotl32 (x n : Z) : Z := Z.lor (u32 (Z.shiftl x n)) (Z.shiftr x (32 - n)).
Definition rotr32 (x n : Z) : Z := rotl32 x (32 - n).

Fixpoint be_word (acc : Z) (bs : list Z) : Z :=
  match bs with
  | [] => acc
  | b :: bs => be_word (acc * 256 + b) bs
  end.

(** [n] bytes of [z], most significant first. *)
Fixpoint be_bytes (n : nat) (z : Z) : list Z :=
  match n with
  | O => []
  | S n => u8 (Z.shiftr z (8 * Z.of_nat n)) :: be_bytes n z
  end.

Fixpoint le_word (bs : list Z) : Z :=
  match bs with
  | [] => 0
  | b :: bs => b + 256 * le_word bs
  end.

Fixpoint chunks {A} (fuel k : nat) (l : list A) : list (list A) :=
  match fuel, l with
  | S fuel, _ :: _ => take k l :: chunks fuel k (drop k l)
  | _, _ => []
  end.

(** ** SHA-256 *)

(** The largest [r] in [\[lo, lo + 2^bits)] with [r^3 <= z]. *)
Fixpoint cube_root_from (bits : nat) (lo z : Z) : Z :=
  match bits with
  | O => lo
  | S bits =>
      let mid := lo + 2 ^ Z.of_nat bits in
      cube_root_from bits (if mid * mid * mid <=? z then mid else lo) z
  end.

Definition is_prime (n : Z) : bool :=
  forallb (fun d => negb (n mod (Z.of_nat d) =? 0)) (seq 2 (Z.to_nat n - 2)).

Definition sha256_primes : list Z :=
  take 64 (List.filter is_prime (map Z.of_nat (seq 2 311))).

(** The round constants: 32 fractional bits of the cube roots of the primes. *)
Definition sha256_k : list Z :=
  Eval vm_compute in map (fun p => u32 (cube_root_from 36 0 (p * 2 ^ 96))) sha256_primes.

(** The initial state: 32 fractional bits of the square roots of the first eight. *)
Definition sha256_init : list Z :=
  Eval vm_compute in map (fun p => u32 (Z.sqrt (p * 2 ^ 64))) (take 8 sha256_primes).

Definition sha256_sched (w : list Z) : Z :=
  let s0 x := Z.lxor (Z.lxor (rotr32 x 7) (rotr32 x 18)) (Z.shiftr x 3) in
  let s1 x := Z.lxor (Z.lxor (rotr32 x 17) (rotr32 x 19)) (Z.shiftr x 10) in
  add32 (add32 (s1 (nth 14 w 0)) (nth 9 w 0)) (add32 (s0 (nth 1 w 0)) (nth 0 w 0)).

(** One round per constant; [w] is the sliding window of sixteen schedule words. *)
Fixpoint sha256_rounds (ks w : list Z) (a b c d e f g h : Z) : list Z :=
  match ks with
  | [] => [a; b; c; d; e; f; g; h]
  | k :: ks =>
      let S1 := Z.lxor (Z.lxor (rotr32 e 6) (rotr32 e 11)) (rotr32 e 25) in
      let ch := Z.lxor (Z.land e f) (Z.land (2 ^ 32 - 1 - e) g) in
      let t1 := add32 (add32 (add32 h S1) (add32 ch k)) (nth 0 w 0) in
      let S0 := Z.lxor (Z.lxor (rotr32 a 2) (rotr32 a 13)) (rotr32 a 22) in
      let maj := Z.lxor (Z.lxor (Z.land a b) (Z.land a c)) (Z.land b c) in
      sha256_rounds ks (drop 1 w ++ [sha256_sched w])
        (add32 t1 (add32 S0 maj)) a b c (add32 d t1) e f g
  end.

Definition sha256_block (st : list Z) (block : list Z) : list Z :=
  let w := map (be_word 0) (chunks 16 4 block) in
  match st with
  | [a; b; c; d; e; f; g; h] =>
      zip_with add32 st (sha256_rounds sha256_k w a b c d e f g h)
  | _ => st
  end.

Definition sha256_pad (msg : list Z) : list Z :=
  let n := length msg in
  msg ++ [128] ++ repeat 0 (Z.to_nat ((55 - Z.of_nat n) mod 64)) ++ be_bytes 8 (8 * Z.of_nat n).

Definition Sum256 (msg : list Z) : list Z :=
  let padded := sha256_pad msg in
  concat (map (be_bytes 4) (foldl sha256_block sha256_init (chunks (length padded) 64 padded))).

(** ** ChaCha8 *)

Definition chacha_qr (a b c d : Z) : Z * Z * Z * Z :=
  let a := add32 a b in let d := rotl32 (Z.lxor d a) 16 in
  let c := add32 c d in let b := rotl32 (Z.lxor b c) 12 in
  let a := add32 a b in let d := rotl32 (Z.lxor d a) 8 in
  let c := add32 c d in let b := rotl32 (Z.lxor b c) 7 in
  (a, b, c, d).

(** [n] double rounds over the sixteen words of one block. *)
Fixpoint chacha_rounds (n : nat) (x : list Z) : list Z :=
  match n, x with
  | S n, [x0; x1; x2; x3; x4; x5; x6; x7; x8; x9; x10; x11; x12; x13; x14; x15] =>
      let '(x0, x4, x8, x12) := chacha_qr x0 x4 x8 x12 in
      let '(x1, x5, x9, x13) := chacha_qr x1 x5 x9 x13 in
      let '(x2, x6, x10, x14) := chacha_qr x2 x6 x10 x14 in
      let '(x3, x7, x11, x15) := chacha_qr x3 x7 x11 x15 in
      let '(x0, x5, x10, x15) := chacha_qr x0 x5 x10 x15 in
      let '(x1, x6, x11, x12) := chacha_qr x1 x6 x11 x12 in
      let '(x2, x7, x8, x13) := chacha_qr x2 x7 x8 x13 in
      let '(x3, x4, x9, x14) := chacha_qr x3 x4 x9 x14 in
      chacha_rounds n [x0; x1; x2; x3; x4; x5; x6; x7; x8; x9; x10; x11; x12; x13; x14; x15]
  | _, _ => x
  end.

(** One of the four interleaved blocks: only the key words are added back. *)
Definition chacha8_lane (key : list Z) (counter : Z) : list Z :=
  let x := chacha_rounds 4 ([0x61707865; 0x3320646e; 0x79622d32; 0x6b206574] ++ key
                            ++ [counter; 0; 0; 0]) in
  take 4 x ++ zip_with add32 key (take 8 (drop 4 x)) ++ drop 12 x.

(** The 32 outputs of one refill: row by row, the four lanes paired
    little-endian into 64-bit words. *)
Definition chacha8_block (seed : list Z) (counter : Z) : list Z :=
  let key := concat (map (fun s => [u32 s; Z.shiftr s 32]) seed) in
  let l0 := chacha8_lane key (u32 counter) in
  let l1 := chacha8_lane key (u32 (counter + 1)) in
  let l2 := chacha8_lane key (u32 (counter + 2)) in
  let l3 := chacha8_lane key (u32 (counter + 3)) in
  concat (zip_with (fun p q => [p; q])
    (zip_with (fun lo hi => lo + Z.shiftl hi 32) l0 l1)
    (zip_with (fun lo hi => lo + Z.shiftl hi 32) l2 l3)).

Record ChaCha8 : Type := mkChaCha8 {
  cc_buf : list Z;   (** the words of the last block *)
  cc_seed : list Z;  (** four 64-bit words *)
  cc_i : nat;        (** next word of the block to give out *)
  cc_n : nat;        (** words of the block that may be given out *)
  cc_c : Z           (** block counter *)
}.

Definition NewChaCha8 (key : list Z) : ChaCha8 :=
  let seed := map le_word (chunks 4 8 key) in
  mkChaCha8 (chacha8_block seed 0) seed 0 32 0.

Definition chacha8_refill (s : ChaCha8) : ChaCha8 :=
  let c := cc_c s + 4 in
  let seed := if c =? 16 then drop 28 (cc_buf s) else cc_seed s in
  let c := if c =? 16 then 0 else c in
  mkChaCha8 (chacha8_block seed c) seed 0 (if c =? 12 then 28 else 32) c.

Definition chacha8_Uint64 (s : ChaCha8) : Z * ChaCha8 :=
  let s := if Nat.ltb (cc_i s) (cc_n s) then s else chacha8_refill s in
  (u64 (nth (cc_i s) (cc_buf s) 0),
   mkChaCha8 (cc_buf s) (cc_seed s) (S (cc_i s)) (cc_n s) (cc_c s)).
