(* ===== verification/Errors.v ===== *)
(** * Errors (errors.go, the errno files) and the address value they carry

    An error is the tree its constructors build; [errors_is] is the standard
    library's [errors.Is]. The build tag is the [Platform] class. *)
From S2P Require Import Prelude GoRuntime.

(** [addr] of addr.go: [ip] is nil only in addresses built for errors. *)
Record addr : Type := mkAddr {
  addr_network : string;
  addr_peer : string;
  addr_port : Z;
  addr_ip : option (list Z)
}.

#[export] Instance addr_eq_dec : EqDecision addr.
Proof. solve_decision. Defined.

(** [plan9] tells which of the two errno files is compiled. *)
Class Platform : Type := plan9 : bool.

Inductive goerror : Type :=
| Errno (name : string)                                    (** a syscall.Errno *)
| ErrorString (text : string)                              (** errors.New / fmt.Errorf without %w *)
| SetupError (message : string) (errno : option string)    (** *setupError; [errno] names its Errno, if any *)
| WrapError (text : string) (err : goerror)                (** fmt.Errorf with %w *)
| AddrError (Err Addr : string)                            (** *net.AddrError *)
| OpError (Op Net : string) (Source Addr : option addr) (Err : goerror). (** *net.OpError *)

#[export] Instance goerror_eq_dec : EqDecision goerror.
Proof. solve_decision. Defined.

(** Standard-library sentinels the program returns. *)
Definition EOF : goerror := ErrorString "EOF".
Definition ErrClosedPipe : goerror := ErrorString "io: read/write on closed pipe".
Definition ErrClosed : goerror := ErrorString "use of closed network connection".
Definition ErrDeadlineExceeded : goerror := ErrorString "i/o timeout".
Definition ContextCanceled : goerror := ErrorString "context canceled".
Definition ContextDeadlineExceeded : goerror := ErrorString "context deadline exceeded".

Definition ECONNREFUSED : goerror := Errno "ECONNREFUSED".
Definition EADDRINUSE : goerror := Errno "EADDRINUSE".
Definition ECONNRESET : goerror := Errno "ECONNRESET".
Definition EPIPE : goerror := Errno "EPIPE".

Section platform.
Context `{Platform}.

Definition errConnRefused : option string := if plan9 then None else Some "ECONNREFUSED".
Definition errAddrInUse : option string := if plan9 then None else Some "EADDRINUSE".
Definition errConnReset : goerror :=
  if plan9 then ErrorString "connection reset by peer" else ECONNRESET.
Definition errBrokenPipe : goerror := if plan9 then ErrorString "broken pipe" else EPIPE.

Definition ErrUnsupportedNetwork : goerror := ErrorString "netchaos: unsupported network".
Definition ErrConnectionRefused : goerror :=
  SetupError "netchaos: connection refused" errConnRefused.
Definition ErrAddressInUse : goerror :=
  SetupError "netchaos: address already in use" errAddrInUse.
Definition ErrBacklogFull : goerror := ErrorString "netchaos: accept backlog full".
End platform.

(** [errors.Is]: equality, then the error's own [Is] method ([setupError]), then
    its [Unwrap]. *)
Fixpoint errors_is (err target : goerror) : bool :=
  bool_decide (err = target) ||
  match err with
  | SetupError _ (Some errno) => bool_decide (Errno errno = target)
  | WrapError _ e => errors_is e target
  | OpError _ _ _ _ e => errors_is e target
  | _ => false
  end.
