(* ===== verification/Rand.v ===== *)
(** * Seeded draws (rand.go)

    The random source of a stream is an interface, [DrawSource]: a state with a
    64-bit draw, built from a 32-byte key. Everything the faults compute from
    draws is proved against it; [chacha8_source] is the program's own instance
    and [scripted_source] replays a given list of draws. *)
From S2P Require Import Prelude GoRuntime Float64 GoCrypto.

(** ** The interface of a raw source ([*rand.ChaCha8] in the program). *)
Class DrawSource (Src : Type) : Type := {
  src_of_key : list Z -> Src;
  src_uint64 : Src -> Z * Src;
  src_uint64_range : forall s, is_u64 (fst (src_uint64 s))
}.

(** How many rejected draws the model follows in one call of [boundedUint64]
    before it answers [OutOfFuel]; the program's loop has no bound. *)
Class RejectFuel : Type := reject_fuel : nat.

(** ** Identities of a stream *)

Inductive connSide : Type := sideDialer | sideAcceptor.
Inductive faultKind : Type := kindLoss | kindLatency | kindDuplicate | kindCorrupt.

#[export] Instance connSide_eq_dec : EqDecision connSide.
Proof. solve_decision. Defined.
#[export] Instance faultKind_eq_dec : EqDecision faultKind.
Proof. solve_decision. Defined.

Definition connSide_value (s : connSide) : Z :=
  match s with sideDialer => 0 | sideAcceptor => 1 end.
Definition faultKind_value (k : faultKind) : Z :=
  match k with kindLoss => 0 | kindLatency => 1 | kindDuplicate => 2 | kindCorrupt => 3 end.

(** The 22 bytes hashed into a stream's key. *)
Definition deriveStream_input (masterSeed ordinal : Z) (side : connSide) (kind : faultKind) : list Z :=
  [110; 99; 49; 0] ++ be_bytes 8 (u64 masterSeed) ++ be_bytes 8 ordinal
  ++ [connSide_value side; faultKind_value kind].

(** ** Lemire's bounded draw, as arithmetic *)

Definition Mul64 (x y : Z) : Z * Z := (x * y / 2 ^ 64, x * y mod 2 ^ 64).

Definition lemire_thresh (n : Z) : Z := u64 (- n) mod n.
Definition lemire_accepts (n x : Z) : bool := negb (snd (Mul64 x n) <? lemire_thresh n).

Section stream.
Context {Src : Type} `{!DrawSource Src} `{!RejectFuel}.

Record stream : Type := mkStream { src : Src }.

Definition deriveStream (masterSeed ordinal : Z) (side : connSide) (kind : faultKind) : stream :=
  mkStream (src_of_key (Sum256 (deriveStream_input masterSeed ordinal side kind))).

Definition next (s : stream) : Z * stream :=
  let '(x, c) := src_uint64 (src s) in (x, mkStream c).

Definition bernoulli (rate : float64) (s : stream) : bool * stream :=
  let '(draw, s) := next s in
  if f64_leb rate f64_zero then (false, s)
  else if f64_leb f64_one rate then (true, s)
  else
    let v := f64_div (f64_of_u64 (Z.shiftr draw 11)) f64_two53 in
    (f64_ltb v rate, s).

(** [for lo < thresh { hi, lo = bits.Mul64(s.next(), n) }] *)
Fixpoint boundedUint64_loop (fuel : nat) (thresh n hi lo : Z) (s : stream) : go (Z * stream) :=
  if lo <? thresh then
    match fuel with
    | O => OutOfFuel
    | S fuel =>
        let '(x, s) := next s in
        let '(hi, lo) := Mul64 x n in
        boundedUint64_loop fuel thresh n hi lo s
    end
  else Ret (hi, s).

Definition boundedUint64 (n : Z) (s : stream) : go (Z * stream) :=
  let '(x, s) := next s in
  let '(hi, lo) := Mul64 x n in
  if lo <? n then boundedUint64_loop reject_fuel (u64 (- n) mod n) n hi lo s
  else Ret (hi, s).

Definition uniformDuration (min max : Z) (s : stream) : go (Z * stream) :=
  let span := u64 (u64 (i64 (max - min)) + 1) in
  r ← boundedUint64 span s;
  let '(x, s) := r in
  Ret (i64 (min + i64 x), s).

Definition corruptionSite (n : Z) (s : stream) : go (Z * Z * stream) :=
  r ← boundedUint64 (u64 n) s;
  let '(byteIndex, s) := r in
  q ← boundedUint64 8 s;
  let '(bitIndex, s) := q in
  Ret (i64 byteIndex, bitIndex, s).

(** ** Positions in a stream *)

(** The stream after [k] raw draws, and the raw draw at position [k]. *)
Fixpoint after (k : nat) (s : stream) : stream :=
  match k with
  | O => s
  | S k => after k (snd (next s))
  end.

Definition draw (k : nat) (s : stream) : Z := fst (next (after k s)).

(** ** Lemmas *)

Lemma next_range s : is_u64 (fst (next s)).
Proof.
  unfold next. destruct (src_uint64 (src s)) eqn:E. cbn.
  pose proof (src_uint64_range (src s)) as Hr. by rewrite E in Hr.
Qed.

Lemma draw_range k s : is_u64 (draw k s).
Proof. apply next_range. Qed.

Lemma draw_0 s : draw 0 s = fst (next s).
Proof. done. Qed.

Lemma draw_S k s : draw (S k) s = draw k (snd (next s)).
Proof. done. Qed.

Lemma after_S k s : after (S k) s = after k (snd (next s)).
Proof. done. Qed.

Lemma after_add j k s : after (j + k) s = after k (after j s).
Proof. revert s. induction j as [|j IH]; intros s; cbn; [done|apply IH]. Qed.

Lemma bernoulli_one_draw rate s : snd (bernoulli rate s) = after 1 s.
Proof.
  unfold bernoulli. cbn. destruct (next s) as [x s'] eqn:E. cbn.
  by repeat case_goal.
Qed.
End stream.

Arguments stream Src : clear implicits.
Arguments mkStream {Src} src.

(** ** Lemire's method, as arithmetic *)

Lemma lemire_thresh_mod n : 0 < n < 2 ^ 64 -> lemire_thresh n = 2 ^ 64 mod n.
Proof.
  intros Hn. unfold lemire_thresh, u64.
  replace (- n) with (2 ^ 64 - n + (-1) * 2 ^ 64) by lia.
  rewrite Z_mod_plus_full, (Z.mod_small (2 ^ 64 - n)) by lia.
  replace (2 ^ 64 - n) with (2 ^ 64 + (-1) * n) by lia. apply Z_mod_plus_full.
Qed.

Lemma lemire_thresh_bound n : 0 < n < 2 ^ 64 -> 0 <= lemire_thresh n < n.
Proof. intros. rewrite lemire_thresh_mod by done. apply Z.mod_pos_bound. lia. Qed.

Lemma mul64_hi_range n x : 0 < n -> is_u64 x -> 0 <= fst (Mul64 x n) < n.
Proof.
  unfold is_u64, Mul64. cbn. intros Hn Hx. split.
  - apply Z.div_pos; nia.
  - apply Z.div_lt_upper_bound; nia.
Qed.

(** The draws accepted with result [k] form one interval of [2^64 / n] values. *)
Lemma lemire_interval n k :
  0 < n < 2 ^ 64 -> 0 <= k < n ->
  exists a, 0 <= a /\ a + 2 ^ 64 / n <= 2 ^ 64 /\
    forall x, is_u64 x ->
      (lemire_accepts n x = true /\ fst (Mul64 x n) = k) <-> a <= x < a + 2 ^ 64 / n.
Proof.
  intros Hn Hk. set (q := 2 ^ 64 / n). set (t := 2 ^ 64 mod n).
  pose proof (Z.div_mod (2 ^ 64) n ltac:(lia)) as E. fold q t in E.
  pose proof (Z.mod_pos_bound (2 ^ 64) n ltac:(lia)) as Ht. fold t in Ht.
  assert (0 <= q) by (apply Z.div_pos; lia).
  (* least multiple of n at or above k * 2^64 + t *)
  set (A := k * 2 ^ 64 + t). set (a := - ((- A) / n)).
  pose proof (Z.div_mod (- A) n ltac:(lia)) as Ea.
  pose proof (Z.mod_pos_bound (- A) n ltac:(lia)) as Hr.
  assert (0 <= A) by (unfold A; nia).
  assert ((a - 1) * n < A <= a * n) as Ha by (unfold a; nia).
  assert ((k + 1) * 2 ^ 64 = A + q * n) as Etop by (unfold A; lia).
  exists a. split; [nia|]. split.
  { assert ((a + q - 1) * n < (k + 1) * 2 ^ 64) by nia.
    assert ((k + 1) * 2 ^ 64 <= n * 2 ^ 64) by nia. nia. }
  intros x Hx. unfold lemire_accepts, Mul64. cbn. rewrite negb_true_iff, Z.ltb_ge.
  rewrite (lemire_thresh_mod n Hn). fold t.
  pose proof (Z.div_mod (x * n) (2 ^ 64) ltac:(lia)) as Ex.
  pose proof (Z.mod_pos_bound (x * n) (2 ^ 64) ltac:(lia)) as Hlo.
  set (hi := x * n / 2 ^ 64) in *. set (lo := x * n mod 2 ^ 64) in *.
  split.
  - intros [Hlt ->]. unfold A in *. split; nia.
  - intros Hax. assert (A <= x * n < (k + 1) * 2 ^ 64) as Hr' by nia.
    unfold A in Hr'. assert (hi = k) by nia. subst k. split; [nia|done].
Qed.

(** A power of two never rejects a draw. *)
Lemma lemire_accepts_dvd n x : 0 < n < 2 ^ 64 -> (n | 2 ^ 64) -> lemire_accepts n x = true.
Proof.
  intros Hn Hd. unfold lemire_accepts. rewrite lemire_thresh_mod by done.
  rewrite (Z.mod0_divide _ _ Hd), negb_true_iff, Z.ltb_ge. unfold Mul64. cbn.
  apply Z.mod_pos_bound. lia.
Qed.

Section bounded_draws.
Context {Src : Type} `{!DrawSource Src} `{!RejectFuel}.
Implicit Types (s : stream Src).

(** [first_accepted n s j]: position [j] holds the first draw of [s] that
    [boundedUint64 n] accepts. *)
Definition first_accepted (n : Z) (s : stream Src) (j : nat) : Prop :=
  lemire_accepts n (draw j s) = true /\
  forall i, (i < j)%nat -> lemire_accepts n (draw i s) = false.

Lemma boundedUint64_loop_spec fuel n x s :
  boundedUint64_loop fuel (lemire_thresh n) n (fst (Mul64 x n)) (snd (Mul64 x n)) s =
  if lemire_accepts n x then Ret (fst (Mul64 x n), s)
  else match fuel with
       | O => OutOfFuel
       | S fuel => boundedUint64_loop fuel (lemire_thresh n) n (fst (Mul64 (draw 0 s) n))
                     (snd (Mul64 (draw 0 s) n)) (after 1 s)
       end.
Proof.
  unfold lemire_accepts. rewrite draw_0. cbn [after].
  destruct fuel; cbn [boundedUint64_loop]; destruct (_ <? _); cbn [negb]; try done.
  destruct (next s). cbn. done.
Qed.

Lemma boundedUint64_unfold n s :
  0 < n < 2 ^ 64 ->
  boundedUint64 n s =
  boundedUint64_loop reject_fuel (lemire_thresh n) n (fst (Mul64 (draw 0 s) n))
    (snd (Mul64 (draw 0 s) n)) (after 1 s).
Proof.
  intros Hn. unfold boundedUint64. rewrite draw_0. cbn [after].
  destruct (next s) as [x s'] eqn:E. cbn [fst snd].
  destruct (Mul64 x n) as [hi lo] eqn:Em. cbn [fst snd]. fold (lemire_thresh n).
  destruct (Z.ltb_spec lo n); [done|].
  pose proof (lemire_thresh_bound n Hn).
  destruct (reject_fuel : nat); cbn; destruct (Z.ltb_spec lo (lemire_thresh n)); try done; lia.
Qed.

Lemma boundedUint64_loop_found fuel n x s j :
  lemire_accepts n x = false ->
  first_accepted n s j -> (j < fuel)%nat ->
  boundedUint64_loop fuel (lemire_thresh n) n (fst (Mul64 x n)) (snd (Mul64 x n)) s
  = Ret (fst (Mul64 (draw j s) n), after (S j) s).
Proof.
  revert x s j. induction fuel as [|fuel IH]; intros x s j Hx [Hacc Hrej] Hj; [lia|].
  rewrite boundedUint64_loop_spec, Hx.
  destruct j as [|j].
  - rewrite boundedUint64_loop_spec, Hacc. done.
  - rewrite draw_S, (after_S (S j)). apply (IH _ (snd (next s)) j); [|split|lia].
    + by apply (Hrej O); lia.
    + done.
    + intros i Hi. specialize (Hrej (S i)). rewrite draw_S in Hrej. apply Hrej. lia.
Qed.

(** [boundedUint64] answers with the first accepted draw, when the fuel
    reaches it. *)
Lemma boundedUint64_found n s j :
  0 < n < 2 ^ 64 -> first_accepted n s j -> (j <= reject_fuel)%nat ->
  boundedUint64 n s = Ret (fst (Mul64 (draw j s) n), after (S j) s).
Proof.
  intros Hn [Hacc Hrej] Hj. rewrite boundedUint64_unfold by done.
  destruct j as [|j].
  - by rewrite boundedUint64_loop_spec, Hacc.
  - rewrite (draw_S j s), (after_S (S j) s).
    apply boundedUint64_loop_found; [by apply (Hrej O); lia| |lia].
    split; [done|]. intros i Hi. apply (Hrej (S i)). lia.
Qed.

Lemma boundedUint64_loop_range fuel n x s v s' :
  0 < n -> is_u64 x ->
  boundedUint64_loop fuel (lemire_thresh n) n (fst (Mul64 x n)) (snd (Mul64 x n)) s = Ret (v, s') ->
  0 <= v < n.
Proof.
  intros Hn. revert x s. induction fuel as [|fuel IH]; intros x s Hx;
    rewrite boundedUint64_loop_spec; destruct (lemire_accepts n x).
  - intros [= <- <-]. by apply mul64_hi_range.
  - done.
  - intros [= <- <-]. by apply mul64_hi_range.
  - apply IH, draw_range.
Qed.

Lemma boundedUint64_range n s v s' :
  0 < n < 2 ^ 64 -> boundedUint64 n s = Ret (v, s') -> 0 <= v < n.
Proof.
  intros Hn. rewrite boundedUint64_unfold by done.
  apply boundedUint64_loop_range; [lia|apply draw_range].
Qed.

Lemma boundedUint64_no_panic n s msg : boundedUint64 n s <> Panic msg.
Proof.
  unfold boundedUint64. destruct (next s) as [x s1], (Mul64 x n) as [hi lo].
  destruct (lo <? n); [|done]. generalize (reject_fuel : nat) as fuel.
  intros fuel. revert hi lo s1. induction fuel as [|fuel IH]; intros; cbn;
    destruct (_ <? _); try done.
  destruct (next _) as [y s2], (Mul64 y n) as [hi' lo']. apply IH.
Qed.

(** When [n] divides 2^64 one raw draw is used and nothing is rejected. *)
Lemma boundedUint64_dvd n s :
  0 < n < 2 ^ 64 -> (n | 2 ^ 64) ->
  boundedUint64 n s = Ret (fst (Mul64 (draw 0 s) n), after 1 s).
Proof.
  intros Hn Hd. apply (boundedUint64_found n s 0); [done| |lia].
  split; [by apply lemire_accepts_dvd|lia].
Qed.

(** The span of a latency range never overflows. *)
Lemma uniformDuration_span min max :
  0 <= min <= max -> max < 2 ^ 63 ->
  u64 (u64 (i64 (max - min)) + 1) = max - min + 1 /\ 0 < max - min + 1 < 2 ^ 64.
Proof.
  intros H1 H2. rewrite i64_id by (unfold is_i64; lia).
  rewrite (u64_id (max - min)) by (unfold is_u64; lia).
  rewrite u64_id by (unfold is_u64; lia). lia.
Qed.

Lemma uniformDuration_range min max s d s' :
  0 <= min <= max -> max < 2 ^ 63 ->
  uniformDuration min max s = Ret (d, s') -> min <= d <= max.
Proof.
  intros H1 H2. unfold uniformDuration.
  destruct (uniformDuration_span min max H1 H2) as [-> Hs].
  destruct (boundedUint64 _ s) as [[x s1]| |] eqn:E; cbn; try done.
  apply boundedUint64_range in E; [|done]. intros [= <- <-].
  rewrite (i64_id x) by (unfold is_i64; lia). rewrite i64_id by (unfold is_i64; lia). lia.
Qed.

(** A fixed latency uses exactly one draw and cannot run out of fuel. *)
Lemma uniformDuration_fixed d s :
  0 <= d < 2 ^ 63 -> uniformDuration d d s = Ret (d, after 1 s).
Proof.
  intros Hd. unfold uniformDuration. rewrite Z.sub_diag.
  change (u64 (u64 (i64 0) + 1)) with 1.
  rewrite boundedUint64_dvd by (lia || apply Z.divide_1_l). cbn [mbind go_bind].
  replace (fst (Mul64 (draw 0 s) 1)) with 0.
  - change (i64 0) with 0. rewrite Z.add_0_r, i64_id by (unfold is_i64; lia). done.
  - unfold Mul64. cbn. rewrite Z.mul_1_r, Z.div_small; [done|apply draw_range].
Qed.

Lemma corruptionSite_range n s byteIndex bitIndex s' :
  0 < n < 2 ^ 63 -> corruptionSite n s = Ret (byteIndex, bitIndex, s') ->
  0 <= byteIndex < n /\ 0 <= bitIndex < 8.
Proof.
  intros Hn. unfold corruptionSite. rewrite (u64_id n) by (unfold is_u64; lia).
  destruct (boundedUint64 n s) as [[x s1]| |] eqn:E1; cbn; try done.
  destruct (boundedUint64 8 s1) as [[y s2]| |] eqn:E2; cbn; try done.
  apply boundedUint64_range in E1; [|lia]. apply boundedUint64_range in E2; [|lia].
  intros [= <- <- <-]. rewrite i64_id by (unfold is_i64; lia). done.
Qed.
End bounded_draws.

(** ** Instances of the source *)

(** The program's source: ChaCha8 keyed with the 32-byte hash. *)
#[export] Instance chacha8_source : DrawSource ChaCha8 := {
  src_of_key := NewChaCha8;
  src_uint64 := chacha8_Uint64;
  src_uint64_range s := u64_range _
}.

(** A source that replays given draws, then zeros. *)
Definition scripted_uint64 (l : list Z) : Z * list Z :=
  match l with
  | [] => (0, [])
  | x :: l => (u64 x, l)
  end.

Lemma scripted_uint64_range l : is_u64 (fst (scripted_uint64 l)).
Proof. destruct l; cbn; [unfold is_u64; lia|apply u64_range]. Qed.

#[export] Instance scripted_source : DrawSource (list Z) := {
  src_of_key := fun _ => [];
  src_uint64 := scripted_uint64;
  src_uint64_range := scripted_uint64_range
}.

(** ** Stream identities *)

Lemma be_word_app acc l1 l2 : be_word acc (l1 ++ l2) = be_word (be_word acc l1) l2.
Proof. revert acc. induction l1; intros; cbn; auto. Qed.

Lemma be_bytes_length n z : length (be_bytes n z) = n.
Proof. induction n; cbn; congruence. Qed.

Lemma be_word_be_bytes n acc z :
  be_word acc (be_bytes n z) = acc * 2 ^ (8 * Z.of_nat n) + z mod 2 ^ (8 * Z.of_nat n).
Proof.
  revert acc. induction n as [|n IH]; intros acc.
  - cbn. rewrite Z.mod_1_r. lia.
  - cbn [be_bytes be_word]. rewrite IH. unfold u8.
    rewrite Z.shiftr_div_pow2 by lia.
    replace (8 * Z.of_nat (S n)) with (8 * Z.of_nat n + 8) by lia.
    rewrite pow2_split by lia. set (p := 2 ^ (8 * Z.of_nat n)).
    assert (0 < p) by (apply pow2_pos; lia).
    change (2 ^ 8) with 256. rewrite (Z.rem_mul_r z p 256) by lia. lia.
Qed.

Lemma be_bytes_inj n a b :
  0 <= a < 2 ^ (8 * Z.of_nat n) -> 0 <= b < 2 ^ (8 * Z.of_nat n) ->
  be_bytes n a = be_bytes n b -> a = b.
Proof.
  intros Ha Hb E. apply (f_equal (be_word 0)) in E.
  rewrite !be_word_be_bytes, !Z.mod_small in E by done. lia.
Qed.

Lemma u64_inj_i64 a b : is_i64 a -> is_i64 b -> u64 a = u64 b -> a = b.
Proof.
  unfold is_i64, u64. intros Ha Hb E.
  pose proof (Z.div_mod a (2 ^ 64) ltac:(lia)). pose proof (Z.div_mod b (2 ^ 64) ltac:(lia)).
  assert (-1 <= a / 2 ^ 64 <= 0) by (split; [apply Z.div_le_lower_bound; lia|apply Z.lt_succ_r, Z.div_lt_upper_bound; lia]).
  assert (-1 <= b / 2 ^ 64 <= 0) by (split; [apply Z.div_le_lower_bound; lia|apply Z.lt_succ_r, Z.div_lt_upper_bound; lia]).
  lia.
Qed.

(** ** Properties *)

(** The number of the 2^53 fractions [draw >> 11] on which a trial succeeds. *)
Definition bernoulli_threshold (rate : float64) : Z :=
  match rate with
  | S754_finite false m e => Z.min (2 ^ 53) (f64_ceil53 m e)
  | S754_infinity false => 2 ^ 53
  | _ => 0
  end.

Lemma draw_shift_range {Src} `{!DrawSource Src} (s : stream Src) :
  0 <= Z.shiftr (draw 0 s) 11 < 2 ^ 53.
Proof.
  rewrite Z.shiftr_div_pow2 by lia. pose proof (draw_range 0 s) as H. unfold is_u64 in H.
  split; [apply Z.div_pos; lia|apply Z.div_lt_upper_bound; lia].
Qed.

(** C39: a trial at rate [r] consumes exactly one draw and succeeds exactly when the
    top 53 bits of the draw lie below an integer threshold: 2^53 times the rate,
    rounded up, capped at 2^53, and 0 for zero, negative and NaN rates. The
    float64 conversion, division and comparison introduce no error. *)
Theorem bernoulli_exact {Src} `{!DrawSource Src} (rate : float64) (s : stream Src) :
  f64_valid rate = true ->
  bernoulli rate s = (Z.shiftr (draw 0 s) 11 <? bernoulli_threshold rate, after 1 s) /\
  0 <= bernoulli_threshold rate <= 2 ^ 53.
Proof.
  intros Hv. pose proof (draw_shift_range s) as Hx.
  assert (0 <= bernoulli_threshold rate <= 2 ^ 53) as HT.
  { destruct rate as [| [] | |[] m e]; cbn; try lia. pose proof (f64_ceil53_nonneg m e). lia. }
  split; [|done].
  rewrite draw_0 in *. unfold bernoulli. cbn [after].
  destruct (next s) as [x s'] eqn:E. cbn [fst snd] in *.
  destruct rate as [sg|sg| |sg m e].
  - replace (f64_leb (S754_zero sg) f64_zero) with true by done. cbn.
    destruct (Z.ltb_spec (Z.shiftr x 11) 0); [lia|done].
  - destruct sg; cbn.
    + destruct (Z.ltb_spec (Z.shiftr x 11) 0); [lia|done].
    + destruct (Z.ltb_spec (Z.shiftr x 11) (2 ^ 53)); [done|cbn in *; lia].
  - replace (f64_leb S754_nan f64_zero) with false by done.
    replace (f64_leb f64_one S754_nan) with false by done.
    cbn [bernoulli_threshold].
    destruct (Z.ltb_spec (Z.shiftr x 11) 0); [lia|].
    f_equal. by destruct (f64_div _ _) as [|[]| |[]].
  - destruct sg.
    { replace (f64_leb (S754_finite true m e) f64_zero) with true by done. cbn.
      destruct (Z.ltb_spec (Z.shiftr x 11) 0); [lia|done]. }
    replace (f64_leb (S754_finite false m e) f64_zero) with false by done.
    cbn [bernoulli_threshold]. cbn in Hv.
    destruct (f64_leb f64_one _) eqn:E1.
    + apply f64_ge_one_ceil53 in E1; [|done].
      destruct (Z.ltb_spec (Z.shiftr x 11) (Z.min (2 ^ 53) (f64_ceil53 m e))); [done|lia].
    + f_equal. apply eq_true_iff_eq. rewrite f64_frac_ltb by done. rewrite Z.ltb_lt. lia.
Qed.

Lemma bernoulli_exact_witness :
  f64_valid (S754_finite false 5404319552844595 (-54)) = true /\
  bernoulli (S754_finite false 5404319552844595 (-54)) (mkStream [2 ^ 63; 0])
  = (Z.shiftr (draw 0 (mkStream [2 ^ 63; 0])) 11 <? 2702159776422298, mkStream [0]).
Proof.
  split; [reflexivity|].
  exact (proj1 (bernoulli_exact (S754_finite false 5404319552844595 (-54))
                  (mkStream [2 ^ 63; 0]) eq_refl)).
Defined.



(** A latency draw never overflows and stays in the configured range: with
    [0 <= min <= max] the result is [min] plus the bounded draw over the
    inclusive span, and whatever the call answers lies in [\[min, max\]]. *)
Theorem uniformDuration_correct {Src} `{!DrawSource Src} `{!RejectFuel}
    (min max : Z) (s : stream Src) :
  0 <= min <= max -> max < 2 ^ 63 ->
  (forall j, first_accepted (max - min + 1) s j -> (j <= reject_fuel)%nat ->
     uniformDuration min max s
     = Ret (min + fst (Mul64 (draw j s) (max - min + 1)), after (S j) s)) /\
  (forall d s', uniformDuration min max s = Ret (d, s') -> min <= d <= max) /\
  (min = max -> uniformDuration min max s = Ret (min, after 1 s)).
Proof.
  intros H1 H2. destruct (uniformDuration_span min max H1 H2) as [E Hs]. split; [|split].
  - intros j Hj Hf. unfold uniformDuration. rewrite E.
    rewrite (boundedUint64_found _ s j) by done. cbn [mbind go_bind].
    pose proof (mul64_hi_range (max - min + 1) (draw j s) ltac:(lia) (draw_range j s)).
    rewrite (i64_id (fst _)) by (unfold is_i64; lia). rewrite i64_id by (unfold is_i64; lia). done.
  - intros d s'. by apply uniformDuration_range.
  - intros <-. apply uniformDuration_fixed. lia.
Qed.

Lemma uniformDuration_correct_witness :
  0 <= 5 <= 7 /\ @uniformDuration (list Z) _ (1%nat : RejectFuel) 5 7 (mkStream [2 ^ 63; 7]) = Ret (6, mkStream [7]).
Proof.
  split; [lia|].
  refine (proj1 (@uniformDuration_correct (list Z) _ (1%nat : RejectFuel) 5 7 (mkStream [2 ^ 63; 7])
                   ltac:(lia) ltac:(lia)) 0%nat _ _).
  - split; [reflexivity|]. intros i Hi. lia.
  - cbv. lia.
Defined.

(** The stream derivation separates identities: two connection directions
    hash the same bytes only if they have the same master seed, ordinal, side
    and fault kind, and every derivation hashes exactly 22 bytes. *)
Theorem deriveStream_input_injective (seed1 seed2 ord1 ord2 : Z) (side1 side2 : connSide) (kind1 kind2 : faultKind) :
  is_i64 seed1 -> is_i64 seed2 -> is_u64 ord1 -> is_u64 ord2 ->
  deriveStream_input seed1 ord1 side1 kind1 = deriveStream_input seed2 ord2 side2 kind2 ->
  (seed1 = seed2 /\ ord1 = ord2 /\ side1 = side2 /\ kind1 = kind2) /\
  length (deriveStream_input seed1 ord1 side1 kind1) = 22%nat.
Proof.
  intros Hs1 Hs2 Ho1 Ho2 E. split.
  - unfold deriveStream_input in E. apply app_inj_1 in E as [_ E]; [|done].
    apply app_inj_1 in E as [Es E]; [|by rewrite !be_bytes_length].
    apply app_inj_1 in E as [Eo E]; [|by rewrite !be_bytes_length].
    apply be_bytes_inj in Es; [|apply u64_range..]. apply be_bytes_inj in Eo; [|done..].
    repeat split; [by apply u64_inj_i64|done|by destruct side1, side2|by destruct kind1, kind2].
  - unfold deriveStream_input. rewrite !length_app, !be_bytes_length. done.
Qed.

Lemma deriveStream_input_injective_witness :
  (-1 = -1 /\ 3 = 3 /\ sideDialer = sideDialer /\ kindCorrupt = kindCorrupt) /\
  length (deriveStream_input (-1) 3 sideDialer kindCorrupt) = 22%nat.
Proof.
  apply (deriveStream_input_injective (-1) (-1) 3 3 sideDialer sideDialer kindCorrupt kindCorrupt);
    unfold is_i64, is_u64; first [lia | reflexivity].
Defined.

(** The derivation and generator as modelled give the draws the repository
    pins in its golden vector for (seed 42, ordinal 0, dialer, loss). *)
Theorem deriveStream_golden :
  map (fun k => draw k (deriveStream (Src := ChaCha8) 42 0 sideDialer kindLoss)) (seq 0 5)
  = [5692967259353408272; 11389518709791257957; 10515866004196439246;
     16007143287290652423; 10207277178793558162].
Proof. vm_compute. reflexivity. Qed.
