(* ===== verification/Bandwidth.v ===== *)
(** * Serialization delay of a throttled link (bandwidth.go) *)
From S2P Require Import Prelude GoRuntime Rand.

(** [bits.Div64]: panics on a zero divisor and on a quotient over 64 bits. *)
Definition Div64 (hi lo y : Z) : go (Z * Z) :=
  if y =? 0 then Panic "integer divide by zero"
  else if y <=? hi then Panic "integer overflow"
  else Ret ((hi * 2 ^ 64 + lo) / y, (hi * 2 ^ 64 + lo) mod y).

Definition serializationDelay (size bytesPerSecond : Z) : go Duration :=
  let '(hi, lo) := Mul64 (u64 size) (u64 Second) in
  let divisor := u64 bytesPerSecond in
  if divisor <=? hi then Ret maxDuration
  else
    r ← Div64 hi lo divisor;
    let '(q, _) := r in
    if maxDuration <? q then Ret maxDuration
    else Ret (i64 q).

Lemma serializationDelay_eq (size bytesPerSecond : Z) :
  0 <= size < 2 ^ 63 -> 0 < bytesPerSecond < 2 ^ 63 ->
  serializationDelay size bytesPerSecond
  = Ret (Z.min (size * Second / bytesPerSecond) maxDuration).
Proof.
  intros Hs Hb. unfold serializationDelay, Mul64.
  rewrite (u64_id size), (u64_id Second), (u64_id bytesPerSecond)
    by (unfold is_u64, Second; lia).
  set (prod := size * Second). assert (0 <= prod) by (unfold prod, Second; lia).
  pose proof (Z.div_mod prod (2 ^ 64) ltac:(lia)) as E.
  pose proof (Z.mod_pos_bound prod (2 ^ 64) ltac:(lia)) as Hlo.
  set (hi := prod / 2 ^ 64) in *. set (lo := prod mod 2 ^ 64) in *.
  destruct (Z.leb_spec bytesPerSecond hi) as [Hhi|Hhi].
  - f_equal. rewrite Z.min_r; [done|].
    apply Z.div_le_lower_bound; unfold maxDuration; nia.
  - unfold Div64. destruct (Z.eqb_spec bytesPerSecond 0); [lia|].
    destruct (Z.leb_spec bytesPerSecond hi); [lia|]. cbn [mbind go_bind].
    replace (hi * 2 ^ 64 + lo) with prod by lia.
    assert (0 <= prod / bytesPerSecond) by (apply Z.div_pos; lia).
    destruct (Z.ltb_spec maxDuration (prod / bytesPerSecond)).
    + by rewrite Z.min_r by lia.
    + rewrite Z.min_l by lia. rewrite i64_id; [done|].
      unfold is_i64, maxDuration in *. lia.
Qed.

Lemma serializationDelay_total (size bytesPerSecond : Z) :
  0 <= size < 2 ^ 63 -> 0 < bytesPerSecond < 2 ^ 63 ->
  exists d, serializationDelay size bytesPerSecond = Ret d /\ 0 <= d <= maxDuration.
Proof.
  intros Hs Hb. rewrite serializationDelay_eq by done. eexists. split; [done|].
  assert (0 <= size * Second / bytesPerSecond) by (apply Z.div_pos; unfold Second; lia).
  unfold maxDuration. lia.
Qed.

(** For every payload size and every rate the validation accepts, the delay
    is the exact quotient [size * 1s / rate], clamped at the largest Duration;
    the 128-bit division never panics and the result never wraps. *)
Theorem serializationDelay_exact (size bytesPerSecond : Z) :
  0 <= size < 2 ^ 63 -> 0 < bytesPerSecond < 2 ^ 63 ->
  serializationDelay size bytesPerSecond
  = Ret (Z.min (size * Second / bytesPerSecond) maxDuration).
Proof. apply serializationDelay_eq. Qed.

Lemma serializationDelay_exact_witness :
  0 <= 1500 < 2 ^ 63 /\ serializationDelay 1500 1000000 = Ret 1500000.
Proof.
  split; [lia|].
  exact (serializationDelay_exact 1500 1000000 ltac:(lia) ltac:(lia)).
Defined.
