(* ===== verification/Partition.v ===== *)
(** * Partitioned pairs (partition.go)

    The state guarded by [Network.partMu]: the set of partitioned pairs and the
    generation of [partNotify]. Resolving the peer names of a call is the
    address book's part ([Addressing], [Network]). *)
From S2P Require Import Prelude GoRuntime.

Record pairKey : Type := mkPairKey { pk_a : string; pk_b : string }.

#[export] Instance pairKey_eq_dec : EqDecision pairKey.
Proof. solve_decision. Defined.
#[export] Instance pairKey_countable : Countable pairKey.
Proof.
  refine (inj_countable' (fun k => (pk_a k, pk_b k)) (fun p => mkPairKey p.1 p.2) _).
  by intros [].
Defined.

Definition newPairKey (x y : string) : pairKey :=
  if String.leb x y then mkPairKey x y else mkPairKey y x.

Record partitionPair : Type := mkPartitionPair { peerA : string; peerB : string }.

(** The panic message is kept up to the offending value. *)
Definition validatePartitionPair (caller : string) (p : partitionPair) : go unit :=
  if String.eqb (peerA p) "" || String.eqb (peerB p) "" then
    Panic ("netchaos: " ++ caller ++ ": peer names must not be empty")
  else if String.eqb (peerA p) (peerB p) then
    Panic ("netchaos: " ++ caller ++ ": peerA and peerB must differ")
  else Ret tt.

Record partState : Type := mkPartState {
  partitions : gset pairKey;
  partNotify : generation
}.

Definition bumpPartNotifyLocked (st : partState) : partState :=
  mkPartState (partitions st) (S (partNotify st)).

(** [Network.Partition] once the pair is resolved. *)
Definition partition_pair (k : pairKey) (st : partState) : partState :=
  if decide (k ∈ partitions st) then st
  else bumpPartNotifyLocked (mkPartState ({[k]} ∪ partitions st) (partNotify st)).

(** [Network.Heal] once the pair is resolved. *)
Definition heal_pair (k : pairKey) (st : partState) : partState :=
  if decide (k ∈ partitions st) then
    bumpPartNotifyLocked (mkPartState (partitions st ∖ {[k]}) (partNotify st))
  else st.

Definition isPartitioned (st : partState) (k : pairKey) : bool :=
  bool_decide (k ∈ partitions st).

Definition checkPartition (st : partState) (k : pairKey) : bool * generation :=
  (bool_decide (k ∈ partitions st), partNotify st).

(** One Partition or Heal. *)
Inductive part_step : partState -> partState -> Prop :=
| step_partition k st : part_step st (partition_pair k st)
| step_heal k st : part_step st (heal_pair k st).

(** ** Lemmas *)

Lemma string_leb_total x y : String.leb x y = false -> String.leb y x = true.
Proof.
  unfold String.leb. rewrite (String.compare_antisym x y).
  by destruct (String.compare y x).
Qed.

Lemma string_leb_antisym x y : String.leb x y = true -> String.leb y x = true -> x = y.
Proof.
  unfold String.leb. rewrite (String.compare_antisym x y).
  destruct (String.compare y x) eqn:E; cbn; try done.
  by apply String.compare_eq_iff in E as ->.
Qed.

Lemma newPairKey_sym x y : newPairKey x y = newPairKey y x.
Proof.
  unfold newPairKey. destruct (String.leb x y) eqn:E1, (String.leb y x) eqn:E2; try done.
  - by rewrite (string_leb_antisym x y).
  - apply string_leb_total in E1. congruence.
Qed.

Lemma newPairKey_inj x y x' y' :
  newPairKey x y = newPairKey x' y' -> (x = x' /\ y = y') \/ (x = y' /\ y = x').
Proof.
  unfold newPairKey. destruct (String.leb x y), (String.leb x' y'); intros [= -> ->]; auto.
Qed.

Lemma isPartitioned_partition k k' st :
  isPartitioned (partition_pair k st) k' = bool_decide (k = k') || isPartitioned st k'.
Proof.
  unfold isPartitioned, partition_pair. rewrite <- bool_decide_or. apply bool_decide_ext.
  case_decide; cbn; set_solver.
Qed.

Lemma isPartitioned_heal k k' st :
  isPartitioned (heal_pair k st) k' = bool_decide (k <> k') && isPartitioned st k'.
Proof.
  unfold isPartitioned, heal_pair. rewrite <- bool_decide_and. apply bool_decide_ext.
  case_decide; cbn; set_solver.
Qed.

(** The generation never goes back, and it stands still only across steps that
    change no partition. *)
Lemma part_step_notify st st' :
  part_step st st' ->
  (partNotify st <= partNotify st')%nat /\ (partNotify st = partNotify st' -> st = st').
Proof.
  destruct 1; unfold partition_pair, heal_pair, bumpPartNotifyLocked; case_decide; cbn; split; try lia; done.
Qed.

Lemma part_steps_notify st st' :
  rtc part_step st st' ->
  (partNotify st <= partNotify st')%nat /\ (partNotify st = partNotify st' -> st = st').
Proof.
  induction 1 as [|x y z H1 H2 [IH1 IH2]]; [done|].
  apply part_step_notify in H1 as [H1 H1']. split; [lia|].
  intros E. rewrite H1' by lia. apply IH2. lia.
Qed.

(** ** Properties *)

(** A partition is symmetric in its arguments, affects exactly the pair
    named, and Heal undoes it exactly; repeating either call changes nothing
    (and wakes nobody). *)
Theorem partition_heal_correct (x y : string) (k : pairKey) (st : partState) :
  isPartitioned (partition_pair (newPairKey x y) st) (newPairKey y x) = true /\
  isPartitioned (heal_pair (newPairKey x y) st) (newPairKey y x) = false /\
  (k <> newPairKey x y ->
     isPartitioned (partition_pair (newPairKey x y) st) k = isPartitioned st k /\
     isPartitioned (heal_pair (newPairKey x y) st) k = isPartitioned st k) /\
  partition_pair k (partition_pair k st) = partition_pair k st /\
  heal_pair k (heal_pair k st) = heal_pair k st.
Proof.
  rewrite (newPairKey_sym y x), !isPartitioned_partition, !isPartitioned_heal.
  rewrite !bool_decide_eq_true_2 by done.
  split; [done|]. split; [by rewrite bool_decide_eq_false_2 by naive_solver|].
  split.
  { intros Hk. rewrite (bool_decide_eq_false_2 (newPairKey x y = k)) by done.
    by rewrite (bool_decide_eq_true_2 (newPairKey x y <> k)) by done. }
  split.
  - unfold partition_pair at 1. rewrite decide_True; [done|].
    unfold partition_pair. case_decide; cbn; set_solver.
  - unfold heal_pair at 1. rewrite decide_False; [done|].
    unfold heal_pair. case_decide; cbn; set_solver.
Qed.

Lemma partition_heal_correct_witness :
  mkPairKey "a" "c" <> newPairKey "b" "a" /\
  isPartitioned (partition_pair (newPairKey "b" "a") (mkPartState ∅ 0%nat)) (mkPairKey "a" "c") = false.
Proof.
  assert (mkPairKey "a" "c" <> newPairKey "b" "a") as H by (by vm_compute).
  split; [exact H|].
  exact (proj1 (proj1 (proj2 (proj2 (partition_heal_correct "b" "a" (mkPairKey "a" "c")
    (mkPartState ∅ 0%nat)))) H)).
Defined.

(** No Heal is missed by a waiter. When [checkPartition] reports a pair as
    partitioned together with the channel to wait on, any later state in which
    the pair is healed has that channel closed, whatever Partition and Heal
    calls came in between. *)
Theorem checkPartition_no_missed_heal (k : pairKey) (g : generation) (st st' : partState) :
  checkPartition st k = (true, g) -> rtc part_step st st' ->
  isPartitioned st' k = false -> woken g (partNotify st') = true.
Proof.
  unfold checkPartition, isPartitioned, woken. intros [= Hk <-] Hsteps Hk'.
  apply part_steps_notify in Hsteps as [Hle Heq]. apply Nat.ltb_lt.
  destruct (Nat.eq_dec (partNotify st) (partNotify st')) as [E|E]; [|lia].
  rewrite (Heq E) in Hk. congruence.
Qed.

Lemma checkPartition_no_missed_heal_witness :
  woken 1%nat (partNotify (heal_pair (newPairKey "a" "b")
    (partition_pair (newPairKey "b" "c") (partition_pair (newPairKey "a" "b") (mkPartState ∅ 0%nat))))) = true.
Proof.
  apply (checkPartition_no_missed_heal (newPairKey "a" "b") 1%nat
           (partition_pair (newPairKey "a" "b") (mkPartState ∅ 0%nat))).
  - reflexivity.
  - eapply rtc_l; [apply (step_partition (newPairKey "b" "c"))|].
    eapply rtc_l; [apply (step_heal (newPairKey "a" "b"))|]. apply rtc_refl.
  - reflexivity.
Defined.
