(* ===== verification/Trace.v ===== *)
(** * The fault trace (trace.go): the per-direction recorder, the registry of
    directions, and [Network.Trace]. *)
From S2P Require Import Prelude GoRuntime Rand.

Record faultEvent : Type := mkFaultEvent {
  fe_seq : Z;
  fe_partitioned : bool;
  fe_dropped : bool;
  fe_duplicated : bool;
  fe_corrupted : bool;
  fe_drawn : Duration;
  fe_serialized : Duration;
  fe_effective : Duration;
  fe_size : Z;
  fe_corruptByte : Z;
  fe_corruptBit : Z
}.

(** A recorder is the list of its events, in write order. *)
Abbreviation traceRecorder := (list faultEvent).

(** [record]: the event takes the next sequence number. *)
Definition record (e : faultEvent) (r : traceRecorder) : traceRecorder :=
  r ++ [mkFaultEvent (u64 (zlen r)) (fe_partitioned e) (fe_dropped e) (fe_duplicated e)
          (fe_corrupted e) (fe_drawn e) (fe_serialized e) (fe_effective e)
          (fe_size e) (fe_corruptByte e) (fe_corruptBit e)].

Definition snapshot (r : traceRecorder) : list faultEvent := r.

Inductive Side : Type := SideDialer | SideAcceptor.
#[export] Instance Side_eq_dec : EqDecision Side.
Proof. solve_decision. Defined.

(** The conversion [Side(h.side)]: the two types agree value for value. *)
Definition Side_of (s : connSide) : Side :=
  match s with sideDialer => SideDialer | sideAcceptor => SideAcceptor end.

Definition Side_String (s : Side) : string :=
  match s with SideDialer => "dialer" | SideAcceptor => "acceptor" end.

Record FaultEvent : Type := mkFE {
  Ordinal : Z;
  FE_Side : Side;
  Seq : Z;
  Partitioned : bool;
  Dropped : bool;
  Duplicated : bool;
  Corrupted : bool;
  Delay : Duration;
  Serialization : Duration;
  Effective : Duration;
  Size : Z;
  CorruptedByte : Z;
  CorruptedBit : Z
}.

(** [th_rec] is the identity of the pipe that owns the recorder. *)
Record traceHandle : Type := mkTraceHandle {
  th_ordinal : Z;
  th_side : connSide;
  th_rec : nat
}.

Definition registerTrace (ordinal : Z) (side : connSide) (rec : nat)
    (traces : list traceHandle) : list traceHandle :=
  traces ++ [mkTraceHandle ordinal side rec].

(** [cmp.Compare] on integers and [cmp.Or]. *)
Definition cmp_Compare (x y : Z) : Z := if x <? y then -1 else if y <? x then 1 else 0.
Definition cmp_Or (x y : Z) : Z := if x =? 0 then y else x.

Definition cmpHandles (a b : traceHandle) : Z :=
  cmp_Or (cmp_Compare (th_ordinal a) (th_ordinal b))
         (cmp_Compare (connSide_value (th_side a)) (connSide_value (th_side b))).

(** [slices.SortStableFunc], as the stable insertion sort. *)
Fixpoint insertStable {A} (cmp : A -> A -> Z) (x : A) (l : list A) : list A :=
  match l with
  | [] => [x]
  | y :: l' => if cmp x y <=? 0 then x :: l else y :: insertStable cmp x l'
  end.

Fixpoint SortStableFunc {A} (cmp : A -> A -> Z) (l : list A) : list A :=
  match l with
  | [] => []
  | x :: l => insertStable cmp x (SortStableFunc cmp l)
  end.

Definition exportEvent (h : traceHandle) (e : faultEvent) : FaultEvent :=
  mkFE (th_ordinal h) (Side_of (th_side h)) (fe_seq e) (fe_partitioned e) (fe_dropped e)
    (fe_duplicated e) (fe_corrupted e) (fe_drawn e) (fe_serialized e) (fe_effective e)
    (fe_size e) (fe_corruptByte e) (fe_corruptBit e).

(** [Network.Trace]; [recorder] reads the recorder of a pipe. *)
Definition Trace (traceEnabled : bool) (recorder : nat -> traceRecorder)
    (traces : list traceHandle) : list FaultEvent :=
  if negb traceEnabled then []
  else
    let handles := SortStableFunc cmpHandles traces in
    flat_map (fun h => map (exportEvent h) (snapshot (recorder (th_rec h)))) handles.

(** ** The order of the exported events *)

Definition handle_le (a b : traceHandle) : Prop := cmpHandles a b <= 0.

Definition Side_value (s : Side) : Z := match s with SideDialer => 0 | SideAcceptor => 1 end.

(** Strict (Ordinal, Side, Seq) order. *)
Definition event_lt (a b : FaultEvent) : Prop :=
  Ordinal a < Ordinal b \/
  Ordinal a = Ordinal b /\
    (Side_value (FE_Side a) < Side_value (FE_Side b) \/
     FE_Side a = FE_Side b /\ Seq a < Seq b).

(** A recorder as [record] builds it: event [i] carries sequence number [i]. *)
Definition recorder_ok (r : traceRecorder) : Prop :=
  zlen r <= 2 ^ 64 /\ forall i e, r !! i = Some e -> fe_seq e = Z.of_nat i.

(** The identity a handle is sorted by. *)
Definition handle_key (h : traceHandle) : Z * connSide := (th_ordinal h, th_side h).

(** ** Lemmas *)

Lemma recorder_ok_nil : recorder_ok [].
Proof. split; [done|]. intros i e. by rewrite lookup_nil. Qed.

Lemma record_ok e r : recorder_ok r -> zlen r < 2 ^ 64 -> recorder_ok (record e r).
Proof.
  intros [Hl Hr] Hlt. unfold record. split.
  - rewrite zlen_app. unfold zlen in *. cbn. lia.
  - intros i e' Hi. apply lookup_app_Some in Hi as [Hi|[Hge Hi]]; [by apply Hr|].
    apply list_lookup_singleton_Some in Hi as [Hi <-]. cbn.
    rewrite u64_id by (unfold is_u64, zlen in *; lia). unfold zlen. lia.
Qed.

Lemma insertStable_perm {A} (cmp : A -> A -> Z) x l : insertStable cmp x l ≡ₚ x :: l.
Proof.
  induction l as [|y l IH]; cbn; [done|].
  destruct (cmp x y <=? 0); [done|]. rewrite IH. apply Permutation_swap.
Qed.

Lemma SortStableFunc_perm {A} (cmp : A -> A -> Z) l : SortStableFunc cmp l ≡ₚ l.
Proof.
  induction l as [|x l IH]; cbn; [done|]. by rewrite insertStable_perm, IH.
Qed.

Lemma cmpHandles_spec a b :
  (cmpHandles a b <= 0 <->
   th_ordinal a < th_ordinal b \/
   th_ordinal a = th_ordinal b /\ connSide_value (th_side a) <= connSide_value (th_side b)).
Proof.
  unfold cmpHandles, cmp_Or, cmp_Compare.
  destruct (Z.ltb_spec (th_ordinal a) (th_ordinal b)); cbn; [lia|].
  destruct (Z.ltb_spec (th_ordinal b) (th_ordinal a)); cbn; [lia|].
  destruct (Z.ltb_spec (connSide_value (th_side a)) (connSide_value (th_side b))); [lia|].
  destruct (Z.ltb_spec (connSide_value (th_side b)) (connSide_value (th_side a))); lia.
Qed.

Lemma cmpHandles_total a b : 0 < cmpHandles a b -> handle_le b a.
Proof.
  unfold handle_le. intros H. rewrite cmpHandles_spec.
  assert (~ cmpHandles a b <= 0) as H' by lia. rewrite cmpHandles_spec in H'. lia.
Qed.

#[export] Instance handle_le_trans : Transitive handle_le.
Proof. unfold handle_le. intros a b c. rewrite !cmpHandles_spec. lia. Qed.

Lemma connSide_value_inj a b : connSide_value a = connSide_value b -> a = b.
Proof. by destruct a, b. Qed.

Lemma handle_le_antisym a b : handle_le a b -> handle_le b a -> handle_key a = handle_key b.
Proof.
  unfold handle_le, handle_key. rewrite !cmpHandles_spec. intros H1 H2.
  assert (th_ordinal a = th_ordinal b) as E by lia. rewrite E.
  f_equal. apply connSide_value_inj. lia.
Qed.

Lemma insertStable_sorted x l :
  StronglySorted handle_le l -> StronglySorted handle_le (insertStable cmpHandles x l).
Proof.
  induction 1 as [|y l Hl IH Hy]; cbn; [by repeat constructor|].
  destruct (Z.leb_spec (cmpHandles x y) 0) as [Hle|Hgt].
  - constructor; [by constructor|]. constructor; [done|].
    eapply Forall_impl; [exact Hy|]. intros z Hz. by transitivity y.
  - constructor; [done|]. rewrite insertStable_perm. constructor; [|done].
    by apply cmpHandles_total.
Qed.

Lemma SortStableFunc_sorted l : StronglySorted handle_le (SortStableFunc cmpHandles l).
Proof. induction l; cbn; [constructor|by apply insertStable_sorted]. Qed.

(** Sorted lists with the same elements and distinct keys are equal. *)
Lemma sorted_handles_unique l1 l2 :
  StronglySorted handle_le l1 -> StronglySorted handle_le l2 ->
  l1 ≡ₚ l2 -> NoDup (map handle_key l1) -> l1 = l2.
Proof.
  intros H1. revert l2. induction H1 as [|x l1 Hl1 IH Hx]; intros l2 H2 Hp Hnd.
  { by apply Permutation_nil_l. }
  destruct H2 as [|y l2 Hl2 Hy].
  { by apply Permutation_nil_r in Hp. }
  assert (x = y) as <-.
  { assert (x ∈ y :: l2) as Hin by (rewrite <- Hp; left).
    apply elem_of_cons in Hin as [|Hin]; [done|].
    assert (y ∈ x :: l1) as Hin' by (rewrite Hp; left).
    apply elem_of_cons in Hin' as [|Hin']; [done|].
    rewrite Forall_forall in Hx, Hy.
    pose proof (handle_le_antisym _ _ (Hx _ Hin') (Hy _ Hin)) as E.
    cbn in Hnd. apply NoDup_cons in Hnd as [Hni _]. destruct Hni. rewrite E.
    by apply list_elem_of_fmap_2. }
  f_equal. apply IH; [done| |].
  - by apply Permutation_cons_inv in Hp.
  - cbn in Hnd. by apply NoDup_cons in Hnd as [_ Hnd].
Qed.

Lemma StronglySorted_app_intro {A} (R : A -> A -> Prop) l1 l2 :
  StronglySorted R l1 -> StronglySorted R l2 ->
  (forall x y, x ∈ l1 -> y ∈ l2 -> R x y) -> StronglySorted R (l1 ++ l2).
Proof.
  induction 1 as [|x l1 Hl IH Hx]; intros H2 HR; cbn; [done|].
  constructor.
  - apply IH; [done|]. intros. apply HR; [by right|done].
  - apply Forall_app. split; [done|]. apply Forall_forall. intros y Hy. apply HR; [by left|done].
Qed.

Lemma export_sorted_aux h r (n : Z) :
  (forall i e, r !! i = Some e -> fe_seq e = n + Z.of_nat i) ->
  StronglySorted event_lt (map (exportEvent h) r).
Proof.
  revert n. induction r as [|e r IH]; intros n Hr; cbn; [constructor|].
  constructor.
  - apply (IH (n + 1)). intros i e' Hi. rewrite (Hr (S i) e' Hi). lia.
  - apply Forall_forall. intros y Hy. apply list_elem_of_fmap in Hy as (e' & -> & He').
    apply list_elem_of_lookup in He' as [i Hi].
    right. split; [done|]. right. split; [done|]. cbn.
    rewrite (Hr 0%nat e) by done. rewrite (Hr (S i) e') by done. lia.
Qed.

Lemma export_sorted h r : recorder_ok r -> StronglySorted event_lt (map (exportEvent h) r).
Proof. intros [_ Hr]. by apply (export_sorted_aux h r 0). Qed.

Lemma export_lt h h' e e' :
  handle_le h h' -> handle_key h <> handle_key h' -> event_lt (exportEvent h e) (exportEvent h' e').
Proof.
  unfold handle_le, handle_key. rewrite cmpHandles_spec. unfold event_lt. cbn.
  intros [H|[H1 H2]] Hne; [by left|right]. split; [done|left].
  destruct (th_side h), (th_side h'); cbn in *; try lia; congruence.
Qed.

Lemma flat_map_sorted recorder l :
  StronglySorted handle_le l -> NoDup (map handle_key l) ->
  (forall h, h ∈ l -> recorder_ok (recorder (th_rec h))) ->
  StronglySorted event_lt (flat_map (fun h => map (exportEvent h) (recorder (th_rec h))) l).
Proof.
  induction 1 as [|h l Hl IH Hh]; intros Hnd Hok; cbn; [constructor|].
  cbn in Hnd. apply NoDup_cons in Hnd as [Hni Hnd].
  apply StronglySorted_app_intro.
  - apply export_sorted, Hok. by left.
  - apply IH; [done|]. intros. apply Hok. by right.
  - intros x y Hx Hy. apply list_elem_of_fmap in Hx as (e & -> & _).
    apply list_elem_of_In, in_flat_map in Hy as (h' & Hin & Hy).
    apply list_elem_of_In in Hin. apply list_elem_of_In, list_elem_of_fmap in Hy as (e' & -> & _).
    rewrite Forall_forall in Hh. apply export_lt; [by apply Hh|].
    intros E. apply Hni. rewrite E. by apply list_elem_of_fmap_2.
Qed.

Lemma handles_nodup_perm l1 l2 :
  l1 ≡ₚ l2 -> NoDup (map handle_key l1) -> NoDup (map handle_key l2).
Proof. intros E. by rewrite E. Qed.

(** ** Properties *)

Lemma Trace_order (recorder : nat -> traceRecorder) (traces : list traceHandle) :
  NoDup (map handle_key traces) ->
  (forall h, h ∈ traces -> recorder_ok (recorder (th_rec h))) ->
  StronglySorted event_lt (Trace true recorder traces) /\
  Trace true recorder traces
    ≡ₚ flat_map (fun h => map (exportEvent h) (recorder (th_rec h))) traces /\
  (forall traces', traces' ≡ₚ traces ->
     Trace true recorder traces' = Trace true recorder traces) /\
  Trace false recorder traces = [].
Proof.
  intros Hnd Hok. pose proof (SortStableFunc_perm cmpHandles traces) as Hp.
  unfold Trace. cbn [negb]. split; [|split; [|split]].
  - apply flat_map_sorted; [apply SortStableFunc_sorted|by rewrite Hp|].
    intros h Hh. apply Hok. by rewrite <- Hp.
  - by rewrite Hp.
  - intros traces' Hp'. f_equal. apply sorted_handles_unique; [apply SortStableFunc_sorted..| |].
    + by rewrite !SortStableFunc_perm.
    + by rewrite SortStableFunc_perm, Hp'.
  - done.
Qed.

(** Trace exports every recorded event once, in strict (Ordinal, Side, Seq)
    order, whatever order the directions were registered in: the result is
    sorted, it is a permutation of all recorded events, and any other
    registration order of the same directions gives the very same list. *)
Theorem Trace_sorted (recorder : nat -> traceRecorder) (traces : list traceHandle) :
  NoDup (map handle_key traces) ->
  (forall h, h ∈ traces -> recorder_ok (recorder (th_rec h))) ->
  StronglySorted event_lt (Trace true recorder traces) /\
  Trace true recorder traces
    ≡ₚ flat_map (fun h => map (exportEvent h) (recorder (th_rec h))) traces /\
  (forall traces', traces' ≡ₚ traces ->
     Trace true recorder traces' = Trace true recorder traces) /\
  Trace false recorder traces = [].
Proof. apply Trace_order. Qed.

Definition witness_event : faultEvent := mkFaultEvent 0 false true false false 0 0 0 3 0 0.

Lemma Trace_sorted_witness :
  map (fun e => (Ordinal e, FE_Side e, Seq e))
    (Trace true (fun i => match i with 1%nat => record witness_event (record witness_event []) | _ => [] end)
      [mkTraceHandle 1 sideDialer 0; mkTraceHandle 0 sideAcceptor 1; mkTraceHandle 0 sideDialer 2])
  = [(0, SideAcceptor, 0); (0, SideAcceptor, 1)] /\
  StronglySorted event_lt
    (Trace true (fun i => match i with 1%nat => record witness_event (record witness_event []) | _ => [] end)
      [mkTraceHandle 1 sideDialer 0; mkTraceHandle 0 sideAcceptor 1; mkTraceHandle 0 sideDialer 2]).
Proof.
  split; [reflexivity|].
  refine (proj1 (Trace_sorted _ _ _ _)).
  - apply (bool_decide_unpack _). by vm_compute.
  - intros h _. destruct (th_rec h) as [|[|n]]; try apply recorder_ok_nil.
    apply record_ok; [apply record_ok; [apply recorder_ok_nil|]|]; reflexivity.
Defined.
