(* ===== verification/PipeState.v ===== *)
(** * The state of one direction of a connection (pipe.go) and its latency
    timer (latency.go)

    A pipe reads two things of its Network: the partition state and the fault
    configuration. They, and the clock, come in as a [netView]. *)
From S2P Require Import Prelude GoRuntime Float64 Rand Partition Trace.

(** ** Fault configuration (faults.go) *)

Record faultConfig : Type := mkFaultConfig {
  lossEnabled : bool;
  lossRate : float64;
  latencyEnabled : bool;
  latencyMin : Duration;
  latencyMax : Duration;
  bandwidthEnabled : bool;
  bandwidthBPS : Z;
  duplicateEnabled : bool;
  duplicateRate : float64;
  corruptEnabled : bool;
  corruptRate : float64
}.

(** [fp_network] tells whether the [network] pointer is non-nil. *)
Record faultPolicy : Type := mkFaultPolicy {
  fp_network : bool;
  fp_pair : pairKey;
  fp_static : faultConfig
}.

(** What an operation of a pipe observes outside it. *)
Record netView : Type := mkNetView {
  nv_now : Time;
  nv_parts : partState;
  nv_faults : faultConfig
}.

Definition current (v : netView) (fp : faultPolicy) : faultConfig :=
  if fp_network fp then nv_faults v else fp_static fp.

(** ** The pipe *)

(** The values the [deliver] field takes. *)
Inductive deliverFunc : Type :=
| passThrough
| faultEvaluator (fp : faultPolicy).

Record pendingUnit : Type := mkPendingUnit {
  pu_data : list Z;
  pu_releaseAt : Time
}.

Definition defaultPipeBound : Z := 64 * 1024.

Section pipe.
Context {Src : Type}.

Record pipe : Type := mkPipe {
  p_readable : list (list Z);
  p_bufBytes : Z;
  p_closed : bool;
  p_readClosed : bool;
  p_eofSeen : bool;
  p_notify : generation;
  p_bound : Z;
  p_deliver : deliverFunc;
  p_partitionNetwork : bool;
  p_partitionPair : pairKey;
  p_loss : option (stream Src);
  p_latency : option (stream Src);
  p_duplicate : option (stream Src);
  p_corrupt : option (stream Src);
  p_trace : option traceRecorder;
  p_pending : list pendingUnit;
  p_timer : option Time;
  p_busyUntil : Time;
  p_arms : Z
}.

Definition set_readable (p : pipe) (x : list (list Z)) : pipe :=
  mkPipe x (p_bufBytes p) (p_closed p) (p_readClosed p) (p_eofSeen p) (p_notify p)
    (p_bound p) (p_deliver p) (p_partitionNetwork p) (p_partitionPair p) (p_loss p)
    (p_latency p) (p_duplicate p) (p_corrupt p) (p_trace p) (p_pending p) (p_timer p)
    (p_busyUntil p) (p_arms p).

Definition set_bufBytes (p : pipe) (x : Z) : pipe :=
  mkPipe (p_readable p) x (p_closed p) (p_readClosed p) (p_eofSeen p) (p_notify p)
    (p_bound p) (p_deliver p) (p_partitionNetwork p) (p_partitionPair p) (p_loss p)
    (p_latency p) (p_duplicate p) (p_corrupt p) (p_trace p) (p_pending p) (p_timer p)
    (p_busyUntil p) (p_arms p).

Definition set_closed (p : pipe) (x : bool) : pipe :=
  mkPipe (p_readable p) (p_bufBytes p) x (p_readClosed p) (p_eofSeen p) (p_notify p)
    (p_bound p) (p_deliver p) (p_partitionNetwork p) (p_partitionPair p) (p_loss p)
    (p_latency p) (p_duplicate p) (p_corrupt p) (p_trace p) (p_pending p) (p_timer p)
    (p_busyUntil p) (p_arms p).

Definition set_readClosed (p : pipe) (x : bool) : pipe :=
  mkPipe (p_readable p) (p_bufBytes p) (p_closed p) x (p_eofSeen p) (p_notify p)
    (p_bound p) (p_deliver p) (p_partitionNetwork p) (p_partitionPair p) (p_loss p)
    (p_latency p) (p_duplicate p) (p_corrupt p) (p_trace p) (p_pending p) (p_timer p)
    (p_busyUntil p) (p_arms p).

Definition set_eofSeen (p : pipe) (x : bool) : pipe :=
  mkPipe (p_readable p) (p_bufBytes p) (p_closed p) (p_readClosed p) x (p_notify p)
    (p_bound p) (p_deliver p) (p_partitionNetwork p) (p_partitionPair p) (p_loss p)
    (p_latency p) (p_duplicate p) (p_corrupt p) (p_trace p) (p_pending p) (p_timer p)
    (p_busyUntil p) (p_arms p).

Definition set_notify (p : pipe) (x : generation) : pipe :=
  mkPipe (p_readable p) (p_bufBytes p) (p_closed p) (p_readClosed p) (p_eofSeen p) x
    (p_bound p) (p_deliver p) (p_partitionNetwork p) (p_partitionPair p) (p_loss p)
    (p_latency p) (p_duplicate p) (p_corrupt p) (p_trace p) (p_pending p) (p_timer p)
    (p_busyUntil p) (p_arms p).

Definition set_deliver (p : pipe) (x : deliverFunc) : pipe :=
  mkPipe (p_readable p) (p_bufBytes p) (p_closed p) (p_readClosed p) (p_eofSeen p)
    (p_notify p) (p_bound p) x (p_partitionNetwork p) (p_partitionPair p) (p_loss p)
    (p_latency p) (p_duplicate p) (p_corrupt p) (p_trace p) (p_pending p) (p_timer p)
    (p_busyUntil p) (p_arms p).

Definition set_partitionNetwork (p : pipe) (x : bool) : pipe :=
  mkPipe (p_readable p) (p_bufBytes p) (p_closed p) (p_readClosed p) (p_eofSeen p)
    (p_notify p) (p_bound p) (p_deliver p) x (p_partitionPair p) (p_loss p)
    (p_latency p) (p_duplicate p) (p_corrupt p) (p_trace p) (p_pending p) (p_timer p)
    (p_busyUntil p) (p_arms p).

Definition set_partitionPair (p : pipe) (x : pairKey) : pipe :=
  mkPipe (p_readable p) (p_bufBytes p) (p_closed p) (p_readClosed p) (p_eofSeen p)
    (p_notify p) (p_bound p) (p_deliver p) (p_partitionNetwork p) x (p_loss p)
    (p_latency p) (p_duplicate p) (p_corrupt p) (p_trace p) (p_pending p) (p_timer p)
    (p_busyUntil p) (p_arms p).

Definition set_loss (p : pipe) (x : option (stream Src)) : pipe :=
  mkPipe (p_readable p) (p_bufBytes p) (p_closed p) (p_readClosed p) (p_eofSeen p)
    (p_notify p) (p_bound p) (p_deliver p) (p_partitionNetwork p) (p_partitionPair p) x
    (p_latency p) (p_duplicate p) (p_corrupt p) (p_trace p) (p_pending p) (p_timer p)
    (p_busyUntil p) (p_arms p).

Definition set_latency (p : pipe) (x : option (stream Src)) : pipe :=
  mkPipe (p_readable p) (p_bufBytes p) (p_closed p) (p_readClosed p) (p_eofSeen p)
    (p_notify p) (p_bound p) (p_deliver p) (p_partitionNetwork p) (p_partitionPair p)
    (p_loss p) x (p_duplicate p) (p_corrupt p) (p_trace p) (p_pending p) (p_timer p)
    (p_busyUntil p) (p_arms p).

Definition set_duplicate (p : pipe) (x : option (stream Src)) : pipe :=
  mkPipe (p_readable p) (p_bufBytes p) (p_closed p) (p_readClosed p) (p_eofSeen p)
    (p_notify p) (p_bound p) (p_deliver p) (p_partitionNetwork p) (p_partitionPair p)
    (p_loss p) (p_latency p) x (p_corrupt p) (p_trace p) (p_pending p) (p_timer p)
    (p_busyUntil p) (p_arms p).

Definition set_corrupt (p : pipe) (x : option (stream Src)) : pipe :=
  mkPipe (p_readable p) (p_bufBytes p) (p_closed p) (p_readClosed p) (p_eofSeen p)
    (p_notify p) (p_bound p) (p_deliver p) (p_partitionNetwork p) (p_partitionPair p)
    (p_loss p) (p_latency p) (p_duplicate p) x (p_trace p) (p_pending p) (p_timer p)
    (p_busyUntil p) (p_arms p).

Definition set_trace (p : pipe) (x : option traceRecorder) : pipe :=
  mkPipe (p_readable p) (p_bufBytes p) (p_closed p) (p_readClosed p) (p_eofSeen p)
    (p_notify p) (p_bound p) (p_deliver p) (p_partitionNetwork p) (p_partitionPair p)
    (p_loss p) (p_latency p) (p_duplicate p) (p_corrupt p) x (p_pending p) (p_timer p)
    (p_busyUntil p) (p_arms p).

Definition set_pending (p : pipe) (x : list pendingUnit) : pipe :=
  mkPipe (p_readable p) (p_bufBytes p) (p_closed p) (p_readClosed p) (p_eofSeen p)
    (p_notify p) (p_bound p) (p_deliver p) (p_partitionNetwork p) (p_partitionPair p)
    (p_loss p) (p_latency p) (p_duplicate p) (p_corrupt p) (p_trace p) x (p_timer p)
    (p_busyUntil p) (p_arms p).

Definition set_timer (p : pipe) (x : option Time) : pipe :=
  mkPipe (p_readable p) (p_bufBytes p) (p_closed p) (p_readClosed p) (p_eofSeen p)
    (p_notify p) (p_bound p) (p_deliver p) (p_partitionNetwork p) (p_partitionPair p)
    (p_loss p) (p_latency p) (p_duplicate p) (p_corrupt p) (p_trace p) (p_pending p) x
    (p_busyUntil p) (p_arms p).

Definition set_busyUntil (p : pipe) (x : Time) : pipe :=
  mkPipe (p_readable p) (p_bufBytes p) (p_closed p) (p_readClosed p) (p_eofSeen p)
    (p_notify p) (p_bound p) (p_deliver p) (p_partitionNetwork p) (p_partitionPair p)
    (p_loss p) (p_latency p) (p_duplicate p) (p_corrupt p) (p_trace p) (p_pending p)
    (p_timer p) x (p_arms p).

Definition set_arms (p : pipe) (x : Z) : pipe :=
  mkPipe (p_readable p) (p_bufBytes p) (p_closed p) (p_readClosed p) (p_eofSeen p)
    (p_notify p) (p_bound p) (p_deliver p) (p_partitionNetwork p) (p_partitionPair p)
    (p_loss p) (p_latency p) (p_duplicate p) (p_corrupt p) (p_trace p) (p_pending p)
    (p_timer p) (p_busyUntil p) x.

Definition newPipe (bound : Z) : pipe :=
  mkPipe [] 0 false false false 0%nat bound passThrough false (mkPairKey "" "")
    None None None None None [] None zeroTime 0.

Definition broadcastLocked (p : pipe) : pipe := set_notify p (S (p_notify p)).

Definition passThroughDeliver (p : pipe) (data : list Z) : pipe :=
  broadcastLocked (set_readable p (p_readable p ++ [data])).

(** ** The latency timer *)

Definition armLatencyTimerLocked (now : Time) (p : pipe) : pipe :=
  let p := set_arms p (p_arms p + 1) in
  let p := set_timer p None in
  match p_pending p with
  | [] => p
  | u :: _ =>
      let delay := time_Until now (pu_releaseAt u) in
      let delay := if delay <? 0 then 0 else delay in
      set_timer p (Some (time_Add now delay))
  end.

Definition armLatencyForAppendLocked (now : Time) (p : pipe) : pipe :=
  if negb (zlen (p_pending p) =? 1) then p
  else armLatencyTimerLocked now p.

(** The leading units whose delay has elapsed, and the rest. *)
Fixpoint dueUnits (now : Time) (pending : list pendingUnit) : list (list Z) * list pendingUnit :=
  match pending with
  | [] => ([], [])
  | u :: rest =>
      if negb (time_After (pu_releaseAt u) now) then
        let '(due, rest) := dueUnits now rest in (pu_data u :: due, rest)
      else ([], pending)
  end.

Definition releaseDueLatency (now : Time) (p : pipe) : pipe :=
  if p_readClosed p then p
  else
    let '(due, rest) := dueUnits now (p_pending p) in
    let p := set_readable p (p_readable p ++ due) in
    let p := match due with
             | [] => p
             | _ => broadcastLocked (set_pending p rest)
             end in
    armLatencyTimerLocked now p.
End pipe.

Arguments pipe Src : clear implicits.

(** ** Arming touches only the timer and its counter *)

Section arming.
Context {Src : Type}.
Implicit Types (p : pipe Src).

(** The instant a timer armed at [now] for a unit due at [t] fires. *)
Definition fireAt (now t : Time) : Time := now + Z.max 0 (time_Until now t).

Lemma armLatencyTimerLocked_eq now p :
  armLatencyTimerLocked now p =
  set_timer (set_arms p (p_arms p + 1))
    (match p_pending p with [] => None | u :: _ => Some (fireAt now (pu_releaseAt u)) end).
Proof.
  unfold armLatencyTimerLocked, fireAt, time_Add. cbn.
  destruct (p_pending p) as [|u us]; [done|]. cbn.
  destruct (Z.ltb_spec (time_Until now (pu_releaseAt u)) 0); [rewrite Z.max_l by lia|rewrite Z.max_r by lia]; done.
Qed.

Lemma armLatencyForAppendLocked_eq now p :
  exists t a, armLatencyForAppendLocked now p = set_timer (set_arms p a) t.
Proof.
  unfold armLatencyForAppendLocked. destruct (negb _).
  - exists (p_timer p), (p_arms p). by destruct p.
  - rewrite armLatencyTimerLocked_eq. eauto.
Qed.

Lemma armLatencyForAppendLocked_singleton now p u :
  p_pending p = [u] -> p_timer (armLatencyForAppendLocked now p) = Some (fireAt now (pu_releaseAt u)).
Proof.
  intros E. unfold armLatencyForAppendLocked. rewrite armLatencyTimerLocked_eq, E. done.
Qed.

Lemma armLatencyForAppendLocked_behind now p u1 u2 us :
  p_pending p = u1 :: u2 :: us -> armLatencyForAppendLocked now p = p.
Proof.
  intros E. unfold armLatencyForAppendLocked. rewrite E, !zlen_cons.
  pose proof (zlen_nonneg us). destruct (Z.eqb_spec (1 + (1 + zlen us)) 1); [lia|done].
Qed.

Lemma fireAt_bounds now t : now <= fireAt now t <= Z.max now t.
Proof.
  unfold fireAt, time_Until. destruct (Z.le_gt_cases t now) as [H|H].
  - pose proof (time_Sub_nonpos t now H). lia.
  - pose proof (time_Sub_pos t now H). lia.
Qed.

Lemma fireAt_exact now t : now <= t -> t - now < 2 ^ 63 -> fireAt now t = t.
Proof.
  intros H1 H2. unfold fireAt, time_Until. rewrite time_Sub_exact by (unfold is_i64; lia). lia.
Qed.

(** ** The due prefix *)

Lemma dueUnits_split now pending due rest :
  dueUnits now pending = (due, rest) ->
  exists us, pending = us ++ rest /\ due = map pu_data us /\
    Forall (fun u => pu_releaseAt u <= now) us /\
    match rest with [] => True | u :: _ => now < pu_releaseAt u end.
Proof.
  revert due rest. induction pending as [|u us IH]; intros due rest; cbn.
  { intros [= <- <-]. by exists []. }
  unfold time_After. destruct (Z.ltb_spec now (pu_releaseAt u)); cbn.
  { intros [= <- <-]. exists []. split_and!; [done|done|constructor|done]. }
  destruct (dueUnits now us) as [due' rest'] eqn:E. intros [= <- <-].
  destruct (IH _ _ eq_refl) as (us' & -> & -> & Hall & Hrest).
  exists (u :: us'). split_and!; [done|done|by constructor|done].
Qed.

Lemma dueUnits_all now pending :
  Forall (fun u => pu_releaseAt u <= now) pending -> dueUnits now pending = (map pu_data pending, []).
Proof.
  induction 1 as [|u us Hu _ IH]; cbn; [done|]. unfold time_After.
  destruct (Z.ltb_spec now (pu_releaseAt u)); [lia|]. cbn. by rewrite IH.
Qed.

(** [releaseDueLatency] as a record of what changed. *)
Lemma releaseDueLatency_eq now p :
  p_readClosed p = false ->
  exists us rest,
    p_pending p = us ++ rest /\
    Forall (fun u => pu_releaseAt u <= now) us /\
    match rest with [] => True | u :: _ => now < pu_releaseAt u end /\
    releaseDueLatency now p =
    set_timer (set_arms (set_notify (set_pending (set_readable p (p_readable p ++ map pu_data us)) rest)
        (match us with [] => p_notify p | _ => S (p_notify p) end)) (p_arms p + 1))
      (match rest with [] => None | u :: _ => Some (fireAt now (pu_releaseAt u)) end).
Proof.
  intros Hrc. unfold releaseDueLatency. rewrite Hrc.
  destruct (dueUnits now (p_pending p)) as [due rest] eqn:E.
  destruct (dueUnits_split _ _ _ _ E) as (us & Hp & -> & Hall & Hrest).
  exists us, rest. split; [done|]. split; [done|]. split; [done|].
  rewrite armLatencyTimerLocked_eq. destruct us as [|u us]; cbn.
  - cbn in Hp. subst rest. by destruct p.
  - done.
Qed.
End arming.
