(* ===== verification/Faults.v ===== *)
(** * The per-unit fault evaluator (faults.go)

    [deliverUnit] is the closure [installFaultPolicy] stores in a pipe: one
    admitted write is partitioned away, dropped, corrupted, delayed, duplicated
    or delivered. Its stages are one definition each. *)
From S2P Require Import Prelude GoRuntime Float64 Rand Partition Trace Bandwidth PipeState.

Section evaluator.
Context {Src : Type} `{!DrawSource Src} `{!RejectFuel}.
Implicit Types (p : pipe Src) (data : list Z) (cfg : faultConfig) (v : netView).

(** [if p.trace != nil { p.trace.record(e) }] *)
Definition recordEvent (e : faultEvent) p : pipe Src :=
  match p_trace p with
  | Some r => set_trace p (Some (record e r))
  | None => p
  end.

Definition partitionedEvent : faultEvent :=
  mkFaultEvent 0 true false false false 0 0 0 0 0 0.

(** The four draws, each from its own stream and only when configured. *)
Definition drawLoss cfg p : go (bool * pipe Src) :=
  if lossEnabled cfg then
    s ← deref (p_loss p);
    let '(dropped, s) := bernoulli (lossRate cfg) s in
    Ret (dropped, set_loss p (Some s))
  else Ret (false, p).

Definition drawLatency cfg p : go (Duration * pipe Src) :=
  if latencyEnabled cfg then
    s ← deref (p_latency p);
    r ← uniformDuration (latencyMin cfg) (latencyMax cfg) s;
    let '(drawn, s) := r in
    Ret (drawn, set_latency p (Some s))
  else Ret (0, p).

Definition drawDuplicate cfg p : go (bool * pipe Src) :=
  if duplicateEnabled cfg then
    s ← deref (p_duplicate p);
    let '(duplicated, s) := bernoulli (duplicateRate cfg) s in
    Ret (duplicated, set_duplicate p (Some s))
  else Ret (false, p).

Definition drawCorrupt cfg p : go (bool * pipe Src) :=
  if corruptEnabled cfg then
    s ← deref (p_corrupt p);
    let '(corrupted, s) := bernoulli (corruptRate cfg) s in
    Ret (corrupted, set_corrupt p (Some s))
  else Ret (false, p).

(** [data[byteIndex] ^= 1 << bitIndex] *)
Definition flipBit (data : list Z) (byteIndex bitIndex : Z) : go (list Z) :=
  if (0 <=? byteIndex) && (byteIndex <? zlen data) then
    match data !! Z.to_nat byteIndex with
    | Some b => Ret (<[Z.to_nat byteIndex := Z.lxor b (u8 (Z.shiftl 1 bitIndex))]> data)
    | None => Panic "index out of range"
    end
  else Panic "index out of range".

(** The corruption site is drawn, and the bit flipped, only for a non-empty
    unit that survived loss. Answers the payload and the recorded site. *)
Definition corruptUnit (corrupted : bool) data p : go (list Z * Z * Z * pipe Src) :=
  if corrupted && (0 <? zlen data) then
    s ← deref (p_corrupt p);
    r ← corruptionSite (zlen data) s;
    let '(byteIndex, bitIndex, s) := r in
    data' ← flipBit data byteIndex bitIndex;
    Ret (data', byteIndex, u8 bitIndex, set_corrupt p (Some s))
  else Ret (data, 0, 0, p).

(** When the unit has left the (possibly throttled) link, and how long that
    took: [(base, serialized)]. *)
Definition throttle (now : Time) cfg (size : Z) p : go (Time * Duration * pipe Src) :=
  let base := now in
  if bandwidthEnabled cfg then
    let base := if time_After (p_busyUntil p) base then p_busyUntil p else base in
    d ← serializationDelay size (bandwidthBPS cfg);
    let base := time_Add base d in
    Ret (base, time_Sub base now, set_busyUntil p base)
  else Ret (base, 0, p).

(** The release time after clamping against the last pending unit. *)
Definition clampRelease (releaseAt : Time) (pending : list pendingUnit) : Time :=
  match last pending with
  | Some u => if time_Before releaseAt (pu_releaseAt u) then pu_releaseAt u else releaseAt
  | None => releaseAt
  end.

(** Immediate delivery, with the second copy of a duplicated unit. *)
Definition deliverNow (duplicated : bool) data p : pipe Src :=
  let p := set_readable p (p_readable p ++ [data]) in
  let p :=
    if duplicated then
      let p := set_bufBytes p (p_bufBytes p + zlen data) in
      set_readable p (p_readable p ++ [data])
    else p in
  broadcastLocked p.

(** Delivery held back until [releaseAt]. *)
Definition deliverLater (now releaseAt : Time) (duplicated : bool) data p : pipe Src :=
  let p := set_pending p (p_pending p ++ [mkPendingUnit data releaseAt]) in
  let p := armLatencyForAppendLocked now p in
  if duplicated then
    let p := set_bufBytes p (p_bufBytes p + zlen data) in
    set_pending p (p_pending p ++ [mkPendingUnit data releaseAt])
  else p.

Definition deliverUnit v (fp : faultPolicy) p data : go (pipe Src) :=
  if fp_network fp && isPartitioned (nv_parts v) (fp_pair fp) then
    let p := set_bufBytes p (p_bufBytes p - zlen data) in
    let p := recordEvent partitionedEvent p in
    Ret (broadcastLocked p)
  else
    let cfg := current v fp in
    r ← drawLoss cfg p; let '(dropped, p) := r in
    r ← drawLatency cfg p; let '(drawn, p) := r in
    r ← drawDuplicate cfg p; let '(duplicated, p) := r in
    r ← drawCorrupt cfg p; let '(corrupted, p) := r in
    let size := zlen data in
    if (dropped : bool) then
      let p := set_bufBytes p (p_bufBytes p - zlen data) in
      let p := recordEvent (mkFaultEvent 0 false true duplicated corrupted drawn 0 0 size 0 0) p in
      Ret (broadcastLocked p)
    else
      r ← corruptUnit corrupted data p; let '(data, corruptByte, corruptBit, p) := r in
      let now := nv_now v in
      r ← throttle now cfg (zlen data) p; let '(base, serialized, p) := r in
      if negb (latencyEnabled cfg) && negb (bandwidthEnabled cfg) then
        let p := recordEvent
          (mkFaultEvent 0 false false duplicated corrupted 0 0 0 size corruptByte corruptBit) p in
        Ret (deliverNow duplicated data p)
      else
        let releaseAt := clampRelease (time_Add base drawn) (p_pending p) in
        let p := recordEvent
          (mkFaultEvent 0 false false duplicated corrupted drawn serialized
             (time_Sub releaseAt base) size corruptByte corruptBit) p in
        Ret (deliverLater now releaseAt duplicated data p).

(** [installFaultPolicy] *)
Definition installFaultPolicy p (fp : faultPolicy) : pipe Src :=
  let p := set_partitionNetwork p (fp_network fp) in
  let p := set_partitionPair p (fp_pair fp) in
  set_deliver p (faultEvaluator fp).

(** The call [p.deliver(p, data)]. *)
Definition runDeliver v p data : go (pipe Src) :=
  match p_deliver p with
  | passThrough => Ret (passThroughDeliver p data)
  | faultEvaluator fp => deliverUnit v fp p data
  end.
End evaluator.

(** ** What one evaluation does *)

Section inversion.
Context {Src : Type} `{!DrawSource Src} `{!RejectFuel}.
Implicit Types (p : pipe Src) (data : list Z) (cfg : faultConfig) (v : netView).

(** [p] with its four streams replaced: all the draws can change. *)
Definition with_streams p (l t d c : option (stream Src)) : pipe Src :=
  set_corrupt (set_duplicate (set_latency (set_loss p l) t) d) c.

(** One Bernoulli decision of a fault kind: from the first draw of its stream
    when the kind is configured, and nothing otherwise. *)
Definition decision (enabled : bool) (rate : float64) (s s' : option (stream Src)) (b : bool) : Prop :=
  if enabled then
    exists st, s = Some st /\ b = fst (bernoulli rate st) /\ s' = Some (after 1 st)
  else s' = s /\ b = false.

(** One latency decision. *)
Definition latency_decision cfg (s s' : option (stream Src)) (d : Duration) : Prop :=
  if latencyEnabled cfg then
    exists st st', s = Some st /\ uniformDuration (latencyMin cfg) (latencyMax cfg) st = Ret (d, st') /\
      s' = Some st'
  else s' = s /\ d = 0.

(** All decisions taken for one unit past the partition gate. *)
Record decisions : Type := mkDecisions {
  d_dropped : bool; d_drawn : Duration; d_duplicated : bool; d_corrupted : bool
}.

Definition draws cfg p (l t d c : option (stream Src)) (ds : decisions) : Prop :=
  decision (lossEnabled cfg) (lossRate cfg) (p_loss p) l (d_dropped ds) /\
  latency_decision cfg (p_latency p) t (d_drawn ds) /\
  decision (duplicateEnabled cfg) (duplicateRate cfg) (p_duplicate p) d (d_duplicated ds) /\
  decision (corruptEnabled cfg) (corruptRate cfg) (p_corrupt p) c (d_corrupted ds).

Lemma drawLoss_inv cfg p b p' :
  drawLoss cfg p = Ret (b, p') ->
  exists l, p' = set_loss p l /\ decision (lossEnabled cfg) (lossRate cfg) (p_loss p) l b.
Proof.
  unfold drawLoss, decision. destruct (lossEnabled cfg).
  - destruct (p_loss p) as [s|]; [|done]. cbn [deref mbind go_bind]. pose proof (bernoulli_one_draw (lossRate cfg) s) as E1.
    destruct (bernoulli _ s) as [b' s'] eqn:E. intros [= <- <-]. eexists. split; [done|].
    exists s. by rewrite <- E1, E.
  - intros [= <- <-]. exists (p_loss p). by destruct p.
Qed.

Lemma drawDuplicate_inv cfg p b p' :
  drawDuplicate cfg p = Ret (b, p') ->
  exists d, p' = set_duplicate p d /\
    decision (duplicateEnabled cfg) (duplicateRate cfg) (p_duplicate p) d b.
Proof.
  unfold drawDuplicate, decision. destruct (duplicateEnabled cfg).
  - destruct (p_duplicate p) as [s|]; [|done]. cbn [deref mbind go_bind]. pose proof (bernoulli_one_draw (duplicateRate cfg) s) as E1.
    destruct (bernoulli _ s) as [b' s'] eqn:E. intros [= <- <-]. eexists. split; [done|].
    exists s. by rewrite <- E1, E.
  - intros [= <- <-]. exists (p_duplicate p). by destruct p.
Qed.

Lemma drawCorrupt_inv cfg p b p' :
  drawCorrupt cfg p = Ret (b, p') ->
  exists c, p' = set_corrupt p c /\
    decision (corruptEnabled cfg) (corruptRate cfg) (p_corrupt p) c b.
Proof.
  unfold drawCorrupt, decision. destruct (corruptEnabled cfg).
  - destruct (p_corrupt p) as [s|]; [|done]. cbn [deref mbind go_bind]. pose proof (bernoulli_one_draw (corruptRate cfg) s) as E1.
    destruct (bernoulli _ s) as [b' s'] eqn:E. intros [= <- <-]. eexists. split; [done|].
    exists s. by rewrite <- E1, E.
  - intros [= <- <-]. exists (p_corrupt p). by destruct p.
Qed.

Lemma drawLatency_inv cfg p d p' :
  drawLatency cfg p = Ret (d, p') ->
  exists t, p' = set_latency p t /\ latency_decision cfg (p_latency p) t d.
Proof.
  unfold drawLatency, latency_decision. destruct (latencyEnabled cfg).
  - destruct (p_latency p) as [s|]; [|done]. cbn.
    destruct (uniformDuration _ _ s) as [[d' s']| |] eqn:E; cbn; try done.
    intros [= <- <-]. eauto 10.
  - intros [= <- <-]. exists (p_latency p). by destruct p.
Qed.

Lemma draws_inv cfg p b1 p1 d2 p2 b3 p3 b4 p4 :
  drawLoss cfg p = Ret (b1, p1) -> drawLatency cfg p1 = Ret (d2, p2) ->
  drawDuplicate cfg p2 = Ret (b3, p3) -> drawCorrupt cfg p3 = Ret (b4, p4) ->
  exists l t d c, p4 = with_streams p l t d c /\ draws cfg p l t d c (mkDecisions b1 d2 b3 b4).
Proof.
  intros (l & -> & Hl)%drawLoss_inv (t & -> & Ht)%drawLatency_inv
    (d & -> & Hd)%drawDuplicate_inv (c & -> & Hc)%drawCorrupt_inv.
  exists l, t, d, c. done.
Qed.

(** *** The corruption stage *)

(** What the payload becomes, the recorded site, and the corrupt stream. *)
Definition corruption (corrupted : bool) data (c : option (stream Src)) (data' : list Z)
    (byteIndex bitIndex : Z) (c' : option (stream Src)) : Prop :=
  if corrupted && (0 <? zlen data) then
    exists st st' b, c = Some st /\ corruptionSite (zlen data) st = Ret (byteIndex, bitIndex, st') /\
      data !! Z.to_nat byteIndex = Some b /\ 0 <= byteIndex < zlen data /\
      data' = <[Z.to_nat byteIndex := Z.lxor b (u8 (Z.shiftl 1 bitIndex))]> data /\
      c' = Some st'
  else data' = data /\ byteIndex = 0 /\ bitIndex = 0 /\ c' = c.

Lemma corruptUnit_inv corrupted data p data' cb ct p' :
  zlen data < 2 ^ 63 ->
  corruptUnit corrupted data p = Ret (data', cb, ct, p') ->
  exists c', p' = set_corrupt p c' /\ corruption corrupted data (p_corrupt p) data' cb ct c'.
Proof.
  intros Hlen. unfold corruptUnit, corruption. destruct (corrupted && (0 <? zlen data)) eqn:Hc.
  - destruct (p_corrupt p) as [s|] eqn:Es; [|done]. cbn [deref mbind go_bind].
    destruct (corruptionSite (zlen data) s) as [[[bi ti] s']| |] eqn:E; cbn [mbind go_bind]; try done.
    apply andb_true_iff in Hc as [_ Hc%Z.ltb_lt].
    pose proof (corruptionSite_range _ _ _ _ _ (conj Hc Hlen) E) as [Hb Ht].
    unfold flipBit. rewrite (proj2 (andb_true_iff _ _)) by (split; [apply Z.leb_le|apply Z.ltb_lt]; lia).
    destruct (data !! Z.to_nat bi) as [b|] eqn:El; cbn; [|done].
    assert (u8 ti = ti) as Hu by (unfold u8; apply Z.mod_small; lia).
    intros [= <- <- <- <-]. rewrite Hu. eauto 20.
  - intros [= <- <- <- <-]. exists (p_corrupt p). by destruct p.
Qed.

(** *** The throttle *)

Definition throttled (now : Time) cfg (size : Z) (busy : Time) (base : Time) (ser : Duration)
    (busy' : Time) : Prop :=
  if bandwidthEnabled cfg then
    exists d, serializationDelay size (bandwidthBPS cfg) = Ret d /\
      base = Z.max now busy + d /\ ser = time_Sub base now /\ busy' = base
  else base = now /\ ser = 0 /\ busy' = busy.

Lemma throttle_inv now cfg size p base ser p' :
  throttle now cfg size p = Ret (base, ser, p') ->
  exists busy', p' = set_busyUntil p busy' /\ throttled now cfg size (p_busyUntil p) base ser busy'.
Proof.
  unfold throttle, throttled. destruct (bandwidthEnabled cfg).
  - destruct (serializationDelay _ _) as [d| |]; cbn; try done.
    assert ((if time_After (p_busyUntil p) now then p_busyUntil p else now)
            = Z.max now (p_busyUntil p)) as ->.
    { unfold time_After. destruct (Z.ltb_spec now (p_busyUntil p)); lia. }
    intros [= <- <- <-]. unfold time_Add. eauto 10.
  - intros [= <- <- <-]. exists (p_busyUntil p). by destruct p.
Qed.

(** *** The whole evaluation *)

Definition copies_of (duplicated : bool) data : list (list Z) :=
  if duplicated then [data; data] else [data].

Definition droppedEvent (ds : decisions) (size : Z) : faultEvent :=
  mkFaultEvent 0 false true (d_duplicated ds) (d_corrupted ds) (d_drawn ds) 0 0 size 0 0.

Definition deliveredEvent (ds : decisions) (drawn ser eff : Duration) (size cb ct : Z) : faultEvent :=
  mkFaultEvent 0 false false (d_duplicated ds) (d_corrupted ds) drawn ser eff size cb ct.

(** The state a unit leaves behind, and the copies of it that were admitted for
    delivery: one case per return of the evaluator. *)
Inductive unit_outcome v (fp : faultPolicy) p data : pipe Src -> list (list Z) -> Prop :=
| outcome_partitioned :
    fp_network fp = true -> isPartitioned (nv_parts v) (fp_pair fp) = true ->
    unit_outcome v fp p data
      (broadcastLocked (recordEvent partitionedEvent (set_bufBytes p (p_bufBytes p - zlen data)))) []
| outcome_dropped l t d c ds :
    fp_network fp && isPartitioned (nv_parts v) (fp_pair fp) = false ->
    draws (current v fp) p l t d c ds -> d_dropped ds = true ->
    unit_outcome v fp p data
      (broadcastLocked (recordEvent (droppedEvent ds (zlen data))
        (set_bufBytes (with_streams p l t d c) (p_bufBytes p - zlen data)))) []
| outcome_now l t d c c' ds data' cb ct :
    fp_network fp && isPartitioned (nv_parts v) (fp_pair fp) = false ->
    draws (current v fp) p l t d c ds -> d_dropped ds = false ->
    corruption (d_corrupted ds) data c data' cb ct c' ->
    latencyEnabled (current v fp) = false -> bandwidthEnabled (current v fp) = false ->
    unit_outcome v fp p data
      (deliverNow (d_duplicated ds) data'
        (recordEvent (deliveredEvent ds 0 0 0 (zlen data) cb ct) (with_streams p l t d c')))
      (copies_of (d_duplicated ds) data')
| outcome_later l t d c c' ds data' cb ct base ser busy releaseAt :
    fp_network fp && isPartitioned (nv_parts v) (fp_pair fp) = false ->
    draws (current v fp) p l t d c ds -> d_dropped ds = false ->
    corruption (d_corrupted ds) data c data' cb ct c' ->
    latencyEnabled (current v fp) || bandwidthEnabled (current v fp) = true ->
    throttled (nv_now v) (current v fp) (zlen data) (p_busyUntil p) base ser busy ->
    releaseAt = clampRelease (base + d_drawn ds) (p_pending p) ->
    unit_outcome v fp p data
      (deliverLater (nv_now v) releaseAt (d_duplicated ds) data'
        (recordEvent (deliveredEvent ds (d_drawn ds) ser (time_Sub releaseAt base) (zlen data) cb ct)
          (set_busyUntil (with_streams p l t d c') busy)))
      (copies_of (d_duplicated ds) data').

Lemma corruption_length corrupted data c data' cb ct c' :
  corruption corrupted data c data' cb ct c' -> zlen data' = zlen data.
Proof.
  unfold corruption, zlen. destruct (corrupted && _).
  - intros (st & st' & b & _ & _ & _ & _ & -> & _). by rewrite length_insert.
  - by intros (-> & _).
Qed.

Lemma deliverUnit_inv v fp p data p' :
  zlen data < 2 ^ 63 -> deliverUnit v fp p data = Ret p' ->
  exists copies, unit_outcome v fp p data p' copies.
Proof.
  intros Hlen. unfold deliverUnit.
  destruct (fp_network fp && isPartitioned (nv_parts v) (fp_pair fp)) eqn:Hp.
  { intros [= <-]. apply andb_true_iff in Hp as [Hn Hp]. eexists. by apply outcome_partitioned. }
  intros Hr. go_inv. subst.
  match goal with
  | H1 : drawLoss _ _ = _, H2 : drawLatency _ _ = _, H3 : drawDuplicate _ _ = _, H4 : drawCorrupt _ _ = _ |- _ =>
      destruct (draws_inv _ _ _ _ _ _ _ _ _ _ H1 H2 H3 H4) as (sl & st & sd & sc & -> & Hds); clear H1 H2 H3 H4
  end.
  destruct b eqn:Hb.
  { injection Hr as <-. eexists. match type of Hds with draws _ _ _ _ _ _ ?ds =>
      by apply (outcome_dropped _ _ _ _ sl st sd sc ds) end. }
  go_inv. subst.
  match goal with H1 : corruptUnit _ _ _ = _ |- _ => apply corruptUnit_inv in H1 as (sc' & -> & Hc); [|done] end.
  match goal with H1 : throttle _ _ _ _ = _ |- _ => apply throttle_inv in H1 as (busy & -> & Ht) end.
  pose proof (corruption_length _ _ _ _ _ _ _ Hc) as Hlen'.
  destruct (negb (latencyEnabled _) && negb (bandwidthEnabled _)) eqn:Hnow.
  - injection Hr as <-. apply andb_true_iff in Hnow as [Hl%negb_true_iff Hb%negb_true_iff].
    unfold throttled in Ht. rewrite Hb in Ht. destruct Ht as (_ & _ & ->).
    eexists. match type of Hds with draws _ _ _ _ _ _ ?ds =>
      by apply (outcome_now _ _ _ _ sl st sd sc sc' ds) end.
  - injection Hr as <-. rewrite <- negb_orb, negb_false_iff in Hnow. rewrite Hlen' in Ht.
    eexists. match type of Hds with draws _ _ _ _ _ _ ?ds =>
      by eapply (outcome_later _ _ _ _ sl st sd sc sc' ds) end.
Qed.
End inversion.
