(* ===== verification/FaultProps.v ===== *)
(** * Properties of the fault evaluator: the zero-draw partition gate, the
    dropped and delivered branches, safety, and the draw discipline. *)
From S2P Require Import Prelude GoRuntime Float64 GoCrypto Rand Partition Trace Bandwidth PipeState Faults.

(** ** Validated configurations and wired pipes *)

Definition rate_ok (r : float64) : Prop := f64_valid r = true.

(** What [networkConfig.validate] guarantees of a configuration. *)
Definition config_ok (cfg : faultConfig) : Prop :=
  (latencyEnabled cfg = true -> 0 <= latencyMin cfg <= latencyMax cfg /\ latencyMax cfg < 2 ^ 63) /\
  (bandwidthEnabled cfg = true -> 0 < bandwidthBPS cfg < 2 ^ 63) /\
  rate_ok (lossRate cfg) /\ rate_ok (duplicateRate cfg) /\ rate_ok (corruptRate cfg).

Definition gated (v : netView) (fp : faultPolicy) : bool :=
  fp_network fp && isPartitioned (nv_parts v) (fp_pair fp).

Section lemmas.
Context {Src : Type} `{!DrawSource Src} `{!RejectFuel}.
Implicit Types (p : pipe Src) (data : list Z) (cfg : faultConfig) (v : netView) (fp : faultPolicy).

(** A pipe whose four streams were derived, as in every connection. *)
Definition wired p : Prop :=
  is_Some (p_loss p) /\ is_Some (p_latency p) /\ is_Some (p_duplicate p) /\ is_Some (p_corrupt p).

(** Every bounded draw, from any position on, is accepted within the fuel. *)
Definition accepting (s : stream Src) : Prop :=
  forall n k, 0 < n < 2 ^ 64 -> exists j, (j <= reject_fuel)%nat /\ first_accepted n (after k s) j.

Lemma recordEvent_eq e p : recordEvent e p = set_trace p (record e <$> p_trace p).
Proof. unfold recordEvent. destruct (p_trace p) eqn:E; [done|]. cbn. rewrite <- E. by destruct p. Qed.

Lemma deliverLater_eq now rel dup data p :
  exists t a,
    deliverLater now rel dup data p =
    set_bufBytes (set_timer (set_arms (set_pending p
      (p_pending p ++ map (fun d => mkPendingUnit d rel) (copies_of dup data))) a) t)
      (p_bufBytes p + if dup then zlen data else 0).
Proof.
  unfold deliverLater, copies_of.
  destruct (armLatencyForAppendLocked_eq now (set_pending p (p_pending p ++ [mkPendingUnit data rel])))
    as (t & a & ->).
  exists t, a. destruct dup; cbn.
  - f_equal. by rewrite <- app_assoc.
  - rewrite Z.add_0_r. by destruct p.
Qed.

Lemma deliverNow_eq dup data p :
  deliverNow dup data p =
  set_notify (set_bufBytes (set_readable p (p_readable p ++ copies_of dup data))
    (p_bufBytes p + if dup then zlen data else 0)) (S (p_notify p)).
Proof.
  unfold deliverNow, copies_of. destruct dup; cbn.
  - by rewrite <- app_assoc.
  - rewrite Z.add_0_r. by destruct p.
Qed.

End lemmas.

(** Replace a [deliverLater] of the goal by the record it builds. *)
Ltac open_deliverLater :=
  try match goal with |- context [deliverLater ?a ?b ?c ?d ?e] =>
    destruct (deliverLater_eq a b c d e) as (? & ? & ->) end.

Section effects.
Context {Src : Type} `{!DrawSource Src} `{!RejectFuel}.
Implicit Types (p : pipe Src) (data : list Z) (cfg : faultConfig) (v : netView) (fp : faultPolicy).

(** No evaluation touches these fields. *)
Lemma deliverUnit_frame v fp p data p' copies :
  unit_outcome v fp p data p' copies ->
  p_closed p' = p_closed p /\ p_readClosed p' = p_readClosed p /\ p_eofSeen p' = p_eofSeen p /\
  p_bound p' = p_bound p /\ p_deliver p' = p_deliver p /\
  p_partitionNetwork p' = p_partitionNetwork p /\ p_partitionPair p' = p_partitionPair p.
Proof.
  destruct 1; rewrite ?recordEvent_eq, ?deliverNow_eq; try done.
  open_deliverLater. done.
Qed.

(** The payload bytes in the pipe are accounted for: [bufBytes] moves with
    the copies admitted. *)
Lemma deliverUnit_bufBytes v fp p data p' copies :
  unit_outcome v fp p data p' copies ->
  p_bufBytes p' = p_bufBytes p - zlen data + zlen (concat copies) /\
  Forall (fun c => zlen c = zlen data) copies.
Proof.
  destruct 1; rewrite ?recordEvent_eq, ?deliverNow_eq; try (cbn; unfold zlen; cbn; split; [lia|constructor]);
    match goal with Hc : corruption _ _ _ _ _ _ _ |- _ => apply corruption_length in Hc as Hlen end;
    open_deliverLater; cbn; unfold copies_of;
    destruct (d_duplicated ds); cbn; rewrite ?app_nil_r, ?zlen_app, ?Hlen;
    (split; [lia|repeat constructor; done]).
Qed.

(** Where the copies went: straight to the reader, or behind the pending units
    with one common release time. *)
Lemma deliverUnit_queues v fp p data p' copies :
  unit_outcome v fp p data p' copies ->
  (p_readable p' = p_readable p ++ copies /\ p_pending p' = p_pending p /\
   p_timer p' = p_timer p /\ p_notify p' = S (p_notify p)) \/
  (exists rel,
     p_readable p' = p_readable p /\
     p_pending p' = p_pending p ++ map (fun d => mkPendingUnit d rel) copies /\
     p_notify p' = p_notify p /\ copies <> [] /\
     latencyEnabled (current v fp) || bandwidthEnabled (current v fp) = true).
Proof.
  destruct 1; rewrite ?recordEvent_eq, ?deliverNow_eq; cbn; rewrite ?app_nil_r; auto.
  open_deliverLater.
  right. exists releaseAt. cbn. split_and!; try done. unfold copies_of. by destruct (d_duplicated ds).
Qed.
End effects.

(** ** Branches of the evaluator *)

(** [data'] is [data] with exactly the given bit of the given byte inverted. *)
Definition one_bit_flipped (data data' : list Z) (byteIndex bitIndex : Z) : Prop :=
  0 <= byteIndex < zlen data /\ 0 <= bitIndex < 8 /\
  (forall i, i <> Z.to_nat byteIndex -> data' !! i = data !! i) /\
  exists b b', data !! Z.to_nat byteIndex = Some b /\ data' !! Z.to_nat byteIndex = Some b' /\
    forall k, 0 <= k -> Z.testbit b' k = if k =? bitIndex then negb (Z.testbit b k) else Z.testbit b k.

Lemma lxor_bit b bit k :
  0 <= bit < 8 -> 0 <= k ->
  Z.testbit (Z.lxor b (u8 (Z.shiftl 1 bit))) k
  = if k =? bit then negb (Z.testbit b k) else Z.testbit b k.
Proof.
  intros Hb Hk.
  assert (u8 (Z.shiftl 1 bit) = 2 ^ bit) as ->.
  { unfold u8. rewrite Z.shiftl_1_l. apply Z.mod_small. split; [apply Z.pow_nonneg; lia|].
    apply Z.pow_lt_mono_r; lia. }
  rewrite Z.lxor_spec, Z.pow2_bits_eqb by lia. rewrite Z.eqb_sym.
  destruct (k =? bit); [by rewrite xorb_true_r|by rewrite xorb_false_r].
Qed.

Lemma corruption_effect {Src} `{!DrawSource Src} `{!RejectFuel} corrupted data (c c' : option (stream Src)) data' bi ti :
  zlen data < 2 ^ 63 -> corruption corrupted data c data' bi ti c' ->
  if corrupted && (0 <? zlen data) then one_bit_flipped data data' bi ti
  else data' = data /\ bi = 0 /\ ti = 0.
Proof.
  intros Hlen. unfold corruption.
  destruct (corrupted && (0 <? zlen data)) eqn:E; [|intros (-> & -> & -> & _); done].
  apply andb_true_iff in E as [_ E%Z.ltb_lt].
  intros (st & st' & b & _ & Hs & Hl & Hbi & -> & _).
  apply corruptionSite_range in Hs as [_ Ht]; [|lia].
  split; [done|]. split; [done|]. split.
  - intros i Hi. by apply list_lookup_insert_ne.
  - exists b. eexists. split; [done|]. split.
    + apply list_lookup_insert_eq. unfold zlen in *. lia.
    + intros k Hk. by apply lxor_bit.
Qed.

(** The last release time already promised on this direction. *)
Definition last_release (pending : list pendingUnit) (default : Time) : Time :=
  match last pending with Some u => pu_releaseAt u | None => default end.

Lemma clampRelease_max r pending : clampRelease r pending = Z.max r (last_release pending r).
Proof.
  unfold clampRelease, last_release, time_Before. destruct (last pending) as [u|]; [|lia].
  destruct (Z.ltb_spec r (pu_releaseAt u)); lia.
Qed.

Section branches.
Context {Src : Type} `{!DrawSource Src} `{!RejectFuel}.
Implicit Types (p : pipe Src) (data : list Z) (cfg : faultConfig) (v : netView) (fp : faultPolicy).

(** The partition gate. A unit written into a partitioned pair is discarded
    whatever else is configured: the call returns, no stream advances, nothing
    becomes readable or pending, the link stays free, its bytes leave the
    accounting, and the one event recorded has only [partitioned] set. *)
Theorem partition_gate v fp p data :
  gated v fp = true ->
  exists p', deliverUnit v fp p data = Ret p' /\
    p_loss p' = p_loss p /\ p_latency p' = p_latency p /\
    p_duplicate p' = p_duplicate p /\ p_corrupt p' = p_corrupt p /\
    p_readable p' = p_readable p /\ p_pending p' = p_pending p /\
    p_busyUntil p' = p_busyUntil p /\ p_bufBytes p' = p_bufBytes p - zlen data /\
    p_trace p' = record (mkFaultEvent 0 true false false false 0 0 0 0 0 0) <$> p_trace p.
Proof.
  unfold gated. intros Hg. unfold deliverUnit. rewrite Hg. eexists. split; [done|].
  rewrite recordEvent_eq. done.
Qed.

(** A unit lost by the loss trial costs nothing and still draws everything:
    nothing is delivered or corrupted, the link is not occupied, and every
    configured Bernoulli stream has advanced by exactly the one draw of its own
    decision; the event carries the decisions, the drawn latency and the size. *)
Theorem dropped_unit v fp p data p' s :
  zlen data < 2 ^ 63 -> gated v fp = false ->
  lossEnabled (current v fp) = true -> p_loss p = Some s ->
  fst (bernoulli (lossRate (current v fp)) s) = true ->
  deliverUnit v fp p data = Ret p' ->
  p_readable p' = p_readable p /\ p_pending p' = p_pending p /\
  p_busyUntil p' = p_busyUntil p /\ p_bufBytes p' = p_bufBytes p - zlen data /\
  p_loss p' = Some (after 1 s) /\
  exists dup cor drawn,
    decision (duplicateEnabled (current v fp)) (duplicateRate (current v fp)) (p_duplicate p) (p_duplicate p') dup /\
    decision (corruptEnabled (current v fp)) (corruptRate (current v fp)) (p_corrupt p) (p_corrupt p') cor /\
    latency_decision (current v fp) (p_latency p) (p_latency p') drawn /\
    p_trace p' = record (mkFaultEvent 0 false true dup cor drawn 0 0 (zlen data) 0 0) <$> p_trace p.
Proof.
  intros Hlen Hg Hle Hs Hb [copies Ho]%deliverUnit_inv; [|done].
  assert (forall l t d c ds, draws (current v fp) p l t d c ds ->
            d_dropped ds = true /\ l = Some (after 1 s)) as Hdraw.
  { unfold draws, decision. rewrite Hle, Hs. intros l t d c ds ((st & [= <-] & -> & ->) & _). done. }
  destruct Ho as [| l t d c ds _ Hd _| ? ? ? ? ? ? ? ? ? _ Hd Hf | ? ? ? ? ? ? ? ? ? ? ? ? ? _ Hd Hf].
  - unfold gated in Hg. by destruct (fp_network fp), (isPartitioned _ _).
  - pose proof (Hdraw _ _ _ _ _ Hd) as [_ ->]. rewrite recordEvent_eq. cbn.
    destruct Hd as (_ & Ht & Hdu & Hc). split_and!; try done.
    exists (d_duplicated ds), (d_corrupted ds), (d_drawn ds). done.
  - apply Hdraw in Hd as [Hd _]. congruence.
  - apply Hdraw in Hd as [Hd _]. congruence.
Qed.

(** C33: a unit that survives loss is delivered whole: its copies (two identical
    ones exactly when duplication was decided) are the payload with no bit
    changed, or, when corruption was decided for a non-empty payload, with
    exactly the one bit flipped that the event records. *)
Theorem delivered_content v fp p data p' :
  zlen data < 2 ^ 63 -> gated v fp = false ->
  (forall s, lossEnabled (current v fp) = true -> p_loss p = Some s ->
     fst (bernoulli (lossRate (current v fp)) s) = false) ->
  deliverUnit v fp p data = Ret p' ->
  exists ev data',
    p_trace p' = record ev <$> p_trace p /\
    fe_partitioned ev = false /\ fe_dropped ev = false /\ fe_size ev = zlen data /\
    p_bufBytes p' = p_bufBytes p + (if fe_duplicated ev then zlen data else 0) /\
    (p_readable p' = p_readable p ++ copies_of (fe_duplicated ev) data' /\ p_pending p' = p_pending p \/
     exists rel, p_readable p' = p_readable p /\
       p_pending p' = p_pending p ++ map (fun d => mkPendingUnit d rel) (copies_of (fe_duplicated ev) data')) /\
    if fe_corrupted ev && (0 <? zlen data)
    then one_bit_flipped data data' (fe_corruptByte ev) (fe_corruptBit ev)
    else data' = data /\ fe_corruptByte ev = 0 /\ fe_corruptBit ev = 0.
Proof.
  intros Hlen Hg Hkeep [copies Ho]%deliverUnit_inv; [|done].
  destruct Ho as [| l t d c ds _ Hd Hdr| l t d c c' ds data' cb ct _ Hd Hf Hc _ _
    | l t d c c' ds data' cb ct base ser busy rel _ Hd Hf Hc _ _ ->].
  - unfold gated in Hg. by destruct (fp_network fp), (isPartitioned _ _).
  - destruct Hd as (Hl & _). unfold decision in Hl. destruct (lossEnabled _) eqn:E.
    + destruct Hl as (st & Hst & Hb & _). rewrite Hkeep in Hb by done. congruence.
    + destruct Hl as (_ & Hb). congruence.
  - pose proof (corruption_length _ _ _ _ _ _ _ Hc) as El. apply corruption_effect in Hc; [|done].
    eexists _, data'. rewrite recordEvent_eq, deliverNow_eq. cbn.
    split; [done|]. rewrite El. split_and!; try done. by left.
  - pose proof (corruption_length _ _ _ _ _ _ _ Hc) as El. apply corruption_effect in Hc; [|done].
    rewrite recordEvent_eq. open_deliverLater.
    eexists _, data'. cbn. split; [done|]. rewrite El. split_and!; try done. right. eauto.
Qed.

End branches.

(** ** Safety and termination *)

Section safety.
Context {Src : Type} `{!DrawSource Src} `{!RejectFuel}.
Implicit Types (p : pipe Src) (data : list Z) (cfg : faultConfig) (v : netView) (fp : faultPolicy).
Implicit Types (s : stream Src) (b : bool).

Lemma accepting_after s k : accepting s -> accepting (after k s).
Proof. intros Ha n j Hn. rewrite <- after_add. by apply Ha. Qed.

Lemma boundedUint64_wp b n s :
  0 < n < 2 ^ 64 -> (b = false -> accepting s) ->
  wp b (boundedUint64 n s) (fun r => 0 <= fst r < n /\ (b = false -> accepting (snd r))).
Proof.
  intros Hn Ha. destruct b.
  - pose proof (boundedUint64_no_panic n s) as Hp.
    destruct (boundedUint64 n s) as [[x s']|msg|] eqn:E; cbn; [|by destruct (Hp msg)|done].
    split; [by eapply boundedUint64_range|done].
  - destruct (Ha eq_refl n 0%nat Hn) as (j & Hj & Hacc).
    rewrite (boundedUint64_found n s j) by done. cbn. split.
    + apply mul64_hi_range; [lia|apply draw_range].
    + intros _. by apply (accepting_after s (S j)), Ha.
Qed.

Lemma uniformDuration_wp b min max s :
  0 <= min <= max -> max < 2 ^ 63 -> (b = false -> accepting s) ->
  wp b (uniformDuration min max s) (fun r => min <= fst r <= max /\ (b = false -> accepting (snd r))).
Proof.
  intros H1 H2 Ha. unfold uniformDuration.
  destruct (uniformDuration_span min max H1 H2) as [-> Hs].
  apply wp_bind. eapply wp_mono; [by apply boundedUint64_wp|].
  intros [x s'] [Hx Hs']. cbn in *. split; [|done].
  rewrite (i64_id x) by (unfold is_i64; lia). rewrite i64_id by (unfold is_i64; lia). lia.
Qed.

Lemma corruptionSite_wp b n s :
  0 < n < 2 ^ 63 -> (b = false -> accepting s) ->
  wp b (corruptionSite n s) (fun r => 0 <= fst (fst r) < n).
Proof.
  intros Hn Ha. unfold corruptionSite. rewrite (u64_id n) by (unfold is_u64; lia).
  apply wp_bind. eapply wp_mono; [apply boundedUint64_wp; [lia|done]|].
  intros [x s1] [Hx Hs1]. cbn in *.
  apply wp_bind. eapply wp_mono; [apply boundedUint64_wp; [lia|done]|].
  intros [y s2] _. cbn. rewrite i64_id by (unfold is_i64; lia). done.
Qed.

(** The streams a kind may reject draws from accept them within the fuel. *)
Definition draws_accepted cfg p : Prop :=
  (latencyEnabled cfg = true -> forall s, p_latency p = Some s -> accepting s) /\
  (corruptEnabled cfg = true -> forall s, p_corrupt p = Some s -> accepting s).

Lemma bernoulli_snd rate s : bernoulli rate s = (fst (bernoulli rate s), after 1 s).
Proof. rewrite <- (bernoulli_one_draw rate s). by destruct (bernoulli rate s). Qed.

Lemma drawLoss_wp b cfg p :
  wired p -> wp b (drawLoss cfg p) (fun r => exists l, snd r = set_loss p (Some l)).
Proof.
  intros ([l El] & _). unfold drawLoss. destruct (lossEnabled cfg); rewrite ?El; cbn [deref mbind go_bind].
  - rewrite bernoulli_snd. cbn. eauto.
  - cbn. exists l. rewrite <- El. by destruct p.
Qed.

Lemma drawDuplicate_wp b cfg p :
  wired p -> wp b (drawDuplicate cfg p) (fun r => exists d, snd r = set_duplicate p (Some d)).
Proof.
  intros (_ & _ & [d Ed] & _). unfold drawDuplicate.
  destruct (duplicateEnabled cfg); rewrite ?Ed; cbn [deref mbind go_bind].
  - rewrite bernoulli_snd. cbn. eauto.
  - cbn. exists d. rewrite <- Ed. by destruct p.
Qed.

Lemma drawCorrupt_wp b cfg p :
  wired p -> (b = false -> corruptEnabled cfg = true -> forall s, p_corrupt p = Some s -> accepting s) ->
  wp b (drawCorrupt cfg p) (fun r => exists c, snd r = set_corrupt p (Some c) /\
    (fst r = true -> b = false -> accepting c)).
Proof.
  intros (_ & _ & _ & [c Ec]) Ha. unfold drawCorrupt.
  destruct (corruptEnabled cfg) eqn:En; rewrite ?Ec; cbn [deref mbind go_bind].
  - rewrite bernoulli_snd. cbn -[after]. eexists. split; [done|].
    intros _ Hb. by apply accepting_after, Ha.
  - cbn. exists c. rewrite <- Ec. split; [by destruct p|done].
Qed.

Lemma drawLatency_wp b cfg p :
  wired p -> config_ok cfg ->
  (b = false -> latencyEnabled cfg = true -> forall s, p_latency p = Some s -> accepting s) ->
  wp b (drawLatency cfg p) (fun r => exists t, snd r = set_latency p (Some t)).
Proof.
  intros (_ & [t Et] & _ & _) (Hc & _) Ha. unfold drawLatency.
  destruct (latencyEnabled cfg) eqn:En; rewrite ?Et; cbn [deref mbind go_bind].
  - destruct (Hc eq_refl) as [H1 H2]. apply wp_bind. eapply wp_mono.
    + apply uniformDuration_wp; [done|done|]. intros Hb. by apply Ha.
    + intros [d t'] _. cbn. eauto.
  - cbn. exists t. rewrite <- Et. by destruct p.
Qed.

Lemma corruptUnit_wp b corrupted data p :
  zlen data < 2 ^ 63 ->
  (corrupted = true -> exists c, p_corrupt p = Some c /\ (b = false -> accepting c)) ->
  wp b (corruptUnit corrupted data p) (fun r => zlen (r.1.1.1) = zlen data).
Proof.
  intros Hlen Hc. unfold corruptUnit. destruct (corrupted && _) eqn:E; [|done].
  apply andb_true_iff in E as [E1 E2%Z.ltb_lt]. destruct (Hc E1) as (c & Ec & Ha).
  rewrite Ec. cbn [deref]. apply wp_bind. cbn [wp]. apply wp_bind.
  eapply wp_mono; [by apply corruptionSite_wp|]. intros [[bi ti] s'] Hbi. cbn in Hbi.
  apply wp_bind. unfold flipBit.
  rewrite (proj2 (andb_true_iff _ _)) by (split; [apply Z.leb_le|apply Z.ltb_lt]; lia).
  destruct (data !! Z.to_nat bi) as [x|] eqn:El; cbn.
  - unfold zlen. by rewrite length_insert.
  - apply lookup_ge_None in El. unfold zlen in *. lia.
Qed.

Lemma throttle_wp b now cfg size p :
  config_ok cfg -> 0 <= size < 2 ^ 63 -> wp b (throttle now cfg size p) (fun _ => True).
Proof.
  intros (_ & Hc & _) Hs. unfold throttle. destruct (bandwidthEnabled cfg) eqn:En; [|done].
  destruct (serializationDelay_total size (bandwidthBPS cfg) Hs (Hc eq_refl)) as (d & -> & _). done.
Qed.

Lemma deliverUnit_wp b v fp p data :
  wired p -> config_ok (current v fp) -> zlen data < 2 ^ 63 ->
  (b = false -> draws_accepted (current v fp) p) ->
  wp b (deliverUnit v fp p data) (fun _ => True).
Proof.
  intros (Hl & Ht & Hd & Hco) Hc Hlen Ha. unfold deliverUnit. destruct (_ && _); [done|].
  apply wp_bind. eapply wp_mono; [by apply drawLoss_wp|]. intros [dropped p1] [l El]. cbn in El. subst p1.
  apply wp_bind. eapply wp_mono.
  { apply drawLatency_wp; [by split_and!; [eexists|..]|done|]. intros Hb. by apply (Ha Hb). }
  intros [drawn p2] [t Et]. cbn in Et. subst p2.
  apply wp_bind. eapply wp_mono; [apply drawDuplicate_wp; by split_and!; [eexists|eexists|..]|].
  intros [dup p3] [d Ed]. cbn in Ed. subst p3.
  apply wp_bind. eapply wp_mono.
  { apply drawCorrupt_wp; [by split_and!; [eexists|eexists|eexists|]|]. intros Hb. by apply (Ha Hb). }
  intros [cor p4] (c & Ec & Hcor). cbn in Ec, Hcor. subst p4.
  destruct dropped; [done|].
  apply wp_bind. eapply wp_mono.
  { apply corruptUnit_wp; [done|]. intros E. exists c. split; [done|]. by apply Hcor. }
  intros [[[data' cb] ct] p5] Hlen'. cbn in Hlen'.
  apply wp_bind. eapply wp_mono.
  { apply throttle_wp; [done|]. rewrite Hlen'. pose proof (zlen_nonneg data). lia. }
  intros [[base ser] p6] _. by destruct (_ && _).
Qed.

(** The evaluator cannot fail. On a pipe of a connection, under any
    configuration the validation accepts, delivering a unit never panics (no nil
    stream, no index out of range, no overflowing division), and it returns
    whenever every bounded draw is accepted within the fuel. *)
Theorem evaluator_safe v fp p data :
  wired p -> config_ok (current v fp) -> zlen data < 2 ^ 63 ->
  (forall msg, deliverUnit v fp p data <> Panic msg) /\
  (draws_accepted (current v fp) p -> returns (deliverUnit v fp p data)).
Proof.
  intros Hw Hc Hlen. split.
  - intros msg. eapply wp_safe, deliverUnit_wp; done.
  - intros Ha. destruct (wp_returns (deliverUnit v fp p data) (fun _ => True)) as (p' & E & _).
    + by apply deliverUnit_wp.
    + by exists p'.
Qed.
End safety.

(** ** The draw discipline *)

Section discipline.
Context {Src : Type} `{!DrawSource Src} `{!RejectFuel}.
Implicit Types (p : pipe Src) (data : list Z) (cfg : faultConfig) (v : netView) (fp : faultPolicy).

(** A sequence of units written into one direction, each under what its write
    observes of the Network. *)
Fixpoint deliverAll fp (units : list (netView * list Z)) p : go (pipe Src) :=
  match units with
  | [] => Ret p
  | (v, data) :: units => p ← deliverUnit v fp p data; deliverAll fp units p
  end.

(** The decisions of one Bernoulli kind read off its own stream alone: one draw
    per unit past the gate while the kind is configured. *)
Fixpoint kind_decisions (enabled : faultConfig -> bool) (rate : faultConfig -> float64) fp
    (units : list (netView * list Z)) (s : stream Src) : list bool :=
  match units with
  | [] => []
  | (v, _) :: units =>
      if gated v fp then false :: kind_decisions enabled rate fp units s
      else if enabled (current v fp) then
        fst (bernoulli (rate (current v fp)) s) :: kind_decisions enabled rate fp units (after 1 s)
      else false :: kind_decisions enabled rate fp units s
  end.

Lemma deliverUnit_decisions v fp p data p' :
  zlen data < 2 ^ 63 -> deliverUnit v fp p data = Ret p' ->
  exists ev, p_trace p' = record ev <$> p_trace p /\
    if gated v fp then
      fe_dropped ev = false /\ fe_duplicated ev = false /\
      p_loss p' = p_loss p /\ p_duplicate p' = p_duplicate p
    else
      decision (lossEnabled (current v fp)) (lossRate (current v fp)) (p_loss p) (p_loss p') (fe_dropped ev) /\
      decision (duplicateEnabled (current v fp)) (duplicateRate (current v fp))
        (p_duplicate p) (p_duplicate p') (fe_duplicated ev).
Proof.
  intros Hlen [copies Ho]%deliverUnit_inv; [|done].
  destruct Ho as [Hn Hp| ? ? ? ? ds Hg Hd Hdr| ? ? ? ? ? ds ? ? ? Hg Hd Hdr _ _ _
    | ? ? ? ? ? ds ? ? ? ? ? ? ? Hg Hd Hdr _ _ _ _]; unfold gated; rewrite recordEvent_eq.
  - rewrite Hn, Hp. eexists. by split_and!.
  - rewrite Hg. exists (droppedEvent ds (zlen data)). split; [done|].
    destruct Hd as (Hl & _ & Hdu & _). by rewrite Hdr in Hl.
  - rewrite Hg, deliverNow_eq. cbn. eexists. split; [done|].
    destruct Hd as (Hl & _ & Hdu & _). by rewrite Hdr in Hl.
  - rewrite Hg. open_deliverLater. cbn. eexists. split; [done|].
    destruct Hd as (Hl & _ & Hdu & _). by rewrite Hdr in Hl.
Qed.

(** One step of [kind_decisions]. *)
Lemma kind_decisions_cons enabled rate fp v data units s s' b :
  gated v fp = false -> decision (enabled (current v fp)) (rate (current v fp)) (Some s) s' b ->
  exists s1, s' = Some s1 /\
    kind_decisions enabled rate fp ((v, data) :: units) s = b :: kind_decisions enabled rate fp units s1.
Proof.
  intros Hg Hd. cbn [kind_decisions]. rewrite Hg. unfold decision in Hd. destruct (enabled _).
  - destruct Hd as (st & [= <-] & -> & ->). eauto.
  - destruct Hd as [-> ->]. eauto.
Qed.

(** The draw discipline for loss and duplication. Over any sequence of
    writes the loss decisions recorded are exactly those the loss stream yields,
    one draw per unit past the partition gate, and likewise for duplication:
    payloads, times and every other fault kind are irrelevant to them. *)
Theorem draw_discipline fp units p p' sl sd evs :
  Forall (fun u => zlen (snd u) < 2 ^ 63) units ->
  p_loss p = Some sl -> p_duplicate p = Some sd -> p_trace p = Some evs ->
  deliverAll fp units p = Ret p' ->
  exists evs', p_trace p' = Some (evs ++ evs') /\
    map fe_dropped evs' = kind_decisions lossEnabled lossRate fp units sl /\
    map fe_duplicated evs' = kind_decisions duplicateEnabled duplicateRate fp units sd.
Proof.
  intros Hlen. revert p sl sd evs. induction Hlen as [|[v data] units Hd _ IH]; intros p sl sd evs El Ed Et.
  { intros [= <-]. exists []. by rewrite app_nil_r. }
  cbn [deliverAll]. intros (p1 & H1 & H2)%go_bind_ret.
  destruct (deliverUnit_decisions _ _ _ _ _ Hd H1) as (ev & Ht & Hdec). rewrite Et in Ht. cbn in Ht.
  destruct (gated v fp) eqn:Hg.
  - destruct Hdec as (D1 & D2 & L1 & L2). rewrite El in L1. rewrite Ed in L2.
    destruct (IH _ _ _ _ L1 L2 Ht H2) as (evs' & -> & M1 & M2).
    unfold record. rewrite <- app_assoc. eexists. split; [done|].
    cbn. by rewrite Hg, M1, M2, D1, D2.
  - destruct Hdec as (D1 & D2). rewrite El in D1. rewrite Ed in D2.
    destruct (kind_decisions_cons lossEnabled lossRate fp v data units sl _ _ Hg D1) as (sl' & L1 & ->).
    destruct (kind_decisions_cons duplicateEnabled duplicateRate fp v data units sd _ _ Hg D2) as (sd' & L2 & ->).
    destruct (IH _ _ _ _ L1 L2 Ht H2) as (evs' & -> & M1 & M2).
    unfold record. rewrite <- app_assoc. eexists. split; [done|].
    cbn. by rewrite M1, M2.
Qed.
End discipline.

(** ** Concrete pipes and configurations *)

Definition noFaults : faultConfig :=
  mkFaultConfig false f64_zero false 0 0 false 0 false f64_zero false f64_zero.

(** The float64 1/2. *)
Definition f64_half : float64 := S754_finite false (2 ^ 52)%positive (-53).

(** Corruption at rate 1/2, alone and together with a loss of everything. *)
Definition corruptHalf : faultConfig :=
  mkFaultConfig false f64_zero false 0 0 false 0 false f64_zero true f64_half.
Definition corruptHalf_lossAll : faultConfig :=
  mkFaultConfig true f64_one false 0 0 false 0 false f64_zero true f64_half.

Definition static_policy (cfg : faultConfig) : faultPolicy :=
  mkFaultPolicy false (mkPairKey "" "") cfg.

Definition idle_view : netView := mkNetView 1000 (mkPartState ∅ 0%nat) noFaults.

(** A pipe of connection [ordinal]'s dialer side with tracing on. *)
Definition derived_pipe {Src} `{!DrawSource Src} (seed ordinal : Z) : pipe Src :=
  mkPipe [] 0 false false false 0%nat defaultPipeBound passThrough false (mkPairKey "" "")
    (Some (deriveStream seed ordinal sideDialer kindLoss))
    (Some (deriveStream seed ordinal sideDialer kindLatency))
    (Some (deriveStream seed ordinal sideDialer kindDuplicate))
    (Some (deriveStream seed ordinal sideDialer kindCorrupt))
    (Some []) [] None zeroTime 0.

(** The corruption decisions recorded for writes of one byte each. *)
Definition corrupt_decisions (cfg : faultConfig) (n : nat) (p : pipe ChaCha8) : go (list bool) :=
  p ← @deliverAll ChaCha8 _ (64%nat : RejectFuel) (static_policy cfg) (repeat (idle_view, [65]) n) p;
  r ← deref (p_trace p);
  Ret (map fe_corrupted r).

(** Corruption is outside the draw discipline: its decisions do depend on
    another fault. With the default seed, the same writes and the same
    corruption rate, merely adding packet loss changes the corruption decision
    of the second write, because the site of a dropped unit is not drawn and the
    stream falls behind. *)
Theorem corruption_decisions_depend_on_loss :
  corrupt_decisions corruptHalf 2 (derived_pipe 1 0) = Ret [true; false] /\
  corrupt_decisions corruptHalf_lossAll 2 (derived_pipe 1 0) = Ret [true; true].
Proof. split; vm_compute; reflexivity. Qed.

(** ** Witnesses *)

(** A pipe whose streams replay given draws. *)
Definition scripted_pipe (l t d c : list Z) (pending : list pendingUnit) : pipe (list Z) :=
  mkPipe [[9]] 4 false false false 0%nat 64 passThrough false (mkPairKey "" "")
    (Some (mkStream l)) (Some (mkStream t)) (Some (mkStream d)) (Some (mkStream c))
    (Some []) pending None zeroTime 0.

(** Every fault kind on, each Bernoulli kind at rate 1/2, latency in [5, 7]. *)
Definition allFaults : faultConfig :=
  mkFaultConfig true f64_half true 5 7 true 1000000000 true f64_half true f64_half.

Definition partitioned_view : netView :=
  mkNetView 1000 (mkPartState {[ newPairKey "a" "b" ]} 1%nat) allFaults.
Definition live_policy : faultPolicy := mkFaultPolicy true (newPairKey "b" "a") noFaults.
Definition live_view : netView := mkNetView 1000 (mkPartState ∅ 1%nat) allFaults.

(** Draws below and above the rate 1/2. *)
Definition low : Z := 1.
Definition high : Z := 2 ^ 64 - 1.

Lemma partition_gate_witness :
  exists p', @deliverUnit (list Z) _ (3%nat : RejectFuel) partitioned_view live_policy
      (scripted_pipe [low] [low] [low] [low] []) [1; 2; 3] = Ret p' /\ p_loss p' = Some (mkStream [low]).
Proof.
  destruct (@partition_gate (list Z) _ (3%nat : RejectFuel) partitioned_view live_policy
    (scripted_pipe [low] [low] [low] [low] []) [1; 2; 3]) as (p' & E & Hl & _).
  - by vm_compute.
  - exists p'. split; [exact E|exact Hl].
Defined.

Lemma dropped_unit_witness :
  exists p', @deliverUnit (list Z) _ (3%nat : RejectFuel) live_view live_policy
      (scripted_pipe [low] [high] [low] [low] []) [1; 2; 3] = Ret p' /\ p_loss p' = Some (mkStream []).
Proof.
  eexists. split; [vm_compute; reflexivity|].
  refine (proj1 (proj2 (proj2 (proj2 (proj2
    (@dropped_unit (list Z) _ (3%nat : RejectFuel) live_view live_policy
      (scripted_pipe [low] [high] [low] [low] []) [1; 2; 3] _ (mkStream [low]) _ _ _ _ _ _))))));
    vm_compute; reflexivity.
Defined.

Lemma delivered_content_witness :
  exists p' ev data',
    @deliverUnit (list Z) _ (3%nat : RejectFuel) live_view live_policy
      (scripted_pipe [high] [high] [low] [low; high; high] []) [1; 2; 3] = Ret p' /\
    p_trace p' = record ev <$> Some [] /\ fe_dropped ev = false /\
    if fe_corrupted ev && (0 <? 3) then one_bit_flipped [1; 2; 3] data' (fe_corruptByte ev) (fe_corruptBit ev)
    else data' = [1; 2; 3] /\ fe_corruptByte ev = 0 /\ fe_corruptBit ev = 0.
Proof.
  eexists.
  refine (match @delivered_content (list Z) _ (3%nat : RejectFuel) live_view live_policy
    (scripted_pipe [high] [high] [low] [low; high; high] []) [1; 2; 3] _ _ _ _ _ with
    | ex_intro _ ev (ex_intro _ d H) => _ end).
  - vm_compute; reflexivity.
  - vm_compute; reflexivity.
  - intros s _ [= <-]. vm_compute. reflexivity.
  - vm_compute. reflexivity.
  - exists ev, d. split; [vm_compute; reflexivity|]. destruct H as (H1 & _ & H2 & _ & _ & _ & H3). done.
Defined.


(** A source whose draws no bound ever rejects. *)
Definition max_uint64 (u : unit) : Z * unit := (2 ^ 64 - 1, u).

Lemma max_uint64_range u : is_u64 (fst (max_uint64 u)).
Proof. unfold is_u64. cbn. lia. Qed.

#[export] Instance max_source : DrawSource unit := {
  src_of_key := fun _ => tt;
  src_uint64 := max_uint64;
  src_uint64_range := max_uint64_range
}.

Lemma max_source_accepting (fuel : RejectFuel) (s : stream unit) : @accepting unit _ fuel s.
Proof.
  intros n k Hn. exists 0%nat. split; [lia|]. split; [|lia].
  unfold draw. cbn [after]. change (fst (next (after k s))) with (2 ^ 64 - 1).
  unfold lemire_accepts. rewrite lemire_thresh_mod by done. unfold Mul64. cbn [snd].
  rewrite negb_true_iff, Z.ltb_ge.
  replace ((2 ^ 64 - 1) * n) with ((2 ^ 64 - n) + (n - 1) * 2 ^ 64) by lia.
  rewrite Z_mod_plus_full, (Z.mod_small (2 ^ 64 - n)) by lia.
  pose proof (Z.div_mod (2 ^ 64) n ltac:(lia)) as E. pose proof (Z.mod_pos_bound (2 ^ 64) n ltac:(lia)).
  assert (1 <= 2 ^ 64 / n) by (apply Z.div_le_lower_bound; lia). nia.
Qed.

Definition max_pipe : pipe unit := derived_pipe 1 0.

Lemma evaluator_safe_witness :
  returns (@deliverUnit unit _ (0%nat : RejectFuel) live_view live_policy max_pipe [1; 2; 3]).
Proof.
  apply (@evaluator_safe unit _ (0%nat : RejectFuel) live_view live_policy max_pipe [1; 2; 3]).
  - split_and!; eexists; reflexivity.
  - split_and!; try reflexivity; intros _; cbn; lia.
  - reflexivity.
  - split; intros _ s _; apply max_source_accepting.
Defined.

Definition witness_units : list (netView * list Z) :=
  [(live_view, [1; 2]); (partitioned_view, [3]); (live_view, [])].
Definition witness_pipe : pipe (list Z) :=
  scripted_pipe [low; high] [high; high] [high; low] [high; high] [].
Definition witness_run : go (pipe (list Z)) :=
  @deliverAll (list Z) _ (3%nat : RejectFuel) live_policy witness_units witness_pipe.

Lemma draw_discipline_witness :
  exists p' evs', witness_run = Ret p' /\
    p_trace p' = Some ([] ++ evs') /\ map fe_dropped evs' = [true; false; false] /\
    map fe_duplicated evs' = [false; false; true].
Proof.
  destruct witness_run as [p'| |] eqn:E; [|vm_compute in E; discriminate E..].
  exists p'.
  assert (Forall (fun u => zlen (snd u) < 2 ^ 63) witness_units) as Hlen
    by (repeat (apply Forall_cons; split; [reflexivity|]); by apply Forall_nil).
  destruct (@draw_discipline (list Z) _ (3%nat : RejectFuel) live_policy witness_units witness_pipe p'
    (mkStream [low; high]) (mkStream [high; low]) [] Hlen eq_refl eq_refl eq_refl E)
    as (evs' & H1 & H2 & H3).
  exists evs'. split; [reflexivity|]. split; [exact H1|]. split; [exact H2|exact H3].
Defined.
