(* ===== verification/Pipe.v ===== *)
(** * Pipe operations (pipe.go): [tryRead], [tryWrite], [close], [abort]

    Each runs with the pipe's mutex held and is one step of the model. *)
From S2P Require Import Prelude GoRuntime Errors Rand Partition Trace PipeState Faults.

(** The channel a blocked caller waits on. *)
Inductive waitChan : Type :=
| onPipe (g : generation)       (** [p.notify] *)
| onPartition (g : generation). (** the Network's [partNotify] *)

(** [(n, nil, err)] is [Done] with the bytes moved; [(0, ch, nil)] is [Wait]. *)
Inductive tryResult (A : Type) : Type :=
| Done (a : A) (err : option goerror)
| Wait (ch : waitChan).
Arguments Done {A} _ _.
Arguments Wait {A} _.

(** The copy loop of [tryRead]: the bytes copied into a buffer with [space]
    bytes left, and the remaining queue. *)
Fixpoint copyOut (readable : list (list Z)) (space : nat) : list Z * list (list Z) :=
  match readable with
  | [] => ([], [])
  | chunk :: rest =>
      if Nat.eqb space 0 then ([], readable)
      else
        let copied := Nat.min (length chunk) space in
        if Nat.eqb copied (length chunk) then
          let '(out, remaining) := copyOut rest (space - copied) in
          (take copied chunk ++ out, remaining)
        else (take copied chunk, drop copied chunk :: rest)
  end.

Section ops.
Context {Src : Type} `{!DrawSource Src} `{!RejectFuel}.
Implicit Types (p : pipe Src).

(** The end-of-stream half of [tryRead], reached when no byte was moved. *)
Definition tryReadEOF (v : netView) p : tryResult (list Z) * pipe Src :=
  if p_closed p && bool_decide (p_pending p = []) then
    if p_eofSeen p then (Done [] (Some EOF), p)
    else if p_partitionNetwork p then
      let '(partitioned, partCh) := checkPartition (nv_parts v) (p_partitionPair p) in
      if partitioned then (Wait (onPartition partCh), p)
      else (Done [] (Some EOF), set_eofSeen p true)
    else (Done [] (Some EOF), set_eofSeen p true)
  else (Wait (onPipe (p_notify p)), p).

(** [tryRead] with a buffer of [n] bytes; the bytes of [Done] are its prefix. *)
Definition tryRead (v : netView) p (n : nat) : tryResult (list Z) * pipe Src :=
  if p_readClosed p then (Done [] (Some EOF), p)
  else
    match p_readable p with
    | [] => tryReadEOF v p
    | _ =>
        let '(out, remaining) := copyOut (p_readable p) n in
        let p := set_readable p remaining in
        let p := set_bufBytes p (p_bufBytes p - zlen out) in
        let p := broadcastLocked p in
        if (0 <? zlen out) || Nat.eqb n 0 then (Done out None, p)
        else tryReadEOF v p
    end.

Definition tryWrite (v : netView) p (data : list Z) : go (tryResult Z * pipe Src) :=
  if p_closed p || p_readClosed p then Ret (Done 0 (Some ErrClosedPipe), p)
  else if (p_bufBytes p =? 0) || (p_bufBytes p + zlen data <=? p_bound p) then
    let p := set_bufBytes p (p_bufBytes p + zlen data) in
    p ← runDeliver v p data;
    Ret (Done (zlen data) None, p)
  else Ret (Wait (onPipe (p_notify p)), p).

Definition close p : pipe Src :=
  if p_closed p then p else broadcastLocked (set_closed p true).

Definition abort p : pipe Src :=
  if p_readClosed p then p
  else
    let p := set_readClosed p true in
    let p := set_closed p true in
    let p := set_timer p None in
    let p := set_pending p [] in
    let p := set_readable p [] in
    let p := set_bufBytes p 0 in
    broadcastLocked p.
End ops.
