(* ===== verification/PipeInv.v ===== *)
(** * The pipe as a byte stream

    The abstract stream a pipe promises ([stream_step]), the invariant of a pipe
    ([pipe_ok]), and the refinement: every operation of a pipe keeps the
    invariant and is a transition of the stream. *)
From S2P Require Import Prelude GoRuntime Errors Rand Partition Trace Bandwidth PipeState Faults FaultProps Pipe.

(** ** The abstract byte stream *)

Record byteStream : Type := mkByteStream {
  bs_ready : list Z;           (** bytes a reader may take now *)
  bs_delayed : list (list Z);  (** units still on their way, oldest first *)
  bs_closed : bool;            (** no further write is accepted *)
  bs_aborted : bool;           (** the reading end is gone *)
  bs_ended : bool              (** a reader has been told of the end of stream *)
}.

(** The bytes on their way to the reader, in reading order. *)
Definition bs_flight (b : byteStream) : list Z := bs_ready b ++ concat (bs_delayed b).

(** What the stream depends on outside itself: the configuration and the gate
    each write is evaluated under, the capacity, and whether the end of stream
    is being held back. *)
Record streamParams : Type := mkStreamParams {
  sp_config : netView -> faultConfig;
  sp_gate : netView -> bool;
  sp_bound : Z;
  sp_holdEOF : netView -> bool
}.

(** The units one accepted write puts on their way: nothing when partitioned or
    lost, else one copy, or two when duplicated, of the payload with at most one
    bit flipped. *)
Definition transmission (cfg : faultConfig) (partitioned : bool) (data : list Z) (us : list (list Z)) : Prop :=
  if partitioned then us = []
  else
    (lossEnabled cfg = true /\ us = []) \/
    exists d,
      (d = data \/ corruptEnabled cfg = true /\ exists bi ti, one_bit_flipped data d bi ti) /\
      (us = [d] \/ duplicateEnabled cfg = true /\ us = [d; d]).

Definition holds_back (cfg : faultConfig) : bool := latencyEnabled cfg || bandwidthEnabled cfg.

(** Whether a write of [data] is admitted: an empty stream takes any payload. *)
Definition admits (bound : Z) (b : byteStream) (data : list Z) : Prop :=
  bs_flight b = [] \/ zlen (bs_flight b) + zlen data <= bound.

(** The transitions of the stream; a label carries the call and its result. *)
Inductive label : Type :=
| LWrite (v : netView) (data : list Z) (r : tryResult Z)
| LRead (v : netView) (n : nat) (r : tryResult (list Z))
| LRelease (now : Time)
| LClose
| LAbort.

Inductive stream_step (sp : streamParams) : byteStream -> label -> byteStream -> Prop :=
| ss_write_refused v data b :
    bs_closed b || bs_aborted b = true ->
    stream_step sp b (LWrite v data (Done 0 (Some ErrClosedPipe))) b
| ss_write_blocked v data b g :
    bs_closed b || bs_aborted b = false -> ~ admits (sp_bound sp) b data ->
    stream_step sp b (LWrite v data (Wait g)) b
| ss_write_now v data q e us :
    admits (sp_bound sp) (mkByteStream q [] false false e) data ->
    transmission (sp_config sp v) (sp_gate sp v) data us ->
    holds_back (sp_config sp v) = false ->
    stream_step sp (mkByteStream q [] false false e) (LWrite v data (Done (zlen data) None))
      (mkByteStream (q ++ concat us) [] false false e)
| ss_write_later v data q d e us :
    admits (sp_bound sp) (mkByteStream q d false false e) data ->
    transmission (sp_config sp v) (sp_gate sp v) data us ->
    holds_back (sp_config sp v) = true \/ us = [] ->
    stream_step sp (mkByteStream q d false false e) (LWrite v data (Done (zlen data) None))
      (mkByteStream q (d ++ us) false false e)
| ss_read v n out q d c e :
    length out = Nat.min n (length (out ++ q)) -> (out = [] -> n = 0%nat) ->
    stream_step sp (mkByteStream (out ++ q) d c false e) (LRead v n (Done out None))
      (mkByteStream q d c false e)
| ss_read_blocked v n g d c e :
    c = false \/ d <> [] \/ (e = false /\ sp_holdEOF sp v = true) ->
    stream_step sp (mkByteStream [] d c false e) (LRead v n (Wait g)) (mkByteStream [] d c false e)
| ss_read_eof v n e :
    e = true \/ sp_holdEOF sp v = false ->
    stream_step sp (mkByteStream [] [] true false e) (LRead v n (Done [] (Some EOF)))
      (mkByteStream [] [] true false true)
| ss_read_aborted v n b :
    bs_aborted b = true -> stream_step sp b (LRead v n (Done [] (Some EOF))) b
| ss_release now q us d c a e :
    stream_step sp (mkByteStream q (us ++ d) c a e) (LRelease now) (mkByteStream (q ++ concat us) d c a e)
| ss_close q d c a e :
    stream_step sp (mkByteStream q d c a e) LClose (mkByteStream q d true a e)
| ss_abort q d c a e :
    stream_step sp (mkByteStream q d c a e) LAbort (mkByteStream [] [] true true e).

(** ** The copy loop *)

Lemma copyOut_spec readable n out rest :
  copyOut readable n = (out, rest) ->
  out ++ concat rest = concat readable /\ (length out <= n)%nat /\
  ((length out < n)%nat -> rest = []).
Proof.
  revert n out rest. induction readable as [|chunk readable IH]; intros n out rest; cbn [copyOut].
  { intros [= <- <-]. cbn. split_and!; [done|lia|done]. }
  destruct (Nat.eqb_spec n 0) as [->|Hn].
  { intros [= <- <-]. cbn. split_and!; [done|lia|lia]. }
  destruct (Nat.eqb_spec (Nat.min (length chunk) n) (length chunk)) as [Hm|Hm].
  - rewrite Hm, firstn_all. destruct (copyOut readable (n - length chunk)) as [o r] eqn:E.
    intros [= <- <-]. destruct (IH _ _ _ E) as (H1 & H2 & H3). rewrite length_app. split_and!.
    + cbn. by rewrite <- H1, app_assoc.
    + lia.
    + intros Hlt. apply H3. lia.
  - intros [= <- <-]. rewrite length_take. split_and!; [|lia|lia].
    cbn. by rewrite app_assoc, take_drop.
Qed.

(** Reading moves bytes, never past the end of the buffer, and leaves payloads
    only when the buffer is full. *)
Lemma copyOut_empty readable n rest :
  copyOut readable n = ([], rest) -> n <> 0%nat -> rest = [] /\ concat readable = [].
Proof.
  intros (H1 & H2 & H3)%copyOut_spec Hn. cbn in *. rewrite H3 in * by lia. by split.
Qed.

(** ** Steps and invariant of a pipe *)

Section pipes.
Context {Src : Type} `{!DrawSource Src} `{!RejectFuel}.
Implicit Types (p : pipe Src) (data : list Z) (v : netView).

Definition stream_of p : byteStream :=
  mkByteStream (concat (p_readable p)) (map pu_data (p_pending p)) (p_closed p) (p_readClosed p) (p_eofSeen p).

Definition flight p : list Z := bs_flight (stream_of p).

(** The configuration and gate a write of [p] is evaluated under. *)
Definition unit_config p v : faultConfig :=
  match p_deliver p with
  | passThrough => noFaults
  | faultEvaluator fp => current v fp
  end.

Definition unit_gated p v : bool :=
  match p_deliver p with
  | passThrough => false
  | faultEvaluator fp => gated v fp
  end.

Definition holds_eof p v : bool :=
  p_partitionNetwork p && isPartitioned (nv_parts v) (p_partitionPair p).

Definition params_of p : streamParams :=
  mkStreamParams (unit_config p) (unit_gated p) (p_bound p) (holds_eof p).

(** What a write may assume of its surroundings: a payload that fits in
    memory, a validated configuration, and delays that are never switched off
    again (the setters only ever enable). *)
Definition write_env p v data : Prop :=
  zlen data < 2 ^ 63 /\ config_ok (unit_config p v) /\
  (p_pending p <> [] -> holds_back (unit_config p v) = true).

Inductive pipe_step : pipe Src -> label -> pipe Src -> Prop :=
| ps_write p v data r p' :
    write_env p v data -> tryWrite v p data = Ret (r, p') -> pipe_step p (LWrite v data r) p'
| ps_read p v n r p' : tryRead v p n = (r, p') -> pipe_step p (LRead v n r) p'
| ps_release p now : pipe_step p (LRelease now) (releaseDueLatency now p)
| ps_close p : pipe_step p LClose (close p)
| ps_abort p : pipe_step p LAbort (abort p).

Definition release_le (u w : pendingUnit) : Prop := pu_releaseAt u <= pu_releaseAt w.

Record pipe_ok p : Prop := {
  ok_bytes : p_bufBytes p = zlen (flight p);
  ok_sorted : StronglySorted release_le (p_pending p);
  ok_timer : match p_pending p with
             | [] => p_timer p = None
             | u :: _ => exists t, p_timer p = Some t /\ t <= pu_releaseAt u
             end;
  ok_aborted : p_readClosed p = true -> p_closed p = true /\ p_readable p = [] /\ p_pending p = [];
  ok_eof : p_eofSeen p = true -> p_closed p = true /\ p_readable p = [] /\ p_pending p = []
}.

(** The parts of a pipe its stream parameters are read from. *)
Definition same_params p p' : Prop :=
  p_deliver p' = p_deliver p /\ p_bound p' = p_bound p /\
  p_partitionNetwork p' = p_partitionNetwork p /\ p_partitionPair p' = p_partitionPair p.

(** A pipe keeps its invariant and its parameters and moves as the stream. *)
Definition refines p (l : label) p' : Prop :=
  pipe_ok p' /\ same_params p p' /\ stream_step (params_of p) (stream_of p) l (stream_of p').

Lemma newPipe_ok bound : pipe_ok (newPipe bound).
Proof. split; cbn; try done. constructor. Qed.

(** *** Reading *)

Lemma set_eofSeen_ok p :
  pipe_ok p -> p_closed p = true -> p_readable p = [] -> p_pending p = [] -> pipe_ok (set_eofSeen p true).
Proof. intros [Hb Hs Ht Ha He] Hc Hr Hp. by split; cbn. Qed.

Lemma tryReadEOF_sound v p n r p' :
  pipe_ok p -> p_readClosed p = false -> p_readable p = [] -> tryReadEOF v p = (r, p') ->
  refines p (LRead v n r) p'.
Proof.
  intros Hok Hrc Hr. unfold tryReadEOF, refines, stream_of. rewrite Hr, Hrc.
  destruct (p_closed p) eqn:Ec; cbn [andb].
  2: { intros [= <- <-]. rewrite Hr, Hrc, Ec. split_and!; [done..|]. constructor. by left. }
  destruct (bool_decide_reflect (p_pending p = [])) as [Ep|Ep].
  2: { intros [= <- <-]. rewrite Hr, Hrc, Ec. split_and!; [done..|]. constructor.
       right. left. by destruct (p_pending p). }
  rewrite Ep. pose proof (set_eofSeen_ok p Hok Ec Hr Ep) as Hok'.
  destruct (p_eofSeen p) eqn:Ee.
  { intros [= <- <-]. rewrite Hr, Hrc, Ec, Ep, Ee. split_and!; [done..|]. constructor. by left. }
  destruct (p_partitionNetwork p) eqn:En; cbn.
  2: { intros [= <- <-]. cbn. rewrite Hr, Hrc, Ec, Ep. split_and!; [done..|].
       constructor. right. cbn. unfold holds_eof. by rewrite En. }
  destruct (bool_decide (p_partitionPair p ∈ partitions (nv_parts v))) eqn:Eg; intros [= <- <-]; cbn;
    rewrite Hr, Hrc, Ec, Ep, ?Ee; (split_and!; [done..|]); constructor; right; [right; split; [done|]|];
    cbn; unfold holds_eof, isPartitioned; by rewrite En, Eg.
Qed.

(** The pipe after the copy loop. *)
Definition consumed p (out : list Z) (rest : list (list Z)) : pipe Src :=
  broadcastLocked (set_bufBytes (set_readable p rest) (p_bufBytes p - zlen out)).

Lemma consumed_ok p n out rest :
  pipe_ok p -> p_readClosed p = false -> p_readable p <> [] -> copyOut (p_readable p) n = (out, rest) ->
  pipe_ok (consumed p out rest) /\ concat (p_readable p) = out ++ concat rest.
Proof.
  intros [Hb Hs Ht Ha He] Hrc Hne (H1 & _ & _)%copyOut_spec.
  split; [|done]. split; cbn; try done.
  - rewrite Hb. unfold flight, bs_flight, consumed. cbn. rewrite <- H1, !zlen_app. lia.
  - congruence.
  - intros Heof. by destruct (He Heof) as (_ & ? & _).
Qed.

Lemma tryRead_sound v p n r p' :
  pipe_ok p -> tryRead v p n = (r, p') -> refines p (LRead v n r) p'.
Proof.
  intros Hok. unfold tryRead. destruct (p_readClosed p) eqn:Hrc.
  { intros [= <- <-]. split_and!; [done..|]. by apply ss_read_aborted. }
  destruct (p_readable p) as [|c cs] eqn:Er; [by apply tryReadEOF_sound|].
  rewrite <- Er. destruct (copyOut (p_readable p) n) as [out rest] eqn:Ec.
  destruct (consumed_ok p n out rest Hok Hrc ltac:(by rewrite Er) Ec) as [Hok' Hf].
  fold (consumed p out rest). destruct ((0 <? zlen out) || Nat.eqb n 0) eqn:Ecase.
  - intros [= <- <-]. split_and!; [done..|]. unfold stream_of. rewrite Hf. cbn. rewrite Hrc.
    apply copyOut_spec in Ec as (_ & Hle & Hall). constructor.
    + rewrite length_app. destruct (Nat.lt_ge_cases (length out) n) as [Hlt|Hge]; [|lia].
      rewrite (Hall Hlt). cbn. lia.
    + intros ->. by apply orb_true_iff in Ecase as [Hz%Z.ltb_lt|Hz%Nat.eqb_eq].
  - apply orb_false_iff in Ecase as [Ez%Z.ltb_ge En%Nat.eqb_neq].
    assert (out = []) as -> by (destruct out; [done|]; rewrite zlen_cons in Ez; pose proof (zlen_nonneg out); lia).
    apply copyOut_empty in Ec as [-> _]; [|done]. intros Hr.
    destruct (tryReadEOF_sound v (consumed p [] []) n r p' Hok' Hrc eq_refl Hr) as (Hok'' & Hsp & Hst).
    split_and!; [done|done|]. unfold stream_of at 1. rewrite Hf. exact Hst.
Qed.

(** *** Timer, close, abort *)

Lemma release_sound p now : pipe_ok p -> refines p (LRelease now) (releaseDueLatency now p).
Proof.
  intros Hok. destruct (p_readClosed p) eqn:Hrc.
  { unfold releaseDueLatency. rewrite Hrc. destruct (ok_aborted _ Hok Hrc) as (Hc & Hr & Hp).
    split_and!; [done..|]. unfold stream_of. rewrite Hr, Hp. apply (ss_release _ now [] [] []). }
  destruct (releaseDueLatency_eq now p Hrc) as (us & rest & Hp & _ & Hrest & ->).
  destruct Hok as [Hb Hs Ht Ha He]. split; [split; cbn|split].
  - rewrite Hb. unfold flight, bs_flight. cbn. by rewrite Hp, map_app, !concat_app, app_assoc.
  - rewrite Hp in Hs. by apply StronglySorted_app_1_r in Hs.
  - destruct rest as [|u rest]; [done|]. eexists. split; [done|].
    pose proof (fireAt_bounds now (pu_releaseAt u)). lia.
  - congruence.
  - intros Heof. destruct (He Heof) as (Hc & Hr & Hp'). rewrite Hp' in Hp. symmetry in Hp.
    apply app_eq_nil in Hp as [-> ->]. by rewrite Hr.
  - done.
  - unfold stream_of. cbn. rewrite Hp, map_app, concat_app. apply ss_release.
Qed.

Lemma close_sound p : pipe_ok p -> refines p LClose (close p).
Proof.
  intros Hok. unfold close. destruct (p_closed p) eqn:Ec.
  - split_and!; [done..|]. unfold stream_of. rewrite Ec. constructor.
  - split_and!; [|done..|constructor]. destruct Hok as [Hb Hs Ht Ha He]. split; cbn; try done.
    + intros H1. by destruct (Ha H1) as (_ & ? & ?).
    + intros H1. by destruct (He H1) as (_ & ? & ?).
Qed.

Lemma abort_sound p : pipe_ok p -> refines p LAbort (abort p).
Proof.
  intros Hok. unfold abort. destruct (p_readClosed p) eqn:Erc.
  - split_and!; [done..|]. destruct (ok_aborted _ Hok Erc) as (Hc & Hr & Hp).
    unfold stream_of. rewrite Hc, Erc, Hr, Hp. constructor.
  - split_and!; [|done..|constructor]. split; cbn; try done. constructor.
Qed.

(** *** Writing *)

(** The units an evaluation admits are a transmission of the payload. *)
Lemma outcome_transmission v fp p data p' copies :
  zlen data < 2 ^ 63 -> unit_outcome v fp p data p' copies ->
  transmission (current v fp) (gated v fp) data copies.
Proof.
  intros Hlen Ho. unfold transmission.
  assert (forall corrupted cb ct data' c c' l t d ds, draws (current v fp) p l t d c ds ->
      corrupted = d_corrupted ds -> corruption corrupted data c data' cb ct c' ->
      exists d0, (d0 = data \/ corruptEnabled (current v fp) = true /\ exists bi ti, one_bit_flipped data d0 bi ti) /\
        (copies_of (d_duplicated ds) data' = [d0] \/
         duplicateEnabled (current v fp) = true /\ copies_of (d_duplicated ds) data' = [d0; d0])) as Hdel.
  { intros cor cb ct data' c c' l t d ds (_ & _ & Hdu & Hco) -> Hc%corruption_effect; [|done]. exists data'.
    unfold decision in *. split.
    - destruct (d_corrupted ds && (0 <? zlen data)) eqn:E; [|left; by destruct Hc].
      apply andb_true_iff in E as [E _]. right. rewrite E in Hco.
      destruct (corruptEnabled _); [|by destruct Hco]. eauto.
    - unfold copies_of. destruct (d_duplicated ds); [|by left]. right.
      destruct (duplicateEnabled _); [done|by destruct Hdu]. }
  destruct Ho as [Hn Hp|l t d c ds Hg Hd Hdr|l t d c c' ds data' cb ct Hg Hd Hdr Hc E1 E2
    |l t d c c' ds data' cb ct base ser busy rel Hg Hd Hdr Hc En Hth Hrel]; unfold gated.
  - by rewrite Hn, Hp.
  - rewrite Hg. left. split; [|done]. destruct Hd as (Hl & _). unfold decision in Hl.
    destruct (lossEnabled _); [done|]. destruct Hl. congruence.
  - rewrite Hg. right. by eapply Hdel.
  - rewrite Hg. right. by eapply Hdel.
Qed.

(** No draw and no link makes a unit due before it was written. *)
Lemma throttled_bounds now cfg size busy base ser busy' :
  config_ok cfg -> 0 <= size < 2 ^ 63 -> throttled now cfg size busy base ser busy' -> now <= base.
Proof.
  intros (_ & Hb & _) Hs. unfold throttled. destruct (bandwidthEnabled cfg); [|by intros (-> & _)].
  destruct (serializationDelay_total size (bandwidthBPS cfg) Hs (Hb eq_refl)) as (d & -> & Hd).
  intros (d' & [= <-] & -> & _). lia.
Qed.

Lemma latency_decision_bounds cfg s s' d :
  config_ok cfg -> latency_decision cfg s s' d ->
  0 <= d /\ (latencyEnabled cfg = true -> latencyMin cfg <= d <= latencyMax cfg).
Proof.
  intros (Hl & _). unfold latency_decision. destruct (latencyEnabled cfg); [|by intros [_ ->]].
  destruct (Hl eq_refl) as [H1 H2]. intros (st & st' & _ & Hu & _).
  apply uniformDuration_range in Hu; [|done..]. split; [lia|done].
Qed.

(** Where an admitted unit goes: nowhere, to the reader at once, or behind the
    pending units, due not before them and not before now, with a timer armed
    for it when it is alone. *)
Inductive placed v (cfg : faultConfig) p p' (copies : list (list Z)) : Prop :=
| placed_nowhere :
    copies = [] -> p_readable p' = p_readable p -> p_pending p' = p_pending p ->
    p_timer p' = p_timer p -> placed v cfg p p' copies
| placed_now :
    holds_back cfg = false -> p_readable p' = p_readable p ++ copies -> p_pending p' = p_pending p ->
    p_timer p' = p_timer p -> placed v cfg p p' copies
| placed_later rel :
    holds_back cfg = true -> p_readable p' = p_readable p ->
    p_pending p' = p_pending p ++ map (fun d => mkPendingUnit d rel) copies ->
    copies <> [] -> nv_now v <= rel -> last_release (p_pending p) rel <= rel ->
    p_timer p' = (match p_pending p with [] => Some (fireAt (nv_now v) rel) | _ => p_timer p end) ->
    placed v cfg p p' copies.

Lemma deliverLater_timer now rel dup data p :
  p_timer (deliverLater now rel dup data p) =
  match p_pending p with [] => Some (fireAt now rel) | _ => p_timer p end.
Proof.
  unfold deliverLater. set (q := set_pending p _).
  assert (p_timer (armLatencyForAppendLocked now q) =
    match p_pending p with [] => Some (fireAt now rel) | _ => p_timer p end) as E.
  { assert (p_pending q = p_pending p ++ [mkPendingUnit data rel]) as Eq by done.
    assert (p_timer q = p_timer p) as <- by done. clearbody q. destruct (p_pending p) as [|u [|u' us]].
    - by apply (armLatencyForAppendLocked_singleton now q (mkPendingUnit data rel)).
    - by rewrite (armLatencyForAppendLocked_behind now q u (mkPendingUnit data rel) []).
    - by rewrite (armLatencyForAppendLocked_behind now q u u' (us ++ [mkPendingUnit data rel])). }
  by destruct dup.
Qed.

Lemma outcome_placed v fp p data p' copies :
  config_ok (current v fp) -> zlen data < 2 ^ 63 -> unit_outcome v fp p data p' copies ->
  placed v (current v fp) p p' copies.
Proof.
  intros Hcfg Hlen Ho. pose proof (zlen_nonneg data) as H0.
  destruct Ho as [Hn Hp|l t d c ds Hg Hd Hdr|l t d c c' ds data' cb ct Hg Hd Hdr Hc E1 E2
    |l t d c c' ds data' cb ct base ser busy rel Hg Hd Hdr Hc En Hth Hrel]; rewrite recordEvent_eq.
  - by apply placed_nowhere.
  - by apply placed_nowhere.
  - rewrite deliverNow_eq. apply placed_now; try done. unfold holds_back. by rewrite E1, E2.
  - apply throttled_bounds in Hth; [|done..]. destruct Hd as (_ & Ht & _).
    destruct (latency_decision_bounds _ _ _ _ Hcfg Ht) as [Hdr0 _].
    rewrite clampRelease_max in Hrel. apply (placed_later _ _ _ _ _ rel); try done.
    + open_deliverLater. done.
    + open_deliverLater. done.
    + unfold copies_of. by destruct (d_duplicated ds).
    + lia.
    + unfold last_release in *. destruct (last (p_pending p)); lia.
    + rewrite deliverLater_timer. done.
Qed.

Lemma sorted_snoc_later us rel ds :
  StronglySorted release_le us -> last_release us rel <= rel ->
  StronglySorted release_le (us ++ map (fun d => mkPendingUnit d rel) ds).
Proof.
  intros Hs Hl. induction Hs as [|u us Hs IH Hall]; cbn.
  - induction ds as [|d ds IHd]; cbn; constructor; [done|].
    apply Forall_forall. intros w (d' & -> & _)%list_elem_of_fmap. unfold release_le. cbn. lia.
  - assert (last_release us rel <= rel) as Hl'.
    { unfold last_release in *. destruct us; [cbn; lia|done]. }
    constructor; [by apply IH|]. apply Forall_app. split; [done|].
    apply Forall_forall. intros w (d' & -> & _)%list_elem_of_fmap. unfold release_le. cbn.
    destruct us as [|u' us]; [done|]. change (last_release (u' :: us) rel <= rel) in Hl.
    assert (exists z, last (u' :: us) = Some z) as [z Ez] by (apply last_is_Some; done).
    unfold last_release in Hl. rewrite Ez in Hl.
    apply last_Some_elem_of in Ez. rewrite Forall_forall in Hall. specialize (Hall z Ez).
    unfold release_le in Hall. lia.
Qed.

(** The buffer accounting and queues after an admitted write. *)
Lemma placed_ok v cfg p q p' copies :
  pipe_ok p -> p_closed p = false -> p_readClosed p = false ->
  p_readable q = p_readable p -> p_pending q = p_pending p -> p_timer q = p_timer p ->
  placed v cfg q p' copies ->
  p_closed p' = false -> p_readClosed p' = false -> p_eofSeen p' = p_eofSeen p ->
  p_bufBytes p' = p_bufBytes p + zlen (concat copies) ->
  pipe_ok p'.
Proof.
  intros [Hb Hs Ht Ha He] Hc Hrc Eq1 Eq2 Eq3 Hpl Hc' Hrc' Hes Hbuf.
  assert (p_eofSeen p' = true -> False) as Hno.
  { rewrite Hes. intros Heof. destruct (He Heof). congruence. }
  destruct Hpl as [-> E1 E2 E3|Hh E1 E2 E3|rel Hh E1 E2 Hne Hnow Hlast E3];
    rewrite ?Eq1, ?Eq2, ?Eq3 in *; split; rewrite ?E1, ?E2, ?E3; try done; try (intros; congruence);
    try (intros Hx; by destruct (Hno Hx)); unfold flight, bs_flight, stream_of in *; cbn in *; rewrite ?E1, ?E2.
  - rewrite Hbuf, Hb. cbn. unfold zlen at 2. cbn. lia.
  - rewrite Hbuf, Hb, concat_app, !zlen_app. lia.
  - rewrite Hbuf, Hb, map_app, map_map, concat_app, map_id, !zlen_app. lia.
  - by apply sorted_snoc_later.
  - destruct (p_pending p) as [|u us]; cbn; [|done]. destruct copies as [|d copies]; [done|]. cbn.
    eexists. split; [done|]. pose proof (fireAt_bounds (nv_now v) rel). lia.
Qed.

(** The same moves seen on the stream. *)
Lemma placed_step v p q p' copies data :
  p_closed p = false -> p_readClosed p = false ->
  (p_pending p <> [] -> holds_back (unit_config p v) = true) ->
  admits (p_bound p) (stream_of p) data ->
  transmission (unit_config p v) (unit_gated p v) data copies ->
  p_readable q = p_readable p -> p_pending q = p_pending p ->
  placed v (unit_config p v) q p' copies ->
  p_closed p' = false -> p_readClosed p' = false -> p_eofSeen p' = p_eofSeen p ->
  stream_step (params_of p) (stream_of p) (LWrite v data (Done (zlen data) None)) (stream_of p').
Proof.
  intros Hc Hrc Hhb Hadm Htr Eq1 Eq2 Hpl Hc' Hrc' Hes. unfold stream_of in *.
  rewrite Hc, Hrc, Hc', Hrc', Hes in *.
  destruct Hpl as [-> E1 E2 E3|Hh E1 E2 E3|rel Hh E1 E2 Hne Hnow Hlast E3];
    rewrite E1, E2, Eq1, Eq2.
  - pose proof (ss_write_later (params_of p) v data (concat (p_readable p)) (map pu_data (p_pending p))
      (p_eofSeen p) [] Hadm Htr (or_intror eq_refl)) as H1. by rewrite app_nil_r in H1.
  - destruct (p_pending p) as [|u us]; [|by rewrite Hhb in Hh]. rewrite concat_app.
    by apply (ss_write_now (params_of p)).
  - rewrite map_app, map_map, map_id. apply (ss_write_later (params_of p)); [done|done|by left].
Qed.

Lemma tryWrite_sound v p data r p' :
  pipe_ok p -> write_env p v data -> tryWrite v p data = Ret (r, p') -> refines p (LWrite v data r) p'.
Proof.
  intros Hok (Hlen & Hcfg & Hhb). unfold tryWrite.
  destruct (p_closed p || p_readClosed p) eqn:Ecl.
  { intros [= <- <-]. split_and!; [done..|]. by apply ss_write_refused. }
  apply orb_false_iff in Ecl as [Hc Hrc].
  assert ((p_bufBytes p =? 0) || (p_bufBytes p + zlen data <=? p_bound p) = true <->
    admits (p_bound p) (stream_of p) data) as Hadm.
  { unfold admits. rewrite (ok_bytes _ Hok), orb_true_iff, Z.eqb_eq, Z.leb_le. unfold flight.
    assert (zlen (bs_flight (stream_of p)) = 0 <-> bs_flight (stream_of p) = []) as ->; [|done].
    unfold zlen. by destruct (bs_flight _). }
  destruct (_ || _) eqn:Ea; cycle 1.
  { intros [= <- <-]. split_and!; [done..|]. apply ss_write_blocked; [cbn; by rewrite Hc, Hrc|].
    intros Hadm'%Hadm. done. }
  apply proj1 in Hadm. specialize (Hadm eq_refl).
  set (q := set_bufBytes p _). intros (p1 & Hr & E)%go_bind_ret. injection E as <- <-.
  assert (exists copies, placed v (unit_config p v) q p1 copies /\
    transmission (unit_config p v) (unit_gated p v) data copies /\
    p_bufBytes p1 = p_bufBytes p + zlen (concat copies) /\
    p_closed p1 = false /\ p_readClosed p1 = false /\ p_eofSeen p1 = p_eofSeen p /\ same_params p p1)
    as (copies & Hpl & Htr & Hbuf & Hc1 & Hrc1 & Hes & Hsp).
  { unfold runDeliver, unit_config, unit_gated in *. change (p_deliver q) with (p_deliver p) in Hr.
    destruct (p_deliver p) as [|fp] eqn:Ed.
    - injection Hr as <-. exists [data]. split; [by apply placed_now|]. split.
      { right. exists data. split; by left. }
      cbn. rewrite app_nil_r. done.
    - destruct (deliverUnit_inv _ _ _ _ _ Hlen Hr) as (copies & Ho). exists copies.
      pose proof (deliverUnit_frame _ _ _ _ _ _ Ho) as (F1 & F2 & F3 & F4 & F5 & F6 & F7).
      pose proof (deliverUnit_bufBytes _ _ _ _ _ _ Ho) as [Hb _].
      split; [by eapply outcome_placed|]. split; [by eapply outcome_transmission|].
      rewrite Hb, F1, F2, F3. split; [unfold q; cbn; lia|]. done. }
  split_and!; [by eapply (placed_ok v _ p q)|done|by eapply (placed_step v p q)].
Qed.
End pipes.

#[global] Arguments flight {Src} p : simpl never.
