(* ===== verification/PipeProps.v ===== *)
(** * Properties of the pipe: refinement of the byte stream, exactly-once
    in-order delivery, end of stream, capacity, wake-ups and draining. *)
From S2P Require Import Prelude GoRuntime Errors Rand Partition Trace PipeState Faults FaultProps Pipe PipeInv.

(** ** Runs of the stream *)

(** The payloads of the accepted writes, each with what it was written under. *)
Definition accepted (l : label) : list (netView * list Z) :=
  match l with LWrite v data (Done _ None) => [(v, data)] | _ => [] end.

(** The bytes handed to readers. *)
Definition received (l : label) : list Z :=
  match l with LRead _ _ (Done out _) => out | _ => [] end.

Definition sends (sp : streamParams) (w : netView * list Z) (us : list (list Z)) : Prop :=
  transmission (sp_config sp (fst w)) (sp_gate sp (fst w)) (snd w) us.

(** One transition, as a balance of bytes. *)
Lemma stream_step_balance sp b l b' :
  stream_step sp b l b' -> l <> LAbort -> (bs_aborted b = true -> bs_flight b = []) ->
  (bs_aborted b' = true -> bs_flight b' = []) /\
  exists uss, Forall2 (sends sp) (accepted l) uss /\
    bs_flight b ++ concat (concat uss) = received l ++ bs_flight b'.
Proof.
  intros Hst Hna Ha. unfold bs_flight in *.
  destruct Hst as [ | | v data q e us Hadm Htr Hh | v data q d e us Hadm Htr Hh | | | | | now q us d c a e | | ];
    cbn in *; try (split; [done|]).
  1,2: by exists []; rewrite app_nil_r.
  - exists [us]. split; [by repeat constructor|]. cbn. by rewrite !app_nil_r.
  - exists [us]. split; [by repeat constructor|]. cbn. by rewrite app_nil_r, concat_app, app_assoc.
  - exists []. cbn. by rewrite app_nil_r, app_assoc.
  - exists []. cbn. by rewrite app_nil_r.
  - by exists [].
  - by exists []; rewrite app_nil_r.
  - rewrite concat_app, app_assoc in Ha. split; [done|].
    exists []. cbn. by rewrite app_nil_r, concat_app, app_assoc.
  - by exists []; cbn; rewrite app_nil_r.
  - done.
Qed.

(** ** Runs of a pipe *)

Section runs.
Context {Src : Type} `{!DrawSource Src} `{!RejectFuel}.
Implicit Types (p : pipe Src) (data : list Z) (v : netView) (ls : list label).

Inductive pipe_run : pipe Src -> list label -> pipe Src -> Prop :=
| run_nil p : pipe_run p [] p
| run_cons p l p1 ls p2 : pipe_step p l p1 -> pipe_run p1 ls p2 -> pipe_run p (l :: ls) p2.

Lemma pipe_step_sound p l p' : pipe_ok p -> pipe_step p l p' -> refines p l p'.
Proof.
  intros Hok Hst. destruct Hst.
  - by eapply tryWrite_sound.
  - by eapply tryRead_sound.
  - by apply release_sound.
  - by apply close_sound.
  - by apply abort_sound.
Qed.

Lemma same_params_of p p' : same_params p p' -> params_of p' = params_of p.
Proof.
  intros (E1 & E2 & E3 & E4). unfold params_of, unit_config, unit_gated, holds_eof.
  by rewrite E1, E2, E3, E4.
Qed.

Lemma aborted_flight p : pipe_ok p -> bs_aborted (stream_of p) = true -> flight p = [].
Proof. intros Hok (_ & Hr & Hp)%(ok_aborted _ Hok). unfold flight, bs_flight. cbn. by rewrite Hr, Hp. Qed.

(** C10: refinement. Every operation of a pipe (a write, a read, a firing of the
    latency timer, close, abort), run from a pipe that satisfies the invariant,
    re-establishes the invariant and is a transition of the abstract byte
    stream; what the stream depends on stays fixed. *)
Theorem pipe_refines_stream p l p' :
  pipe_ok p -> pipe_step p l p' ->
  pipe_ok p' /\ params_of p' = params_of p /\ stream_step (params_of p) (stream_of p) l (stream_of p').
Proof. intros Hok (H1 & H2%same_params_of & H3)%pipe_step_sound; done. Qed.

Lemma run_ok p ls p' : pipe_ok p -> pipe_run p ls p' -> pipe_ok p' /\ params_of p' = params_of p.
Proof.
  intros Hok Hr. induction Hr as [|p l p1 ls p2 Hst Hr IH]; [done|].
  apply pipe_step_sound in Hst as (Hok1 & Hsp%same_params_of & _); [|done].
  destruct (IH Hok1) as [? E]. by rewrite E, Hsp.
Qed.

Lemma run_balance p ls p' :
  pipe_ok p -> LAbort ∉ ls -> pipe_run p ls p' ->
  exists uss, Forall2 (sends (params_of p)) (ls ≫= accepted) uss /\
    flight p ++ concat (concat uss) = (ls ≫= received) ++ flight p'.
Proof.
  intros Hok Hna Hr. induction Hr as [|p l p1 ls p2 Hst Hr IH].
  { exists []. by rewrite app_nil_r. }
  apply not_elem_of_cons in Hna as [Hl Hna].
  apply pipe_step_sound in Hst as (Hok1 & Hsp%same_params_of & Hst); [|done].
  destruct (IH Hok1 Hna) as (uss & Hall & E).
  apply stream_step_balance in Hst as (_ & us & Hus & E1); [|done|by apply aborted_flight].
  exists (us ++ uss). cbn. rewrite Hsp in Hall. split; [by apply Forall2_app|].
  fold (flight p) in E1. fold (flight p1) in E1.
  rewrite !concat_app, app_assoc, E1, <- !app_assoc. f_equal. exact E.
Qed.

(** In-order delivery. Over any run of writes, reads, timer firings and a
    close, what the readers have received followed by what is still on its way
    is, byte for byte and in order, the concatenation of one transmission per
    accepted write: nothing is invented, reordered, merged across writes or
    lost, except as the configured faults of that very write allow. *)
Theorem in_order_delivery p ls p' :
  pipe_ok p -> LAbort ∉ ls -> pipe_run p ls p' ->
  exists uss,
    Forall2 (fun w us => transmission (unit_config p (fst w)) (unit_gated p (fst w)) (snd w) us)
      (ls ≫= accepted) uss /\
    flight p ++ concat (concat uss) = (ls ≫= received) ++ flight p'.
Proof. apply run_balance. Qed.

(** A network without loss, duplication, corruption and partition, however
    delayed and throttled, is a reliable byte stream: the bytes received and in
    flight are exactly the bytes written. *)
Theorem reliable_delivery p ls p' :
  pipe_ok p -> LAbort ∉ ls -> pipe_run p ls p' ->
  (forall v, lossEnabled (unit_config p v) = false /\ duplicateEnabled (unit_config p v) = false /\
     corruptEnabled (unit_config p v) = false /\ unit_gated p v = false) ->
  (ls ≫= received) ++ flight p' = flight p ++ concat (map snd (ls ≫= accepted)).
Proof.
  intros Hok Hna Hr Hclean. destruct (run_balance _ _ _ Hok Hna Hr) as (uss & Hall & <-). f_equal.
  induction Hall as [|[v data] us ws uss Hs Hall IH]; [done|]. cbn. rewrite concat_app, IH. f_equal.
  unfold sends, transmission in Hs. destruct (Hclean v) as (E1 & E2 & E3 & E4). cbn in Hs.
  rewrite E1, E2, E3, E4 in Hs.
  destruct Hs as [[? _]|(d & [->|[? _]] & [->|[? _]])]; try done. cbn. by rewrite app_nil_r.
Qed.

(** *** End of stream *)

Definition eof_state p : Prop := p_readClosed p = true \/ p_eofSeen p = true.

Lemma eof_state_step p l p' : pipe_ok p -> eof_state p -> pipe_step p l p' -> eof_state p'.
Proof.
  intros Hok He Hst.
  assert (p_closed p = true) as Hc by (destruct He as [He|He]; [by apply (ok_aborted _ Hok)|by apply (ok_eof _ Hok)]).
  assert (p_readable p = []) as Hr by (destruct He as [He|He]; [by apply (ok_aborted _ Hok)|by apply (ok_eof _ Hok)]).
  apply pipe_step_sound in Hst as (Hok' & _ & Hst); [|done].
  unfold eof_state in *. unfold stream_of in Hst. rewrite Hc, Hr in Hst. cbn in Hst.
  inversion Hst; subst; cbn in *; try congruence; auto; try (destruct He; congruence).
  all: try (right; congruence); try (left; congruence); destruct He; [left|right]; congruence.
Qed.

(** A read at the end of stream answers EOF and changes nothing. *)
Lemma tryRead_eof v p n : pipe_ok p -> eof_state p -> tryRead v p n = (Done [] (Some EOF), p).
Proof.
  intros Hok He. unfold tryRead. destruct (p_readClosed p) eqn:Hrc; [done|].
  destruct He as [He|He]; [congruence|]. destruct (ok_eof _ Hok He) as (Hc & -> & Hp).
  unfold tryReadEOF. by rewrite Hc, Hp, bool_decide_eq_true_2, He by done.
Qed.

(** End of stream. A read reports an error only as EOF with no bytes, and
    only when the reading end is gone, or when the writing end is closed and
    every byte admitted has been read; from then on every read, whatever
    happens in between (Partition calls included), reports EOF again. *)
Theorem eof_is_final v p n out e p' ls p'' v' n' :
  pipe_ok p -> tryRead v p n = (Done out (Some e), p') -> pipe_run p' ls p'' ->
  (e = EOF /\ out = [] /\ (p_readClosed p = true \/ p_closed p = true /\ flight p = [])) /\
  tryRead v' p'' n' = (Done [] (Some EOF), p'').
Proof.
  intros Hok Hrd Hrun.
  destruct (tryRead_sound _ _ _ _ _ Hok Hrd) as (Hok' & _ & Hst).
  assert ((e = EOF /\ out = [] /\ (p_readClosed p = true \/ p_closed p = true /\ flight p = [])) /\ eof_state p')
    as [H1 He].
  { unfold flight, eof_state. unfold stream_of in *. inversion Hst; subst; cbn in *.
    - split; [split_and!; try done; right; split; [congruence|]|right; congruence].
      unfold bs_flight. cbn. destruct (concat (p_readable p)), (map _ (p_pending p)); congruence.
    - split; [split_and!; [done..|by left]|left; congruence]. }
  split; [done|]. apply tryRead_eof; [by apply (run_ok p' ls)|].
  clear -Hok' Hrun He. induction Hrun as [|p l p1 ls p2 Hst Hr IH]; [done|].
  apply IH; [|by eapply eof_state_step]. by apply pipe_step_sound in Hst as (? & _ & _).
Qed.

(** *** Capacity *)

Lemma same_domain_length (l l' : list Z) : (forall i, is_Some (l !! i) <-> is_Some (l' !! i)) -> length l = length l'.
Proof.
  intros Hd. apply Nat.le_antisymm; apply Nat.nlt_ge; intros Hlt;
    apply lookup_lt_is_Some, Hd, lookup_lt_is_Some in Hlt; lia.
Qed.

Lemma one_bit_flipped_length data data' bi ti : one_bit_flipped data data' bi ti -> zlen data' = zlen data.
Proof.
  intros (_ & _ & Hne & b & b' & Hb & Hb' & _). unfold zlen. f_equal. apply same_domain_length. intros i.
  destruct (decide (i = Z.to_nat bi)) as [->|Hi]; [rewrite Hb, Hb'; split; eauto|by rewrite Hne].
Qed.

Lemma transmission_length cfg g data us :
  transmission cfg g data us ->
  zlen (concat us) <= zlen data + (if duplicateEnabled cfg then zlen data else 0).
Proof.
  pose proof (zlen_nonneg data) as H0. unfold transmission.
  assert (forall d, d = data \/ corruptEnabled cfg = true /\ (exists bi ti, one_bit_flipped data d bi ti) ->
    zlen d = zlen data) as Hlen by (intros d [->|(_ & bi & ti & Hf%one_bit_flipped_length)]; done).
  destruct g; [intros ->; cbn; unfold zlen at 1; cbn; destruct (duplicateEnabled cfg); lia|].
  intros [[_ ->]|(d & Hd%Hlen & Hus)].
  - unfold zlen at 1. cbn. destruct (duplicateEnabled cfg); lia.
  - destruct Hus as [->|[-> ->]]; cbn; rewrite app_nil_r, ?zlen_app; [destruct (duplicateEnabled cfg)|]; lia.
Qed.

(** C34: back-pressure. A write on an open pipe is admitted exactly when the pipe
    is empty or the payload fits under the bound, and then it is taken whole; the
    bytes then held never exceed the larger of the bound and the payload, but for
    the second copy of a duplicated unit; otherwise the pipe is left untouched
    and the caller is told to wait. *)
Theorem back_pressure p v data r p' :
  pipe_ok p -> p_closed p = false -> p_readClosed p = false ->
  write_env p v data -> tryWrite v p data = Ret (r, p') ->
  (flight p = [] \/ zlen (flight p) + zlen data <= p_bound p ->
     r = Done (zlen data) None /\
     zlen (flight p') <= Z.max (p_bound p) (zlen data)
       + (if duplicateEnabled (unit_config p v) then zlen data else 0)) /\
  (flight p <> [] -> p_bound p < zlen (flight p) + zlen data ->
     r = Wait (onPipe (p_notify p)) /\ p' = p).
Proof.
  intros Hok Hc Hrc Henv Hw.
  destruct (tryWrite_sound _ _ _ _ _ Hok Henv Hw) as (Hok' & _ & Hst). split.
  - intros Hadm. apply stream_step_balance in Hst as Hbal; [|done|by apply aborted_flight].
    destruct Hbal as (_ & uss & Hus & Hb). fold (flight p) in Hb. fold (flight p') in Hb.
    assert (r = Done (zlen data) None) as ->.
    { unfold stream_of in Hst. rewrite Hc, Hrc in Hst. inversion Hst; subst; cbn in *; done. }
    split; [done|]. cbn in Hus, Hb.
    apply Forall2_cons_inv_l in Hus as (us & uss' & Hu & ->%Forall2_nil_inv_l & ->).
    unfold sends in Hu. apply transmission_length in Hu. cbn in Hu, Hb. rewrite app_nil_r in Hb.
    rewrite <- Hb, zlen_app. destruct Hadm as [->|Hfit]; [unfold zlen at 1; cbn|]; lia.
  - intros Hne Hfull. unfold tryWrite in Hw. rewrite Hc, Hrc, (ok_bytes _ Hok) in Hw. cbn [orb] in Hw.
    assert (zlen (flight p) <> 0) as Hz by (unfold zlen; by destruct (flight p)).
    apply Z.eqb_neq in Hz. rewrite Hz, (proj2 (Z.leb_gt _ _) Hfull) in Hw. by injection Hw as <- <-.
Qed.

(** *** Wake-ups *)

(** What a step that wakes nobody may have done to a pipe: appended pending
    units, or marked the end of stream as seen. *)
Definition quiet p p' : Prop :=
  p_readable p' = p_readable p /\ p_closed p' = p_closed p /\ p_readClosed p' = p_readClosed p /\
  p_bound p' = p_bound p /\ exists us, p_pending p' = p_pending p ++ us.

Definition quiet_or_woken p p' : Prop :=
  (p_notify p <= p_notify p')%nat /\ (p_notify p' = p_notify p -> quiet p p').

Lemma quiet_refl p : quiet p p.
Proof. split_and!; try done. exists []. by rewrite app_nil_r. Qed.

Lemma quiet_trans p1 p2 p3 : quiet_or_woken p1 p2 -> quiet_or_woken p2 p3 -> quiet_or_woken p1 p3.
Proof.
  intros [Hle1 Hq1] [Hle2 Hq2]. split; [lia|]. intros E.
  destruct Hq1 as (A1 & A2 & A3 & A4 & us1 & A5); [lia|]. destruct Hq2 as (B1 & B2 & B3 & B4 & us2 & B5); [lia|].
  split_and!; try congruence. exists (us1 ++ us2). by rewrite app_assoc, <- A5.
Qed.

Lemma woken_later p p' : p_notify p' = S (p_notify p) -> quiet_or_woken p p'.
Proof. intros E. split; [lia|]. intros E'. lia. Qed.

Lemma tryReadEOF_quiet v p r p' : tryReadEOF v p = (r, p') -> p_notify p' = p_notify p /\ quiet p p'.
Proof.
  intros E. assert (p' = p \/ p' = set_eofSeen p true) as [->| ->].
  { unfold tryReadEOF in E. repeat case_match; simplify_eq; auto. }
  - split; [done|apply quiet_refl].
  - split; [done|]. split_and!; try done. exists []. by rewrite app_nil_r.
Qed.

Lemma tryRead_quiet v p n r p' : tryRead v p n = (r, p') -> quiet_or_woken p p'.
Proof.
  unfold tryRead. destruct (p_readClosed p); [intros [= <- <-]; split; [done|intros _; apply quiet_refl]|].
  destruct (p_readable p) as [|c cs] eqn:Er.
  { intros [E Hq]%tryReadEOF_quiet. split; [lia|done]. }
  rewrite <- Er. destruct (copyOut (p_readable p) n) as [out rest]. destruct (_ || _).
  - intros [= <- <-]. by apply woken_later.
  - intros [E _]%tryReadEOF_quiet. by apply woken_later.
Qed.

Lemma tryWrite_quiet v p data r p' :
  write_env p v data -> tryWrite v p data = Ret (r, p') -> quiet_or_woken p p'.
Proof.
  intros (Hlen & _). unfold tryWrite.
  destruct (_ || _); [intros [= <- <-]; split; [done|intros _; apply quiet_refl]|].
  destruct (_ || _); [|intros [= <- <-]; split; [done|intros _; apply quiet_refl]].
  intros (p1 & Hr & E)%go_bind_ret. injection E as <- <-. unfold runDeliver in Hr. cbn in Hr.
  destruct (p_deliver p) as [|fp]; [injection Hr as <-; by apply woken_later|].
  destruct (deliverUnit_inv _ _ _ _ _ Hlen Hr) as (copies & Ho).
  destruct (deliverUnit_frame _ _ _ _ _ _ Ho) as (F1 & F2 & F3 & F4 & _).
  destruct (deliverUnit_queues _ _ _ _ _ _ Ho) as [(_ & _ & _ & E)|(rel & E1 & E2 & E3 & _)].
  - by apply woken_later.
  - split; [by rewrite E3|]. intros _. split_and!; eauto.
Qed.

Lemma pipe_step_quiet p l p' : pipe_ok p -> pipe_step p l p' -> quiet_or_woken p p'.
Proof.
  intros Hok Hst. destruct Hst as [p v data r p' Henv Hw|p v n r p' Hrd|p now|p|p].
  - by eapply tryWrite_quiet.
  - by eapply tryRead_quiet.
  - destruct (p_readClosed p) eqn:Hrc.
    { unfold releaseDueLatency. rewrite Hrc. split; [done|intros _; apply quiet_refl]. }
    destruct (releaseDueLatency_eq now p Hrc) as (us & rest & Hp & _ & _ & ->).
    destruct us as [|u us]; [|by apply woken_later]. split; [done|]. intros _.
    split_and!; try done; cbn; [by rewrite app_nil_r|]. exists []. by rewrite app_nil_r, Hp.
  - unfold close. destruct (p_closed p); [split; [done|intros _; apply quiet_refl]|by apply woken_later].
  - unfold abort. destruct (p_readClosed p); [split; [done|intros _; apply quiet_refl]|by apply woken_later].
Qed.

Lemma pipe_run_quiet p ls p' : pipe_ok p -> pipe_run p ls p' -> quiet_or_woken p p'.
Proof.
  intros Hok Hr. induction Hr as [|p l p1 ls p2 Hst Hr IH]; [split; [done|intros _; apply quiet_refl]|].
  eapply quiet_trans; [by eapply pipe_step_quiet|].
  apply IH. by apply pipe_step_sound in Hst as (? & _ & _).
Qed.

Lemma reader_still_waits p v n g p1 ls p2 v' :
  pipe_ok p -> tryRead v p n = (Wait (onPipe g), p1) -> pipe_run p1 ls p2 ->
  woken g (p_notify p2) = false -> tryRead v' p2 n = (Wait (onPipe g), p2).
Proof.
  intros Hok Hrd Hrun Hw. destruct (tryRead_sound _ _ _ _ _ Hok Hrd) as (Hok1 & _ & _).
  assert (p_readClosed p1 = false /\ p_readable p1 = [] /\ g = p_notify p1 /\
          p_closed p1 && bool_decide (p_pending p1 = []) = false) as (Hrc & Hr & -> & Hce).
  { assert (forall q, p_readClosed q = false -> p_readable q = [] -> tryReadEOF v q = (Wait (onPipe g), p1) ->
      p_readClosed p1 = false /\ p_readable p1 = [] /\ g = p_notify p1 /\
      p_closed p1 && bool_decide (p_pending p1 = []) = false) as Hq.
    { intros q H1 H2. unfold tryReadEOF. intros E. repeat case_match; simplify_eq; done. }
    unfold tryRead in Hrd. destruct (p_readClosed p) eqn:Hrc; [done|].
    destruct (p_readable p) as [|c cs] eqn:Er; [by apply (Hq p)|].
    destruct (copyOut (c :: cs) n) as [out rest] eqn:Ec. destruct (_ || _) eqn:Ecase; [done|].
    apply orb_false_iff in Ecase as [Ez%Z.ltb_ge En%Nat.eqb_neq].
    assert (out = []) as -> by (destruct out; [done|]; rewrite zlen_cons in Ez; pose proof (zlen_nonneg out); lia).
    apply copyOut_empty in Ec as [-> _]; [|done]. by apply (Hq _) in Hrd. }
  destruct (pipe_run_quiet _ _ _ Hok1 Hrun) as [Hle Hq]. unfold woken in Hw. apply Nat.ltb_ge in Hw.
  assert (p_notify p2 = p_notify p1) as E by lia.
  destruct (Hq E) as (A1 & A2 & A3 & _ & us & A5).
  unfold tryRead. rewrite A3, Hrc, A1, Hr. unfold tryReadEOF. rewrite A2, E.
  destruct (p_closed p1); [|done]. cbn [andb] in *. apply bool_decide_eq_false in Hce.
  rewrite bool_decide_eq_false_2; [done|]. rewrite A5. by intros [? _]%app_eq_nil.
Qed.

(** No reader is left behind. After a read was told to wait on the pipe,
    whatever writes, reads, timer firings, closes and aborts follow: as long as
    the channel it waits on is still open, a retry (at any time, with the same
    buffer) could only be told to wait on that channel again. Everything that
    could satisfy the read therefore wakes it. *)
Theorem no_lost_reader_wakeup p v n g p1 ls p2 v' :
  pipe_ok p -> tryRead v p n = (Wait (onPipe g), p1) -> pipe_run p1 ls p2 ->
  woken g (p_notify p2) = false -> tryRead v' p2 n = (Wait (onPipe g), p2).
Proof. apply reader_still_waits. Qed.

Lemma writer_still_waits p v data g p1 ls p2 v' :
  pipe_ok p -> tryWrite v p data = Ret (Wait (onPipe g), p1) -> pipe_run p1 ls p2 ->
  woken g (p_notify p2) = false -> tryWrite v' p2 data = Ret (Wait (onPipe g), p2).
Proof.
  intros Hok Hwr Hrun Hw.
  assert (p1 = p /\ g = p_notify p /\ p_closed p || p_readClosed p = false /\
    (p_bufBytes p =? 0) || (p_bufBytes p + zlen data <=? p_bound p) = false) as (-> & -> & Hcl & Hfull).
  { unfold tryWrite in Hwr. destruct (_ || p_readClosed p); [done|]. destruct (_ || _); [|by simplify_eq].
    apply go_bind_ret in Hwr as (? & _ & E). simplify_eq. }
  destruct (pipe_run_quiet _ _ _ Hok Hrun) as [Hle Hq]. unfold woken in Hw. apply Nat.ltb_ge in Hw.
  assert (p_notify p2 = p_notify p) as E by lia.
  destruct (Hq E) as (A1 & A2 & A3 & A4 & us & A5).
  destruct (run_ok _ _ _ Hok Hrun) as [Hok2 _].
  assert (p_bufBytes p <= p_bufBytes p2) as Hgrow.
  { rewrite (ok_bytes _ Hok), (ok_bytes _ Hok2). unfold flight, bs_flight. cbn.
    rewrite A1, A5, map_app, concat_app, !zlen_app. pose proof (zlen_nonneg (concat (map pu_data us))). lia. }
  unfold tryWrite. rewrite A2, A3, Hcl, A4, E. apply orb_false_iff in Hfull as [H1%Z.eqb_neq H2%Z.leb_gt].
  pose proof (zlen_nonneg (flight p)) as H3. rewrite <- (ok_bytes _ Hok) in H3.
  rewrite (proj2 (Z.eqb_neq _ _)), (proj2 (Z.leb_gt _ _)) by lia. done.
Qed.

(** No writer is left behind. After a write was told to wait, as long as the
    channel it waits on is still open a retry of it could only be told to wait
    on that channel again: every read that makes room, every close and every
    abort wakes it. *)
Theorem no_lost_writer_wakeup p v data g p1 ls p2 v' :
  pipe_ok p -> tryWrite v p data = Ret (Wait (onPipe g), p1) -> pipe_run p1 ls p2 ->
  woken g (p_notify p2) = false -> tryWrite v' p2 data = Ret (Wait (onPipe g), p2).
Proof. apply writer_still_waits. Qed.

(** *** Draining *)

(** The timer goes off at the instant it was armed for. *)
Definition fire p : pipe Src :=
  match p_timer p with Some t => releaseDueLatency t p | None => p end.

(** With the timer exactly on the head's release time, each firing moves at
    least the head to the reader and re-arms on the next unit. *)
Lemma fire_exact p u us :
  p_readClosed p = false -> p_pending p = u :: us -> p_timer p = Some (pu_releaseAt u) ->
  StronglySorted release_le (u :: us) ->
  Forall (fun w => pu_releaseAt w - pu_releaseAt u < 2 ^ 63) us ->
  exists done rest, u :: us = done ++ rest /\ done <> [] /\
    p_readClosed (fire p) = false /\ p_pending (fire p) = rest /\
    p_readable (fire p) = p_readable p ++ map pu_data done /\
    p_timer (fire p) = match rest with [] => None | w :: _ => Some (pu_releaseAt w) end.
Proof.
  intros Hrc Hp Ht Hs Hall. unfold fire. rewrite Ht.
  destruct (releaseDueLatency_eq (pu_releaseAt u) p Hrc) as (done & rest & Hsplit & Hdue & Hrest & ->).
  exists done, rest. rewrite <- Hp. split; [done|].
  assert (done <> []) as Hne.
  { intros ->. cbn in Hsplit. rewrite <- Hsplit, Hp in Hrest. lia. }
  split; [done|]. cbn. split_and!; try done.
  destruct rest as [|w rest]; [done|]. f_equal. apply fireAt_exact; [lia|].
  rewrite Hp in Hsplit. destruct done as [|u' done]; [done|]. injection Hsplit as <- ->.
  apply Forall_app in Hall as [_ Hall]. by inversion Hall.
Qed.

Lemma fire_drains n p u us :
  (length us <= n)%nat -> p_readClosed p = false -> p_pending p = u :: us ->
  p_timer p = Some (pu_releaseAt u) -> StronglySorted release_le (u :: us) ->
  Forall (fun w => pu_releaseAt w - pu_releaseAt u < 2 ^ 63) us ->
  exists k, (k <= S n)%nat /\ p_pending (Nat.iter k fire p) = [] /\
    p_readable (Nat.iter k fire p) = p_readable p ++ map pu_data (u :: us).
Proof.
  revert p u us. induction n as [|n IH]; intros p u us Hn Hrc Hp Ht Hs Hall;
    destruct (fire_exact p u us Hrc Hp Ht Hs Hall) as (done & rest & E & Hne & F1 & F2 & F3 & F4).
  - destruct us; [|cbn in Hn; lia]. destruct done as [|u' done]; [done|]. injection E as <- E.
    symmetry in E. apply app_eq_nil in E as [-> ->]. exists 1%nat. by cbn.
  - destruct rest as [|w rest].
    { exists 1%nat. rewrite app_nil_r in E. subst done. cbn. split; [lia|done]. }
    destruct done as [|u' done]; [done|]. injection E as <- E.
    assert (StronglySorted release_le (w :: rest) /\ Forall (release_le u) us) as [Hs' Hge].
    { inversion Hs as [|? ? Hs1 Hs2]; subst. split; [by apply StronglySorted_app_1_r in Hs1|done]. }
    rewrite E in Hall, Hge. apply Forall_app in Hall as [_ Hall], Hge as [_ Hge].
    inversion Hge as [|? ? Hwu Hge']; subst. inversion Hall as [|? ? Hw Hall']; subst. unfold release_le in Hwu.
    destruct (IH (fire p) w rest) as (k & Hk & K1 & K2); try done.
    { rewrite length_app in Hn. cbn in Hn. lia. }
    { eapply Forall_impl; [exact Hall'|]. cbn. lia. }
    exists (S k). rewrite Nat.iter_succ_r. split; [lia|]. split; [done|].
    rewrite K2, F3, <- app_assoc. cbn. by rewrite map_app.
Qed.

(** C35: nothing is held back for ever. On a pipe whose reading end is open,
    closed for writing or not, letting the armed timer go off at its time, at
    most once per pending unit and once more, hands every pending unit to the
    reader, in order; each firing hands over only units whose release time has
    come and re-arms the timer for the next. *)
Theorem pending_drains p t :
  pipe_ok p -> p_readClosed p = false -> p_timer p = Some t ->
  Forall (fun u => pu_releaseAt u - t < 2 ^ 63) (p_pending p) ->
  (exists k, (k <= S (length (p_pending p)))%nat /\ p_pending (Nat.iter k fire p) = [] /\
     p_readable (Nat.iter k fire p) = p_readable p ++ map pu_data (p_pending p)) /\
  (exists due rest, p_pending p = due ++ rest /\ p_pending (fire p) = rest /\
     p_readable (fire p) = p_readable p ++ map pu_data due /\
     Forall (fun u => pu_releaseAt u <= t) due /\ Forall (fun u => t < pu_releaseAt u) rest).
Proof.
  intros Hok Hrc Ht Hall. pose proof (ok_timer _ Hok) as Htm. pose proof (ok_sorted _ Hok) as Hs.
  destruct (p_pending p) as [|u us] eqn:Ep; [congruence|]. destruct Htm as (t' & Ht' & Hle).
  assert (t' = t) as -> by congruence. clear Ht'.
  destruct (releaseDueLatency_eq t p Hrc) as (due & rest & Hsplit & Hdue & Hrest & E). rewrite Ep in Hsplit.
  assert (Forall (fun u => t < pu_releaseAt u) rest) as Hlate.
  { destruct rest as [|w rest]; [done|]. rewrite Hsplit in Hs. apply StronglySorted_app_1_r in Hs.
    inversion Hs as [|? ? _ Hge]; subst. constructor; [done|]. eapply Forall_impl; [exact Hge|].
    unfold release_le. cbn. lia. }
  split; [|exists due, rest; unfold fire; rewrite Ht, E; by cbn].
  destruct (Z.eq_dec t (pu_releaseAt u)) as [->|Hlt].
  { inversion Hall as [|? ? _ Hall']; subst.
    destruct (fire_drains (length us) p u us) as (k & Hk & K1 & K2); try done.
    exists k. split; [cbn; lia|done]. }
  assert (due = []) as ->.
  { destruct due as [|u' due]; [done|]. injection Hsplit as -> ->. inversion Hdue. lia. }
  cbn in Hsplit. subst rest. rewrite app_nil_r in E.
  inversion Hall as [|? ? Hu Hall']; subst.
  destruct (fire_drains (length us) (fire p) u us) as (k & Hk & K1 & K2); try done.
  1-3: unfold fire; rewrite Ht, E; cbn; try done. { by rewrite fireAt_exact by lia. }
  { eapply Forall_impl; [exact Hall'|]. cbn. lia. }
  exists (S k). rewrite Nat.iter_succ_r. split; [cbn; lia|]. split; [done|].
  rewrite K2. unfold fire. by rewrite Ht, E.
Qed.
End runs.

(** ** Witnesses *)

Section witnesses.
#[local] Instance witness_fuel : RejectFuel := 3%nat.

(** The pipe a step leads to, when it succeeds. *)
Definition wrote (v : netView) (p : pipe (list Z)) (data : list Z) : pipe (list Z) :=
  match tryWrite v p data with Ret (_, p') => p' | _ => p end.
Definition didRead (v : netView) (p : pipe (list Z)) (n : nat) : pipe (list Z) := snd (tryRead v p n).

(** A pipe with room for 4 bytes under every fault kind: the first unit is
    duplicated, corrupted and delayed. *)
Definition faulty_pipe : pipe (list Z) :=
  installFaultPolicy
    (set_corrupt (set_duplicate (set_latency (set_loss (newPipe 4)
       (Some (mkStream [high; low]))) (Some (mkStream [high; high]))) (Some (mkStream [low; low])))
       (Some (mkStream [low; high; high; low]))) live_policy.

Definition plain_pipe : pipe (list Z) := newPipe 4.

Lemma allFaults_ok : config_ok allFaults.
Proof. split_and!; try reflexivity; intros _; cbn; lia. Qed.

Lemma noFaults_ok : config_ok noFaults.
Proof. split_and!; try reflexivity; intros ?; discriminate. Qed.

Lemma faulty_ok : pipe_ok faulty_pipe.
Proof. split; cbn; try done. constructor. Qed.

Definition faulty1 := wrote live_view faulty_pipe [1; 2; 3].
Definition faulty2 := releaseDueLatency 2000 faulty1.
Definition faulty3 := didRead live_view faulty2 4.

Lemma faulty_write :
  pipe_step faulty_pipe (LWrite live_view [1; 2; 3] (Done 3 None)) faulty1.
Proof.
  apply ps_write.
  - split; [reflexivity|]. split; [exact allFaults_ok|]. intros H. by destruct H.
  - vm_compute. reflexivity.
Qed.

Lemma faulty1_run : pipe_run faulty_pipe [LWrite live_view [1; 2; 3] (Done 3 None)] faulty1.
Proof. eapply run_cons; [apply faulty_write|apply run_nil]. Qed.

Lemma faulty1_ok : pipe_ok faulty1.
Proof. exact (proj1 (run_ok _ _ _ faulty_ok faulty1_run)). Qed.

Lemma faulty_run :
  pipe_run faulty_pipe [LWrite live_view [1; 2; 3] (Done 3 None); LRelease 2000;
    LRead live_view 4 (Done [1; 2; 131; 1] None)] faulty3.
Proof.
  eapply run_cons; [|eapply run_cons; [|eapply run_cons; [|apply run_nil]]].
  - apply faulty_write.
  - apply ps_release.
  - apply ps_read. vm_compute. reflexivity.
Qed.

Lemma pipe_refines_stream_witness :
  pipe_ok faulty1 /\ stream_of faulty1 = mkByteStream [] [[1; 2; 131]; [1; 2; 131]] false false false.
Proof.
  split; [|vm_compute; reflexivity].
  refine (proj1 (pipe_refines_stream faulty_pipe (LWrite live_view [1; 2; 3] (Done 3 None)) faulty1 faulty_ok faulty_write)).
Defined.

Lemma in_order_delivery_witness :
  exists uss, Forall2 (fun w us => transmission (unit_config faulty_pipe (fst w)) (unit_gated faulty_pipe (fst w)) (snd w) us)
      [(live_view, [1; 2; 3])] uss /\
    [] ++ concat (concat uss) = [1; 2; 131; 1] ++ [2; 131].
Proof.
  refine (in_order_delivery faulty_pipe _ faulty3 faulty_ok _ faulty_run).
  repeat (apply not_elem_of_cons; split; [discriminate|]). apply not_elem_of_nil.
Defined.

Definition plain1 := wrote idle_view plain_pipe [1; 2; 3].
Definition plain2 := didRead idle_view plain1 2.

Lemma plain_ok : pipe_ok plain_pipe.
Proof. apply newPipe_ok. Qed.

Lemma plain_env : write_env plain_pipe idle_view [1; 2; 3].
Proof. split; [reflexivity|]. split; [exact noFaults_ok|]. intros H. by destruct H. Qed.

Lemma plain_run :
  pipe_run plain_pipe [LWrite idle_view [1; 2; 3] (Done 3 None); LRead idle_view 2 (Done [1; 2] None)] plain2.
Proof.
  eapply run_cons; [|eapply run_cons; [|apply run_nil]].
  - apply (ps_write plain_pipe idle_view [1; 2; 3] (Done 3 None) plain1); [exact plain_env|reflexivity].
  - apply ps_read. reflexivity.
Qed.

Lemma reliable_delivery_witness : [1; 2] ++ flight plain2 = [] ++ [1; 2; 3] ++ [].
Proof.
  refine (reliable_delivery plain_pipe _ plain2 plain_ok _ plain_run _).
  - repeat (apply not_elem_of_cons; split; [discriminate|]). apply not_elem_of_nil.
  - intros v. done.
Defined.

(** A drained, closed pipe. *)
Definition drained : pipe (list Z) := close plain_pipe.
Definition drained1 := didRead idle_view drained 5.

Lemma drained_ok : pipe_ok drained.
Proof. split; cbn; try done. constructor. Qed.

Lemma eof_is_final_witness : tryRead idle_view (close drained1) 7 = (Done [] (Some EOF), close drained1).
Proof.
  refine (proj2 (eof_is_final idle_view drained 5 [] EOF drained1 [LClose] (close drained1) idle_view 7
    drained_ok _ _)).
  - reflexivity.
  - eapply run_cons; [apply ps_close|apply run_nil].
Defined.

Lemma plain1_ok : pipe_ok plain1.
Proof.
  exact (proj1 (run_ok plain_pipe _ plain1 plain_ok (run_cons _ _ _ _ _
      (ps_write plain_pipe idle_view [1; 2; 3] (Done 3 None) plain1 plain_env eq_refl) (run_nil _)))).
Qed.

Lemma back_pressure_witness :
  tryWrite idle_view plain1 [4; 5] = Ret (Wait (onPipe 1%nat), plain1) /\
  (@Wait Z (onPipe 1%nat) = Wait (onPipe (p_notify plain1)) /\ plain1 = plain1).
Proof.
  split; [reflexivity|].
  refine (proj2 (back_pressure plain1 idle_view [4; 5] (Wait (onPipe 1%nat)) plain1 _ _ _ _ _) _ _).
  - exact plain1_ok.
  - reflexivity.
  - reflexivity.
  - split; [reflexivity|]. split; [exact noFaults_ok|]. intros H. by destruct H.
  - reflexivity.
  - discriminate.
  - reflexivity.
Defined.

(** A reader of the faulty pipe keeps waiting while the unit is only pending. *)
Lemma no_lost_reader_wakeup_witness : tryRead live_view faulty1 4 = (Wait (onPipe 0%nat), faulty1).
Proof.
  refine (no_lost_reader_wakeup faulty_pipe live_view 4 0%nat faulty_pipe
    [LWrite live_view [1; 2; 3] (Done 3 None)] faulty1 live_view faulty_ok _ _ _).
  - reflexivity.
  - exact faulty1_run.
  - vm_compute. reflexivity.
Defined.

Lemma no_lost_writer_wakeup_witness :
  tryWrite idle_view (releaseDueLatency 5000 plain1) [4; 5]
  = Ret (Wait (onPipe 1%nat), releaseDueLatency 5000 plain1).
Proof.
  refine (no_lost_writer_wakeup plain1 idle_view [4; 5] 1%nat plain1 [LRelease 5000]
    (releaseDueLatency 5000 plain1) idle_view plain1_ok _ _ _).
  - reflexivity.
  - eapply run_cons; [apply ps_release|apply run_nil].
  - reflexivity.
Defined.

Lemma pending_drains_witness :
  exists k, (k <= 3)%nat /\ p_pending (Nat.iter k fire faulty1) = [] /\
    p_readable (Nat.iter k fire faulty1) = [] ++ [[1; 2; 131]; [1; 2; 131]].
Proof.
  refine (proj1 (pending_drains faulty1 1010 faulty1_ok _ _ _)).
  - vm_compute. reflexivity.
  - vm_compute. reflexivity.
  - assert (p_pending faulty1 = [mkPendingUnit [1; 2; 131] 1010; mkPendingUnit [1; 2; 131] 1010]) as ->
      by (vm_compute; reflexivity).
    repeat constructor.
Defined.
End witnesses.
