(* ===== verification/Deadline.v ===== *)
(** * Read and write deadlines (deadline.go)

    One [deadline] per direction of a conn: the instant, the armed timer (by the
    instant it fires) and the generation of the channel waiters hold. *)
From S2P Require Import Prelude GoRuntime.

Record deadline : Type := mkDeadline {
  dl_t : Time;
  dl_timer : option Time;
  dl_gen : generation
}.

Definition newDeadline : deadline := mkDeadline zeroTime None 0%nat.

Definition channel (d : deadline) : generation := dl_gen d.

Definition expired (now : Time) (d : deadline) : bool :=
  negb (time_IsZero (dl_t d)) && negb (time_After (dl_t d) now).

Definition bumpLocked (d : deadline) : deadline :=
  mkDeadline (dl_t d) (dl_timer d) (S (dl_gen d)).

Definition set (now t : Time) (d : deadline) : deadline :=
  let d := mkDeadline (dl_t d) None (dl_gen d) in
  let d := mkDeadline t (dl_timer d) (dl_gen d) in
  let d := bumpLocked d in
  if time_IsZero t || negb (time_After t now) then d
  else mkDeadline (dl_t d) (Some (time_Add now (time_Until now t))) (dl_gen d).

Definition stop (d : deadline) : deadline := mkDeadline (dl_t d) None (dl_gen d).

(** The callback [set] hands to [time.AfterFunc]; a timer that has fired is
    no longer armed. *)
Definition timerFired (d : deadline) : deadline :=
  bumpLocked (mkDeadline (dl_t d) None (dl_gen d)).

(** ** A deadline in time

    The clock, and a deadline that some conn is using: deadlines are set, time
    passes up to the next due timer, a due timer fires. *)
Inductive deadline_step : Time * deadline -> Time * deadline -> Prop :=
| step_set now t d : t - now < 2 ^ 63 -> deadline_step (now, d) (now, set now t d)
| step_tick now now' d :
    now <= now' -> (forall f, dl_timer d = Some f -> now' <= f) -> deadline_step (now, d) (now', d)
| step_fire now f d : dl_timer d = Some f -> f <= now -> deadline_step (now, d) (now, timerFired d).

(** A deadline in the future has its timer armed for exactly its instant. *)
Definition armed (s : Time * deadline) : Prop :=
  let '(now, d) := s in
  (dl_t d <> 0 -> now < dl_t d -> dl_timer d = Some (dl_t d)) /\
  (forall f, dl_timer d = Some f -> f = dl_t d /\ f <> 0).

Lemma newDeadline_armed now : armed (now, newDeadline).
Proof. by split. Qed.

Lemma expired_spec now d : expired now d = true <-> dl_t d <> 0 /\ dl_t d <= now.
Proof.
  unfold expired, time_IsZero, time_After. rewrite andb_true_iff, !negb_true_iff, Z.eqb_neq, Z.ltb_ge. done.
Qed.

Lemma set_armed now t d : t - now < 2 ^ 63 -> armed (now, set now t d).
Proof.
  intros Hr. unfold set, armed, bumpLocked, time_IsZero, time_After, time_Add, time_Until. cbn.
  destruct (Z.eqb_spec t 0) as [->|Hz]; cbn; [by split|].
  destruct (Z.ltb_spec now t); cbn; [|split; [lia|done]].
  rewrite time_Sub_exact by (unfold is_i64; lia). replace (now + (t - now)) with t by lia.
  split; [done|]. by intros f [= <-].
Qed.

Lemma deadline_step_armed s s' : armed s -> deadline_step s s' -> armed s'.
Proof.
  intros Ha Hst. destruct Hst as [now t d Hr|now now' d Hle Hdue|now f d Hf Hdue].
  - by apply set_armed.
  - destruct Ha as [H1 H2]. split; [|done]. intros Hz Hlt. apply H1; [done|lia].
  - destruct Ha as [H1 H2]. destruct (H2 f Hf) as [-> _]. split; cbn; [lia|done].
Qed.

Lemma armed_expiry s s' :
  armed s -> rtc deadline_step s s' ->
  armed s' /\ (dl_gen (snd s) <= dl_gen (snd s'))%nat /\
  (dl_gen (snd s) = dl_gen (snd s') -> dl_t (snd s) = dl_t (snd s') /\ dl_timer (snd s) = dl_timer (snd s')).
Proof.
  intros Ha Hst. induction Hst as [s|s s1 s2 H1 H2 IH]; [done|].
  pose proof (deadline_step_armed _ _ Ha H1) as Ha1. destruct (IH Ha1) as (H3 & H4 & H5).
  split; [done|]. destruct H1 as [now t d Hr|now now' d Hle Hdue|now f d Hf Hdue]; cbn in *.
  - assert (dl_gen (set now t d) = S (dl_gen d)) as E by (unfold set; by destruct (_ || _)). split; lia.
  - done.
  - split; lia.
Qed.

(** C38: a deadline is reported exactly when it is due, and no expiry is missed. A
    deadline set at any time is expired from its instant on and not before (a
    zero time never); setting one wakes whoever waits; and a waiter that took
    its channel while the deadline was not expired finds that channel closed
    once it is expired and the due timers have fired, whatever deadlines were
    set in between. *)
Theorem deadline_no_missed_expiry now d now' d' :
  armed (now, d) -> rtc deadline_step (now, d) (now', d') ->
  (forall t, expired now' (set now' t d') = (negb (t =? 0) && (t <=? now')) /\
             woken (channel d') (channel (set now' t d')) = true) /\
  (expired now d = false -> expired now' d' = true -> dl_timer d' = None ->
   woken (channel d) (channel d') = true).
Proof.
  intros Ha Hst. split.
  { intros t. unfold woken, channel, set. split.
    - unfold expired, time_IsZero, time_After. destruct (_ || _); cbn; f_equal; by rewrite Z.leb_antisym.
    - destruct (_ || _); apply Nat.ltb_lt; cbn; lia. }
  intros Hne He Hfired. destruct (armed_expiry _ _ Ha Hst) as ((H1 & H2) & H3 & H4). cbn in *.
  unfold woken, channel. apply Nat.ltb_lt. destruct (Nat.eq_dec (dl_gen d) (dl_gen d')) as [E|E]; [|lia].
  destruct (H4 E) as [Et Etm]. apply expired_spec in He as [Hz Hle].
  destruct Ha as [A1 A2]. rewrite Et in A1. rewrite Etm, Hfired in A1.
  assert (expired now d <> true) as Hn by congruence. exfalso.
  destruct (Z.lt_ge_cases now (dl_t d')) as [Hlt|Hge]; [by discriminate A1|].
  apply Hn, expired_spec. rewrite Et. lia.
Qed.

(** A deadline five seconds ahead, waited on, reached, fired. *)
Lemma deadline_no_missed_expiry_witness :
  woken 1%nat (channel (timerFired (set 100 105 newDeadline))) = true.
Proof.
  refine (proj2 (deadline_no_missed_expiry 100 (set 100 105 newDeadline) 105
    (timerFired (set 100 105 newDeadline)) _ _) _ _ _).
  - apply set_armed. lia.
  - eapply rtc_l; [apply (step_tick 100 105); [lia|intros f [= <-]; done]|].
    eapply rtc_l; [apply (step_fire 105 105); [reflexivity|lia]|]. apply rtc_refl.
  - reflexivity.
  - reflexivity.
  - reflexivity.
Defined.
