(* ===== verification/Options.v ===== *)
(** * Construction options and the runtime setters' validation (options.go and
    the With functions of the fault files)

    A panic message is kept up to the offending value. *)
From S2P Require Import Prelude GoRuntime Float64 Partition PipeState FaultProps.

Definition defaultSeed : Z := 1.

Record networkConfig : Type := mkNetworkConfig {
  nc_seed : Z;
  nc_traceEnabled : bool;
  nc_faults : faultConfig;   (** the eleven fault fields, under the names of [faultConfig] *)
  nc_staticPartitions : list partitionPair;
  nc_pipeBoundEnabled : bool;
  nc_pipeBound : Z;
  nc_listenerBacklogEnabled : bool;
  nc_listenerBacklog : Z
}.

(** ** Validators *)

Definition rate_outside (rate : float64) : bool :=
  f64_is_nan rate || f64_ltb rate f64_zero || f64_ltb f64_one rate.

Definition validateLossRate (caller : string) (rate : float64) : go unit :=
  if rate_outside rate then Panic ("netchaos: " ++ caller ++ ": rate must be in [0.0, 1.0]") else Ret tt.

Definition validateDuplicationRate (caller : string) (rate : float64) : go unit :=
  if rate_outside rate then Panic ("netchaos: " ++ caller ++ ": rate must be in [0.0, 1.0]") else Ret tt.

Definition validateCorruptionRate (caller : string) (rate : float64) : go unit :=
  if rate_outside rate then Panic ("netchaos: " ++ caller ++ ": rate must be in [0.0, 1.0]") else Ret tt.

Definition validateLatencyRange (caller : string) (min max : Duration) : go unit :=
  if min <? 0 then Panic ("netchaos: " ++ caller ++ ": min must be >= 0")
  else if max <? 0 then Panic ("netchaos: " ++ caller ++ ": max must be >= 0")
  else if max <? min then Panic ("netchaos: " ++ caller ++ ": min must be <= max")
  else Ret tt.

Definition validateBandwidthRate (bytesPerSecond : Z) : go unit :=
  if bytesPerSecond <=? 0 then Panic "netchaos: WithBandwidth: bytesPerSecond must be > 0" else Ret tt.

Definition validatePipeBound (bound : Z) : go unit :=
  if bound <=? 0 then Panic "netchaos: WithPipeBound: bound must be > 0" else Ret tt.

Definition validateListenerBacklog (backlog : Z) : go unit :=
  if backlog <=? 0 then Panic "netchaos: WithListenerBacklog: backlog must be > 0" else Ret tt.

(** [if enabled { validate }] *)
Definition when (b : bool) (m : go unit) : go unit := if b then m else Ret tt.

Fixpoint forEach {A} (l : list A) (f : A -> go unit) : go unit :=
  match l with
  | [] => Ret tt
  | x :: l => _ ← f x; forEach l f
  end.

Definition validate (c : networkConfig) : go unit :=
  let f := nc_faults c in
  _ ← when (lossEnabled f) (validateLossRate "WithPacketLoss" (lossRate f));
  _ ← when (latencyEnabled f) (validateLatencyRange "WithLatency" (latencyMin f) (latencyMax f));
  _ ← when (bandwidthEnabled f) (validateBandwidthRate (bandwidthBPS f));
  _ ← when (duplicateEnabled f) (validateDuplicationRate "WithDuplication" (duplicateRate f));
  _ ← when (corruptEnabled f) (validateCorruptionRate "WithCorruption" (corruptRate f));
  _ ← when (nc_pipeBoundEnabled c) (validatePipeBound (nc_pipeBound c));
  _ ← when (nc_listenerBacklogEnabled c) (validateListenerBacklog (nc_listenerBacklog c));
  forEach (nc_staticPartitions c) (validatePartitionPair "WithPartition").

(** ** Updates of the fault fields, shared with the setters *)

Definition set_lossCfg (c : faultConfig) (rate : float64) : faultConfig :=
  mkFaultConfig true rate (latencyEnabled c) (latencyMin c) (latencyMax c) (bandwidthEnabled c) (bandwidthBPS c)
    (duplicateEnabled c) (duplicateRate c) (corruptEnabled c) (corruptRate c).
Definition set_latencyCfg (c : faultConfig) (min max : Duration) : faultConfig :=
  mkFaultConfig (lossEnabled c) (lossRate c) true min max (bandwidthEnabled c) (bandwidthBPS c)
    (duplicateEnabled c) (duplicateRate c) (corruptEnabled c) (corruptRate c).
Definition set_bandwidthCfg (c : faultConfig) (bps : Z) : faultConfig :=
  mkFaultConfig (lossEnabled c) (lossRate c) (latencyEnabled c) (latencyMin c) (latencyMax c) true bps
    (duplicateEnabled c) (duplicateRate c) (corruptEnabled c) (corruptRate c).
Definition set_duplicateCfg (c : faultConfig) (rate : float64) : faultConfig :=
  mkFaultConfig (lossEnabled c) (lossRate c) (latencyEnabled c) (latencyMin c) (latencyMax c) (bandwidthEnabled c)
    (bandwidthBPS c) true rate (corruptEnabled c) (corruptRate c).
Definition set_corruptCfg (c : faultConfig) (rate : float64) : faultConfig :=
  mkFaultConfig (lossEnabled c) (lossRate c) (latencyEnabled c) (latencyMin c) (latencyMax c) (bandwidthEnabled c)
    (bandwidthBPS c) (duplicateEnabled c) (duplicateRate c) true rate.

Definition with_faults (f : faultConfig -> faultConfig) (c : networkConfig) : networkConfig :=
  mkNetworkConfig (nc_seed c) (nc_traceEnabled c) (f (nc_faults c)) (nc_staticPartitions c) (nc_pipeBoundEnabled c)
    (nc_pipeBound c) (nc_listenerBacklogEnabled c) (nc_listenerBacklog c).

(** ** Options *)

(** [Option]: a function on the configuration being built. *)
Definition Option : Type := networkConfig -> networkConfig.

Definition WithSeed (seed : Z) : Option := fun c =>
  mkNetworkConfig seed (nc_traceEnabled c) (nc_faults c) (nc_staticPartitions c) (nc_pipeBoundEnabled c)
    (nc_pipeBound c) (nc_listenerBacklogEnabled c) (nc_listenerBacklog c).

Definition WithTrace (enabled : bool) : Option := fun c =>
  mkNetworkConfig (nc_seed c) enabled (nc_faults c) (nc_staticPartitions c) (nc_pipeBoundEnabled c)
    (nc_pipeBound c) (nc_listenerBacklogEnabled c) (nc_listenerBacklog c).

Definition WithPacketLoss (rate : float64) : Option := with_faults (fun f => set_lossCfg f rate).
Definition WithLatency (min max : Duration) : Option := with_faults (fun f => set_latencyCfg f min max).
Definition WithBandwidth (bytesPerSecond : Z) : Option := with_faults (fun f => set_bandwidthCfg f bytesPerSecond).
Definition WithDuplication (rate : float64) : Option := with_faults (fun f => set_duplicateCfg f rate).
Definition WithCorruption (rate : float64) : Option := with_faults (fun f => set_corruptCfg f rate).

Definition WithPartition (peerA peerB : string) : Option := fun c =>
  mkNetworkConfig (nc_seed c) (nc_traceEnabled c) (nc_faults c)
    (nc_staticPartitions c ++ [mkPartitionPair peerA peerB]) (nc_pipeBoundEnabled c)
    (nc_pipeBound c) (nc_listenerBacklogEnabled c) (nc_listenerBacklog c).

Definition WithPipeBound (bound : Z) : Option := fun c =>
  mkNetworkConfig (nc_seed c) (nc_traceEnabled c) (nc_faults c) (nc_staticPartitions c) true bound
    (nc_listenerBacklogEnabled c) (nc_listenerBacklog c).

Definition WithListenerBacklog (backlog : Z) : Option := fun c =>
  mkNetworkConfig (nc_seed c) (nc_traceEnabled c) (nc_faults c) (nc_staticPartitions c) (nc_pipeBoundEnabled c)
    (nc_pipeBound c) true backlog.

(** The configuration [NewNetwork] starts from, and its loop over the options
    ([None] is a nil Option). *)
Definition initialConfig : networkConfig :=
  mkNetworkConfig defaultSeed true noFaults [] false 0 false 0.

Fixpoint applyOptions (i : nat) (opts : list (option Option)) (c : networkConfig) : go networkConfig :=
  match opts with
  | [] => Ret c
  | None :: _ => Panic "netchaos: NewNetwork: nil Option at index"
  | Some opt :: opts => applyOptions (S i) opts (opt c)
  end.

(** ** The options as data *)

(** What a caller can pass that is an option of this package. *)
Inductive optionValue : Type :=
| OSeed (seed : Z) | OTrace (enabled : bool) | OLoss (rate : float64) | OLatency (min max : Duration)
| OBandwidth (bps : Z) | ODuplication (rate : float64) | OCorruption (rate : float64)
| OPartition (a b : string) | OPipeBound (bound : Z) | OBacklog (backlog : Z).

Definition optionOf (o : optionValue) : Option :=
  match o with
  | OSeed s => WithSeed s | OTrace b => WithTrace b | OLoss r => WithPacketLoss r
  | OLatency a b => WithLatency a b | OBandwidth b => WithBandwidth b | ODuplication r => WithDuplication r
  | OCorruption r => WithCorruption r | OPartition a b => WithPartition a b | OPipeBound b => WithPipeBound b
  | OBacklog b => WithListenerBacklog b
  end.

Definition kind_of (o : optionValue) : nat :=
  match o with
  | OSeed _ => 0 | OTrace _ => 1 | OLoss _ => 2 | OLatency _ _ => 3 | OBandwidth _ => 4 | ODuplication _ => 5
  | OCorruption _ => 6 | OPartition _ _ => 7 | OPipeBound _ => 8 | OBacklog _ => 9
  end.

Definition configure (opts : list optionValue) (c : networkConfig) : networkConfig :=
  fold_left (fun c o => optionOf o c) opts c.

Lemma applyOptions_configure i opts c :
  applyOptions i (map (fun o => Some (optionOf o)) opts) c = Ret (configure opts c).
Proof. revert i c. induction opts as [|o opts IH]; intros i c; [done|]. apply IH. Qed.

Lemma option_commute a b c : kind_of a <> kind_of b -> optionOf a (optionOf b c) = optionOf b (optionOf a c).
Proof. by destruct a, b. Qed.

Lemma option_absorb a b c : kind_of a = kind_of b -> kind_of a <> 7%nat -> optionOf b (optionOf a c) = optionOf b c.
Proof. by destruct a, b. Qed.

Lemma configure_app xs ys c : configure (xs ++ ys) c = configure ys (configure xs c).
Proof. apply fold_left_app. Qed.

Lemma option_overridden a b ys c :
  kind_of a = kind_of b -> kind_of a <> 7%nat -> configure (ys ++ [b]) (optionOf a c) = configure (ys ++ [b]) c.
Proof.
  intros Hk H7. revert c. induction ys as [|y ys IH]; intros c; cbn; [by apply option_absorb|].
  destruct (decide (kind_of a = kind_of y)) as [Ey|Ey]; [by rewrite option_absorb|].
  rewrite option_commute by congruence. apply IH.
Qed.

(** ** Properties *)

(** What validation demands. *)
Definition rate_valid (r : float64) : Prop :=
  f64_is_nan r = false /\ f64_ltb r f64_zero = false /\ f64_ltb f64_one r = false.

Definition pair_valid (p : partitionPair) : Prop :=
  peerA p <> ""%string /\ peerB p <> ""%string /\ peerA p <> peerB p.

Definition config_valid (c : networkConfig) : Prop :=
  let f := nc_faults c in
  (lossEnabled f = true -> rate_valid (lossRate f)) /\
  (latencyEnabled f = true -> 0 <= latencyMin f <= latencyMax f) /\
  (bandwidthEnabled f = true -> 0 < bandwidthBPS f) /\
  (duplicateEnabled f = true -> rate_valid (duplicateRate f)) /\
  (corruptEnabled f = true -> rate_valid (corruptRate f)) /\
  (nc_pipeBoundEnabled c = true -> 0 < nc_pipeBound c) /\
  (nc_listenerBacklogEnabled c = true -> 0 < nc_listenerBacklog c) /\
  Forall pair_valid (nc_staticPartitions c).

Lemma validateRate_spec (caller : string) r : validateLossRate caller r = Ret tt <-> rate_valid r.
Proof.
  unfold validateLossRate, rate_outside, rate_valid.
  destruct (f64_is_nan r), (f64_ltb r f64_zero), (f64_ltb f64_one r); cbn; intuition congruence.
Qed.

Lemma validateLatency_spec (caller : string) min max :
  validateLatencyRange caller min max = Ret tt <-> 0 <= min <= max.
Proof.
  unfold validateLatencyRange. destruct (Z.ltb_spec min 0); [split; [done|lia]|].
  destruct (Z.ltb_spec max 0); [split; [done|lia]|]. destruct (Z.ltb_spec max min); split; (done || lia).
Qed.

Lemma validatePair_spec caller p : validatePartitionPair caller p = Ret tt <-> pair_valid p.
Proof.
  unfold validatePartitionPair, pair_valid.
  destruct (String.eqb_spec (peerA p) ""), (String.eqb_spec (peerB p) ""), (String.eqb_spec (peerA p) (peerB p));
    cbn; intuition congruence.
Qed.

Lemma when_spec b m P : (m = Ret tt <-> P) -> (when b m = Ret tt <-> (b = true -> P)).
Proof. destruct b; cbn; [tauto|]. intros _. split; [done|done]. Qed.

Lemma seq_spec m k P Q : (m = Ret tt <-> P) -> (k = Ret tt <-> Q) -> (m ≫= (fun _ : unit => k)) = Ret tt <-> P /\ Q.
Proof. intros <- <-. rewrite go_bind_ret. split; [by intros ([] & -> & ->)|intros [-> ->]; by exists tt]. Qed.

Lemma forEach_spec {A} (l : list A) f (P : A -> Prop) :
  (forall x, f x = Ret tt <-> P x) -> (forEach l f = Ret tt <-> Forall P l).
Proof.
  intros Hf. induction l as [|x l IH]; cbn; [split; [by constructor|done]|].
  rewrite (seq_spec _ _ _ _ (Hf x) IH). by rewrite Forall_cons.
Qed.

Lemma positive_spec z (msg : string) : (if z <=? 0 then Panic msg else Ret tt) = Ret tt <-> 0 < z.
Proof. destruct (Z.leb_spec z 0); split; (done || lia). Qed.

Lemma validate_spec c : validate c = Ret tt <-> config_valid c.
Proof.
  unfold validate, config_valid.
  apply seq_spec; [apply when_spec, validateRate_spec|].
  apply seq_spec; [apply when_spec, validateLatency_spec|].
  apply seq_spec; [apply when_spec, positive_spec|].
  apply seq_spec; [apply when_spec, (validateRate_spec "WithDuplication")|].
  apply seq_spec; [apply when_spec, (validateRate_spec "WithCorruption")|].
  apply seq_spec; [apply when_spec, positive_spec|].
  apply seq_spec; [apply when_spec, positive_spec|].
  apply forEach_spec, validatePair_spec.
Qed.

(** Options. A configuration passes validation exactly when every value given
    is in range; and of two options of the same kind (but for WithPartition,
    which accumulates) only the later counts, wherever the earlier stands: so
    a later valid option rescues an earlier invalid one, and the order of options
    of different kinds is irrelevant to it. *)
Theorem option_validation c xs a ys b zs :
  (validate c = Ret tt <-> config_valid c) /\
  (kind_of a = kind_of b -> kind_of a <> 7%nat ->
   applyOptions 0 (map (fun o => Some (optionOf o)) (xs ++ a :: ys ++ b :: zs)) c =
   applyOptions 0 (map (fun o => Some (optionOf o)) (xs ++ ys ++ b :: zs)) c) /\
  (forall i opts, None ∈ opts -> exists msg, applyOptions i opts c = Panic msg).
Proof.
  split; [apply validate_spec|]. split.
  - intros Hk H7. rewrite !applyOptions_configure. f_equal.
    replace (xs ++ a :: ys ++ b :: zs) with (xs ++ [a] ++ (ys ++ [b]) ++ zs) by (cbn; by rewrite <- app_assoc).
    replace (xs ++ ys ++ b :: zs) with (xs ++ (ys ++ [b]) ++ zs) by (cbn; by rewrite <- app_assoc).
    rewrite (configure_app xs), (configure_app xs), (configure_app [a]), (configure_app (ys ++ [b]) zs),
      (configure_app (ys ++ [b]) zs).
    f_equal. by apply option_overridden.
  - intros i opts Hin. revert i c. induction opts as [|o opts IH]; intros i c; [by apply elem_of_nil in Hin|].
    cbn. destruct o as [o|]; [|eauto]. apply elem_of_cons in Hin as [Hin|Hin]; [done|]. by apply IH.
Qed.

(** An invalid loss rate, rescued. *)
Lemma option_validation_witness :
  applyOptions 0 (map (fun o => Some (optionOf o)) ([] ++ OLoss S754_nan :: [OSeed 7] ++ OLoss f64_half :: [])) initialConfig =
  applyOptions 0 (map (fun o => Some (optionOf o)) ([] ++ [OSeed 7] ++ OLoss f64_half :: [])) initialConfig.
Proof.
  refine (proj1 (proj2 (option_validation initialConfig [] (OLoss S754_nan) [OSeed 7] (OLoss f64_half) [])) _ _).
  - reflexivity.
  - discriminate.
Defined.
