(* ===== verification/RawPipe.v ===== *)
(** * The blocking loops of a raw pipe (pipe.go, [read] and [write]), and a
    writer and a reader that use them on one pipe: no wakeup is lost, the two
    never deadlock, and everything arrives. *)
From S2P Require Import Prelude GoRuntime Errors Rand Partition Trace PipeState Faults FaultProps Pipe PipeInv.

(** Where a call of [read] or [write] is: about to try, or blocked on a channel. *)
Inductive loopPC : Type :=
| Trying
| Blocked (ch : waitChan).

Section raw.
Context {Src : Type} `{!DrawSource Src} `{!RejectFuel}.
Implicit Types (p : pipe Src) (v : netView).

(** [<-ch] returns once the channel has been closed. *)
Definition chanClosed v p (ch : waitChan) : bool :=
  match ch with
  | onPipe g => woken g (p_notify p)
  | onPartition g => woken g (partNotify (nv_parts v))
  end.

(** One step of [read]: what it returns, or where it is next. [None]: it is
    blocked. *)
Definition rawRead v (pc : loopPC) p (n : nat) : option ((loopPC + (list Z * option goerror)) * pipe Src) :=
  match pc with
  | Trying =>
      let '(r, p) := tryRead v p n in
      match r with
      | Done out err => Some (inr (out, err), p)
      | Wait ch => Some (inl (Blocked ch), p)
      end
  | Blocked ch => if chanClosed v p ch then Some (inl Trying, p) else None
  end.

(** One step of [write]. *)
Definition rawWrite v (pc : loopPC) p (data : list Z) : go (option ((loopPC + (Z * option goerror)) * pipe Src)) :=
  match pc with
  | Trying =>
      r ← tryWrite v p data;
      let '(r, p) := r in
      match r with
      | Done n err => Ret (Some (inr (n, err), p))
      | Wait ch => Ret (Some (inl (Blocked ch), p))
      end
  | Blocked ch => Ret (if chanClosed v p ch then Some (inl Trying, p) else None)
  end.

(** ** A transfer

    One goroutine writes payload after payload and then closes the pipe; another
    reads, into a buffer of [size] bytes, until it is told the end. *)
Record transfer : Type := mkTransfer {
  x_pipe : pipe Src;
  x_todo : list (list Z);
  x_writer : loopPC;
  x_reader : option loopPC;  (** [None] once it has read [io.EOF] *)
  x_got : list Z
}.

Definition startTransfer (bound : Z) (payloads : list (list Z)) : transfer :=
  mkTransfer (newPipe bound) payloads Trying (Some Trying) [].

Inductive transfer_step (v : netView) (size : nat) : transfer -> transfer -> Prop :=
| ts_write p d ds pc pc' rpc got p' :
    rawWrite v pc p d = Ret (Some (inl pc', p')) ->
    transfer_step v size (mkTransfer p (d :: ds) pc rpc got) (mkTransfer p' (d :: ds) pc' rpc got)
| ts_written p d ds pc rpc got n p' :
    rawWrite v pc p d = Ret (Some (inr (n, None), p')) ->
    transfer_step v size (mkTransfer p (d :: ds) pc rpc got) (mkTransfer p' ds Trying rpc got)
| ts_close p pc rpc got :
    p_closed p = false ->
    transfer_step v size (mkTransfer p [] pc rpc got) (mkTransfer (close p) [] pc rpc got)
| ts_read p todo wpc pc pc' got p' :
    rawRead v pc p size = Some (inl pc', p') ->
    transfer_step v size (mkTransfer p todo wpc (Some pc) got) (mkTransfer p' todo wpc (Some pc') got)
| ts_got p todo wpc pc got out p' :
    rawRead v pc p size = Some (inr (out, None), p') ->
    transfer_step v size (mkTransfer p todo wpc (Some pc) got) (mkTransfer p' todo wpc (Some Trying) (got ++ out))
| ts_eof p todo wpc pc got out p' :
    rawRead v pc p size = Some (inr (out, Some EOF), p') ->
    transfer_step v size (mkTransfer p todo wpc (Some pc) got) (mkTransfer p' todo wpc None (got ++ out)).

(** ** The invariant and the measure *)

Abbreviation totalBytes l := (length (concat l)).

(** A pipe without Network or faults. *)
Definition raw p : Prop :=
  (p_deliver p = passThrough /\ p_partitionNetwork p = false /\ p_readClosed p = false) /\ p_pending p = [].

(** A blocked goroutine whose channel is still open has a reason to be so. *)
Definition writer_waits p (pc : loopPC) : Prop :=
  match pc with
  | Trying => True
  | Blocked (onPipe g) => (g <= p_notify p)%nat /\ (g = p_notify p -> p_bufBytes p <> 0)
  | Blocked (onPartition _) => False
  end.

Definition reader_waits p (pc : loopPC) : Prop :=
  match pc with
  | Trying => True
  | Blocked (onPipe g) => (g <= p_notify p)%nat /\ (g = p_notify p -> p_readable p = [] /\ p_closed p = false)
  | Blocked (onPartition _) => False
  end.

Record transfer_ok (payloads : list (list Z)) (x : transfer) : Prop := {
  to_raw : raw (x_pipe x);
  to_buf : p_bufBytes (x_pipe x) = Z.of_nat (totalBytes (p_readable (x_pipe x)));
  to_bytes : x_got x ++ concat (p_readable (x_pipe x)) ++ concat (x_todo x) = concat payloads;
  to_closed : p_closed (x_pipe x) = true -> x_todo x = [];
  to_writer : writer_waits (x_pipe x) (x_writer x);
  to_reader : match x_reader x with
              | Some pc => reader_waits (x_pipe x) pc
              | None => p_closed (x_pipe x) = true /\ p_readable (x_pipe x) = []
              end
}.

(** What is left to do: payloads to write and the closing, chunks and bytes to
    read; and, for each goroutine, how far it is from blocking. *)
Definition work (x : transfer) : nat :=
  2 * length (x_todo x) + (if p_closed (x_pipe x) then 0 else 1) + totalBytes (x_todo x) +
  length (p_readable (x_pipe x)) + totalBytes (p_readable (x_pipe x)).

Definition unrest p (pc : loopPC) : nat :=
  match pc with
  | Trying => 1
  | Blocked (onPipe g) => if (g <? p_notify p)%nat then 2 else 0
  | Blocked (onPartition _) => 0
  end.

Definition measure (x : transfer) : nat :=
  6 * work x + unrest (x_pipe x) (x_writer x) + match x_reader x with Some pc => 1 + unrest (x_pipe x) pc | None => 0 end.

Lemma unrest_le p pc : (unrest p pc <= 2)%nat.
Proof. unfold unrest. repeat case_match; lia. Qed.

Lemma unrest_trying p : unrest p Trying = 1%nat.
Proof. done. Qed.

Lemma unrest_current p : unrest p (Blocked (onPipe (p_notify p))) = 0%nat.
Proof. unfold unrest. by rewrite Nat.ltb_irrefl. Qed.

Lemma unrest_stale p g : woken g (p_notify p) = true -> unrest p (Blocked (onPipe g)) = 2%nat.
Proof. unfold unrest, woken. by intros ->. Qed.

#[local] Arguments unrest : simpl never.

(** ** One try *)

Lemma raw_tryWrite v p d :
  raw p -> p_closed p = false ->
  (exists p', tryWrite v p d = Ret (Done (zlen d) None, p') /\ raw p' /\ p_closed p' = false /\
     p_readable p' = p_readable p ++ [d] /\ p_bufBytes p' = p_bufBytes p + zlen d /\ p_notify p' = S (p_notify p)) \/
  (tryWrite v p d = Ret (Wait (onPipe (p_notify p)), p) /\ p_bufBytes p <> 0).
Proof.
  intros [(Hd & Hn & Hr) Hp] Hc. unfold tryWrite. rewrite Hc, Hr. cbn [orb].
  destruct (_ || _) eqn:E; [left|right; zbool; by split].
  unfold runDeliver. cbn [p_deliver set_bufBytes]. rewrite Hd. eexists. by repeat split.
Qed.

Lemma copyOut_length readable n out rest : copyOut readable n = (out, rest) -> (length rest <= length readable)%nat.
Proof.
  revert n out rest. induction readable as [|c cs IH]; intros n out rest; cbn [copyOut]; [by intros [= <- <-]|].
  destruct (Nat.eqb n 0); [by intros [= <- <-]|]. destruct (Nat.eqb _ _).
  - destruct (copyOut cs _) as [o r] eqn:E. intros [= <- <-]. apply IH in E. cbn. lia.
  - intros [= <- <-]. done.
Qed.

(** What a try of a reader takes, and what it reports. *)
Lemma raw_tryRead v p n r p' :
  raw p -> n <> 0%nat -> tryRead v p n = (r, p') ->
  exists out, out ++ concat (p_readable p') = concat (p_readable p) /\ raw p' /\ p_closed p' = p_closed p /\
    p_bufBytes p' = p_bufBytes p - zlen out /\
    ((p_readable p = [] /\ out = [] /\ p_readable p' = [] /\ p_notify p' = p_notify p) \/
     (length (p_readable p') + length (concat (p_readable p')) < length (p_readable p) + length (concat (p_readable p)))%nat /\
     p_notify p' = S (p_notify p)) /\
    ((out <> [] /\ r = Done out None) \/
     (out = [] /\ p_readable p' = [] /\ p_closed p = true /\ r = Done [] (Some EOF)) \/
     (out = [] /\ p_readable p' = [] /\ p_closed p = false /\ r = Wait (onPipe (p_notify p')))).
Proof.
  intros [(Hd & Hn & Hr) Hp] Hsize. unfold tryRead. rewrite Hr.
  assert (forall q : pipe Src, p_pending q = [] -> p_partitionNetwork q = false ->
    tryReadEOF v q = if p_closed q then (Done [] (Some EOF), if p_eofSeen q then q else set_eofSeen q true)
                     else (Wait (onPipe (p_notify q)), q)) as Heof.
  { intros q Hq Hq'. unfold tryReadEOF. rewrite Hq, Hq'. destruct (p_closed q); [|done]. cbn. by destruct (p_eofSeen q). }
  destruct (p_readable p) as [|c cs] eqn:Er.
  - rewrite Heof by done. intros E. exists []. destruct (p_closed p) eqn:Hc.
    + destruct (p_eofSeen p); injection E as <- <-; cbn; rewrite ?Er, Z.sub_0_r; (split_and!; try done; naive_solver).
    + injection E as <- <-. rewrite Er, Z.sub_0_r. split_and!; try done; naive_solver.
  - rewrite <- Er. destruct (copyOut (p_readable p) n) as [out rest] eqn:Ec.
    pose proof (copyOut_length _ _ _ _ Ec) as Hlen. pose proof (copyOut_spec _ _ _ _ Ec) as (H1 & H2 & H3).
    intros E. exists out.
    destruct (decide (out = [])) as [->|Hne].
    + apply copyOut_empty in Ec as [-> Hcat]; [|done]. cbn [zlen length Z.of_nat Z.ltb orb] in E.
      rewrite (proj2 (Nat.eqb_neq n 0)) in E by done. cbn in E. rewrite Heof in E by done. cbn in E.
      assert (0 < length (p_readable p))%nat by (rewrite Er; cbn; lia). rewrite Hcat.
      destruct (p_closed p) eqn:Hc; [destruct (p_eofSeen p)|]; injection E as <- <-; cbn;
        (split_and!; [done|done|done|done|right; split; [lia|done]|right; naive_solver]).
    + assert (0 < length out)%nat by (destruct out; [done|cbn; lia]).
      assert ((0 <? zlen out) = true) as Hz by (apply Z.ltb_lt; unfold zlen; lia). rewrite Hz in E. cbn in E. injection E as <- <-.
      cbn. rewrite <- H1, length_app. split_and!; try done; [right; split; [lia|done]|by left].
Qed.

Lemma startTransfer_ok bound payloads : transfer_ok payloads (startTransfer bound payloads).
Proof. by constructor. Qed.

(** Only the generation of a channel that is being waited on can make a waiter
    wrong, and only by not moving. *)
Lemma waits_bump p p' pc :
  p_notify p' = S (p_notify p) ->
  (writer_waits p pc -> writer_waits p' pc) /\ (reader_waits p pc -> reader_waits p' pc).
Proof.
  intros E. destruct pc as [|[g|g]]; [done| |done]. cbn. rewrite E. split; intros [H1 _]; (split; [lia|intros ->; lia]).
Qed.

Lemma wakes v p g : (g <= p_notify p)%nat -> chanClosed v p (onPipe g) = negb (Nat.eqb g (p_notify p)).
Proof.
  intros Hle. cbn. unfold woken. destruct (Nat.eqb_spec g (p_notify p)) as [->|Hne]; cbn; [apply Nat.ltb_irrefl|apply Nat.ltb_lt; lia].
Qed.

Definition better (payloads : list (list Z)) (x x' : transfer) : Prop :=
  transfer_ok payloads x' /\ (measure x' < measure x)%nat.

Lemma write_better payloads v p d ds pc rpc got r p' :
  transfer_ok payloads (mkTransfer p (d :: ds) pc rpc got) -> rawWrite v pc p d = Ret (Some (r, p')) ->
  match r with
  | inl pc' => better payloads (mkTransfer p (d :: ds) pc rpc got) (mkTransfer p' (d :: ds) pc' rpc got)
  | inr (n, err) => n = zlen d /\ err = None /\ better payloads (mkTransfer p (d :: ds) pc rpc got) (mkTransfer p' ds Trying rpc got)
  end.
Proof.
  intros [Hraw Hb Hby Hc Hw Hr] E. cbn in *.
  assert (p_closed p = false) as Hcl by (destruct (p_closed p); [by specialize (Hc eq_refl)|done]).
  destruct pc as [|ch]; cbn [rawWrite] in E.
  - destruct (raw_tryWrite v p d Hraw Hcl) as [(q & Eq & Hraw' & Hc' & Hrd & Hb' & Hn)|[Eq Hne]];
      rewrite Eq in E; cbn in E; injection E as <- <-.
    + split; [done|]. split; [done|]. split.
      * constructor; cbn; rewrite ?Hc', ?Hrd, ?Hb', ?Hb; [done| | |done|done|].
        { rewrite concat_app, length_app. cbn. rewrite app_nil_r. unfold zlen. lia. }
        { rewrite concat_app. cbn. by rewrite app_nil_r, <- !app_assoc. }
        { destruct rpc as [pc|]; [by apply (waits_bump p q)|]. destruct Hr as [Hr _]. congruence. }
      * unfold measure, work. cbn. rewrite Hrd, Hc', Hcl, concat_app, !length_app. cbn. rewrite app_nil_r.
        rewrite !unrest_trying. destruct rpc as [pc|]; [pose proof (unrest_le q pc)|]; cbn in *; lia.
    + split; [constructor; cbn; try done; by split|]. unfold measure, work. cbn. rewrite unrest_current, unrest_trying. lia.
  - destruct (chanClosed v p ch) eqn:Ech; [|done]. injection E as <- <-. split; [by constructor|].
    destruct ch as [g|g]; [|done]. cbn in Ech. unfold measure, work. cbn [x_writer x_pipe x_reader x_todo].
    rewrite unrest_trying, (unrest_stale _ _ Ech). lia.
Qed.

Lemma read_better payloads v size p todo wpc pc got r p' :
  size <> 0%nat -> transfer_ok payloads (mkTransfer p todo wpc (Some pc) got) -> rawRead v pc p size = Some (r, p') ->
  match r with
  | inl pc' => better payloads (mkTransfer p todo wpc (Some pc) got) (mkTransfer p' todo wpc (Some pc') got)
  | inr (out, None) => better payloads (mkTransfer p todo wpc (Some pc) got) (mkTransfer p' todo wpc (Some Trying) (got ++ out))
  | inr (out, Some err) => err = EOF /\ better payloads (mkTransfer p todo wpc (Some pc) got) (mkTransfer p' todo wpc None (got ++ out))
  end.
Proof.
  intros Hsize [Hraw Hb Hby Hc Hw Hr] E. cbn in *. destruct pc as [|ch]; cbn [rawRead] in E.
  - destruct (tryRead v p size) as [t q] eqn:Et.
    destruct (raw_tryRead v p size t q Hraw Hsize Et) as (out & H1 & Hraw' & Hcl & Hb' & Hmove & Hres).
    assert (forall rpc', match rpc' with Some pc => reader_waits q pc
                                    | None => p_closed q = true /\ p_readable q = [] end ->
              transfer_ok payloads (mkTransfer q todo wpc rpc' (got ++ out))) as Hok.
    { intros rpc' Hr'. constructor; cbn; [done| | |by rewrite Hcl| |exact Hr'].
      - rewrite Hb', Hb, <- H1, length_app. unfold zlen. lia.
      - rewrite <- Hby, <- H1. by rewrite <- !app_assoc.
      - destruct Hmove as [(_ & -> & _ & Hn)|[_ Hn]]; [|by apply (waits_bump p q)].
        destruct wpc as [|[g|g]]; [done| |by destruct Hw]. cbn in Hw |- *. rewrite Hn, Hb'. cbn. by rewrite Z.sub_0_r. }
    assert (forall rpc', (match rpc' with Some pc => 1 + unrest q pc | None => 0 end <= 2)%nat ->
              (match rpc' with Some pc => 1 + unrest q pc | None => 0 end <= 1)%nat \/ out <> [] ->
              (measure (mkTransfer q todo wpc rpc' (got ++ out)) < measure (mkTransfer p todo wpc (Some Trying) got))%nat) as Hm.
    { intros rpc' Hle Hlt. unfold measure, work. cbn [x_pipe x_todo x_writer x_reader].
      set (m := match rpc' with Some _ => _ | None => _ end) in *. clearbody m. rewrite Hcl. pose proof (unrest_le q wpc).
      destruct Hmove as [(E1 & E2 & E3 & Hn)|[Hdec Hn]].
      - rewrite E1, E3. destruct Hlt as [Hlt|]; [|done].
        assert (unrest q wpc = unrest p wpc) as -> by (unfold unrest; by rewrite Hn). rewrite unrest_trying. cbn. lia.
      - lia. }
    destruct Hres as [(Hne & ->)|[(Ho & Hrd & Hcl' & ->)|(Ho & Hrd & Hcl' & ->)]]; injection E as <- <-; cbn.
    + split; [by apply Hok|apply Hm; [rewrite unrest_trying; lia|by right]].
    + split; [done|]. rewrite Ho in Hok, Hm. split; [apply Hok; rewrite Hcl; done|apply Hm; [cbn; lia|left; lia]].
    + rewrite Ho, app_nil_r in Hok, Hm. split; [apply Hok; cbn; rewrite Hcl; done|].
      apply Hm; rewrite unrest_current; [lia|left; lia].
  - destruct (chanClosed v p ch) eqn:Ech; [|done]. injection E as <- <-. split; [by constructor|].
    destruct ch as [g|g]; [|done]. cbn in Ech. unfold measure, work. cbn [x_writer x_pipe x_reader x_todo].
    rewrite unrest_trying, (unrest_stale _ _ Ech). lia.
Qed.

Lemma close_better payloads p pc rpc got :
  transfer_ok payloads (mkTransfer p [] pc rpc got) -> p_closed p = false ->
  better payloads (mkTransfer p [] pc rpc got) (mkTransfer (close p) [] pc rpc got).
Proof.
  intros [Hraw Hb Hby Hc Hw Hr] Hcl. cbn in *. unfold close. rewrite Hcl. split.
  - constructor; cbn; [done|done|done|done|by apply (waits_bump p)|].
    destruct rpc as [rpc|]; [by apply (waits_bump p)|]. destruct Hr. congruence.
  - unfold measure, work. cbn [x_pipe x_todo x_writer x_reader p_closed p_readable broadcastLocked set_notify set_closed].
    rewrite Hcl. pose proof (unrest_le (broadcastLocked (set_closed p true)) pc).
    destruct rpc as [rpc|]; [pose proof (unrest_le (broadcastLocked (set_closed p true)) rpc)|]; cbn in *; lia.
Qed.

Lemma transfer_better payloads v size x x' :
  size <> 0%nat -> transfer_ok payloads x -> transfer_step v size x x' -> better payloads x x'.
Proof.
  intros Hsize Hok Hstep. destruct Hstep as [p d ds pc pc' rpc got p' E|p d ds pc rpc got n p' E|p pc rpc got E|
    p todo wpc pc pc' got p' E|p todo wpc pc got out p' E|p todo wpc pc got out p' E].
  - exact (write_better payloads _ _ _ _ _ _ _ _ _ Hok E).
  - exact (proj2 (proj2 (write_better payloads _ _ _ _ _ _ _ _ _ Hok E))).
  - by apply close_better.
  - exact (read_better payloads _ _ _ _ _ _ _ _ _ Hsize Hok E).
  - exact (read_better payloads _ _ _ _ _ _ _ _ _ Hsize Hok E).
  - exact (proj2 (read_better payloads _ _ _ _ _ _ _ _ _ Hsize Hok E)).
Qed.

(** A goroutine of the transfer that cannot move waits for the other one. *)
Lemma transfer_moves payloads v size x :
  size <> 0%nat -> transfer_ok payloads x ->
  (exists x', transfer_step v size x x') \/ (x_todo x = [] /\ p_closed (x_pipe x) = true /\ x_reader x = None).
Proof.
  intros Hsize Hok. destruct x as [p todo wpc rpc got]. pose proof Hok as [Hraw Hb Hby Hc Hw Hr]. cbn in *.
  assert (rpc <> None -> (forall g, rpc = Some (Blocked (onPipe g)) -> g = p_notify p -> False) ->
    exists x', transfer_step v size (mkTransfer p todo wpc rpc got) x') as Hread.
  { intros Hsome Hnb. destruct rpc as [pc|]; [|done].
    assert (is_Some (rawRead v pc p size)) as [[r p'] E].
    { destruct pc as [|[g|g]]; cbn [rawRead]; [destruct (tryRead _ _ _) as [[] ?]; by eexists| |done].
      cbn in Hr. rewrite wakes by apply Hr. destruct (Nat.eqb_spec g (p_notify p)) as [->|]; [by destruct (Hnb _ eq_refl)|by eexists]. }
    pose proof (read_better payloads _ _ _ _ _ _ _ _ _ Hsize Hok E) as Hbt.
    destruct r as [pc'|[out [err|]]]; [eexists; by eapply ts_read| |eexists; by eapply ts_got].
    destruct Hbt as [-> _]. eexists. by eapply ts_eof. }
  destruct todo as [|d ds].
  - destruct (p_closed p) eqn:Hcl; [|left; eexists; by apply ts_close].
    destruct rpc as [pc|]; [left|by right]. apply Hread; [done|]. intros g [= ->] ->.
    destruct Hr as [_ Hr]. destruct (Hr eq_refl). congruence.
  - left. assert (p_closed p = false) as Hcl by (destruct (p_closed p); [by specialize (Hc eq_refl)|done]).
    assert ((exists g, wpc = Blocked (onPipe g) /\ g = p_notify p) \/ exists r, rawWrite v wpc p d = Ret (Some r)) as [(g & -> & ->)|[[r p'] E]].
    { destruct wpc as [|[g|g]]; [right|cbn in Hw|done]; cbn [rawWrite].
      - destruct (raw_tryWrite v p d Hraw Hcl) as [(q & -> & _)|[-> _]]; by eexists.
      - rewrite wakes by apply Hw. destruct (Nat.eqb_spec g (p_notify p)) as [->|]; [left; by eexists|right; by eexists]. }
    + apply Hread.
      * intros ->. destruct Hr. congruence.
      * intros g -> ->. destruct Hw as [_ Hw], Hr as [_ Hr]. destruct (Hr eq_refl) as [Hnil _]. apply (Hw eq_refl). by rewrite Hb, Hnil.
    + pose proof (write_better payloads _ _ _ _ _ _ _ _ _ Hok E) as Hbt.
      destruct r as [pc'|[n err]]; [eexists; by eapply ts_write|]. destruct Hbt as (_ & -> & _). eexists. by eapply ts_written.
Qed.

(** C22: The transfer of a list of payloads through a raw pipe of any bound, with a
    reading buffer of any size but zero, ends, whatever the order in which the
    two goroutines run, and ends well. The number of steps of every run is
    bounded; a run can go on from wherever it is until the writer has closed the
    pipe and the reader has seen the end; and the reader has by then read the
    bytes written, in order, and nothing else, no [write] having failed. *)
Theorem transfer_completes v size bound payloads :
  size <> 0%nat ->
  (exists most, forall k x, nsteps (transfer_step v size) k (startTransfer bound payloads) x -> (k <= most)%nat) /\
  (forall x, rtc (transfer_step v size) (startTransfer bound payloads) x ->
     (exists x', transfer_step v size x x') \/
     (x_todo x = [] /\ p_closed (x_pipe x) = true /\ x_reader x = None /\ x_got x = concat payloads)).
Proof.
  intros Hsize. pose proof (startTransfer_ok bound payloads) as H0. split.
  - exists (measure (startTransfer bound payloads)). intros k x Hrun. revert H0. generalize (startTransfer bound payloads), Hrun.
    clear Hrun. intros y Hrun. induction Hrun as [y|k y z x Hstep Hrun IH]; intros Hok; [lia|].
    destruct (transfer_better payloads _ _ _ _ Hsize Hok Hstep) as [Hok' Hlt]. specialize (IH Hok'). lia.
  - intros x Hrun. assert (transfer_ok payloads x) as Hok.
    { revert H0. induction Hrun as [|y z x Hstep _ IH]; [done|]. intros Hok. apply IH. by eapply transfer_better. }
    destruct (transfer_moves payloads v size x Hsize Hok) as [Hm|(H1 & H2 & H3)]; [by left|right]. split_and!; try done.
    destruct Hok as [_ _ Hby _ _ Hr]. rewrite H3 in Hr. destruct Hr as [_ Hr]. rewrite <- Hby, Hr, H1. cbn. by rewrite app_nil_r.
Qed.
End raw.

#[local] Instance raw_fuel : RejectFuel := 3%nat.

(** Three payloads, one of them empty and one larger than the pipe. *)
Lemma transfer_completes_witness :
  2%nat <> 0%nat /\
  exists most, forall k x, nsteps (transfer_step (Src := unit) (mkNetView 0 (mkPartState ∅ 0%nat) noFaults) 2) k
    (startTransfer 3 [[1; 2]; []; [3; 4; 5; 6]]) x -> (k <= most)%nat.
Proof.
  split; [discriminate|].
  exact (proj1 (transfer_completes (Src := unit) (mkNetView 0 (mkPartState ∅ 0%nat) noFaults) 2 3 [[1; 2]; []; [3; 4; 5; 6]] ltac:(discriminate))).
Defined.
