(* ===== verification/Conn.v ===== *)
(** * Connections (conn.go): the two ends of a connection over two crossed pipes

    [Read] and [Write] are written as the atomic steps they take (each a check
    of a channel, one locked call of a deadline or of a pipe, or one select), so
    that other goroutines can be interleaved between any two of them. *)
From S2P Require Import Prelude GoRuntime Errors Rand Partition Trace PipeState Faults Pipe Deadline Options.

Record conn : Type := mkConn {
  c_local : addr;
  c_remote : addr;
  c_network : string;
  c_ordinal : Z;
  c_side : connSide;
  c_closed : bool;       (** [closeOnce] has started, [closed] is closed *)
  c_reset : bool;        (** [resetCh] is closed *)
  c_nw : bool;           (** [nw] is not nil *)
  c_pair : pairKey;
  c_rd : deadline;
  c_wd : deadline
}.

Definition set_c_closed (c : conn) (b : bool) : conn :=
  mkConn (c_local c) (c_remote c) (c_network c) (c_ordinal c) (c_side c) b (c_reset c) (c_nw c) (c_pair c) (c_rd c) (c_wd c).
Definition set_c_reset (c : conn) (b : bool) : conn :=
  mkConn (c_local c) (c_remote c) (c_network c) (c_ordinal c) (c_side c) (c_closed c) b (c_nw c) (c_pair c) (c_rd c) (c_wd c).
Definition set_c_nw (c : conn) (nw : bool) (pair : pairKey) : conn :=
  mkConn (c_local c) (c_remote c) (c_network c) (c_ordinal c) (c_side c) (c_closed c) (c_reset c) nw pair (c_rd c) (c_wd c).
Definition set_c_rd (c : conn) (d : deadline) : conn :=
  mkConn (c_local c) (c_remote c) (c_network c) (c_ordinal c) (c_side c) (c_closed c) (c_reset c) (c_nw c) (c_pair c) d (c_wd c).
Definition set_c_wd (c : conn) (d : deadline) : conn :=
  mkConn (c_local c) (c_remote c) (c_network c) (c_ordinal c) (c_side c) (c_closed c) (c_reset c) (c_nw c) (c_pair c) (c_rd c) d.

Definition opError (c : conn) (op : string) (err : goerror) : goerror :=
  OpError op (c_network c) (Some (c_local c)) (Some (c_remote c)) err.

Definition other (s : connSide) : connSide :=
  match s with sideDialer => sideAcceptor | sideAcceptor => sideDialer end.

Section link.
Context {Src : Type}.

(** A connection: its two ends and its two pipes. A [*conn] is a link and a
    side; the pipe an end writes is named by that end. *)
Record link : Type := mkLink {
  lk_client : conn;
  lk_server : conn;
  lk_clientToServer : pipe Src;
  lk_serverToClient : pipe Src
}.

Definition end_of (lk : link) (s : connSide) : conn :=
  match s with sideDialer => lk_client lk | sideAcceptor => lk_server lk end.

Definition writePipe (lk : link) (s : connSide) : pipe Src :=
  match s with sideDialer => lk_clientToServer lk | sideAcceptor => lk_serverToClient lk end.

Definition readPipe (lk : link) (s : connSide) : pipe Src := writePipe lk (other s).

Definition set_end (lk : link) (s : connSide) (c : conn) : link :=
  match s with
  | sideDialer => mkLink c (lk_server lk) (lk_clientToServer lk) (lk_serverToClient lk)
  | sideAcceptor => mkLink (lk_client lk) c (lk_clientToServer lk) (lk_serverToClient lk)
  end.

Definition set_writePipe (lk : link) (s : connSide) (p : pipe Src) : link :=
  match s with
  | sideDialer => mkLink (lk_client lk) (lk_server lk) p (lk_serverToClient lk)
  | sideAcceptor => mkLink (lk_client lk) (lk_server lk) (lk_clientToServer lk) p
  end.

Definition set_readPipe (lk : link) (s : connSide) (p : pipe Src) : link := set_writePipe lk (other s) p.

Definition upd_end (s : connSide) (f : conn -> conn) (lk : link) : link := set_end lk s (f (end_of lk s)).
Definition upd_writePipe (s : connSide) (f : pipe Src -> pipe Src) (lk : link) : link :=
  set_writePipe lk s (f (writePipe lk s)).
Definition upd_readPipe (s : connSide) (f : pipe Src -> pipe Src) (lk : link) : link :=
  set_readPipe lk s (f (readPipe lk s)).
End link.

Arguments link Src : clear implicits.

(** Where a call is: before each of its atomic steps, waiting, or returned. *)
Inductive callPC (A : Type) : Type :=
| CheckClosed
| CheckReset
| Channel
| Expired (dch : generation)
| Try (dch : generation)
| ErrCheckClosed (a : A) (err : goerror)
| ErrCheckReset (a : A) (err : goerror)
| ExpiredAgain (ch : waitChan) (dch : generation)   (** Write only *)
| Select (ch : waitChan) (dch : generation)
| Return (a : A) (err : option goerror).

Arguments CheckClosed {A}.
Arguments CheckReset {A}.
Arguments Channel {A}.
Arguments Expired {A} _.
Arguments Try {A} _.
Arguments ErrCheckClosed {A} _ _.
Arguments ErrCheckReset {A} _ _.
Arguments ExpiredAgain {A} _ _.
Arguments Select {A} _ _.
Arguments Return {A} _ _.

Section ops.
Context {Src : Type} `{!DrawSource Src} `{!RejectFuel} `{!Platform}.
Implicit Types (lk : link Src) (s : connSide) (v : netView).

(** The four streams and the recorder of one direction. *)
Definition wirePipe (seed ordinal : Z) (side : connSide) (traceEnabled : bool) (p : pipe Src) : pipe Src :=
  let p := set_loss p (Some (deriveStream seed ordinal side kindLoss)) in
  let p := set_latency p (Some (deriveStream seed ordinal side kindLatency)) in
  let p := set_duplicate p (Some (deriveStream seed ordinal side kindDuplicate)) in
  let p := set_corrupt p (Some (deriveStream seed ordinal side kindCorrupt)) in
  if traceEnabled then set_trace p (Some []) else p.

Definition newConnPairWithSeedAndTrace (clientAddr serverAddr : addr) (ordinal : Z) (network : string)
    (bound seed : Z) (traceEnabled : bool) : link Src :=
  let noPair := mkPairKey "" "" in
  mkLink
    (mkConn clientAddr serverAddr network ordinal sideDialer false false false noPair newDeadline newDeadline)
    (mkConn serverAddr clientAddr network ordinal sideAcceptor false false false noPair newDeadline newDeadline)
    (wirePipe seed ordinal sideDialer traceEnabled (newPipe bound))
    (wirePipe seed ordinal sideAcceptor traceEnabled (newPipe bound)).

Definition newConnPairWithSeed (clientAddr serverAddr : addr) (ordinal : Z) (network : string)
    (bound seed : Z) : link Src :=
  newConnPairWithSeedAndTrace clientAddr serverAddr ordinal network bound seed true.

Definition newConnPairWithBound (clientAddr serverAddr : addr) (ordinal : Z) (network : string)
    (bound : Z) : link Src :=
  newConnPairWithSeed clientAddr serverAddr ordinal network bound defaultSeed.

Definition newConnPair (clientAddr serverAddr : addr) (ordinal : Z) (network : string) : link Src :=
  newConnPairWithBound clientAddr serverAddr ordinal network defaultPipeBound.

Definition signalReset s lk : link Src := upd_end s (fun c => set_c_reset c true) lk.

Definition abortReset s lk : link Src := upd_readPipe s abort (upd_writePipe s abort lk).

(** ** Read and Write *)

(** The select the call blocks in: is one of the four channels closed? *)
Definition selectReady v (p : pipe Src) (c : conn) (d : deadline) (ch : waitChan) (dch : generation) : bool :=
  match ch with
  | onPipe g => woken g (p_notify p)
  | onPartition g => woken g (partNotify (nv_parts v))
  end || woken dch (channel d) || c_closed c || c_reset c.

(** One atomic step of [Read] on end [s] with a buffer of [n] bytes. *)
Definition readStep v (n : nat) s (pc : callPC (list Z)) lk : callPC (list Z) * link Src :=
  let c := end_of lk s in
  match pc with
  | CheckClosed => (if c_closed c then Return [] (Some (opError c "read" ErrClosed)) else CheckReset, lk)
  | CheckReset => (if c_reset c then Return [] (Some (opError c "read" errConnReset)) else Channel, lk)
  | Channel => (Expired (channel (c_rd c)), lk)
  | Expired dch =>
      (if expired (nv_now v) (c_rd c) then Return [] (Some (opError c "read" ErrDeadlineExceeded))
       else Try dch, lk)
  | Try dch =>
      let '(r, p) := tryRead v (readPipe lk s) n in
      (match r with
       | Wait ch => Select ch dch
       | Done out (Some err) => ErrCheckClosed out err
       | Done out None => Return out None
       end, set_readPipe lk s p)
  | ErrCheckClosed out err =>
      (if c_closed c then Return [] (Some (opError c "read" ErrClosed)) else ErrCheckReset out err, lk)
  | ErrCheckReset out err =>
      (if c_reset c then Return [] (Some (opError c "read" errConnReset)) else Return out (Some err), lk)
  | ExpiredAgain ch dch => (Select ch dch, lk)
  | Select ch dch =>
      (if selectReady v (readPipe lk s) c (c_rd c) ch dch then CheckClosed else Select ch dch, lk)
  | Return out err => (Return out err, lk)
  end.

(** One atomic step of [Write] of [data] on end [s]. *)
Definition writeStep v (data : list Z) s (pc : callPC Z) lk : go (callPC Z * link Src) :=
  let c := end_of lk s in
  match pc with
  | CheckClosed => Ret (if c_closed c then Return 0 (Some (opError c "write" ErrClosed)) else CheckReset, lk)
  | CheckReset => Ret (if c_reset c then Return 0 (Some (opError c "write" errConnReset)) else Channel, lk)
  | Channel => Ret (Expired (channel (c_wd c)), lk)
  | Expired dch =>
      Ret (if expired (nv_now v) (c_wd c) then Return 0 (Some (opError c "write" ErrDeadlineExceeded))
           else Try dch, lk)
  | Try dch =>
      r ← tryWrite v (writePipe lk s) data;
      let '(r, p) := r in
      Ret (match r with
           | Wait ch => ExpiredAgain ch dch
           | Done n (Some err) => ErrCheckClosed n err
           | Done n None => Return n None
           end, set_writePipe lk s p)
  | ErrCheckClosed n err =>
      Ret (if c_closed c then Return 0 (Some (opError c "write" ErrClosed)) else ErrCheckReset n err, lk)
  | ErrCheckReset n err =>
      Ret (if c_reset c then Return 0 (Some (opError c "write" errConnReset))
           else Return 0 (Some (opError c "write" errBrokenPipe)), lk)
  | ExpiredAgain ch dch =>
      Ret (if expired (nv_now v) (c_wd c) then Return 0 (Some (opError c "write" ErrDeadlineExceeded))
           else Select ch dch, lk)
  | Select ch dch =>
      Ret (if selectReady v (writePipe lk s) c (c_wd c) ch dch then CheckClosed else Select ch dch, lk)
  | Return n err => Ret (Return n err, lk)
  end.

(** The call has returned, or blocks in its select. *)
Definition settled {A} (pc : callPC A) : bool :=
  match pc with Select _ _ | Return _ _ => true | _ => false end.

(** The loops of [Read] and [Write] with nothing interleaved, up to the return
    or the blocking select. *)
Fixpoint readLoop (k : nat) v (n : nat) s (pc : callPC (list Z)) lk : callPC (list Z) * link Src :=
  match k with
  | O => (pc, lk)
  | S k =>
      if settled pc then (pc, lk)
      else let '(pc, lk) := readStep v n s pc lk in readLoop k v n s pc lk
  end.

Fixpoint writeLoop (k : nat) v (data : list Z) s (pc : callPC Z) lk : go (callPC Z * link Src) :=
  match k with
  | O => Ret (pc, lk)
  | S k =>
      if settled pc then Ret (pc, lk)
      else
        r ← writeStep v data s pc lk;
        let '(pc, lk) := r in writeLoop k v data s pc lk
  end.

Definition Read v (n : nat) s lk : callPC (list Z) * link Src := readLoop 8 v n s CheckClosed lk.

Definition Write v (data : list Z) s lk : go (callPC Z * link Src) := writeLoop 8 v data s CheckClosed lk.

(** ** Close and the deadlines *)

(** What [Close] does to the connection; taking the end out of the Network's
    registry, the one other effect, is [Network]'s. *)
Definition Close s lk : link Src :=
  if c_closed (end_of lk s) then lk
  else
    let lk := upd_end s (fun c => set_c_closed c true) lk in
    let lk := upd_writePipe s close lk in
    let lk := upd_readPipe s abort lk in
    let lk := upd_end s (fun c => set_c_rd c (stop (c_rd c))) lk in
    upd_end s (fun c => set_c_wd c (stop (c_wd c))) lk.

Definition SetDeadline (now t : Time) s lk : option goerror * link Src :=
  let c := end_of lk s in
  if c_closed c then (Some (opError c "set" ErrClosed), lk)
  else
    let lk := upd_end s (fun c => set_c_rd c (Deadline.set now t (c_rd c))) lk in
    (None, upd_end s (fun c => set_c_wd c (Deadline.set now t (c_wd c))) lk).

Definition SetReadDeadline (now t : Time) s lk : option goerror * link Src :=
  let c := end_of lk s in
  if c_closed c then (Some (opError c "set" ErrClosed), lk)
  else (None, upd_end s (fun c => set_c_rd c (Deadline.set now t (c_rd c))) lk).

Definition SetWriteDeadline (now t : Time) s lk : option goerror * link Src :=
  let c := end_of lk s in
  if c_closed c then (Some (opError c "set" ErrClosed), lk)
  else (None, upd_end s (fun c => set_c_wd c (Deadline.set now t (c_wd c))) lk).
End ops.
