(* ===== verification/ConnProps.v ===== *)
(** * Properties of connections: what a call reports, and that a local Close
    wins over a Reset and neither is ever mistaken for an end of stream, under
    every interleaving with the other goroutines. *)
From S2P Require Import Prelude GoRuntime Errors Rand Partition Trace PipeState Faults FaultProps Pipe PipeInv.
From S2P Require Import PipeProps Deadline Conn.

Section conns.
Context {Src : Type} `{!DrawSource Src} `{!RejectFuel} `{!Platform}.
Implicit Types (lk : link Src) (s e w : connSide) (v : netView).

(** ** Equations of the accessors *)

Lemma other_other s : other (other s) = s.
Proof. by destruct s. Qed.

Lemma end_of_set_writePipe lk w p s : end_of (set_writePipe lk w p) s = end_of lk s.
Proof. by destruct w, s. Qed.

Lemma writePipe_set_end lk w c s : writePipe (set_end lk w c) s = writePipe lk s.
Proof. by destruct w, s. Qed.

Lemma writePipe_set_writePipe lk w p s :
  writePipe (set_writePipe lk w p) s = if decide (s = w) then p else writePipe lk s.
Proof. by destruct w, s. Qed.

Lemma end_of_set_end lk w c s : end_of (set_end lk w c) s = if decide (s = w) then c else end_of lk s.
Proof. by destruct w, s. Qed.

(** ** One uninterrupted pass *)

Lemma readLoop_S k v n s pc lk :
  readLoop (S k) v n s pc lk =
  if settled pc then (pc, lk) else let '(pc, lk) := readStep v n s pc lk in readLoop k v n s pc lk.
Proof. done. Qed.

Lemma writeLoop_S k v data s pc lk :
  writeLoop (S k) v data s pc lk =
  if settled pc then Ret (pc, lk)
  else r ← writeStep v data s pc lk; let '(pc, lk) := r in writeLoop k v data s pc lk.
Proof. done. Qed.

(** What a Read reports, in order of precedence: a local Close, then a
    Reset, then a passed read deadline (even with data at hand), and only then
    what the pipe has; the pipe's own error is EOF, returned bare. *)
Theorem Read_precedence v n s lk :
  let c := end_of lk s in
  Read v n s lk =
  if c_closed c then (Return [] (Some (opError c "read" ErrClosed)), lk)
  else if c_reset c then (Return [] (Some (opError c "read" errConnReset)), lk)
  else if expired (nv_now v) (c_rd c) then (Return [] (Some (opError c "read" ErrDeadlineExceeded)), lk)
  else
    let '(r, p) := tryRead v (readPipe lk s) n in
    (match r with
     | Done out err => Return out err
     | Wait ch => Select ch (channel (c_rd c))
     end, set_readPipe lk s p).
Proof.
  cbn zeta. unfold Read. rewrite readLoop_S. cbn [settled readStep].
  destruct (c_closed (end_of lk s)) eqn:Ec; [done|]. rewrite readLoop_S. cbn [settled readStep].
  destruct (c_reset (end_of lk s)) eqn:Er; [done|]. rewrite readLoop_S. cbn [settled readStep].
  rewrite readLoop_S. cbn [settled readStep].
  destruct (expired (nv_now v) (c_rd (end_of lk s))) eqn:Ee; [done|]. rewrite readLoop_S. cbn [settled readStep].
  destruct (tryRead v (readPipe lk s) n) as [r p] eqn:Et. unfold set_readPipe.
  destruct r as [out [err|]|ch]; [|done..]. rewrite readLoop_S. cbn [settled readStep].
  rewrite end_of_set_writePipe, Ec, readLoop_S. cbn [settled readStep]. by rewrite end_of_set_writePipe, Er.
Qed.

(** What a Write reports, in order of precedence: a local Close, a Reset, a
    passed write deadline (even with room in the pipe), a broken pipe once the
    pipe is closed or its reader gone, and otherwise what the pipe does: the
    whole payload admitted, or a wait; an error always comes with a count of 0. *)
Theorem Write_precedence v data s lk :
  let c := end_of lk s in
  Write v data s lk =
  if c_closed c then Ret (Return 0 (Some (opError c "write" ErrClosed)), lk)
  else if c_reset c then Ret (Return 0 (Some (opError c "write" errConnReset)), lk)
  else if expired (nv_now v) (c_wd c) then Ret (Return 0 (Some (opError c "write" ErrDeadlineExceeded)), lk)
  else
    r ← tryWrite v (writePipe lk s) data;
    let '(r, p) := r in
    Ret (match r with
         | Done k None => Return k None
         | Done _ (Some _) => Return 0 (Some (opError c "write" errBrokenPipe))
         | Wait ch => Select ch (channel (c_wd c))
         end, set_writePipe lk s p).
Proof.
  cbn zeta. unfold Write. rewrite writeLoop_S. cbn [settled writeStep mbind go_bind].
  destruct (c_closed (end_of lk s)) eqn:Ec; [done|]. rewrite writeLoop_S. cbn [settled writeStep mbind go_bind].
  destruct (c_reset (end_of lk s)) eqn:Er; [done|]. rewrite writeLoop_S. cbn [settled writeStep mbind go_bind].
  rewrite writeLoop_S. cbn [settled writeStep mbind go_bind].
  destruct (expired (nv_now v) (c_wd (end_of lk s))) eqn:Ee; [done|].
  rewrite writeLoop_S. cbn [settled writeStep mbind go_bind].
  destruct (tryWrite v (writePipe lk s) data) as [[r p]|msg|] eqn:Et; cbn [mbind go_bind]; [|done..].
  destruct r as [k [err|]|ch]; [|done|]; rewrite writeLoop_S; cbn [settled writeStep mbind go_bind];
    rewrite end_of_set_writePipe.
  - rewrite Ec, writeLoop_S. cbn [settled writeStep mbind go_bind]. by rewrite end_of_set_writePipe, Er.
  - by rewrite Ee.
Qed.
End conns.
