(* ===== verification/ConnRace.v ===== *)
(** * Connections under concurrency

    The goroutines that touch one connection: any number of Close calls on
    either end, any number of Reset calls on its pair, and readers, writers and
    timers, interleaved at every atomic action. *)
From S2P Require Import Prelude GoRuntime Errors Rand Partition Trace PipeState Faults FaultProps Pipe PipeInv.
From S2P Require Import PipeProps Deadline Conn ConnProps.

(** ** The actions *)

(** The atomic actions of [conn.Close] (conn.go) and [Network.Reset]
    (reset.go) on one connection. *)
Inductive action : Type :=
| DoClosed (s : connSide)      (** [closeOnce], and [close(c.closed)] *)
| DoDeregister (s : connSide)  (** [nw.deregisterReset(c.pair, c)] *)
| DoCloseWrite (s : connSide)  (** [c.writePipe.close()] *)
| DoAbort (w : connSide)       (** [abort] of the pipe [w] writes *)
| DoStopRead (s : connSide)
| DoStopWrite (s : connSide)
| DoTake                       (** take the pair's targets out of the registry *)
| DoSignal (s : connSide).     (** [c.signalReset()] *)

Definition closeProgram (s : connSide) : list action :=
  [DoClosed s; DoDeregister s; DoCloseWrite s; DoAbort (other s); DoStopRead s; DoStopWrite s].

Definition resetProgram : list action := [DoTake].

(** Both ends are signalled before either pipe is aborted. *)
Definition signalThenAbort (targets : list connSide) : list action :=
  map DoSignal targets ++ concat (map (fun s => [DoAbort s; DoAbort (other s)]) targets).

Section race.
Context {Src : Type} `{!DrawSource Src} `{!RejectFuel} `{!Platform}.
Implicit Types (lk : link Src) (s e w : connSide) (v : netView) (reg : list connSide).

(** A connection, its ends still in the Network's registry, and the goroutines
    in the middle of a Close or a Reset. *)
Record world : Type := mkWorld {
  w_link : link Src;
  w_reg : list connSide;
  w_threads : list (list action)
}.

(** Run one action of a goroutine: what is left of its program, and the state. *)
Definition runAction (a : action) (k : list action) lk reg : list action * link Src * list connSide :=
  match a with
  | DoClosed s =>
      if c_closed (end_of lk s) then ([], lk, reg)
      else (k, upd_end s (fun c => set_c_closed c true) lk, reg)
  | DoDeregister s => (k, lk, filter (fun t => t <> s) reg)
  | DoCloseWrite s => (k, upd_writePipe s close lk, reg)
  | DoAbort w => (k, upd_writePipe w abort lk, reg)
  | DoStopRead s => (k, upd_end s (fun c => set_c_rd c (stop (c_rd c))) lk, reg)
  | DoStopWrite s => (k, upd_end s (fun c => set_c_wd c (stop (c_wd c))) lk, reg)
  | DoTake => (signalThenAbort reg ++ k, lk, [])
  | DoSignal s => (k, signalReset s lk, reg)
  end.

(** What readers, writers, timers and the deadline setters do in one step. *)
Inductive io_step : link Src -> link Src -> Prop :=
| io_pipe lk w l p' :
    l <> LClose -> l <> LAbort -> pipe_step (writePipe lk w) l p' -> io_step lk (set_writePipe lk w p')
| io_setDeadline lk now t s : io_step lk (snd (SetDeadline now t s lk))
| io_setReadDeadline lk now t s : io_step lk (snd (SetReadDeadline now t s lk))
| io_setWriteDeadline lk now t s : io_step lk (snd (SetWriteDeadline now t s lk))
| io_readTimer lk s : io_step lk (upd_end s (fun c => set_c_rd c (timerFired (c_rd c))) lk)
| io_writeTimer lk s : io_step lk (upd_end s (fun c => set_c_wd c (timerFired (c_wd c))) lk).

Inductive world_step : world -> world -> Prop :=
| ws_close lk reg ts s : world_step (mkWorld lk reg ts) (mkWorld lk reg (closeProgram s :: ts))
| ws_reset lk reg ts : world_step (mkWorld lk reg ts) (mkWorld lk reg (resetProgram :: ts))
| ws_run lk reg ts1 a k ts2 k' lk' reg' :
    runAction a k lk reg = (k', lk', reg') ->
    world_step (mkWorld lk reg (ts1 ++ (a :: k) :: ts2)) (mkWorld lk' reg' (ts1 ++ k' :: ts2))
| ws_io lk lk' reg ts : io_step lk lk' -> world_step (mkWorld lk reg ts) (mkWorld lk' reg ts).

(** ** The invariant *)

Definition marked lk e : Prop := c_closed (end_of lk e) = true \/ c_reset (end_of lk e) = true.

(** How a pipe can have lost its reader, or have been closed. *)
Definition pipe_marks lk : Prop :=
  forall w,
    (p_readClosed (writePipe lk w) = true ->
       c_closed (end_of lk (other w)) = true \/ (marked lk w /\ marked lk (other w))) /\
    (p_closed (writePipe lk w) = true ->
       p_readClosed (writePipe lk w) = true \/ c_closed (end_of lk w) = true).

(** A goroutine past the first action of a Close has closed its end; one that
    is going to abort pipes for a Reset has, or will have, marked both ends. *)
Definition thread_ok lk (t : list action) : Prop :=
  (exists s, t = closeProgram s) \/
  (exists s n, t = drop n (tail (closeProgram s)) /\ c_closed (end_of lk s) = true) \/
  t = resetProgram \/
  (exists ss ds, t = map DoSignal ss ++ map DoAbort ds /\ (ds <> [] -> forall e, marked lk e \/ e ∈ ss)).

Definition reg_ok lk reg : Prop := reg <> [] -> forall e, e ∉ reg -> c_closed (end_of lk e) = true.

Definition world_ok (W : world) : Prop :=
  pipe_marks (w_link W) /\ reg_ok (w_link W) (w_reg W) /\ Forall (thread_ok (w_link W)) (w_threads W).

(** What never goes back. *)
Definition flags_le lk lk' : Prop :=
  forall e, (c_closed (end_of lk e) = true -> c_closed (end_of lk' e) = true) /\
            (c_reset (end_of lk e) = true -> c_reset (end_of lk' e) = true).

Lemma flags_le_refl lk : flags_le lk lk.
Proof. by intros e. Qed.

Lemma flags_le_trans lk1 lk2 lk3 : flags_le lk1 lk2 -> flags_le lk2 lk3 -> flags_le lk1 lk3.
Proof. intros H1 H2 e. destruct (H1 e), (H2 e). auto. Qed.

Lemma marked_le lk lk' e : flags_le lk lk' -> marked lk e -> marked lk' e.
Proof. intros Hle [Hm|Hm]; [left|right]; by apply (Hle e). Qed.

Lemma thread_ok_le lk lk' t : flags_le lk lk' -> thread_ok lk t -> thread_ok lk' t.
Proof.
  intros Hle [Ht|[(s & n & Ht & Hc)|[Ht|(ss & ds & Ht & Hm)]]].
  - by left.
  - right; left. exists s, n. split; [done|]. by apply (Hle s).
  - by right; right; left.
  - right; right; right. exists ss, ds. split; [done|]. intros Hd e.
    destruct (Hm Hd e) as [He|He]; [left; by apply (marked_le lk)|by right].
Qed.

Lemma reg_ok_le lk lk' reg : flags_le lk lk' -> reg_ok lk reg -> reg_ok lk' reg.
Proof. intros Hle Hr Hne e He. apply (Hle e). by apply Hr. Qed.

(** Only flags of pipes and ends matter to [pipe_marks]. *)
Lemma pipe_marks_le lk lk' :
  flags_le lk lk' ->
  (forall w, p_readClosed (writePipe lk' w) = p_readClosed (writePipe lk w) /\
             p_closed (writePipe lk' w) = p_closed (writePipe lk w)) ->
  pipe_marks lk -> pipe_marks lk'.
Proof.
  intros Hle Hp Hm w. destruct (Hp w) as [-> ->]. destruct (Hm w) as [H1 H2]. split.
  - intros [Hr|[Ha Hb]]%H1; [left; by apply (Hle (other w))|right; split; by apply (marked_le lk)].
  - intros [Hr|Hr]%H2; [by left|right; by apply (Hle w)].
Qed.

(** Updates of an end that only raise flags. *)
Lemma upd_end_marks s f lk :
  (c_closed (end_of lk s) = true -> c_closed (f (end_of lk s)) = true) ->
  (c_reset (end_of lk s) = true -> c_reset (f (end_of lk s)) = true) ->
  flags_le lk (upd_end s f lk) /\
  (forall w, p_readClosed (writePipe (upd_end s f lk) w) = p_readClosed (writePipe lk w) /\
             p_closed (writePipe (upd_end s f lk) w) = p_closed (writePipe lk w)).
Proof.
  intros H1 H2. unfold upd_end. split.
  - intros e. rewrite end_of_set_end. destruct (decide (e = s)) as [->|]; [done|]. done.
  - intros w. by rewrite writePipe_set_end.
Qed.

Lemma upd_writePipe_flags w f lk : flags_le lk (upd_writePipe w f lk) /\ flags_le (upd_writePipe w f lk) lk.
Proof. unfold upd_writePipe. split; intros e; by rewrite end_of_set_writePipe. Qed.

Definition same_marks (p p' : pipe Src) : Prop := p_closed p' = p_closed p /\ p_readClosed p' = p_readClosed p.

Lemma tryWrite_marks v p data r p' : zlen data < 2 ^ 63 -> tryWrite v p data = Ret (r, p') -> same_marks p p'.
Proof.
  intros Hlen. unfold tryWrite. destruct (_ || p_readClosed p); [by intros ?; simplify_eq|].
  destruct (_ || _); [|by intros ?; simplify_eq]. intros (p1 & Hr & E)%go_bind_ret. injection E as _ <-.
  unfold runDeliver in Hr. cbn in Hr. destruct (p_deliver p) as [|fp]; [by injection Hr as <-|].
  destruct (deliverUnit_inv _ _ _ _ _ Hlen Hr) as (copies & Ho%deliverUnit_frame). by destruct Ho as (? & ? & _).
Qed.

Lemma tryRead_marks v (p : pipe Src) n r p' : tryRead v p n = (r, p') -> same_marks p p'.
Proof.
  assert (forall (q q' : pipe Src) r', tryReadEOF v q = (r', q') -> p_closed q' = p_closed q /\ p_readClosed q' = p_readClosed q)
    as Heof by (unfold tryReadEOF; intros q q' r' E; repeat case_match; simplify_eq; done).
  unfold tryRead, same_marks. intros Hrd. destruct (p_readClosed p) eqn:Er; [by simplify_eq|].
  destruct (p_readable p); [by apply Heof in Hrd as [-> ->]|].
  destruct (copyOut _ n). destruct (_ || _); [by simplify_eq|]. by apply Heof in Hrd as [-> ->].
Qed.

Lemma release_marks now (p : pipe Src) : same_marks p (releaseDueLatency now p).
Proof.
  destruct (p_readClosed p) eqn:Er; [unfold releaseDueLatency; by rewrite Er|].
  destruct (releaseDueLatency_eq now p Er) as (us & rest & _ & _ & _ & ->). done.
Qed.

Lemma pipe_step_flags p l p' : pipe_step p l p' -> l <> LClose -> l <> LAbort -> same_marks p p'.
Proof.
  intros Hst H1 H2. destruct Hst as [p v data r p' (Hlen & _) Hw|p v n r p' Hrd|p now|p|p]; try done.
  - by eapply tryWrite_marks.
  - by eapply tryRead_marks.
  - apply release_marks.
Qed.

Lemma io_step_ok lk lk' : io_step lk lk' -> flags_le lk lk' /\ (pipe_marks lk -> pipe_marks lk').
Proof.
  assert (forall s f, (forall c, c_closed (f c) = c_closed c /\ c_reset (f c) = c_reset c) ->
    forall lk0, flags_le lk0 (upd_end s f lk0) /\ (pipe_marks lk0 -> pipe_marks (upd_end s f lk0))) as Hend.
  { intros s f Hf lk0. destruct (upd_end_marks s f lk0) as [Hle Hp]; [by rewrite (proj1 (Hf _))|by rewrite (proj2 (Hf _))|].
    split; [done|]. by apply pipe_marks_le. }
  intros Hst. destruct Hst as [lk w l p' H1 H2 Hst|lk now t s|lk now t s|lk now t s|lk s|lk s].
  - destruct (pipe_step_flags _ _ _ Hst H1 H2) as [E1 E2].
    assert (flags_le lk (set_writePipe lk w p')) as Hle by (intros e; by rewrite end_of_set_writePipe).
    split; [done|]. apply pipe_marks_le; [done|]. intros w'. rewrite writePipe_set_writePipe.
    by destruct (decide (w' = w)) as [->|].
  - unfold SetDeadline. destruct (c_closed _); cbn [snd]; [by split|].
    destruct (Hend s (fun c => set_c_rd c (Deadline.set now t (c_rd c))) ltac:(done) lk) as [A1 A2].
    match goal with |- flags_le _ (upd_end _ _ ?lk1) /\ _ =>
      destruct (Hend s (fun c => set_c_wd c (Deadline.set now t (c_wd c))) ltac:(done) lk1) as [B1 B2] end.
    split; [by eapply flags_le_trans|auto].
  - unfold SetReadDeadline. destruct (c_closed _); cbn [snd]; [by split|]. by apply Hend.
  - unfold SetWriteDeadline. destruct (c_closed _); cbn [snd]; [by split|]. by apply Hend.
  - by apply Hend.
  - by apply Hend.
Qed.

(** *** The actions keep the invariant *)

Lemma abort_marks lk w :
  pipe_marks lk -> c_closed (end_of lk (other w)) = true \/ (marked lk w /\ marked lk (other w)) ->
  pipe_marks (upd_writePipe w abort lk).
Proof.
  intros Hm Hw w'. destruct (upd_writePipe_flags w abort lk) as [Hle _]. destruct (Hm w') as [H1 H2].
  unfold upd_writePipe in *. rewrite writePipe_set_writePipe. destruct (decide (w' = w)) as [->|Hne].
  - split.
    + intros _. destruct Hw as [Hc|[Ha Hb]]; [left; by apply (Hle (other w))|right; split; by apply (marked_le lk)].
    + intros _. left. unfold abort. by destruct (p_readClosed (writePipe lk w)) eqn:E.
  - split.
    + intros [Hc|[Ha Hb]]%H1; [left; by apply (Hle (other w'))|right; split; by apply (marked_le lk)].
    + intros [Hc|Hc]%H2; [by left|right; by apply (Hle w')].
Qed.

Lemma closeWrite_marks lk s :
  pipe_marks lk -> c_closed (end_of lk s) = true -> pipe_marks (upd_writePipe s close lk).
Proof.
  intros Hm Hs w. destruct (upd_writePipe_flags s close lk) as [Hle _]. destruct (Hm w) as [H1 H2].
  unfold upd_writePipe in *. rewrite writePipe_set_writePipe. destruct (decide (w = s)) as [->|Hne].
  - assert (p_readClosed (close (writePipe lk s)) = p_readClosed (writePipe lk s)) as ->
      by (unfold close; by destruct (p_closed _)).
    split; [|intros _; right; by apply (Hle s)].
    intros [Hc|[Ha Hb]]%H1; [left; by apply (Hle (other s))|right; split; by apply (marked_le lk)].
  - split.
    + intros [Hc|[Ha Hb]]%H1; [left; by apply (Hle (other w))|right; split; by apply (marked_le lk)].
    + intros [Hc|Hc]%H2; [by left|right; by apply (Hle w)].
Qed.

Definition kept lk reg t lk' reg' : Prop :=
  flags_le lk lk' /\ pipe_marks lk' /\ reg_ok lk' reg' /\ thread_ok lk' t.

(** An action that only raises flags of one end. *)
Lemma raise_kept s f lk reg t :
  pipe_marks lk -> reg_ok lk reg ->
  (c_closed (end_of lk s) = true -> c_closed (f (end_of lk s)) = true) ->
  (c_reset (end_of lk s) = true -> c_reset (f (end_of lk s)) = true) ->
  (flags_le lk (upd_end s f lk) -> thread_ok (upd_end s f lk) t) ->
  kept lk reg t (upd_end s f lk) reg.
Proof.
  intros Hm Hr H1 H2 Ht. destruct (upd_end_marks s f lk H1 H2) as [Hle Hp].
  split_and!; [done|by apply (pipe_marks_le lk)|by apply (reg_ok_le lk)|by apply Ht].
Qed.

(** An action that changes a pipe. *)
Lemma pipe_kept w f lk reg t :
  pipe_marks (upd_writePipe w f lk) -> reg_ok lk reg -> thread_ok lk t ->
  kept lk reg t (upd_writePipe w f lk) reg.
Proof.
  intros Hm Hr Ht. destruct (upd_writePipe_flags w f lk) as [Hle _].
  split_and!; [done..|by apply (reg_ok_le lk)|by apply (thread_ok_le lk)].
Qed.

Lemma close_action_kept s n a k lk reg k' lk' reg' :
  pipe_marks lk -> reg_ok lk reg -> c_closed (end_of lk s) = true ->
  a :: k = drop n (tail (closeProgram s)) ->
  runAction a k lk reg = (k', lk', reg') -> kept lk reg k' lk' reg'.
Proof.
  intros Hm Hr Hc Hdrop Hrun.
  assert (thread_ok lk k) as Hk.
  { right; left. exists s, (S n). split; [|done]. rewrite <- (Nat.add_1_r n), <- drop_drop, <- Hdrop. done. }
  destruct n as [|[|[|[|[|n]]]]]; cbn in Hdrop; try (rewrite drop_nil in Hdrop; discriminate Hdrop);
    injection Hdrop as -> _; injection Hrun as <- <- <-.
  - split_and!; [apply flags_le_refl|done| |done]. intros Hne e He.
    destruct (decide (e = s)) as [->|Hes]; [done|]. apply Hr.
    + by intros ->.
    + intros Hin. by apply He, list_elem_of_filter.
  - apply pipe_kept; [by apply closeWrite_marks|done|done].
  - apply pipe_kept; [|done|done]. apply abort_marks; [done|]. left. by rewrite other_other.
  - apply raise_kept; try done. intros Hle. by apply (thread_ok_le lk).
  - apply raise_kept; try done. intros Hle. by apply (thread_ok_le lk).
Qed.

Lemma signalThenAbort_eq reg :
  signalThenAbort reg = map DoSignal reg ++ map DoAbort (concat (map (fun s => [s; other s]) reg)).
Proof.
  unfold signalThenAbort. f_equal. induction reg as [|s reg IH]; [done|]. cbn. by rewrite IH.
Qed.

Lemma reset_action_kept ss ds a k lk reg k' lk' reg' :
  pipe_marks lk -> reg_ok lk reg -> (ds <> [] -> forall e, marked lk e \/ e ∈ ss) ->
  a :: k = map DoSignal ss ++ map DoAbort ds ->
  runAction a k lk reg = (k', lk', reg') -> kept lk reg k' lk' reg'.
Proof.
  intros Hm Hr Hmk Hk Hrun. destruct ss as [|s ss].
  - destruct ds as [|w ds]; [done|]. injection Hk as -> ->. injection Hrun as <- <- <-.
    assert (forall e, marked lk e) as Hall.
    { intros e. destruct (Hmk ltac:(done) e) as [He|He]; [done|]. by apply elem_of_nil in He. }
    apply pipe_kept; [apply abort_marks; [done|by right]|done|].
    right; right; right. exists [], ds. split; [done|]. intros _ e. by left.
  - injection Hk as -> ->. injection Hrun as <- <- <-. apply raise_kept; try done.
    intros Hle. right; right; right. exists ss, ds. split; [done|]. intros Hd e.
    destruct (Hmk Hd e) as [He|[->|He]%elem_of_cons]; [left; by apply (marked_le lk)| |by right].
    left. right. unfold upd_end. rewrite end_of_set_end. by rewrite decide_True.
Qed.

Lemma runAction_kept a k lk reg k' lk' reg' :
  pipe_marks lk -> reg_ok lk reg -> thread_ok lk (a :: k) ->
  runAction a k lk reg = (k', lk', reg') -> kept lk reg k' lk' reg'.
Proof.
  intros Hm Hr Ht Hrun. destruct Ht as [(s & Ht)|[(s & n & Ht & Hc)|[Ht|(ss & ds & Ht & Hmk)]]].
  - injection Ht as -> ->. cbn in Hrun. destruct (c_closed (end_of lk s)) eqn:Ec; injection Hrun as <- <- <-.
    + split_and!; [apply flags_le_refl|done|done|]. right; right; right. by exists [], [].
    + apply raise_kept; try done. intros Hle. right; left. exists s, 0%nat. split; [done|].
      unfold upd_end. rewrite end_of_set_end. by rewrite decide_True.
  - by eapply close_action_kept.
  - injection Ht as -> ->. cbn in Hrun. rewrite app_nil_r in Hrun. injection Hrun as <- <- <-.
    split_and!; [apply flags_le_refl|done|by intros Hne|]. right; right; right. eexists reg, _.
    split; [apply signalThenAbort_eq|]. intros Hd e. destruct (decide (e ∈ reg)) as [He|He]; [by right|].
    left. left. apply Hr; [|done]. by intros ->.
  - by eapply reset_action_kept.
Qed.

Lemma world_step_ok W W' : world_ok W -> world_step W W' -> world_ok W' /\ flags_le (w_link W) (w_link W').
Proof.
  intros (Hm & Hr & Ht) Hst. destruct Hst as [lk reg ts s|lk reg ts|lk reg ts1 a k ts2 k' lk' reg' Hrun|lk lk' reg ts Hio];
    cbn in *.
  - split; [|apply flags_le_refl]. split_and!; [done..|]. constructor; [|done]. left. by exists s.
  - split; [|apply flags_le_refl]. split_and!; [done..|]. constructor; [|done]. by right; right; left.
  - apply Forall_app in Ht as [Ht1 Ht2]. inversion Ht2 as [|? ? Ha Ht2']; subst.
    destruct (runAction_kept a k lk reg k' lk' reg' Hm Hr Ha Hrun) as (Hle & Hm' & Hr' & Hk').
    split; [|done]. split_and!; [done..|]. apply Forall_app. split; [|constructor; [done|]];
      (eapply Forall_impl; [eassumption|]); intros t; by apply thread_ok_le.
  - destruct (io_step_ok _ _ Hio) as [Hle Hm']. split; [|done].
    split_and!; [by apply Hm'|by apply (reg_ok_le lk)|].
    eapply Forall_impl; [exact Ht|]. intros t. by apply thread_ok_le.
Qed.

(** A fresh connection, both ends registered. *)
Definition newWorld lk : world := mkWorld lk [sideDialer; sideAcceptor] [].

Lemma newWorld_ok ca sa ordinal network bound seed tr :
  world_ok (newWorld (newConnPairWithSeedAndTrace ca sa ordinal network bound seed tr)).
Proof.
  split_and!.
  - assert (forall side, p_readClosed (wirePipe seed ordinal side tr (newPipe bound)) = false /\
      p_closed (wirePipe seed ordinal side tr (newPipe bound)) = false) as Hp by (by destruct tr).
    destruct (Hp sideDialer) as [D1 D2], (Hp sideAcceptor) as [A1 A2].
    intros [|]; cbn -[wirePipe]; rewrite ?D1, ?D2, ?A1, ?A2; done.
  - intros _ e He. exfalso. apply He. destruct e; set_solver.
  - constructor.
Qed.

(** ** A call among the others *)

(** A Read of [n] bytes on end [s], interleaved with everything else. *)
Inductive read_sys (n : nat) s : callPC (list Z) * world -> callPC (list Z) * world -> Prop :=
| rs_env pc W W' : world_step W W' -> read_sys n s (pc, W) (pc, W')
| rs_own v pc lk reg ts pc' lk' :
    readStep v n s pc lk = (pc', lk') -> read_sys n s (pc, mkWorld lk reg ts) (pc', mkWorld lk' reg ts).

(** A Write of [data] on end [s]; what it assumes of its surroundings is
    [write_env]. *)
Inductive write_sys (data : list Z) s : callPC Z * world -> callPC Z * world -> Prop :=
| wrs_env pc W W' : world_step W W' -> write_sys data s (pc, W) (pc, W')
| wrs_own v pc lk reg ts pc' lk' :
    write_env (writePipe lk s) v data -> writeStep v data s pc lk = Ret (pc', lk') ->
    write_sys data s (pc, mkWorld lk reg ts) (pc', mkWorld lk' reg ts).

(** Why a call may have failed on end [s]. *)
Definition closed_error (op : string) (err : goerror) : Prop := exists c, err = opError c op ErrClosed.
Definition reset_error (op : string) (err : goerror) : Prop := exists c, err = opError c op errConnReset.
Definition deadline_error (op : string) (err : goerror) : Prop := exists c, err = opError c op ErrDeadlineExceeded.
Definition epipe_error (err : goerror) : Prop := exists c, err = opError c "write" errBrokenPipe.

Definition read_failure lk s (out : list Z) (err : goerror) : Prop :=
  out = [] /\
  (err = EOF /\ c_closed (end_of lk (other s)) = true \/
   closed_error "read" err /\ c_closed (end_of lk s) = true \/
   reset_error "read" err /\ c_reset (end_of lk s) = true \/
   deadline_error "read" err).

Definition write_failure lk s (k : Z) (err : goerror) : Prop :=
  k = 0 /\
  (epipe_error err /\ c_closed (end_of lk (other s)) = true \/
   closed_error "write" err /\ c_closed (end_of lk s) = true \/
   reset_error "write" err /\ c_reset (end_of lk s) = true \/
   deadline_error "write" err).

(** What is known at each point of a call. *)
Definition read_pc_ok s (pc : callPC (list Z)) lk : Prop :=
  match pc with
  | ErrCheckClosed out err =>
      out = [] /\ err = EOF /\ (marked lk s \/ c_closed (end_of lk (other s)) = true)
  | ErrCheckReset out err =>
      out = [] /\ err = EOF /\ (c_reset (end_of lk s) = true \/ c_closed (end_of lk (other s)) = true)
  | Return out (Some err) => read_failure lk s out err
  | _ => True
  end.

Definition write_pc_ok s (pc : callPC Z) lk : Prop :=
  match pc with
  | ErrCheckClosed _ _ => marked lk s \/ c_closed (end_of lk (other s)) = true
  | ErrCheckReset _ _ => c_reset (end_of lk s) = true \/ c_closed (end_of lk (other s)) = true
  | Return k (Some err) => write_failure lk s k err
  | _ => True
  end.

Lemma read_pc_le s pc lk lk' : flags_le lk lk' -> read_pc_ok s pc lk -> read_pc_ok s pc lk'.
Proof.
  intros Hle. pose proof (Hle s) as [H1 H2]. pose proof (Hle (other s)) as [H3 _].
  pose proof (marked_le lk lk' s Hle) as H4. destruct pc as [| | | | | | | | |out [err|]]; cbn; try tauto.
  unfold read_failure. tauto.
Qed.

Lemma write_pc_le s pc lk lk' : flags_le lk lk' -> write_pc_ok s pc lk -> write_pc_ok s pc lk'.
Proof.
  intros Hle. pose proof (Hle s) as [H1 H2]. pose proof (Hle (other s)) as [H3 _].
  pose proof (marked_le lk lk' s Hle) as H4. destruct pc as [| | | | | | | | |out [err|]]; cbn; try tauto.
  unfold write_failure. tauto.
Qed.

(** A pipe that reports an error to its reader or its writer tells why. *)
Lemma read_error_marks lk s :
  pipe_marks lk -> p_readClosed (readPipe lk s) = true \/ p_closed (readPipe lk s) = true ->
  marked lk s \/ c_closed (end_of lk (other s)) = true.
Proof.
  intros Hm Hp. unfold readPipe in Hp. destruct (Hm (other s)) as [H1 H2]. rewrite other_other in H1.
  assert (p_readClosed (writePipe lk (other s)) = true -> marked lk s) as H3.
  { intros [Hc|[_ Hc]]%H1; [by left|done]. }
  destruct Hp as [Hp|[Hp|Hp]%H2]; auto.
Qed.

Lemma write_error_marks lk s :
  pipe_marks lk -> p_closed (writePipe lk s) || p_readClosed (writePipe lk s) = true ->
  marked lk s \/ c_closed (end_of lk (other s)) = true.
Proof.
  intros Hm Hp. destruct (Hm s) as [H1 H2].
  assert (p_readClosed (writePipe lk s) = true -> marked lk s \/ c_closed (end_of lk (other s)) = true) as H3.
  { intros [Hc|[Hc _]]%H1; auto. }
  apply orb_true_iff in Hp as [[Hp|Hp]%H2|Hp]; auto. left. by left.
Qed.

Lemma tryRead_error v (p : pipe Src) n out err p' :
  tryRead v p n = (Done out (Some err), p') ->
  out = [] /\ err = EOF /\ (p_readClosed p = true \/ p_closed p = true).
Proof.
  assert (forall (q q' : pipe Src), tryReadEOF v q = (Done out (Some err), q') -> out = [] /\ err = EOF /\ p_closed q = true)
    as Heof.
  { intros q q'. unfold tryReadEOF. destruct (p_closed q) eqn:E; [|done]. intros. repeat case_match; simplify_eq; done. }
  unfold tryRead. destruct (p_readClosed p) eqn:E; [intros [= <- <- <-]; auto|].
  destruct (p_readable p); [intros (? & ? & ?)%Heof; auto|].
  destruct (copyOut _ n). destruct (_ || _); [done|]. intros (? & ? & ?)%Heof. auto.
Qed.

Lemma readStep_ok v n s pc lk pc' lk' :
  pipe_marks lk -> read_pc_ok s pc lk -> readStep v n s pc lk = (pc', lk') ->
  (lk' = lk \/ exists r, pipe_step (readPipe lk s) (LRead v n r) (readPipe lk' s) /\ lk' = set_readPipe lk s (readPipe lk' s)) /\
  flags_le lk lk' /\ read_pc_ok s pc' lk'.
Proof.
  intros Hm Hpc Hst. unfold readStep in Hst.
  destruct pc as [| | |dch|dch|out err|out err|ch dch|ch dch|out err].
  5: { destruct (tryRead v (readPipe lk s) n) as [r p] eqn:Et. injection Hst as <- <-.
    assert (readPipe (set_readPipe lk s p) s = p) as Ep
      by (unfold readPipe, set_readPipe; rewrite writePipe_set_writePipe; by rewrite decide_True).
    assert (flags_le lk (set_readPipe lk s p)) as Hle
      by (intros e; unfold set_readPipe; by rewrite end_of_set_writePipe).
    split; [right; exists r; rewrite Ep; split; [by constructor|done]|]. split; [done|].
    destruct r as [out [err|]|]; try done. apply tryRead_error in Et as (-> & -> & Hp).
    apply (read_pc_le s (ErrCheckClosed [] EOF) lk); [done|]. cbn. split_and!; [done..|].
    by apply read_error_marks. }
  all: match type of Hst with
       | (if ?b then _ else _, _) = _ => destruct b eqn:Hb
       | _ => idtac
       end; injection Hst as <- <-; (split; [by left|]); (split; [apply flags_le_refl|]);
       cbn in *; unfold read_failure, marked in *; try done.
  - split; [done|]. right; left. split; [by eexists|done].
  - split; [done|]. do 2 right; left. split; [by eexists|done].
  - split; [done|]. do 3 right. by eexists.
  - split; [done|]. right; left. split; [by eexists|done].
  - destruct Hpc as (-> & -> & Hpc). split_and!; [done..|]. destruct Hpc as [[Hc|Hc]|Hc]; [congruence|by left|by right].
  - split; [done|]. do 2 right; left. split; [by eexists|done].
  - destruct Hpc as (-> & -> & Hpc). split; [done|]. left. split; [done|]. destruct Hpc; congruence.
Qed.

Lemma writeStep_ok v data s pc lk pc' lk' :
  pipe_marks lk -> write_env (writePipe lk s) v data -> write_pc_ok s pc lk ->
  writeStep v data s pc lk = Ret (pc', lk') ->
  (lk' = lk \/ exists r, pipe_step (writePipe lk s) (LWrite v data r) (writePipe lk' s) /\ lk' = set_writePipe lk s (writePipe lk' s)) /\
  flags_le lk lk' /\ write_pc_ok s pc' lk'.
Proof.
  intros Hm Henv Hpc Hst. unfold writeStep in Hst.
  destruct pc as [| | |dch|dch|out err|out err|ch dch|ch dch|out err].
  5: { apply go_bind_ret in Hst as ([r p] & Et & Hst). injection Hst as <- <-.
    assert (writePipe (set_writePipe lk s p) s = p) as Ep
      by (rewrite writePipe_set_writePipe; by rewrite decide_True).
    assert (flags_le lk (set_writePipe lk s p)) as Hle by (intros e; by rewrite end_of_set_writePipe).
    split; [right; exists r; rewrite Ep; split; [by constructor|done]|]. split; [done|].
    destruct r as [out [err|]|]; try done.
    apply (write_pc_le s (ErrCheckClosed out err) lk); [done|]. cbn. apply write_error_marks; [done|].
    unfold tryWrite in Et. destruct (_ || p_readClosed _); [done|]. destruct (_ || _); [|done].
    apply go_bind_ret in Et as (? & _ & Et). injection Et. done. }
  all: match type of Hst with
       | Ret (if ?b then _ else _, _) = _ => destruct b eqn:Hb
       | _ => idtac
       end; injection Hst as <- <-; (split; [by left|]); (split; [apply flags_le_refl|]);
       cbn in *; unfold write_failure, marked in *; try done.
  - split; [done|]. right; left. split; [by eexists|done].
  - split; [done|]. do 2 right; left. split; [by eexists|done].
  - split; [done|]. do 3 right. by eexists.
  - split; [done|]. right; left. split; [by eexists|done].
  - destruct Hpc as [[Hc|Hc]|Hc]; [congruence|by left|by right].
  - split; [done|]. do 2 right; left. split; [by eexists|done].
  - split; [done|]. left. split; [by eexists|]. destruct Hpc; congruence.
  - split; [done|]. do 3 right. by eexists.
Qed.

(** ** Properties *)

Lemma read_sys_ok n s pc W pc' W' :
  world_ok W -> read_pc_ok s pc (w_link W) -> read_sys n s (pc, W) (pc', W') ->
  world_ok W' /\ read_pc_ok s pc' (w_link W') /\ flags_le (w_link W) (w_link W').
Proof.
  intros Hw Hpc Hst. inversion Hst as [? ? ? Hws|v ? lk reg ts ? lk' Hown]; subst.
  - destruct (world_step_ok _ _ Hw Hws) as [Hw' Hle]. split_and!; [done|by eapply read_pc_le|done].
  - destruct (readStep_ok _ _ _ _ _ _ _ (proj1 Hw) Hpc Hown) as (Hlk & Hle & Hpc'). split_and!; [|done..].
    destruct Hlk as [->|(r & Hp & Hlk)]; [done|].
    refine (proj1 (world_step_ok (mkWorld lk reg ts) _ Hw _)). apply ws_io. rewrite Hlk.
    by apply (io_pipe lk (other s) (LRead v n r)).
Qed.

Lemma write_sys_ok data s pc W pc' W' :
  world_ok W -> write_pc_ok s pc (w_link W) -> write_sys data s (pc, W) (pc', W') ->
  world_ok W' /\ write_pc_ok s pc' (w_link W') /\ flags_le (w_link W) (w_link W').
Proof.
  intros Hw Hpc Hst. inversion Hst as [? ? ? Hws|v ? lk reg ts ? lk' Henv Hown]; subst.
  - destruct (world_step_ok _ _ Hw Hws) as [Hw' Hle]. split_and!; [done|by eapply write_pc_le|done].
  - destruct (writeStep_ok _ _ _ _ _ _ _ (proj1 Hw) Henv Hpc Hown) as (Hlk & Hle & Hpc'). split_and!; [|done..].
    destruct Hlk as [->|(r & Hp & Hlk)]; [done|].
    refine (proj1 (world_step_ok (mkWorld lk reg ts) _ Hw _)). apply ws_io. rewrite Hlk.
    by apply (io_pipe lk s (LWrite v data r)).
Qed.

(** A failed Read tells the truth, whatever runs concurrently. From its start
    to its return, with any Close and Reset calls in the middle of their work: EOF
    is reported only if the peer has closed (never because of a Reset or of this
    end's own Close, although both tear the same pipe down); net.ErrClosed only
    if this end was closed; ECONNRESET only if it was reset; and a failed Read
    moves no data. *)
Theorem read_failure_cause n s W W' out err :
  world_ok W -> rtc (read_sys n s) (CheckClosed, W) (Return out (Some err), W') ->
  out = [] /\
  (err = EOF /\ c_closed (end_of (w_link W') (other s)) = true \/
   closed_error "read" err /\ c_closed (end_of (w_link W') s) = true \/
   reset_error "read" err /\ c_reset (end_of (w_link W') s) = true \/
   deadline_error "read" err).
Proof.
  intros Hw Hst.
  assert (forall x y, rtc (read_sys n s) x y -> world_ok (snd x) -> read_pc_ok s (fst x) (w_link (snd x)) ->
    read_pc_ok s (fst y) (w_link (snd y))) as Hinv.
  { intros x y Hxy. induction Hxy as [x|[pc1 W1] [pc2 W2] z H1 H2 IH]; [done|]. cbn. intros Hw1 Hp1.
    destruct (read_sys_ok _ _ _ _ _ _ Hw1 Hp1 H1) as (Hw2 & Hp2 & _). by apply IH. }
  by apply (Hinv _ _ Hst).
Qed.

(** A failed Write tells the truth likewise: a broken pipe (EPIPE) is
    reported only if the peer has closed, never for this end's own Close or a
    Reset; the others as for Read; and a failed Write has a count of 0. *)
Theorem write_failure_cause data s W W' k err :
  world_ok W -> rtc (write_sys data s) (CheckClosed, W) (Return k (Some err), W') ->
  k = 0 /\
  (epipe_error err /\ c_closed (end_of (w_link W') (other s)) = true \/
   closed_error "write" err /\ c_closed (end_of (w_link W') s) = true \/
   reset_error "write" err /\ c_reset (end_of (w_link W') s) = true \/
   deadline_error "write" err).
Proof.
  intros Hw Hst.
  assert (forall x y, rtc (write_sys data s) x y -> world_ok (snd x) -> write_pc_ok s (fst x) (w_link (snd x)) ->
    write_pc_ok s (fst y) (w_link (snd y))) as Hinv.
  { intros x y Hxy. induction Hxy as [x|[pc1 W1] [pc2 W2] z H1 H2 IH]; [done|]. cbn. intros Hw1 Hp1.
    destruct (write_sys_ok _ _ _ _ _ _ Hw1 Hp1 H1) as (Hw2 & Hp2 & _). by apply IH. }
  by apply (Hinv _ _ Hst).
Qed.

(** *** Close wins and a reset sticks *)

(** Where a Read of an end already closed, or already reset, can be. *)
Definition read_doomed (closed : bool) s (pc : callPC (list Z)) lk : Prop :=
  match pc with
  | CheckClosed | Select _ _ => True
  | CheckReset => closed = false
  | Return out (Some err) =>
      out = [] /\ (closed_error "read" err /\ c_closed (end_of lk s) = true \/ closed = false /\ reset_error "read" err)
  | _ => False
  end.

Definition write_doomed (closed : bool) s (pc : callPC Z) lk : Prop :=
  match pc with
  | CheckClosed | Select _ _ => True
  | CheckReset => closed = false
  | Return k (Some err) =>
      k = 0 /\ (closed_error "write" err /\ c_closed (end_of lk s) = true \/ closed = false /\ reset_error "write" err)
  | _ => False
  end.

Definition doomed_flag (closed : bool) lk s : Prop :=
  if closed then c_closed (end_of lk s) = true else c_reset (end_of lk s) = true.

Lemma doomed_flag_le closed lk lk' s : flags_le lk lk' -> doomed_flag closed lk s -> doomed_flag closed lk' s.
Proof. intros Hle. destruct closed; apply (Hle s). Qed.

Lemma readStep_doomed closed v n s pc lk pc' lk' :
  doomed_flag closed lk s -> read_doomed closed s pc lk -> readStep v n s pc lk = (pc', lk') ->
  lk' = lk /\ read_doomed closed s pc' lk.
Proof.
  unfold doomed_flag. intros Hf Hd Hst.
  destruct pc as [| | |dch|dch|out err|out err|ch dch|ch dch|out [err|]]; cbn in Hd, Hst; try done;
    try (injection Hst as <- <-; done).
  - injection Hst as <- <-. split; [done|]. destruct (c_closed (end_of lk s)) eqn:Ec; cbn.
    + split; [done|]. left. split; [by eexists|done].
    + by destruct closed.
  - injection Hst as <- <-. split; [done|]. subst closed. rewrite Hf. cbn. split; [done|]. right. split; [done|]. by eexists.
  - injection Hst as <- <-. split; [done|]. by destruct (selectReady _ _ _ _ _ _).
Qed.

Lemma writeStep_doomed closed v data s pc lk pc' lk' :
  doomed_flag closed lk s -> write_doomed closed s pc lk -> writeStep v data s pc lk = Ret (pc', lk') ->
  lk' = lk /\ write_doomed closed s pc' lk.
Proof.
  unfold doomed_flag. intros Hf Hd Hst.
  destruct pc as [| | |dch|dch|out err|out err|ch dch|ch dch|out [err|]]; cbn in Hd, Hst; try done;
    try (injection Hst as <- <-; done).
  - injection Hst as <- <-. split; [done|]. destruct (c_closed (end_of lk s)) eqn:Ec; cbn.
    + split; [done|]. left. split; [by eexists|done].
    + by destruct closed.
  - injection Hst as <- <-. split; [done|]. subst closed. rewrite Hf. cbn. split; [done|]. right. split; [done|]. by eexists.
  - injection Hst as <- <-. split; [done|]. by destruct (selectReady _ _ _ _ _ _).
Qed.

Lemma read_doomed_le closed s pc lk lk' : flags_le lk lk' -> read_doomed closed s pc lk -> read_doomed closed s pc lk'.
Proof.
  intros Hle. pose proof (Hle s) as [H1 _]. destruct pc as [| | | | | | | | |out [err|]]; cbn; try tauto.
Qed.

Lemma write_doomed_le closed s pc lk lk' : flags_le lk lk' -> write_doomed closed s pc lk -> write_doomed closed s pc lk'.
Proof.
  intros Hle. pose proof (Hle s) as [H1 _]. destruct pc as [| | | | | | | | |out [err|]]; cbn; try tauto.
Qed.

Lemma read_doomed_run closed n s x y :
  rtc (read_sys n s) x y -> world_ok (snd x) -> doomed_flag closed (w_link (snd x)) s ->
  read_doomed closed s (fst x) (w_link (snd x)) -> read_doomed closed s (fst y) (w_link (snd y)).
Proof.
  intros Hxy. induction Hxy as [x|[pc1 W1] [pc2 W2] z H1 H2 IH]; [done|]. cbn in *. intros Hw Hf Hd.
  inversion H1 as [? ? ? Hws|v ? lk reg ts ? lk' Hown]; subst.
  - destruct (world_step_ok _ _ Hw Hws) as [Hw' Hle].
    apply IH; [done|by eapply doomed_flag_le|by eapply read_doomed_le].
  - destruct (readStep_doomed closed _ _ _ _ _ _ _ Hf Hd Hown) as [-> Hd']. by apply IH.
Qed.

Lemma write_doomed_run closed data s x y :
  rtc (write_sys data s) x y -> world_ok (snd x) -> doomed_flag closed (w_link (snd x)) s ->
  write_doomed closed s (fst x) (w_link (snd x)) -> write_doomed closed s (fst y) (w_link (snd y)).
Proof.
  intros Hxy. induction Hxy as [x|[pc1 W1] [pc2 W2] z H1 H2 IH]; [done|]. cbn in *. intros Hw Hf Hd.
  inversion H1 as [? ? ? Hws|v ? lk reg ts ? lk' Henv Hown]; subst.
  - destruct (world_step_ok _ _ Hw Hws) as [Hw' Hle].
    apply IH; [done|by eapply doomed_flag_le|by eapply write_doomed_le].
  - destruct (writeStep_doomed closed _ _ _ _ _ _ _ Hf Hd Hown) as [-> Hd']. by apply IH.
Qed.

(** A call that starts, or is blocked in its select. *)
Definition atStart {A} (pc : callPC A) : Prop :=
  match pc with CheckClosed | Select _ _ => True | _ => False end.

(** C18: Close wins and a Reset sticks. Every Read or Write that starts, or is
    blocked, on an end already closed returns net.ErrClosed and nothing else,
    even if the end was reset before or is reset during the call; on an end
    already reset it returns ECONNRESET, or net.ErrClosed if the end is closed
    meanwhile: never data (not even bytes delivered before), never EOF, never a
    timeout. A call blocked on such an end does leave its select. *)
Theorem close_wins_reset_sticks closed s W :
  world_ok W -> doomed_flag closed (w_link W) s ->
  (forall n pc W' out err, atStart pc -> rtc (read_sys n s) (pc, W) (Return out err, W') ->
     out = [] /\ exists e : goerror, err = Some e /\ (closed_error "read" e \/ closed = false /\ reset_error "read" e)) /\
  (forall data pc W' k err, atStart pc -> rtc (write_sys data s) (pc, W) (Return k err, W') ->
     k = 0 /\ exists e : goerror, err = Some e /\ (closed_error "write" e \/ closed = false /\ reset_error "write" e)) /\
  (forall v n ch dch, readStep v n s (Select ch dch) (w_link W) = (CheckClosed, w_link W)) /\
  (forall v data ch dch, writeStep v data s (Select ch dch) (w_link W) = Ret (CheckClosed, w_link W)).
Proof.
  intros Hw Hf. split_and!.
  - intros n pc W' out err Hpc Hst. apply (read_doomed_run closed) in Hst; [|done|done|by destruct pc].
    cbn in Hst. destruct err as [e|]; [|done]. destruct Hst as [Ho He]. split; [done|]. exists e. split; [done|]. tauto.
  - intros data pc W' k err Hpc Hst. apply (write_doomed_run closed) in Hst; [|done|done|by destruct pc].
    cbn in Hst. destruct err as [e|]; [|done]. destruct Hst as [Ho He]. split; [done|]. exists e. split; [done|]. tauto.
  - intros v n ch dch. cbn. unfold selectReady.
    destruct closed; cbn in Hf; rewrite Hf; by rewrite ?orb_true_r.
  - intros v data ch dch. cbn. unfold selectReady.
    destruct closed; cbn in Hf; rewrite Hf; by rewrite ?orb_true_r.
Qed.

(** *** A blocked call has nothing to return *)

Lemma close_run (p : pipe Src) : pipe_run p [LClose] (close p).
Proof. eapply run_cons; [apply ps_close|apply run_nil]. Qed.

Lemma abort_run (p : pipe Src) : pipe_run p [LAbort] (abort p).
Proof. eapply run_cons; [apply ps_abort|apply run_nil]. Qed.

Lemma run_app (p p1 p2 : pipe Src) ls1 ls2 : pipe_run p ls1 p1 -> pipe_run p1 ls2 p2 -> pipe_run p (ls1 ++ ls2) p2.
Proof. intros H1 H2. induction H1 as [|p l p1 ls p2' Hst _ IH]; [done|]. cbn. eapply run_cons; eauto. Qed.

(** What every step of the world does to a pipe is a run of it. *)
Lemma world_step_pipe W W' w :
  world_step W W' -> exists ls, pipe_run (writePipe (w_link W) w) ls (writePipe (w_link W') w).
Proof.
  assert (forall (lk : link Src) s p ls, pipe_run (writePipe lk s) ls p ->
    exists ls, pipe_run (writePipe lk w) ls (writePipe (set_writePipe lk s p) w)) as Hset.
  { intros lk s p ls Hr. rewrite writePipe_set_writePipe. destruct (decide (w = s)) as [->|]; [by exists ls|].
    exists []. apply run_nil. }
  assert (forall (lk : link Src) s c, exists ls, pipe_run (writePipe lk w) ls (writePipe (set_end lk s c) w)) as Hend.
  { intros lk s c. rewrite writePipe_set_end. exists []. apply run_nil. }
  assert (forall lk, exists ls, pipe_run (writePipe lk w) ls (writePipe lk w)) as Hid
    by (intros lk; exists []; apply run_nil).
  intros Hst. destruct Hst as [lk reg ts s|lk reg ts|lk reg ts1 a k ts2 k' lk' reg' Hrun|lk lk' reg ts Hio]; cbn; try apply Hid.
  - destruct a as [s|s|s|s|s|s| |s]; cbn in Hrun; [destruct (c_closed _)|..]; injection Hrun as <- <- <-;
      try apply Hid; try apply Hend; unfold upd_writePipe; eapply Hset; (apply close_run || apply abort_run).
  - destruct Hio as [lk w' l p' _ _ Hp|lk now t s|lk now t s|lk now t s|lk s|lk s]; try apply Hend.
    + eapply Hset. eapply run_cons; [exact Hp|apply run_nil].
    + unfold SetDeadline. destruct (c_closed _); cbn [snd]; [apply Hid|]. unfold upd_end. rewrite writePipe_set_end. apply Hend.
    + unfold SetReadDeadline. destruct (c_closed _); cbn [snd]; [apply Hid|apply Hend].
    + unfold SetWriteDeadline. destruct (c_closed _); cbn [snd]; [apply Hid|apply Hend].
Qed.

Lemma world_run_pipe W W' w :
  rtc world_step W W' -> exists ls, pipe_run (writePipe (w_link W) w) ls (writePipe (w_link W') w).
Proof.
  intros Hst. induction Hst as [W|W1 W2 W3 H1 H2 (ls2 & IH)]; [exists []; apply run_nil|].
  destruct (world_step_pipe _ _ w H1) as (ls1 & H3). exists (ls1 ++ ls2). by eapply run_app.
Qed.


(** A blocked Write has no room, likewise. *)
Theorem blocked_write_has_no_room v data s g dch p1 lk reg ts W' v' :
  pipe_ok (writePipe lk s) -> tryWrite v (writePipe lk s) data = Ret (Wait (onPipe g), p1) ->
  rtc world_step (mkWorld (set_writePipe lk s p1) reg ts) W' ->
  selectReady v' (writePipe (w_link W') s) (end_of (w_link W') s) (c_wd (end_of (w_link W') s)) (onPipe g) dch = false ->
  c_closed (end_of (w_link W') s) = false /\ c_reset (end_of (w_link W') s) = false /\
  forall v'', tryWrite v'' (writePipe (w_link W') s) data = Ret (Wait (onPipe g), writePipe (w_link W') s).
Proof.
  intros Hok Htry Hst Hsel. unfold selectReady in Hsel.
  apply orb_false_iff in Hsel as [Hsel Hr]. apply orb_false_iff in Hsel as [Hsel Hc].
  apply orb_false_iff in Hsel as [Hg _]. split_and!; [done..|]. intros v''.
  destruct (world_run_pipe _ _ s Hst) as (ls & Hrun). cbn in Hrun.
  rewrite writePipe_set_writePipe, decide_True in Hrun by done.
  by eapply writer_still_waits.
Qed.

(** A pass with nothing interleaved is one of the interleavings. *)
Lemma readLoop_sys k v n s pc lk pc' lk' reg ts :
  readLoop k v n s pc lk = (pc', lk') -> rtc (read_sys n s) (pc, mkWorld lk reg ts) (pc', mkWorld lk' reg ts).
Proof.
  revert pc lk. induction k as [|k IH]; intros pc lk; [intros [= <- <-]; apply rtc_refl|].
  rewrite readLoop_S. destruct (settled pc); [intros [= <- <-]; apply rtc_refl|].
  destruct (readStep v n s pc lk) as [pc1 lk1] eqn:E. intros Hk.
  eapply rtc_l; [by eapply rs_own|]. by apply IH.
Qed.

Lemma read_env_run n s pc W W' : rtc world_step W W' -> rtc (read_sys n s) (pc, W) (pc, W').
Proof. intros Hst. induction Hst as [W|W1 W2 W3 H1 H2 IH]; [apply rtc_refl|]. eapply rtc_l; [by apply rs_env|done]. Qed.

Lemma write_env_run data s pc W W' : rtc world_step W W' -> rtc (write_sys data s) (pc, W) (pc, W').
Proof. intros Hst. induction Hst as [W|W1 W2 W3 H1 H2 IH]; [apply rtc_refl|]. eapply rtc_l; [by apply wrs_env|done]. Qed.
End race.

(** ** Witnesses *)

Section witnesses.
#[local] Instance witness_platform : Platform := false.
#[local] Instance witness_race_fuel : RejectFuel := 3%nat.

Definition w_addr (port : Z) : addr := mkAddr "tcp" "peer" port (Some [127; 0; 0; 1]).

(** A connection without a Network: two plain pipes of 4 bytes. *)
Definition w_end (local remote : addr) (side : connSide) : conn :=
  mkConn local remote "tcp" 0 side false false false (mkPairKey "" "") newDeadline newDeadline.
Definition w_conn : link (list Z) :=
  mkLink (w_end (w_addr 1) (w_addr 2) sideDialer) (w_end (w_addr 2) (w_addr 1) sideAcceptor)
    plain_pipe plain_pipe.

Definition w_world : world := newWorld w_conn.

Lemma w_world_ok : world_ok w_world.
Proof.
  split_and!.
  - by intros [|].
  - intros _ e He. exfalso. apply He. destruct e; set_solver.
  - constructor.
Qed.

(** The server closes; the client's Read, started before, reports EOF. *)
Definition w_closed_world : world := mkWorld (upd_writePipe sideAcceptor close
  (upd_end sideAcceptor (fun c => set_c_closed c true) w_conn)) [sideDialer]
  [[DoAbort sideDialer; DoStopRead sideAcceptor; DoStopWrite sideAcceptor]].

Lemma w_close_run : rtc world_step w_world w_closed_world.
Proof.
  eapply rtc_l; [apply (ws_close _ _ _ sideAcceptor)|].
  eapply rtc_l; [eapply (ws_run _ _ []); vm_compute; reflexivity|].
  eapply rtc_l; [eapply (ws_run _ _ []); vm_compute; reflexivity|].
  eapply rtc_l; [eapply (ws_run _ _ []); vm_compute; reflexivity|].
  cbn. apply rtc_refl.
Qed.

Lemma read_failure_cause_witness :
  exists W' : @world (list Z), [] = @nil Z /\
  (EOF = EOF /\ c_closed (end_of (w_link W') sideAcceptor) = true \/
   closed_error "read" EOF /\ c_closed (end_of (w_link W') sideDialer) = true \/
   reset_error "read" EOF /\ c_reset (end_of (w_link W') sideDialer) = true \/
   deadline_error "read" EOF).
Proof.
  destruct (Read idle_view 4 sideDialer (w_link w_closed_world)) as [pc lk] eqn:E.
  assert (pc = Return [] (Some EOF)) as Epc by (apply (f_equal fst) in E; vm_compute in E; by rewrite <- E).
  subst pc. exists (mkWorld lk (w_reg w_closed_world) (w_threads w_closed_world)).
  apply (read_failure_cause 4 sideDialer w_world _ [] EOF w_world_ok).
  etrans; [apply read_env_run, w_close_run|].
  exact (readLoop_sys 8 idle_view 4 sideDialer CheckClosed (w_link w_closed_world) _ lk
    (w_reg w_closed_world) (w_threads w_closed_world) E).
Defined.

(** The server has closed and torn its read pipe down; the client's Write
    reports a broken pipe. *)
Definition w_broken : link (list Z) := Close sideAcceptor w_conn.
Definition w_broken_world : world := mkWorld w_broken [sideDialer] [[]].

Lemma w_broken_run : rtc world_step w_world w_broken_world.
Proof.
  eapply rtc_l; [apply (ws_close _ _ _ sideAcceptor)|].
  do 6 (eapply rtc_l; [eapply (ws_run _ _ []); vm_compute; reflexivity|]).
  cbn. apply rtc_refl.
Qed.

Lemma w_broken_env : write_env (writePipe w_broken sideDialer) idle_view [7].
Proof. split; [reflexivity|]. split; [exact noFaults_ok|]. intros Hp. by destruct Hp. Qed.

Lemma w_broken_own pc pc' :
  writeStep idle_view [7] sideDialer pc w_broken = Ret (pc', w_broken) ->
  write_sys [7] sideDialer (pc, w_broken_world) (pc', w_broken_world).
Proof. intros E. exact (wrs_own [7] sideDialer idle_view pc w_broken _ _ pc' w_broken w_broken_env E). Qed.

Definition w_epipe : goerror := opError (end_of w_broken sideDialer) "write" errBrokenPipe.

Lemma w_broken_write :
  rtc (write_sys [7] sideDialer) (CheckClosed, w_broken_world) (Return 0 (Some w_epipe), w_broken_world).
Proof.
  eapply rtc_l; [apply (w_broken_own _ CheckReset); vm_compute; reflexivity|].
  eapply rtc_l; [apply (w_broken_own _ Channel); vm_compute; reflexivity|].
  eapply rtc_l; [apply (w_broken_own _ (Expired 0%nat)); vm_compute; reflexivity|].
  eapply rtc_l; [apply (w_broken_own _ (Try 0%nat)); vm_compute; reflexivity|].
  eapply rtc_l; [apply (w_broken_own _ (ErrCheckClosed 0 ErrClosedPipe)); vm_compute; reflexivity|].
  eapply rtc_l; [apply (w_broken_own _ (ErrCheckReset 0 ErrClosedPipe)); vm_compute; reflexivity|].
  eapply rtc_l; [apply (w_broken_own _ (Return 0 (Some w_epipe))); vm_compute; reflexivity|].
  apply rtc_refl.
Qed.

Lemma write_failure_cause_witness :
  0 = 0 /\
  (epipe_error w_epipe /\
     c_closed (end_of w_broken sideAcceptor) = true \/
   closed_error "write" w_epipe /\
     c_closed (end_of w_broken sideDialer) = true \/
   reset_error "write" w_epipe /\
     c_reset (end_of w_broken sideDialer) = true \/
   deadline_error "write" w_epipe).
Proof.
  refine (write_failure_cause [7] sideDialer w_world w_broken_world 0 _ w_world_ok _).
  etrans; [apply write_env_run, w_broken_run|exact w_broken_write].
Defined.

(** A reset end with unread data. *)
Definition w_reset_world : world := mkWorld (signalReset sideDialer w_conn) [] [[DoSignal sideAcceptor;
  DoAbort sideDialer; DoAbort sideAcceptor; DoAbort sideAcceptor; DoAbort sideDialer]].

Lemma w_reset_run : rtc world_step w_world w_reset_world.
Proof.
  eapply rtc_l; [apply ws_reset|].
  do 2 (eapply rtc_l; [eapply (ws_run _ _ []); vm_compute; reflexivity|]).
  cbn. apply rtc_refl.
Qed.

Lemma w_reset_ok : world_ok w_reset_world.
Proof.
  assert (forall W W' : @world (list Z), rtc world_step W W' -> world_ok W -> world_ok W') as Hrun.
  { intros W W' Hst. induction Hst as [|W1 W2 W3 H1 H2 IH]; [done|]. intros Hw.
    apply IH. by apply (world_step_ok _ _ Hw H1). }
  exact (Hrun _ _ w_reset_run w_world_ok).
Qed.

Lemma close_wins_reset_sticks_witness :
  exists e : goerror, Some (opError (end_of (w_link w_reset_world) sideDialer) "read" errConnReset) = Some e /\
    (closed_error "read" e \/ false = false /\ reset_error "read" e).
Proof.
  refine (proj2 (proj1 (close_wins_reset_sticks false sideDialer w_reset_world w_reset_ok eq_refl)
    4%nat CheckClosed w_reset_world [] _ I _)).
  exact (readLoop_sys 8 idle_view 4 sideDialer CheckClosed (w_link w_reset_world) _ _ [] _ eq_refl).
Defined.


(** A full client-to-server pipe. *)
Definition w_full : link (list Z) := upd_writePipe sideDialer (fun p => wrote idle_view p [1; 2; 3]) w_conn.

Lemma blocked_write_has_no_room_witness :
  c_closed (end_of w_full sideDialer) = false /\ c_reset (end_of w_full sideDialer) = false /\
  forall v'', tryWrite v'' (writePipe w_full sideDialer) [4; 5]
    = Ret (Wait (onPipe 1%nat), writePipe w_full sideDialer).
Proof.
  refine (blocked_write_has_no_room idle_view [4; 5] sideDialer 1%nat 0%nat (writePipe w_full sideDialer) w_full
    [] [] (mkWorld w_full [] []) idle_view _ _ _ _).
  - split; cbn; try done. constructor.
  - reflexivity.
  - apply rtc_refl.
  - reflexivity.
Defined.
End witnesses.
