(* ===== verification/Replay.v ===== *)
(** * Replay: the faults of a direction as a function of its streams and its writes

    [judge] evaluates one write knowing only the configuration and the gate it
    was written under, its payload, and the four streams: no clock, no queue, no
    reader. The evaluator of faults.go takes the same decisions as [judge]
    whatever else goes on, which is what makes a run reproducible from a seed. *)
From S2P Require Import Prelude GoRuntime Float64 Rand Partition Trace PipeState Faults FaultProps Pipe PipeInv PipeProps Conn.

(** ** The reference evaluation *)

(** A write as the faults see it. *)
Record faultUnit : Type := mkFaultUnit {
  un_gated : bool;
  un_config : faultConfig;
  un_data : list Z
}.

(** What is decided about one write: all that is recorded of it but for the
    sequence number and the times, which depend on the clock. *)
Record verdict : Type := mkVerdict {
  vd_partitioned : bool;
  vd_dropped : bool;
  vd_duplicated : bool;
  vd_corrupted : bool;
  vd_drawn : Duration;
  vd_size : Z;
  vd_byte : Z;
  vd_bit : Z
}.

Definition verdict_of (e : faultEvent) : verdict :=
  mkVerdict (fe_partitioned e) (fe_dropped e) (fe_duplicated e) (fe_corrupted e) (fe_drawn e) (fe_size e)
    (fe_corruptByte e) (fe_corruptBit e).

Section replay.
Context {Src : Type} `{!DrawSource Src} `{!RejectFuel}.
Implicit Types (p : pipe Src) (data : list Z) (cfg : faultConfig) (v : netView) (fp : faultPolicy) (ls : list label).

(** The four streams of a direction. *)
Record streams : Type := mkStreams {
  st_loss : option (stream Src);
  st_latency : option (stream Src);
  st_duplicate : option (stream Src);
  st_corrupt : option (stream Src)
}.

Definition streams_of p : streams := mkStreams (p_loss p) (p_latency p) (p_duplicate p) (p_corrupt p).

(** One Bernoulli decision, one delay, one corruption site. *)
Definition roll (enabled : bool) (rate : float64) (s : option (stream Src)) : go (bool * option (stream Src)) :=
  if enabled then st ← deref s; let '(b, st) := bernoulli rate st in Ret (b, Some st) else Ret (false, s).

Definition rollDelay cfg (s : option (stream Src)) : go (Duration * option (stream Src)) :=
  if latencyEnabled cfg then
    st ← deref s; r ← uniformDuration (latencyMin cfg) (latencyMax cfg) st; Ret (fst r, Some (snd r))
  else Ret (0, s).

Definition rollSite (corrupted : bool) data (s : option (stream Src)) : go (list Z * Z * Z * option (stream Src)) :=
  if corrupted && (0 <? zlen data) then
    st ← deref s;
    r ← corruptionSite (zlen data) st;
    let '(byteIndex, bitIndex, st) := r in
    data' ← flipBit data byteIndex bitIndex;
    Ret (data', byteIndex, bitIndex, Some st)
  else Ret (data, 0, 0, s).

(** The verdict on a write and the payloads it puts on their way. *)
Definition judge (u : faultUnit) (ss : streams) : go (verdict * list (list Z) * streams) :=
  if un_gated u then Ret (mkVerdict true false false false 0 0 0 0, [], ss)
  else
    let cfg := un_config u in
    let data := un_data u in
    r ← roll (lossEnabled cfg) (lossRate cfg) (st_loss ss); let '(dropped, l) := r in
    r ← rollDelay cfg (st_latency ss); let '(drawn, t) := r in
    r ← roll (duplicateEnabled cfg) (duplicateRate cfg) (st_duplicate ss); let '(duplicated, d) := r in
    r ← roll (corruptEnabled cfg) (corruptRate cfg) (st_corrupt ss); let '(corrupted, c) := r in
    if (dropped : bool) then
      Ret (mkVerdict false true duplicated corrupted drawn (zlen data) 0 0, [], mkStreams l t d c)
    else
      r ← rollSite corrupted data c; let '(data', byteIndex, bitIndex, c) := r in
      Ret (mkVerdict false false duplicated corrupted drawn (zlen data) byteIndex bitIndex,
           copies_of duplicated data', mkStreams l t d c).

Fixpoint judgeAll (us : list faultUnit) (ss : streams) : go (list (verdict * list (list Z)) * streams) :=
  match us with
  | [] => Ret ([], ss)
  | u :: us =>
      r ← judge u ss; let '(vd, copies, ss) := r in
      r ← judgeAll us ss; let '(js, ss) := r in
      Ret ((vd, copies) :: js, ss)
  end.

(** The bytes put on their way. *)
Definition carried (js : list (verdict * list (list Z))) : list Z := concat (concat (map snd js)).

(** ** Lemmas *)

Lemma judgeAll_app us1 us2 ss :
  judgeAll (us1 ++ us2) ss =
  r ← judgeAll us1 ss; let '(js1, ss) := r in r ← judgeAll us2 ss; let '(js2, ss) := r in Ret (js1 ++ js2, ss).
Proof.
  revert ss. induction us1 as [|u us1 IH]; intros ss; cbn [judgeAll app mbind go_bind].
  { destruct (judgeAll us2 ss) as [[js ss2]|msg|]; done. }
  destruct (judge u ss) as [[[vd copies] ss1]|msg|]; cbn [mbind go_bind]; [|done..]. rewrite IH.
  destruct (judgeAll us1 ss1) as [[js1 ss2]|msg|]; cbn [mbind go_bind]; [|done..].
  by destruct (judgeAll us2 ss2) as [[js2 ss3]|msg|].
Qed.

Lemma roll_decision enabled rate s s' b : decision enabled rate s s' b -> roll enabled rate s = Ret (b, s').
Proof.
  unfold decision, roll. destruct enabled; [|by intros [-> ->]]. intros (st & -> & -> & ->).
  cbn [deref mbind go_bind]. by rewrite bernoulli_snd.
Qed.

Lemma rollDelay_decision cfg s s' d : latency_decision cfg s s' d -> rollDelay cfg s = Ret (d, s').
Proof.
  unfold latency_decision, rollDelay. destruct (latencyEnabled cfg); [|by intros [-> ->]].
  intros (st & st' & -> & E & ->). cbn [deref mbind go_bind]. by rewrite E.
Qed.

Lemma rollSite_corruption corrupted data c data' bi ti c' :
  corruption corrupted data c data' bi ti c' -> rollSite corrupted data c = Ret (data', bi, ti, c').
Proof.
  unfold corruption, rollSite. destruct (corrupted && _); [|by intros (-> & -> & -> & ->)].
  intros (st & st' & b & -> & E & Hb & Hr & -> & ->). cbn [deref mbind go_bind]. rewrite E. cbn [mbind go_bind].
  unfold flipBit. rewrite (proj2 (andb_true_iff _ _)) by (split; [apply Z.leb_le|apply Z.ltb_lt]; lia). by rewrite Hb.
Qed.

(** The draws of one unit, read back. *)
Lemma judge_draws v fp p data l t d c ds data' bi ti c' :
  gated v fp = false -> draws (current v fp) p l t d c ds ->
  (if d_dropped ds then data' = data /\ bi = 0 /\ ti = 0 /\ c' = c
   else corruption (d_corrupted ds) data c data' bi ti c') ->
  judge (mkFaultUnit (gated v fp) (current v fp) data) (streams_of p) =
  Ret (mkVerdict false (d_dropped ds) (d_duplicated ds) (d_corrupted ds) (d_drawn ds) (zlen data) bi ti,
       (if d_dropped ds then [] else copies_of (d_duplicated ds) data'), mkStreams l t d c').
Proof.
  intros Hg (Hl & Ht & Hd & Hc) Hco. unfold judge. cbn [un_gated un_config un_data streams_of st_loss st_latency st_duplicate st_corrupt].
  rewrite Hg, (roll_decision _ _ _ _ _ Hl). cbn [mbind go_bind]. rewrite (rollDelay_decision _ _ _ _ Ht). cbn [mbind go_bind].
  rewrite (roll_decision _ _ _ _ _ Hd). cbn [mbind go_bind]. rewrite (roll_decision _ _ _ _ _ Hc). cbn [mbind go_bind].
  destruct (d_dropped ds); [by destruct Hco as (-> & -> & -> & ->)|].
  rewrite (rollSite_corruption _ _ _ _ _ _ _ Hco). done.
Qed.

(** What one evaluation leaves of the streams and of the trace is [judge]'s. *)
Lemma outcome_judged v fp p data p' copies :
  unit_outcome v fp p data p' copies ->
  exists ev, p_trace p' = record ev <$> p_trace p /\
    judge (mkFaultUnit (gated v fp) (current v fp) data) (streams_of p) = Ret (verdict_of ev, copies, streams_of p').
Proof.
  destruct 1 as [Hn Hp|l t d c ds Hg Hd Hdr|l t d c c' ds data' cb ct Hg Hd Hdr Hc E1 E2
    |l t d c c' ds data' cb ct base ser busy rel Hg Hd Hdr Hc En Hth Hrel]; rewrite recordEvent_eq.
  - exists partitionedEvent. split; [done|]. unfold judge, gated. cbn [un_gated]. by rewrite Hn, Hp.
  - exists (droppedEvent ds (zlen data)). split; [done|].
    rewrite (judge_draws v fp p data l t d c ds data 0 0 c Hg Hd) by (by rewrite Hdr). by rewrite Hdr.
  - exists (deliveredEvent ds 0 0 0 (zlen data) cb ct). rewrite deliverNow_eq. split; [done|].
    rewrite (judge_draws v fp p data l t d c ds data' cb ct c' Hg Hd) by (by rewrite Hdr). rewrite Hdr.
    destruct Hd as (_ & Ht & _). unfold latency_decision in Ht. rewrite E1 in Ht. destruct Ht as [_ ->]. done.
  - exists (deliveredEvent ds (d_drawn ds) ser (time_Sub rel base) (zlen data) cb ct). open_deliverLater. split; [done|].
    rewrite (judge_draws v fp p data l t d c ds data' cb ct c' Hg Hd) by (by rewrite Hdr). by rewrite Hdr.
Qed.

(** The bytes on their way after an admitted write. *)
Lemma placed_flight v cfg p q p' copies :
  p_readable q = p_readable p -> p_pending q = p_pending p ->
  (p_pending p <> [] -> holds_back cfg = true) -> placed v cfg q p' copies ->
  flight p' = flight p ++ concat copies.
Proof.
  intros Eq1 Eq2 Hhb Hpl. unfold flight, bs_flight, stream_of. cbn.
  destruct Hpl as [-> E1 E2 _|Hh E1 E2 _|rel Hh E1 E2 _ _ _ _]; rewrite E1, E2, ?Eq1, ?Eq2.
  - by rewrite app_nil_r.
  - destruct (p_pending p); [|by rewrite Hhb in Hh]. cbn. by rewrite concat_app, !app_nil_r.
  - by rewrite map_app, map_map, map_id, concat_app, app_assoc.
Qed.

(** ** Runs *)

(** The accepted writes of a run, as the faults see them. *)
Definition units p ls : list faultUnit :=
  map (fun w => mkFaultUnit (unit_gated p (fst w)) (unit_config p (fst w)) (snd w)) (ls ≫= accepted).

(** A pipe moved as the judgements say: the streams, the recorded verdicts, and
    the bytes. *)
Definition replays p ls p' : Prop :=
  exists js, judgeAll (units p ls) (streams_of p) = Ret (js, streams_of p') /\
    (forall evs, p_trace p = Some evs ->
       exists evs', p_trace p' = Some (evs ++ evs') /\ map verdict_of evs' = map fst js) /\
    (LAbort ∉ ls -> flight p ++ carried js = (ls ≫= received) ++ flight p').

Lemma units_app p ls1 ls2 : units p (ls1 ++ ls2) = units p ls1 ++ units p ls2.
Proof. unfold units. by rewrite bind_app, map_app. Qed.

(** A transition that accepts no write draws nothing and records nothing. *)
Lemma replays_idle p l p' :
  accepted l = [] -> streams_of p' = streams_of p -> p_trace p' = p_trace p ->
  (l <> LAbort -> flight p = received l ++ flight p') -> replays p [l] p'.
Proof.
  intros Ha Hs Ht Hf. exists []. unfold units. cbn. rewrite Ha, Hs. split; [done|]. split.
  - intros evs Hevs. exists []. by rewrite app_nil_r, Ht.
  - intros Hl. rewrite !app_nil_r. apply Hf. intros ->. apply Hl. by left.
Qed.

(** Transitions other than a write leave streams and trace. *)
Lemma tryRead_streams v p n r p' : tryRead v p n = (r, p') -> streams_of p' = streams_of p /\ p_trace p' = p_trace p.
Proof.
  assert (forall q r q', tryReadEOF v q = (r, q') -> streams_of q' = streams_of q /\ p_trace q' = p_trace q) as Heof.
  { intros q r0 q' E. unfold tryReadEOF in E. repeat case_match; simplify_eq; done. }
  unfold tryRead. destruct (p_readClosed p); [by intros [= <- <-]|].
  destruct (p_readable p) as [|c cs]; [apply Heof|]. destruct (copyOut _ n) as [out rest]. destruct (_ || _).
  - by intros [= <- <-].
  - by intros E%Heof.
Qed.

Lemma release_streams now p :
  streams_of (releaseDueLatency now p) = streams_of p /\ p_trace (releaseDueLatency now p) = p_trace p.
Proof.
  destruct (p_readClosed p) eqn:Hrc; [unfold releaseDueLatency; by rewrite Hrc|].
  destruct (releaseDueLatency_eq now p Hrc) as (us & rest & _ & _ & _ & ->). done.
Qed.

Lemma close_streams p : streams_of (close p) = streams_of p /\ p_trace (close p) = p_trace p.
Proof. unfold close. by destruct (p_closed p). Qed.

Lemma abort_streams p : streams_of (abort p) = streams_of p /\ p_trace (abort p) = p_trace p.
Proof. unfold abort. by destruct (p_readClosed p). Qed.

Lemma step_idle p l p' :
  pipe_ok p -> accepted l = [] -> pipe_step p l p' -> streams_of p' = streams_of p -> p_trace p' = p_trace p -> replays p [l] p'.
Proof.
  intros Hok Ha Hst Hs Ht. apply replays_idle; [done..|]. intros Hl.
  apply pipe_step_sound in Hst as (_ & _ & Hss); [|done].
  apply stream_step_balance in Hss as (_ & uss & Hus & E); [|done|by apply aborted_flight].
  rewrite Ha in Hus. apply Forall2_nil_inv_l in Hus as ->. cbn in E. rewrite app_nil_r in E. exact E.
Qed.

Lemma write_replays v p fp data r p' :
  pipe_ok p -> p_deliver p = faultEvaluator fp -> write_env p v data -> tryWrite v p data = Ret (r, p') ->
  replays p [LWrite v data r] p'.
Proof.
  intros Hok Hfp Henv Hw. pose proof (ps_write p v data r p' Henv Hw) as Hst.
  assert (p' = p -> accepted (LWrite v data r) = [] -> replays p [LWrite v data r] p') as Hidle.
  { intros -> Ha. by apply step_idle. }
  destruct Henv as (Hlen & Hcfg & Hhb). unfold tryWrite in Hw.
  destruct (_ || p_readClosed p); [injection Hw as <- <-; by apply Hidle|].
  destruct (_ || _); [|injection Hw as <- <-; by apply Hidle].
  apply go_bind_ret in Hw as (p1 & Hr & E). injection E as <- <-. clear Hst Hidle.
  unfold runDeliver in Hr. cbn [p_deliver set_bufBytes] in Hr. rewrite Hfp in Hr.
  destruct (deliverUnit_inv _ _ _ _ _ Hlen Hr) as (copies & Ho).
  destruct (outcome_judged _ _ _ _ _ _ Ho) as (ev & Ht & Hj).
  unfold unit_config in Hcfg, Hhb. rewrite Hfp in Hcfg, Hhb.
  exists [(verdict_of ev, copies)]. split; [|split].
  - unfold units, unit_gated, unit_config. cbn [accepted mbind list_bind app map fst snd]. rewrite Hfp. cbn [judgeAll].
    change (streams_of p) with (streams_of (set_bufBytes p (p_bufBytes p + zlen data))). by rewrite Hj.
  - intros evs Hevs. cbn [p_trace set_bufBytes] in Ht. rewrite Hevs in Ht. eexists. split; [exact Ht|done].
  - intros _. unfold carried. cbn. rewrite app_nil_r. symmetry.
    eapply (placed_flight v (current v fp) p (set_bufBytes p (p_bufBytes p + zlen data))); [done|done|done|].
    by eapply outcome_placed.
Qed.

Lemma step_replays p fp l p' : pipe_ok p -> p_deliver p = faultEvaluator fp -> pipe_step p l p' -> replays p [l] p'.
Proof.
  intros Hok Hfp Hst. destruct Hst as [p v data r p' Henv Hw|p v n r p' Hrd|p now|p|p].
  - by eapply write_replays.
  - destruct (tryRead_streams _ _ _ _ _ Hrd). apply step_idle; [done|done|by apply ps_read|done|done].
  - destruct (release_streams now p). apply step_idle; [done|done|by apply ps_release|done|done].
  - destruct (close_streams p). apply step_idle; [done|done|by apply ps_close|done|done].
  - destruct (abort_streams p). apply step_idle; [done|done|by apply ps_abort|done|done].
Qed.

Lemma run_replays p fp ls p' : pipe_ok p -> p_deliver p = faultEvaluator fp -> pipe_run p ls p' -> replays p ls p'.
Proof.
  intros Hok Hfp Hr. induction Hr as [p|p l p1 ls p2 Hst Hr IH].
  { exists []. unfold carried. cbn. split; [done|]. split; [|intros _; by rewrite app_nil_r].
    intros evs ->. exists []. by rewrite app_nil_r. }
  destruct (step_replays p fp l p1 Hok Hfp Hst) as (js1 & J1 & T1 & F1).
  apply pipe_step_sound in Hst as (Hok1 & Hsp & _); [|done].
  destruct IH as (js2 & J2 & T2 & F2); [done|by rewrite (proj1 Hsp)|].
  assert (units p1 ls = units p ls) as Eu.
  { unfold units, unit_gated, unit_config. by rewrite (proj1 Hsp). }
  exists (js1 ++ js2). split; [|split].
  - change (l :: ls) with ([l] ++ ls). rewrite units_app, judgeAll_app, J1. cbn [mbind go_bind]. rewrite <- Eu, J2. done.
  - intros evs Hevs. destruct (T1 evs Hevs) as (e1 & H1 & M1). destruct (T2 _ H1) as (e2 & H2 & M2).
    exists (e1 ++ e2). by rewrite app_assoc, !map_app, M1, M2.
  - intros [Hl Hls]%not_elem_of_cons. unfold carried. rewrite map_app, !concat_app, app_assoc. unfold carried in F1, F2.
    rewrite F1 by (by apply not_elem_of_cons; split; [|apply not_elem_of_nil]). cbn. rewrite app_nil_r, <- !app_assoc. f_equal. by apply F2.
Qed.

(** ** Properties *)

(** C11: the faults of a direction are reproducible. Over any run of writes, reads,
    timer firings, closes and aborts, at whatever times, the streams end, and the
    verdicts are recorded, exactly as the reference evaluation has it, which
    knows only the streams at the start and what each accepted write was written
    under; and unless the run aborts, the bytes received and in flight are those
    the reference evaluation carries. *)
Theorem faults_replay p fp ls p' evs :
  pipe_ok p -> p_deliver p = faultEvaluator fp -> p_trace p = Some evs -> pipe_run p ls p' ->
  exists js evs', judgeAll (units p ls) (streams_of p) = Ret (js, streams_of p') /\
    p_trace p' = Some (evs ++ evs') /\ map verdict_of evs' = map fst js /\
    (LAbort ∉ ls -> flight p ++ carried js = (ls ≫= received) ++ flight p').
Proof.
  intros Hok Hfp Ht Hrun. destruct (run_replays p fp ls p' Hok Hfp Hrun) as (js & J & T & F).
  destruct (T evs Ht) as (evs' & E & M). by exists js, evs'.
Qed.

(** The direction out of end [s] of connection [ordinal] of a Network. *)
Definition freshDirection (seed ordinal : Z) (s : connSide) (bound : Z) fp : pipe Src :=
  installFaultPolicy (wirePipe seed ordinal s true (newPipe bound)) fp.

Lemma freshDirection_ok seed ordinal s bound fp : pipe_ok (freshDirection seed ordinal s bound fp).
Proof. split; cbn; try done. constructor. Qed.

(** C12: the same seed gives the same faults. Take the same direction of the
    connection with the same ordinal in two Networks with the same seed, whatever
    their buffer bounds and peers: if the writes accepted in one are the first of
    those accepted in the other, with the same settings and gates, then its
    verdicts are the first of the other's, and so are the bytes its reader gets,
    however differently the two were timed, read, delayed and closed. *)
Theorem same_seed_same_faults seed ordinal s bound1 bound2 fp1 fp2 ls1 ls2 p1 p2 :
  let d1 := freshDirection seed ordinal s bound1 fp1 in
  let d2 := freshDirection seed ordinal s bound2 fp2 in
  pipe_run d1 ls1 p1 -> pipe_run d2 ls2 p2 -> units d1 ls1 `prefix_of` units d2 ls2 ->
  exists evs1 evs2, p_trace p1 = Some evs1 /\ p_trace p2 = Some evs2 /\
    map verdict_of evs1 `prefix_of` map verdict_of evs2 /\
    (LAbort ∉ ls1 -> LAbort ∉ ls2 -> (ls1 ≫= received) ++ flight p1 `prefix_of` (ls2 ≫= received) ++ flight p2).
Proof.
  intros d1 d2 H1 H2 [us Hus].
  destruct (run_replays d1 fp1 ls1 p1 (freshDirection_ok _ _ _ _ _) eq_refl H1) as (js1 & J1 & T1 & F1).
  destruct (run_replays d2 fp2 ls2 p2 (freshDirection_ok _ _ _ _ _) eq_refl H2) as (js2 & J2 & T2 & F2).
  destruct (T1 [] eq_refl) as (evs1 & E1 & M1), (T2 [] eq_refl) as (evs2 & E2 & M2). cbn [app] in E1, E2.
  assert (streams_of d2 = streams_of d1) as Es by reflexivity.
  rewrite Hus, judgeAll_app, Es, J1 in J2. cbn [mbind go_bind] in J2.
  apply go_bind_ret in J2 as ([js ss] & _ & J2). injection J2 as <- _.
  exists evs1, evs2. split; [exact E1|]. split; [exact E2|]. split.
  - rewrite M1, M2, map_app. by apply prefix_app_r.
  - intros A1 A2. specialize (F1 A1). specialize (F2 A2).
    change (flight d1) with (@nil Z) in F1. change (flight d2) with (@nil Z) in F2. cbn [app] in F1, F2.
    rewrite <- F1, <- F2. unfold carried. rewrite map_app, !concat_app. by apply prefix_app_r.
Qed.
End replay.

Arguments streams Src : clear implicits.

(** ** Witnesses *)

Section witnesses.
#[local] Instance replay_fuel : RejectFuel := 3%nat.

(** Two directions of connection 3 under seed 7, of different size, between
    different peers; one takes a write more. *)
Definition narrow : pipe unit := freshDirection 7 3 sideDialer 2 live_policy.
Definition wide : pipe unit := freshDirection 7 3 sideDialer 64 (static_policy allFaults).

Definition sent (v : netView) (data : list Z) (p : pipe unit) : pipe unit :=
  match tryWrite v p data with Ret (_, p') => p' | _ => p end.

Definition narrow1 : pipe unit := sent live_view [1; 2; 3] narrow.
Definition wide1 : pipe unit := sent idle_view [1; 2; 3] wide.
Definition wide2 : pipe unit := sent idle_view [4] (releaseDueLatency 5000 wide1).

Lemma sent_step v p data n :
  zlen data < 2 ^ 63 -> config_ok (unit_config p v) -> (p_pending p <> [] -> holds_back (unit_config p v) = true) ->
  match tryWrite v p data with Ret (r, _) => r = n | _ => False end -> pipe_step p (LWrite v data n) (sent v data p).
Proof.
  intros H1 H2 H3 Hw. apply ps_write; [done|]. unfold sent. by destruct (tryWrite v p data) as [[r p']| |]; [subst r|..].
Qed.

Lemma narrow_run : pipe_run narrow [LWrite live_view [1; 2; 3] (Done 3 None)] narrow1.
Proof.
  eapply run_cons; [|apply run_nil]. apply sent_step; [reflexivity|exact allFaults_ok|intros _; reflexivity|].
  vm_compute. reflexivity.
Qed.

Lemma wide_run :
  pipe_run wide [LWrite idle_view [1; 2; 3] (Done 3 None); LRelease 5000; LWrite idle_view [4] (Done 1 None)] wide2.
Proof.
  eapply run_cons; [|eapply run_cons; [apply ps_release|eapply run_cons; [|apply run_nil]]].
  - apply sent_step; [reflexivity|exact allFaults_ok|intros _; reflexivity|]. vm_compute. reflexivity.
  - apply sent_step; [reflexivity|exact allFaults_ok|intros _; reflexivity|]. vm_compute. reflexivity.
Qed.

Lemma faults_replay_witness :
  exists js evs', judgeAll (units narrow [LWrite live_view [1; 2; 3] (Done 3 None)]) (streams_of narrow) = Ret (js, streams_of narrow1) /\
    p_trace narrow1 = Some ([] ++ evs') /\ map verdict_of evs' = map fst js.
Proof.
  destruct (faults_replay narrow live_policy _ narrow1 [] (freshDirection_ok _ _ _ _ _) eq_refl eq_refl narrow_run) as (js & evs' & J & T & M & _).
  exists js, evs'. exact (conj J (conj T M)).
Defined.

Lemma same_seed_same_faults_witness :
  exists evs1 evs2, p_trace narrow1 = Some evs1 /\ p_trace wide2 = Some evs2 /\
    map verdict_of evs1 `prefix_of` map verdict_of evs2.
Proof.
  destruct (same_seed_same_faults 7 3 sideDialer 2 64 live_policy (static_policy allFaults) _ _ narrow1 wide2
    narrow_run wide_run) as (evs1 & evs2 & E1 & E2 & E3 & _).
  - exists [mkFaultUnit false allFaults [4]]. vm_compute. reflexivity.
  - exists evs1, evs2. exact (conj E1 (conj E2 E3)).
Defined.
End witnesses.
