(* ===== verification/Directions.v ===== *)
(** * The directions of the connections of a Network

    What every pipe of an established connection satisfies: the invariant of a
    pipe, the evaluator of its Network installed for its pair, its four streams
    and its recorder where derivation and evaluation have brought them. Each
    operation of an end keeps it. *)
From S2P Require Import Prelude GoRuntime Errors Float64 Rand Partition Trace PipeState Faults FaultProps Pipe PipeInv.
From S2P Require Import PipeProps Deadline Conn ConnProps Replay.

(** What all the directions of a Network have in common: its settings, the bound
    of its pipes, its seed, and whether it records. *)
Record directionEnv : Type := mkDirectionEnv {
  de_faults : faultConfig;
  de_bound : Z;
  de_seed : Z;
  de_traced : bool
}.

Section directions.
Context {Src : Type} `{!DrawSource Src} `{!RejectFuel}.
Implicit Types (p : pipe Src) (lk : link Src) (E : directionEnv) (v : netView).

(** The streams of a direction as they are derived. *)
Definition derivedStreams (seed ordinal : Z) (s : connSide) : streams Src :=
  mkStreams (Some (deriveStream seed ordinal s kindLoss)) (Some (deriveStream seed ordinal s kindLatency))
    (Some (deriveStream seed ordinal s kindDuplicate)) (Some (deriveStream seed ordinal s kindCorrupt)).

(** The streams stand, and the recorded verdicts are, where some sequence of
    writes has brought them from the derived ones. *)
Definition replayed (seed ordinal : Z) (s : connSide) p : Prop :=
  exists us js, judgeAll us (derivedStreams seed ordinal s) = Ret (js, streams_of p) /\
    forall evs, p_trace p = Some evs -> map verdict_of evs = map fst js.

Record direction_ok E (pair : pairKey) (ordinal : Z) (s : connSide) p : Prop := {
  dir_pipe : pipe_ok p;
  dir_deliver : p_deliver p = faultEvaluator (mkFaultPolicy true pair noFaults);
  dir_partition : p_partitionNetwork p = true /\ p_partitionPair p = pair;
  dir_bound : p_bound p = de_bound E;
  dir_held : p_pending p <> [] -> holds_back (de_faults E) = true;
  dir_replayed : replayed (de_seed E) ordinal s p;
  dir_trace : if de_traced E then exists evs, p_trace p = Some evs /\ recorder_ok evs else p_trace p = None
}.

(** The recorder has a sequence number left. *)
Definition trace_room p : Prop := forall evs, p_trace p = Some evs -> zlen evs < 2 ^ 64.

(** The view is one the Network gives. *)
Definition view_in E v : Prop := nv_faults v = de_faults E.

(** ** The streams stay wired *)

Definition streams_wired (ss : streams Src) : Prop :=
  is_Some (st_loss ss) /\ is_Some (st_latency ss) /\ is_Some (st_duplicate ss) /\ is_Some (st_corrupt ss).

Lemma roll_wired enabled rate s b s' : roll enabled rate s = Ret (b, s') -> is_Some s -> is_Some s'.
Proof.
  unfold roll. destruct enabled; [|by intros [= _ <-]]. intros E [st ->]. cbn [deref mbind go_bind] in E.
  destruct (bernoulli rate st) as [b0 st']. injection E as _ <-. eauto.
Qed.

Lemma rollDelay_wired cfg s d s' : rollDelay cfg s = Ret (d, s') -> is_Some s -> is_Some s'.
Proof.
  unfold rollDelay. destruct (latencyEnabled cfg); [|by intros [= _ <-]].
  intros (st & _ & ((x & st') & _ & [= _ <-])%go_bind_ret)%go_bind_ret _. eauto.
Qed.

Lemma rollSite_wired corrupted data s data' bi ti s' : rollSite corrupted data s = Ret (data', bi, ti, s') -> is_Some s -> is_Some s'.
Proof.
  unfold rollSite. destruct (corrupted && _); [|by intros [= _ _ _ <-]]. intros Hr _.
  apply go_bind_ret in Hr as (st & _ & Hr). apply go_bind_ret in Hr as ([[x y] z] & _ & Hr).
  apply go_bind_ret in Hr as (d & _ & Hr). injection Hr as _ _ _ <-. eauto.
Qed.

Lemma judge_wired u ss vd copies ss' : judge u ss = Ret (vd, copies, ss') -> streams_wired ss -> streams_wired ss'.
Proof.
  unfold judge, streams_wired. destruct (un_gated u); [by intros [= _ _ <-]|]. intros Hj (H1 & H2 & H3 & H4).
  apply go_bind_ret in Hj as ([dropped l] & El%roll_wired & Hj); [|done].
  apply go_bind_ret in Hj as ([drawn t] & Et%rollDelay_wired & Hj); [|done].
  apply go_bind_ret in Hj as ([duplicated d] & Ed%roll_wired & Hj); [|done].
  apply go_bind_ret in Hj as ([corrupted c] & Ec%roll_wired & Hj); [|done].
  destruct dropped; [by injection Hj as _ _ <-|].
  apply go_bind_ret in Hj as ([[[data' bi] ti] c'] & Es%rollSite_wired & Hj); [|done]. by injection Hj as _ _ <-.
Qed.

Lemma judgeAll_wired us ss js ss' : judgeAll us ss = Ret (js, ss') -> streams_wired ss -> streams_wired ss'.
Proof.
  revert ss js. induction us as [|u us IH]; intros ss js; cbn [judgeAll]; [by intros [= _ <-]|].
  intros Hj Hw. apply go_bind_ret in Hj as ([[vd copies] ss1] & E1 & Hj). apply go_bind_ret in Hj as ([js1 ss2] & E2 & Hj).
  injection Hj as _ <-. eapply IH; [exact E2|]. by eapply judge_wired.
Qed.

Lemma direction_wired E pair ordinal s p : direction_ok E pair ordinal s p -> wired p.
Proof.
  intros Hd. destruct (dir_replayed _ _ _ _ _ Hd) as (us & js & Hj & _).
  apply judgeAll_wired in Hj; [exact Hj|]. split_and!; eauto.
Qed.

(** ** The transitions of a pipe keep it *)

Lemma replayed_step seed ordinal s p fp l p' :
  pipe_ok p -> p_deliver p = faultEvaluator fp -> pipe_step p l p' -> (p_trace p = None -> p_trace p' = None) ->
  replayed seed ordinal s p -> replayed seed ordinal s p'.
Proof.
  intros Hok Hfp Hst Hnone (us & js & Hj & Ht). destruct (step_replays p fp l p' Hok Hfp Hst) as (js' & Hj' & Ht' & _).
  exists (us ++ units p [l]), (js ++ js'). split.
  - rewrite judgeAll_app, Hj. cbn [mbind go_bind]. by rewrite Hj'.
  - intros evs Hevs. destruct (p_trace p) as [evs0|] eqn:E0; [|by rewrite Hnone in Hevs].
    destruct (Ht' evs0 eq_refl) as (evs1 & E1 & M1). rewrite E1 in Hevs. injection Hevs as <-.
    by rewrite !map_app, (Ht evs0 eq_refl), M1.
Qed.

Lemma direction_env E E' pair ordinal s p :
  de_bound E' = de_bound E -> de_seed E' = de_seed E -> de_traced E' = de_traced E ->
  (holds_back (de_faults E) = true -> holds_back (de_faults E') = true) ->
  direction_ok E pair ordinal s p -> direction_ok E' pair ordinal s p.
Proof. intros E1 E2 E3 Hh []. split; rewrite ?E1, ?E2, ?E3; auto. Qed.

(** A transition that records nothing and holds nothing new back. *)
Lemma direction_quiet E pair ordinal s p l p' :
  direction_ok E pair ordinal s p -> pipe_step p l p' -> p_trace p' = p_trace p ->
  (p_pending p' <> [] -> p_pending p <> []) -> direction_ok E pair ordinal s p'.
Proof.
  intros [Hok Hd [Hpn Hpp] Hb Hh Hr Ht] Hst Etr Hpe.
  pose proof (pipe_step_sound _ _ _ Hok Hst) as (Hok' & (S1 & S2 & S3 & S4) & _).
  split; rewrite ?S1, ?S2, ?S3, ?S4, ?Etr; auto.
  eapply replayed_step; [exact Hok|exact Hd|exact Hst|by rewrite Etr|done].
Qed.

Lemma direction_read E pair ordinal s p v size r p' :
  direction_ok E pair ordinal s p -> tryRead v p size = (r, p') -> direction_ok E pair ordinal s p'.
Proof.
  intros Hd Hrd. eapply direction_quiet; [done|by apply (ps_read p v size r p')|by apply (tryRead_streams _ _ _ _ _ Hrd)|].
  assert (p_pending p' = p_pending p) as ->; [|done].
  assert (forall (q : pipe Src) r q', tryReadEOF v q = (r, q') -> p_pending q' = p_pending q) as Heof.
  { intros q r0 q' Eq. unfold tryReadEOF in Eq. repeat case_match; simplify_eq; done. }
  unfold tryRead in Hrd. destruct (p_readClosed p); [by injection Hrd as _ <-|].
  destruct (p_readable p) as [|c cs]; [by apply Heof in Hrd|]. destruct (copyOut _ size) as [out rest].
  destruct (_ || _); [by injection Hrd as _ <-|]. by apply Heof in Hrd.
Qed.

Lemma direction_release E pair ordinal s p now :
  direction_ok E pair ordinal s p -> direction_ok E pair ordinal s (releaseDueLatency now p).
Proof.
  intros Hd. eapply direction_quiet; [done|apply ps_release|apply release_streams|].
  destruct (p_readClosed p) eqn:Hrc; [unfold releaseDueLatency; by rewrite Hrc|].
  destruct (releaseDueLatency_eq now p Hrc) as (us & rest & Hp & _ & _ & ->). cbn. rewrite Hp.
  intros Hne [_ ->]%app_eq_nil. done.
Qed.

Lemma direction_close E pair ordinal s p : direction_ok E pair ordinal s p -> direction_ok E pair ordinal s (close p).
Proof.
  intros Hd. eapply direction_quiet; [done|apply ps_close|apply close_streams|]. unfold close. by destruct (p_closed p).
Qed.

Lemma direction_abort E pair ordinal s p : direction_ok E pair ordinal s p -> direction_ok E pair ordinal s (abort p).
Proof.
  intros Hd. eapply direction_quiet; [done|apply ps_abort|apply abort_streams|]. unfold abort. by destruct (p_readClosed p).
Qed.

(** What a write may assume is so in a Network. *)
Lemma direction_write_env E pair ordinal s p v data :
  direction_ok E pair ordinal s p -> view_in E v -> config_ok (de_faults E) -> zlen data < 2 ^ 63 -> write_env p v data.
Proof.
  intros Hd Hv Hcfg Hlen. unfold write_env, unit_config. rewrite (dir_deliver _ _ _ _ _ Hd). unfold current. cbn.
  rewrite Hv. split_and!; [done|done|]. apply (dir_held _ _ _ _ _ Hd).
Qed.

(** A write records nothing, or one event. *)
Lemma tryWrite_trace p v data r p' :
  zlen data < 2 ^ 63 -> tryWrite v p data = Ret (r, p') ->
  p_trace p' = p_trace p \/ exists ev, p_trace p' = record ev <$> p_trace p.
Proof.
  intros Hlen. unfold tryWrite. destruct (_ || p_readClosed p); [intros [= _ <-]; by left|].
  destruct (_ || _); [|intros [= _ <-]; by left].
  intros (p1 & Hr & [= _ <-])%go_bind_ret. unfold runDeliver in Hr. cbn [p_deliver set_bufBytes] in Hr.
  destruct (p_deliver p) as [|fp]; [injection Hr as <-; by left|].
  destruct (deliverUnit_inv _ _ _ _ _ Hlen Hr) as (copies & Ho). destruct (outcome_judged _ _ _ _ _ _ Ho) as (ev & Ht & _).
  right. by exists ev.
Qed.

(** The units a write leaves pending are held back by its configuration. *)
Lemma tryWrite_held p v data r p' fp :
  zlen data < 2 ^ 63 -> p_deliver p = faultEvaluator fp -> tryWrite v p data = Ret (r, p') ->
  p_pending p' = p_pending p \/ holds_back (current v fp) = true.
Proof.
  intros Hlen Hfp. unfold tryWrite. destruct (_ || p_readClosed p); [intros [= _ <-]; by left|].
  destruct (_ || _); [|intros [= _ <-]; by left].
  intros (p1 & Hr & [= _ <-])%go_bind_ret. unfold runDeliver in Hr. cbn [p_deliver set_bufBytes] in Hr. rewrite Hfp in Hr.
  destruct (deliverUnit_inv _ _ _ _ _ Hlen Hr) as (copies & Ho).
  destruct (deliverUnit_queues _ _ _ _ _ _ Ho) as [(_ & Hp & _)|(rel & _ & _ & _ & _ & Hh)]; [by left|by right].
Qed.

Lemma direction_write E pair ordinal s p v data r p' :
  direction_ok E pair ordinal s p -> view_in E v -> config_ok (de_faults E) -> zlen data < 2 ^ 63 -> trace_room p ->
  tryWrite v p data = Ret (r, p') -> direction_ok E pair ordinal s p'.
Proof.
  intros Hd Hv Hcfg Hlen Hroom Hw. pose proof (direction_write_env _ _ _ _ _ _ _ Hd Hv Hcfg Hlen) as Henv.
  pose proof (ps_write p v data r p' Henv Hw) as Hst.
  destruct Hd as [Hok Hdl [Hpn Hpp] Hb Hh Hr Ht].
  pose proof (pipe_step_sound _ _ _ Hok Hst) as (Hok' & (S1 & S2 & S3 & S4) & _).
  pose proof (tryWrite_trace _ _ _ _ _ Hlen Hw) as Htr.
  assert (p_pending p' <> [] -> holds_back (de_faults E) = true) as Hh'.
  { destruct (tryWrite_held _ _ _ _ _ _ Hlen Hdl Hw) as [->|Hx]; [done|]. intros _. unfold current in Hx. cbn in Hx. by rewrite Hv in Hx. }
  split; rewrite ?S1, ?S2, ?S3, ?S4; auto.
  - eapply replayed_step; [exact Hok|exact Hdl|exact Hst| |done]. intros Hn. destruct Htr as [->|[ev ->]]; by rewrite Hn.
  - destruct (de_traced E).
    + destruct Ht as (evs & Hevs & Hrec). destruct Htr as [->|[ev ->]]; [by exists evs|]. rewrite Hevs. cbn.
      eexists. split; [done|]. apply record_ok; [done|]. by apply Hroom.
    + destruct Htr as [->|[ev ->]]; by rewrite Ht.
Qed.

(** A write in a Network does not panic; only a run of rejected draws can keep
    it from returning. *)
Lemma direction_write_wp b E pair ordinal s p v data :
  direction_ok E pair ordinal s p -> view_in E v -> config_ok (de_faults E) -> zlen data < 2 ^ 63 ->
  (b = false -> draws_accepted (de_faults E) p) -> wp b (tryWrite v p data) (fun _ => True).
Proof.
  intros Hd Hv Hcfg Hlen Hacc. unfold tryWrite. destruct (_ || p_readClosed p); [done|]. destruct (_ || _); [|done].
  apply wp_bind. unfold runDeliver. cbn [p_deliver set_bufBytes]. rewrite (dir_deliver _ _ _ _ _ Hd).
  eapply wp_mono; [apply deliverUnit_wp; [exact (direction_wired _ _ _ _ _ Hd)|unfold current; cbn; by rewrite Hv|done|]|done].
  intros Hb. unfold current. cbn. rewrite Hv. by apply Hacc.
Qed.

(** ** The directions of a connection *)

Definition link_ok E lk : Prop :=
  forall s, direction_ok E (c_pair (end_of lk s)) (c_ordinal (end_of lk s)) s (writePipe lk s).

(** The same two ends, by pair and ordinal. *)
Definition same_identity lk lk' : Prop :=
  forall s, c_pair (end_of lk' s) = c_pair (end_of lk s) /\ c_ordinal (end_of lk' s) = c_ordinal (end_of lk s).

Lemma link_ok_move E lk lk' :
  same_identity lk lk' ->
  (forall s, direction_ok E (c_pair (end_of lk s)) (c_ordinal (end_of lk s)) s (writePipe lk s) ->
     direction_ok E (c_pair (end_of lk s)) (c_ordinal (end_of lk s)) s (writePipe lk' s)) ->
  link_ok E lk -> link_ok E lk'.
Proof. intros Hid Hmv Hok s. destruct (Hid s) as [-> ->]. by apply Hmv. Qed.

Lemma link_ok_pipe E lk w p' :
  direction_ok E (c_pair (end_of lk w)) (c_ordinal (end_of lk w)) w p' -> link_ok E lk -> link_ok E (set_writePipe lk w p').
Proof.
  intros Hp. apply link_ok_move; [intros s; by rewrite end_of_set_writePipe|].
  intros s Hs. rewrite writePipe_set_writePipe. by destruct (decide (s = w)) as [->|].
Qed.

Lemma link_ok_end E lk s f :
  (forall e, c_pair (f e) = c_pair e /\ c_ordinal (f e) = c_ordinal e) -> link_ok E lk -> link_ok E (upd_end s f lk).
Proof.
  intros Hf. unfold upd_end. apply link_ok_move.
  - intros e. rewrite end_of_set_end. destruct (decide (e = s)) as [->|]; [apply Hf|done].
  - intros e. by rewrite writePipe_set_end.
Qed.

Lemma link_ok_write E lk w f :
  (forall pair ordinal p, direction_ok E pair ordinal w p -> direction_ok E pair ordinal w (f p)) ->
  link_ok E lk -> link_ok E (upd_writePipe w f lk).
Proof. intros Hf Hok. apply link_ok_pipe; [|done]. apply Hf, Hok. Qed.

Lemma Close_link E s lk : link_ok E lk -> link_ok E (Close s lk).
Proof.
  intros Hok. unfold Close. destruct (c_closed _); [done|]. apply link_ok_end; [done|]. apply link_ok_end; [done|].
  apply (link_ok_write E _ (other s)); [intros; by apply direction_abort|].
  apply link_ok_write; [intros; by apply direction_close|]. by apply link_ok_end.
Qed.

Lemma signalReset_link E s lk : link_ok E lk -> link_ok E (signalReset s lk).
Proof. by apply link_ok_end. Qed.

Lemma abortReset_link E s lk : link_ok E lk -> link_ok E (abortReset s lk).
Proof.
  intros Hok. apply (link_ok_write E _ (other s)); [intros; by apply direction_abort|].
  apply link_ok_write; [intros; by apply direction_abort|done].
Qed.

Lemma Read_link `{!Platform} E v size s lk pc lk' : link_ok E lk -> Read v size s lk = (pc, lk') -> link_ok E lk'.
Proof.
  intros Hok. rewrite Read_precedence. cbn zeta. destruct (c_closed _); [by intros [= _ <-]|].
  destruct (c_reset _); [by intros [= _ <-]|]. destruct (expired _ _); [by intros [= _ <-]|].
  destruct (tryRead v (readPipe lk s) size) as [r p'] eqn:Et. intros [= _ <-].
  apply (link_ok_pipe E lk (other s)); [|done]. eapply direction_read; [|exact Et]. apply Hok.
Qed.

Lemma Write_link `{!Platform} E v data s lk pc lk' :
  link_ok E lk -> view_in E v -> config_ok (de_faults E) -> zlen data < 2 ^ 63 -> trace_room (writePipe lk s) ->
  Write v data s lk = Ret (pc, lk') -> link_ok E lk'.
Proof.
  intros Hok Hv Hcfg Hlen Hroom. rewrite Write_precedence. cbn zeta. destruct (c_closed _); [by intros [= _ <-]|].
  destruct (c_reset _); [by intros [= _ <-]|]. destruct (expired _ _); [by intros [= _ <-]|].
  intros ([r p'] & Et & [= _ <-])%go_bind_ret. apply link_ok_pipe; [|done].
  by eapply direction_write; [apply Hok|..].
Qed.

(** A connection as it is built. *)
Lemma wirePipe_replayed seed ordinal s enabled bound fp :
  replayed seed ordinal s (installFaultPolicy (wirePipe seed ordinal s enabled (newPipe bound)) fp).
Proof. exists [], []. split; [by destruct enabled|]. intros evs. destruct enabled; [by intros [= <-]|done]. Qed.

Lemma fresh_direction_ok E ordinal s pair :
  direction_ok E pair ordinal s
    (installFaultPolicy (wirePipe (de_seed E) ordinal s (de_traced E) (newPipe (de_bound E))) (mkFaultPolicy true pair noFaults)).
Proof.
  split.
  - split; destruct (de_traced E); cbn; try done; constructor.
  - done.
  - done.
  - by destruct (de_traced E).
  - by destruct (de_traced E).
  - apply wirePipe_replayed.
  - destruct (de_traced E); [|done]. exists []. split; [done|]. split; [done|]. intros i e. by rewrite lookup_nil.
Qed.
End directions.
