(* ===== verification/NetIP.v ===== *)
(** * What the program uses of Go's [strconv], [net] and [net/netip] on
    addresses: decimal numbers, host:port strings and IP literals

    Strings are handled as the lists of their bytes. *)
From S2P Require Import Prelude GoRuntime.
From Stdlib Require Import Ascii.

Abbreviation bytes := (list ascii).
Abbreviation toBytes := String.list_ascii_of_string.
Abbreviation ofBytes := String.string_of_list_ascii.

Definition isDigit (c : ascii) : bool := (48 <=? Z.of_nat (nat_of_ascii c)) && (Z.of_nat (nat_of_ascii c) <=? 57).
Definition digitVal (c : ascii) : Z := Z.of_nat (nat_of_ascii c) - 48.
Definition digitChar (d : Z) : ascii := ascii_of_nat (Z.to_nat (48 + d)).

(** ** [strconv.Itoa] (and [%d]) and [strconv.Atoi] *)

(** The decimal digits of a non-negative number, by repeated division. *)
Fixpoint digits (fuel : nat) (n : Z) (acc : bytes) : bytes :=
  match fuel with
  | O => acc
  | S fuel =>
      let acc := digitChar (n mod 10) :: acc in
      if n / 10 =? 0 then acc else digits fuel (n / 10) acc
  end.

Definition utoa (n : Z) : bytes := digits (S (Z.to_nat (Z.log2 n))) n [].

Definition itoa (n : Z) : bytes := if n <? 0 then "-"%char :: utoa (- n) else utoa n.

Fixpoint parseDigits (s : bytes) (acc : Z) : option Z :=
  match s with
  | [] => Some acc
  | c :: s => if isDigit c then parseDigits s (acc * 10 + digitVal c) else None
  end.

(** An optional sign, then at least one digit, within the range of [int]. *)
Definition Atoi (s : bytes) : option Z :=
  let '(neg, s) :=
    match s with
    | c :: s' => if decide (c = "-"%char) then (true, s') else if decide (c = "+"%char) then (false, s') else (false, s)
    | [] => (false, s)
    end in
  match s with
  | [] => None
  | _ =>
      match parseDigits s 0 with
      | Some n =>
          let n := if (neg : bool) then - n else n in
          if (- 2 ^ 63 <=? n) && (n <? 2 ^ 63) then Some n else None
      | None => None
      end
  end.

(** ** [net.SplitHostPort] and [net.JoinHostPort] *)

(** [strings.Contains] for one byte. *)
Definition contains (c : ascii) (s : bytes) : bool := existsb (fun x => bool_decide (x = c)) s.

(** The text before and after the first occurrence of a byte. *)
Fixpoint cutFirst (c : ascii) (s : bytes) : option (bytes * bytes) :=
  match s with
  | [] => None
  | x :: s =>
      if decide (x = c) then Some ([], s)
      else match cutFirst c s with Some (a, b) => Some (x :: a, b) | None => None end
  end.

(** The text before and after the last occurrence of a byte. *)
Fixpoint cutLast (c : ascii) (s : bytes) : option (bytes * bytes) :=
  match s with
  | [] => None
  | x :: s =>
      match cutLast c s with
      | Some (a, b) => Some (x :: a, b)
      | None => if decide (x = c) then Some ([], s) else None
      end
  end.

(** [net.SplitHostPort]; [None] is its error, whose text the program drops. In
    the bracketed form the first [']'] must be just before the last [':']. *)
Definition SplitHostPort (s : bytes) : option (bytes * bytes) :=
  match cutLast ":"%char s with
  | None => None
  | Some (before, port) =>
      let plain :=
        if contains ":"%char before then None
        else if contains "["%char s || contains "]"%char s then None
        else Some (before, port) in
      match before with
      | c :: inner =>
          if decide (c = "["%char) then
            match cutFirst "]"%char inner with
            | Some (host, []) =>
                if contains "["%char host || contains "["%char port || contains "]"%char port then None
                else Some (host, port)
            | _ => None
            end
          else plain
      | [] => plain
      end
  end.

Definition JoinHostPort (host port : bytes) : bytes :=
  if contains ":"%char host then "["%char :: host ++ "]"%char :: ":"%char :: port
  else host ++ ":"%char :: port.

(** ** [netip.Addr] *)

(** An IPv4 address of 4 bytes, or an IPv6 address of 16 with its zone. *)
Inductive ipAddr : Type :=
| IPv4 (b : list Z)
| IPv6 (b : list Z) (zone : bytes).

Definition Is4 (a : ipAddr) : bool := match a with IPv4 _ => true | IPv6 _ _ => false end.
Definition Is6 (a : ipAddr) : bool := match a with IPv4 _ => false | IPv6 _ _ => true end.
Definition AsSlice (a : ipAddr) : list Z := match a with IPv4 b => b | IPv6 b _ => b end.

Definition v4InV6Prefix : list Z := [0; 0; 0; 0; 0; 0; 0; 0; 0; 0; 255; 255].

Definition Unmap (a : ipAddr) : ipAddr :=
  match a with
  | IPv6 b _ => if decide (take 12 b = v4InV6Prefix) then IPv4 (drop 12 b) else a
  | IPv4 _ => a
  end.

(** [parseIPv4Fields]: [val] and [digLen] describe the octet being read, [prevDot]
    whether the previous byte was a dot (or there was none). *)
Fixpoint parseIPv4Fields (s : bytes) (fields : list Z) (val : Z) (digLen : nat) (prevDot : bool) : option (list Z) :=
  match s with
  | [] => if Nat.eqb (length fields) 3 then Some (fields ++ [val]) else None
  | c :: rest =>
      if isDigit c then
        if Nat.eqb digLen 1 && (val =? 0) then None
        else
          let val := val * 10 + digitVal c in
          if 255 <? val then None else parseIPv4Fields rest fields val (S digLen) false
      else if decide (c = "."%char) then
        if prevDot || bool_decide (rest = []) then None
        else if Nat.eqb (length fields) 3 then None
        else parseIPv4Fields rest (fields ++ [val]) 0 0 true
      else None
  end.

Definition parseIPv4 (s : bytes) : option (list Z) := parseIPv4Fields s [] 0 0 true.

Definition hexVal (c : ascii) : option Z :=
  let n := Z.of_nat (nat_of_ascii c) in
  if (48 <=? n) && (n <=? 57) then Some (n - 48)
  else if (97 <=? n) && (n <=? 102) then Some (n - 87)
  else if (65 <=? n) && (n <=? 70) then Some (n - 55)
  else None.

(** The leading hex digits of a group, at most four: their value, their number
    and the rest of the text; [None] when there are more than four. *)
Fixpoint hexGroup (s : bytes) (acc : Z) (off : nat) : option (Z * nat * bytes) :=
  match s with
  | [] => Some (acc, off, s)
  | c :: rest =>
      match hexVal c with
      | Some d => if Nat.ltb 3 off then None else hexGroup rest (acc * 16 + d) (S off)
      | None => Some (acc, off, s)
      end
  end.

(** The loop of [parseIPv6]: the bytes read so far, the position of the
    ellipsis, the text left. The answer is the bytes, the ellipsis and the
    unread text. *)
Fixpoint parseGroups (fuel : nat) (ip : list Z) (ellipsis : option nat) (s : bytes) :
    option (list Z * option nat * bytes) :=
  match fuel with
  | O => Some (ip, ellipsis, s)
  | S fuel =>
      match hexGroup s 0 0 with
      | None | Some (_, O, _) => None
      | Some (acc, _, rest) =>
          let ip' := ip ++ [acc / 256; acc mod 256] in
          match rest with
          | [] => Some (ip', ellipsis, [])
          | c :: more =>
              if decide (c = "."%char) then
                if (bool_decide (ellipsis = None) && negb (Nat.eqb (length ip) 12)) || Nat.ltb 16 (length ip + 4) then None
                else match parseIPv4 s with Some b => Some (ip ++ b, ellipsis, []) | None => None end
              else if decide (c = ":"%char) then
                match more with
                | [] => None
                | c' :: more' =>
                    if decide (c' = ":"%char) then
                      if decide (ellipsis = None) then
                        match more' with
                        | [] => Some (ip', Some (length ip'), [])
                        | _ => parseGroups fuel ip' (Some (length ip')) more'
                        end
                      else None
                    else parseGroups fuel ip' ellipsis more
                end
              else None
          end
      end
  end.

Definition parseIPv6 (s : bytes) : option ipAddr :=
  match (match cutFirst "%"%char s with
         | Some (_, []) => None
         | Some (s, zone) => Some (s, zone)
         | None => Some (s, [])
         end) with
  | None => None
  | Some (s, zone) =>
      let '(ellipsis, s) :=
        match s with
        | c :: c' :: more =>
            if decide (c = ":"%char /\ c' = ":"%char) then (Some 0%nat, more) else (None, s)
        | _ => (None, s)
        end in
      match ellipsis, s with
      | Some _, [] => Some (IPv6 (repeat 0 16) zone)
      | _, _ =>
          match parseGroups 8 [] ellipsis s with
          | Some (ip, ellipsis, []) =>
              if Nat.ltb (length ip) 16 then
                match ellipsis with
                | None => None
                | Some e => Some (IPv6 (take e ip ++ repeat 0 (16 - length ip) ++ drop e ip) zone)
                end
              else match ellipsis with None => Some (IPv6 ip zone) | Some _ => None end
          | _ => None
          end
      end
  end.

(** [netip.ParseAddr]: the first of ['.'], [':'] and ['%'] decides. *)
Fixpoint addrKind (s : bytes) : option ascii :=
  match s with
  | [] => None
  | c :: s => if decide (c = "."%char \/ c = ":"%char \/ c = "%"%char) then Some c else addrKind s
  end.

Definition ParseAddr (s : bytes) : option ipAddr :=
  match addrKind s with
  | Some c =>
      if decide (c = "."%char) then IPv4 <$> parseIPv4 s
      else if decide (c = ":"%char) then parseIPv6 s
      else None
  | None => None
  end.

(** ** [netip.Addr.String] *)

Definition hexChar (d : Z) : ascii := ascii_of_nat (Z.to_nat (if d <? 10 then 48 + d else 87 + d)).

(** A group in lower-case hex without leading zeros. *)
Definition hexString (g : Z) : bytes :=
  (if 4096 <=? g then [hexChar (g / 4096)] else []) ++
  (if 256 <=? g then [hexChar (g / 256 mod 16)] else []) ++
  (if 16 <=? g then [hexChar (g / 16 mod 16)] else []) ++
  [hexChar (g mod 16)].

Fixpoint join (sep : bytes) (l : list bytes) : bytes :=
  match l with
  | [] => []
  | [s] => s
  | s :: l => s ++ sep ++ join sep l
  end.

Definition string4 (b : list Z) : bytes := join ["."%char] (map itoa b).

Fixpoint groups (b : list Z) : list Z :=
  match b with
  | hi :: lo :: b => (hi * 256 + lo) :: groups b
  | _ => []
  end.

(** The zeros a list of groups starts with. *)
Fixpoint zeroRun (g : list Z) : nat :=
  match g with
  | x :: g => if x =? 0 then S (zeroRun g) else O
  | [] => O
  end.

(** The first longest run of at least two zero groups: its start and length. *)
Fixpoint longestRun (i : nat) (g : list Z) (best : nat * nat) : nat * nat :=
  match g with
  | [] => best
  | _ :: rest =>
      let l := zeroRun g in
      longestRun (S i) rest (if Nat.leb 2 l && Nat.ltb (snd best) l then (i, l) else best)
  end.

Definition string6 (b : list Z) : bytes :=
  let g := groups b in
  let '(start, len) := longestRun 0 g (0%nat, 0%nat) in
  if Nat.eqb len 0 then join [":"%char] (map hexString g)
  else join [":"%char] (map hexString (take start g)) ++ [":"%char; ":"%char] ++
       join [":"%char] (map hexString (drop (start + len) g)).

(** An address in IPv4-mapped form is printed by [String] with a dotted quad;
    the program only prints unmapped ones. *)
Definition addrString (a : ipAddr) : bytes :=
  match a with
  | IPv4 b => string4 b
  | IPv6 b zone => string6 b ++ match zone with [] => [] | _ => "%"%char :: zone end
  end.

(** [net.IP.String] of a 4- or 16-byte slice. *)
Definition ipString (b : list Z) : bytes :=
  if Nat.eqb (length b) 4 then string4 b
  else if decide (take 12 b = v4InV6Prefix) then string4 (drop 12 b)
  else string6 b.

(** [net.IP.Equal]: an IPv4 address equals its IPv4-mapped form. *)
Definition ipEqual (x y : list Z) : bool :=
  if Nat.eqb (length x) (length y) then bool_decide (x = y)
  else if Nat.eqb (length x) 4 && Nat.eqb (length y) 16 then
    bool_decide (take 12 y = v4InV6Prefix) && bool_decide (x = drop 12 y)
  else if Nat.eqb (length x) 16 && Nat.eqb (length y) 4 then
    bool_decide (take 12 x = v4InV6Prefix) && bool_decide (drop 12 x = y)
  else false.
