(* ===== verification/NetIPProps.v ===== *)
(** * Facts about decimal numbers, host:port strings and IPv4 literals *)
From S2P Require Import Prelude GoRuntime NetIP.
From Stdlib Require Import Ascii.

(** ** Decimal numbers *)

Lemma digitChar_spec d : 0 <= d < 10 -> isDigit (digitChar d) = true /\ digitVal (digitChar d) = d.
Proof.
  intros Hd. unfold isDigit, digitVal, digitChar. rewrite nat_ascii_embedding by lia.
  rewrite Z2Nat.id by lia. split; [|lia]. apply andb_true_iff. split; apply Z.leb_le; lia.
Qed.

Lemma parse_digits fuel n acc :
  0 <= n < 10 ^ Z.of_nat fuel -> (0 < fuel)%nat -> parseDigits (digits fuel n acc) 0 = parseDigits acc n.
Proof.
  revert n acc. induction fuel as [|fuel IH]; intros n acc Hn Hf; [lia|]. cbn [digits].
  pose proof (Z.div_mod n 10 ltac:(lia)) as E. pose proof (Z.mod_pos_bound n 10 ltac:(lia)) as Hm.
  destruct (digitChar_spec (n mod 10) Hm) as [H1 H2].
  destruct (Z.eqb_spec (n / 10) 0) as [Hz|Hz].
  - cbn [parseDigits]. rewrite H1, H2. f_equal. lia.
  - rewrite Nat2Z.inj_succ, Z.pow_succ_r in Hn by lia. assert (n / 10 < 10 ^ Z.of_nat fuel) by (apply Z.div_lt_upper_bound; lia).
    assert (0 <= n / 10) by (apply Z.div_pos; lia).
    destruct fuel as [|fuel]; [cbn in *; lia|]. rewrite IH by lia.
    cbn [parseDigits]. rewrite H1, H2. f_equal. lia.
Qed.

Lemma utoa_fuel n : 0 <= n -> n < 10 ^ Z.of_nat (S (Z.to_nat (Z.log2 n))).
Proof.
  intros Hn. pose proof (Z.log2_nonneg n). rewrite Nat2Z.inj_succ, Z2Nat.id by lia.
  destruct (Z.eq_dec n 0) as [->|Hz]; [done|].
  pose proof (Z.log2_spec n ltac:(lia)) as [_ H2].
  pose proof (Z.pow_le_mono_l 2 10 (Z.succ (Z.log2 n)) ltac:(lia)). lia.
Qed.

Lemma parse_utoa n : 0 <= n -> parseDigits (utoa n) 0 = Some n.
Proof. intros Hn. unfold utoa. rewrite parse_digits; [done| |lia]. split; [lia|by apply utoa_fuel]. Qed.

Lemma utoa_inj n m : 0 <= n -> 0 <= m -> utoa n = utoa m -> n = m.
Proof. intros Hn Hm E. pose proof (parse_utoa n Hn) as H1. rewrite E, parse_utoa in H1 by done. congruence. Qed.

Lemma itoa_utoa n : 0 <= n -> itoa n = utoa n.
Proof. intros Hn. unfold itoa. destruct (Z.ltb_spec n 0); [lia|done]. Qed.

Lemma digits_isDigit fuel n acc :
  0 <= n -> Forall (fun c => isDigit c = true) acc -> Forall (fun c => isDigit c = true) (digits fuel n acc).
Proof.
  revert n acc. induction fuel as [|fuel IH]; intros n acc Hn Ha; [done|]. cbn.
  pose proof (Z.mod_pos_bound n 10 ltac:(lia)) as Hm. destruct (digitChar_spec _ Hm) as [H1 _].
  destruct (n / 10 =? 0); [by constructor|]. apply IH; [apply Z.div_pos; lia|by constructor].
Qed.

Lemma utoa_isDigit n : 0 <= n -> Forall (fun c => isDigit c = true) (utoa n).
Proof. intros Hn. by apply digits_isDigit. Qed.

Lemma digits_app fuel n acc : digits fuel n acc = digits fuel n [] ++ acc.
Proof.
  revert n acc. induction fuel as [|fuel IH]; intros n acc; [done|]. cbn.
  destruct (n / 10 =? 0); [done|]. rewrite IH, (IH _ [_]), <- app_assoc. done.
Qed.

(** The first digit is a zero only for zero itself. *)
Lemma digits_head fuel n :
  0 <= n -> (0 < fuel)%nat -> exists d rest, digits fuel n [] = digitChar d :: rest /\ 0 <= d < 10 /\
    (n < 10 ^ Z.of_nat fuel -> d = 0 -> rest = []).
Proof.
  revert n. induction fuel as [|fuel IH]; intros n Hn Hf; [lia|]. cbn [digits].
  pose proof (Z.div_mod n 10 ltac:(lia)) as E. pose proof (Z.mod_pos_bound n 10 ltac:(lia)) as Hm.
  destruct (Z.eqb_spec (n / 10) 0) as [Hz|Hz].
  - exists (n mod 10), []. done.
  - destruct fuel as [|fuel].
    { exists (n mod 10), []. cbn. done. }
    assert (0 <= n / 10) as Hp by (apply Z.div_pos; lia).
    destruct (IH (n / 10) Hp ltac:(lia)) as (d & rest & Ed & Hd & Hr). rewrite digits_app, Ed.
    exists d, (rest ++ [digitChar (n mod 10)]). split; [done|]. split; [done|]. intros Hlt Hd0.
    rewrite Nat2Z.inj_succ, Z.pow_succ_r in Hlt by lia.
    assert (n / 10 < 10 ^ Z.of_nat (S fuel)) as Hlt' by (apply Z.div_lt_upper_bound; lia).
    exfalso. apply Hz. pose proof (parse_digits (S fuel) (n / 10) [] ltac:(lia) ltac:(lia)) as Hp'.
    rewrite Ed, (Hr Hlt' Hd0), Hd0 in Hp'. cbn in Hp'. by injection Hp'.
Qed.

Lemma utoa_nonempty n : 0 <= n -> utoa n <> [].
Proof.
  intros Hn E. destruct (digits_head (S (Z.to_nat (Z.log2 n))) n Hn ltac:(lia)) as (d & rest & Ed & _).
  unfold utoa in E. congruence.
Qed.

Lemma digit_not (c : ascii) x : isDigit x = true -> isDigit c = false -> x <> c.
Proof. congruence. Qed.

(** A byte that is not a digit does not occur in a number. *)
Lemma utoa_free c n : 0 <= n -> isDigit c = false -> c ∉ utoa n.
Proof.
  intros Hn Hc Hin. pose proof (utoa_isDigit n Hn) as Ha. rewrite Forall_forall in Ha.
  apply Ha in Hin. congruence.
Qed.

Lemma Atoi_utoa n : 0 <= n < 2 ^ 63 -> Atoi (utoa n) = Some n.
Proof.
  intros Hn. unfold Atoi. destruct (utoa n) as [|c s] eqn:E; [by apply utoa_nonempty in E; [|lia]|].
  assert (isDigit c = true) as Hc by (pose proof (utoa_isDigit n ltac:(lia)) as Ha; rewrite E in Ha; by inversion Ha).
  rewrite decide_False by (by apply (digit_not _ c)). rewrite decide_False by (by apply (digit_not _ c)).
  rewrite <- E, parse_utoa by lia. rewrite (proj2 (andb_true_iff _ _)); [done|].
  split; [apply Z.leb_le|apply Z.ltb_lt]; lia.
Qed.

(** ** Searching for a byte *)

Lemma contains_spec c s : contains c s = true <-> c ∈ s.
Proof.
  unfold contains. rewrite existsb_exists. split.
  - intros (x & Hx & ->%bool_decide_eq_true). by apply list_elem_of_In.
  - intros Hin. exists c. split; [by apply list_elem_of_In|by apply bool_decide_eq_true].
Qed.

Lemma contains_false c s : contains c s = false <-> c ∉ s.
Proof. rewrite <- contains_spec. by destruct (contains c s). Qed.

Lemma cutLast_free c s : c ∉ s -> cutLast c s = None.
Proof.
  induction s as [|x s IH]; [done|]. intros [H1 H2]%not_elem_of_cons. cbn. rewrite IH by done.
  by rewrite decide_False.
Qed.

Lemma cutLast_app c a b : c ∉ b -> cutLast c (a ++ c :: b) = Some (a, b).
Proof.
  intros Hb. induction a as [|x a IH]; cbn.
  - by rewrite cutLast_free, decide_True.
  - by rewrite IH.
Qed.

Lemma cutFirst_app c a b : c ∉ a -> cutFirst c (a ++ c :: b) = Some (a, b).
Proof.
  induction a as [|x a IH]; cbn; intros Ha; [by rewrite decide_True|].
  apply not_elem_of_cons in Ha as [H1 H2]. rewrite decide_False by done. by rewrite IH.
Qed.

Lemma cutFirst_free c s : c ∉ s -> cutFirst c s = None.
Proof.
  induction s as [|x s IH]; [done|]. intros [H1 H2]%not_elem_of_cons. cbn. rewrite decide_False by done. by rewrite IH.
Qed.

Lemma SplitHostPort_plain host port :
  ":"%char ∉ host -> "["%char ∉ host -> "]"%char ∉ host ->
  ":"%char ∉ port -> "["%char ∉ port -> "]"%char ∉ port ->
  SplitHostPort (host ++ ":"%char :: port) = Some (host, port).
Proof.
  intros H1 H2 H3 H4 H5 H6. unfold SplitHostPort. rewrite cutLast_app by done.
  assert (forall c, c <> ":"%char -> c ∉ host -> c ∉ port -> contains c (host ++ ":"%char :: port) = false) as Hfree.
  { intros c Hc Hh Hp. apply contains_false. rewrite elem_of_app, elem_of_cons. intros [?|[?|?]]; done. }
  assert ((if contains ":"%char host then None
    else if contains "["%char (host ++ ":"%char :: port) || contains "]"%char (host ++ ":"%char :: port) then None
    else Some (host, port)) = Some (host, port)) as Helse.
  { rewrite (proj2 (contains_false _ host) H1), !Hfree by done. done. }
  destruct host as [|c host]; [exact Helse|].
  apply not_elem_of_cons in H2 as [H2 _].
  rewrite decide_False by done. exact Helse.
Qed.

(** ** IPv4 literals *)

(** What is not a digit or a dot ends an IPv4 literal. *)
Lemma parseIPv4Fields_bad c s fields val dl pd :
  c ∈ s -> isDigit c = false -> c <> "."%char -> parseIPv4Fields s fields val dl pd = None.
Proof.
  intros Hin Hd Hdot. revert fields val dl pd. induction s as [|x s IH]; intros fields val dl pd; [by apply elem_of_nil in Hin|].
  apply elem_of_cons in Hin as [<-|Hin]; cbn.
  - rewrite Hd. by rewrite decide_False.
  - destruct (isDigit x).
    + destruct (_ && _); [done|]. destruct (255 <? _); [done|]. by apply IH.
    + destruct (decide _); [|done]. destruct (_ || _); [done|]. destruct (Nat.eqb _ 3); [done|]. by apply IH.
Qed.

(** Reading one octet. *)
Lemma parseIPv4Fields_digits ds rest fields val dl pd n :
  Forall (fun c => isDigit c = true) ds -> parseDigits ds val = Some n -> 0 <= val -> n <= 255 ->
  (dl = 1%nat -> val = 0 -> ds = []) ->
  (match ds with c :: (_ :: _) => dl = 0%nat -> digitVal c <> 0 | _ => True end) ->
  (ds <> [] \/ pd = false) ->
  exists dl', parseIPv4Fields (ds ++ rest) fields val dl pd = parseIPv4Fields rest fields n dl' false.
Proof.
  intros Hall. revert val dl pd. induction Hall as [|c ds Hc Hall IH]; intros val dl pd Hp Hv Hn Hz Hlead Hpd.
  - injection Hp as ->. destruct Hpd as [Hpd| ->]; [done|]. by exists dl.
  - cbn in Hp. rewrite Hc in Hp. cbn [app parseIPv4Fields]. rewrite Hc.
    assert (Nat.eqb dl 1 && (val =? 0) = false) as ->.
    { destruct (Nat.eqb_spec dl 1) as [->|]; [|done]. destruct (Z.eqb_spec val 0) as [->|]; [|done]. by discriminate Hz. }
    assert (0 <= digitVal c <= 9) as Hdv.
    { unfold isDigit in Hc. unfold digitVal. zbool. lia. }
    assert (forall l a m, Forall (fun c => isDigit c = true) l -> parseDigits l a = Some m -> 0 <= a -> a <= m) as Hmono.
    { induction l as [|x l IHl]; intros a m Hl Hpm Ha; [injection Hpm as ->; lia|]. inversion Hl as [|? ? Hx Hl']; subst.
      cbn in Hpm. rewrite Hx in Hpm. assert (0 <= digitVal x) by (unfold isDigit in Hx; unfold digitVal; zbool; lia).
      apply IHl in Hpm; [lia|done|lia]. }
    assert (val * 10 + digitVal c <= n) as Hle by (apply (Hmono ds); [done|done|lia]).
    destruct (Z.ltb_spec 255 (val * 10 + digitVal c)); [lia|].
    destruct (IH (val * 10 + digitVal c) (S dl) false) as (dl' & ->); [done|lia|done| | |by right|by exists dl'].
    + intros Hdl Hval. destruct ds as [|c' ds]; [done|]. injection Hdl as ->. exfalso. apply (Hlead eq_refl). lia.
    + destruct ds as [|c' [|c'' ds]]; done.
Qed.

Lemma utoa_lead n : 0 <= n -> match utoa n with c :: (_ :: _) => digitVal c <> 0 | _ => True end.
Proof.
  intros Hn. destruct (digits_head (S (Z.to_nat (Z.log2 n))) n Hn ltac:(lia)) as (d & rest & Ed & Hd & Hr).
  unfold utoa. rewrite Ed. destruct rest as [|c rest]; [done|].
  rewrite (proj2 (digitChar_spec d Hd)). intros ->. by discriminate (Hr (utoa_fuel n Hn) eq_refl).
Qed.

Lemma parseIPv4Fields_octet n rest fields :
  0 <= n < 256 ->
  exists dl', parseIPv4Fields (utoa n ++ rest) fields 0 0 true = parseIPv4Fields rest fields n dl' false.
Proof.
  intros Hn. apply parseIPv4Fields_digits; try done.
  - apply utoa_isDigit. lia.
  - apply parse_utoa. lia.
  - lia.
  - pose proof (utoa_lead n ltac:(lia)) as Hl. by destruct (utoa n) as [|c [|c' s]].
  - left. apply utoa_nonempty. lia.
Qed.

Lemma string4_eq a b c d :
  0 <= a -> 0 <= b -> 0 <= c -> 0 <= d ->
  string4 [a; b; c; d] = utoa a ++ "."%char :: utoa b ++ "."%char :: utoa c ++ "."%char :: utoa d.
Proof. intros. unfold string4. cbn [map join]. by rewrite !itoa_utoa. Qed.

Lemma addrKind_app ds c rest :
  Forall (fun c => isDigit c = true) ds -> c = "."%char \/ c = ":"%char \/ c = "%"%char ->
  addrKind (ds ++ c :: rest) = Some c.
Proof.
  intros Hall Hc. induction Hall as [|x ds Hx Hall IH]; cbn; [by rewrite decide_True|].
  rewrite decide_False; [done|]. intros [->|[->| ->]]; done.
Qed.

(** Parsing inverts printing on IPv4 addresses. *)
Lemma ParseAddr_string4 a b c d :
  0 <= a < 256 -> 0 <= b < 256 -> 0 <= c < 256 -> 0 <= d < 256 ->
  ParseAddr (string4 [a; b; c; d]) = Some (IPv4 [a; b; c; d]).
Proof.
  intros Ha Hb Hc Hd. rewrite string4_eq by lia. unfold ParseAddr.
  rewrite addrKind_app; [|apply utoa_isDigit; lia|by left].
  unfold parseIPv4.
  destruct (parseIPv4Fields_octet a ("."%char :: utoa b ++ "."%char :: utoa c ++ "."%char :: utoa d) [] Ha) as (? & ->).
  cbn [parseIPv4Fields].
  assert (forall n l, 0 <= n -> utoa n ++ l <> []) as Hne.
  { intros n l Hn [E _]%app_eq_nil. by apply utoa_nonempty in E. }
  change (isDigit "."%char) with false. cbn [andb]. rewrite decide_True by done.
  rewrite (bool_decide_eq_false_2 (utoa b ++ _ = [])) by (apply Hne; lia). cbn [orb length Nat.eqb app].
  destruct (parseIPv4Fields_octet b ("."%char :: utoa c ++ "."%char :: utoa d) [a] Hb) as (? & ->).
  cbn [parseIPv4Fields]. change (isDigit "."%char) with false. cbn iota. rewrite decide_True by done.
  rewrite (bool_decide_eq_false_2 (utoa c ++ _ = [])) by (apply Hne; lia). cbn [orb length Nat.eqb app].
  destruct (parseIPv4Fields_octet c ("."%char :: utoa d) [a; b] Hc) as (? & ->).
  cbn [parseIPv4Fields]. change (isDigit "."%char) with false. cbn iota. rewrite decide_True by done.
  rewrite (bool_decide_eq_false_2 (utoa d = [])) by (apply utoa_nonempty; lia). cbn [orb length Nat.eqb app].
  destruct (parseIPv4Fields_octet d [] [a; b; c] Hd) as (? & E). rewrite app_nil_r in E. rewrite E. done.
Qed.

(** ** A host with a port is not a literal *)

Lemma hexGroup_suffix s acc off a o rest :
  hexGroup s acc off = Some (a, o, rest) -> exists pre, s = pre ++ rest /\ Forall (fun c => hexVal c <> None) pre.
Proof.
  revert acc off. induction s as [|c s IH]; intros acc off; cbn -[Nat.ltb]; [intros [= <- <- <-]; by exists []|].
  destruct (hexVal c) as [d|] eqn:E; [|intros [= <- <- <-]; by exists []].
  destruct (Nat.ltb 3 off); [done|]. intros (pre & -> & Hp)%IH. exists (c :: pre). split; [done|].
  constructor; [congruence|done].
Qed.

Lemma hexGroup_not_in c s acc off a o rest : c ∉ s -> hexGroup s acc off = Some (a, o, rest) -> c ∉ rest.
Proof. intros Hc (pre & -> & _)%hexGroup_suffix Hin. apply Hc, elem_of_app. by right. Qed.

(** Without a second colon, or an ellipsis, two groups are the most there are. *)
Lemma parseGroups_no_colon fuel ip s r :
  ":"%char ∉ s -> (length ip <= 8)%nat -> parseGroups fuel ip None s = Some r ->
  r = (ip, None, s) \/ exists ip', r = (ip', None, []) /\ (length ip' <= length ip + 2)%nat.
Proof.
  intros Hc Hlen. destruct fuel as [|fuel]; cbn; [intros [= <-]; by left|].
  destruct (hexGroup s 0 0) as [[[acc [|off]] rest]|] eqn:E; try done.
  pose proof (hexGroup_not_in _ _ _ _ _ _ _ Hc E) as Hr. destruct rest as [|c more].
  { intros [= <-]. right. eexists. split; [done|]. rewrite length_app. cbn. lia. }
  destruct (decide (c = "."%char)).
  { destruct (Nat.eqb_spec (length ip) 12); [lia|]. done. }
  apply not_elem_of_cons in Hr as [Hne _]. by rewrite decide_False.
Qed.

Lemma parseGroups_one_colon k h p :
  ":"%char ∉ h -> ":"%char ∉ p ->
  match parseGroups (S k) [] None (h ++ ":"%char :: p) with
  | Some (ip, None, []) => (length ip < 16)%nat
  | Some (_, Some _, _) => False
  | _ => True
  end.
Proof.
  intros Hh Hp. cbn [parseGroups].
  destruct (hexGroup (h ++ ":"%char :: p) 0 0) as [[[acc [|off]] rest]|] eqn:E; try done.
  destruct rest as [|c more]; [cbn; lia|]. destruct (decide (c = "."%char)); [done|].
  destruct (decide (c = ":"%char)) as [->|]; [|done].
  assert (more = p) as ->.
  { apply hexGroup_suffix in E as (pre & E & Hpre).
    assert (":"%char ∉ pre) as Hcol.
    { intros Hin. rewrite Forall_forall in Hpre. by apply Hpre in Hin. }
    pose proof (cutFirst_app ":"%char h p Hh) as C1. rewrite E, cutFirst_app in C1 by done. congruence. }
  destruct p as [|c p]; [done|]. apply not_elem_of_cons in Hp as [Hc Hp]. rewrite decide_False by done.
  match goal with |- context [parseGroups k ?ip None ?s] => destruct (parseGroups k ip None s) as [r|] eqn:E2 end; [|done].
  apply parseGroups_no_colon in E2; [|by apply not_elem_of_cons|cbn; lia].
  destruct E2 as [->|(ip' & -> & Hl)]; [done|]. cbn in Hl. lia.
Qed.

Lemma addrKind_free s c : addrKind s = Some c -> c = "."%char \/ c = ":"%char \/ c = "%"%char.
Proof. induction s as [|x s IH]; [done|]. cbn. destruct (decide _) as [Hx|]; [by intros [= <-]|done]. Qed.

Lemma addrKind_colon h p :
  ":"%char ∉ h -> addrKind (h ++ ":"%char :: p) = Some ":"%char -> "%"%char ∉ h.
Proof.
  induction h as [|x h IH]; [intros _ _; apply not_elem_of_nil|]. intros [Hx Hh]%not_elem_of_cons. cbn.
  destruct (decide _) as [Hk|Hk]; [intros [= ->]; done|]. intros Ha%IH; [|done].
  apply not_elem_of_cons. split; [|done]. intros <-. apply Hk. auto.
Qed.

Lemma ParseAddr_host_port h p :
  ":"%char ∉ h -> ":"%char ∉ p -> "%"%char ∉ p -> ParseAddr (h ++ ":"%char :: p) = None.
Proof.
  intros Hh Hp Hz. unfold ParseAddr. destruct (addrKind _) as [c|] eqn:Ek; [|done].
  destruct (decide (c = "."%char)) as [_|].
  { unfold parseIPv4. rewrite (parseIPv4Fields_bad ":"%char); [done| |done|done].
    apply elem_of_app. right. apply elem_of_cons. by left. }
  destruct (decide (c = ":"%char)) as [->|]; [|done].
  pose proof (addrKind_colon _ _ Hh Ek) as Hz'.
  unfold parseIPv6. rewrite cutFirst_free.
  2: { rewrite elem_of_app, elem_of_cons. intros [?|[?|?]]; done. }
  pose proof (parseGroups_one_colon 7 h p Hh Hp) as Hg.
  assert (match h ++ ":"%char :: p with
    | c :: c' :: more => if decide (c = ":"%char /\ c' = ":"%char) then (Some 0%nat, more) else (None, h ++ ":"%char :: p)
    | _ => (None, h ++ ":"%char :: p) end = (None, h ++ ":"%char :: p)) as ->.
  { destruct h as [|x h]; cbn.
    - destruct p as [|y p]; [done|]. apply not_elem_of_cons in Hp as [Hy _]. by rewrite decide_False by (intros [? ?]; congruence).
    - apply not_elem_of_cons in Hh as [Hx _]. destruct (h ++ _) as [|y l]; [done|]. by rewrite decide_False by (intros [? ?]; congruence). }
  cbn iota beta. destruct (parseGroups 8 [] None _) as [[[ip [e|]] s]|]; [done| |done].
  destruct s as [|? ?]; [|done]. by rewrite (proj2 (Nat.ltb_lt _ _)).
Qed.
