(* ===== verification/NetIP6.v ===== *)
(** * Parsing inverts printing on IPv6 addresses *)
From S2P Require Import Prelude GoRuntime NetIP NetIPProps.
From Stdlib Require Import Ascii.

Definition is_group (g : Z) : Prop := 0 <= g < 65536.

(** ** One group *)

Lemma hexChar_spec d : 0 <= d < 16 -> hexVal (hexChar d) = Some d.
Proof.
  intros Hd. unfold hexVal, hexChar. destruct (Z.ltb_spec d 10).
  - rewrite nat_ascii_embedding by lia. rewrite Z2Nat.id by lia.
    rewrite (proj2 (andb_true_iff _ _)) by (split; apply Z.leb_le; lia). f_equal. lia.
  - rewrite nat_ascii_embedding by lia. rewrite Z2Nat.id by lia.
    rewrite (proj2 (Z.leb_gt (87 + d) 57)), andb_false_r by lia.
    rewrite (proj2 (andb_true_iff _ _)) by (split; apply Z.leb_le; lia). f_equal. lia.
Qed.

(** A text that does not go on with a hex digit. *)
Definition stops (rest : bytes) : Prop := match rest with [] => True | c :: _ => hexVal c = None end.

Lemma hexGroup_stop rest a o : stops rest -> hexGroup rest a o = Some (a, o, rest).
Proof. destruct rest as [|c rest]; [done|]. cbn -[Nat.ltb]. by intros ->. Qed.

Lemma hexGroup_step d s a o :
  0 <= d < 16 -> (o <= 3)%nat -> hexGroup (hexChar d :: s) a o = hexGroup s (a * 16 + d) (S o).
Proof. intros Hd Ho. cbn -[Nat.ltb]. rewrite hexChar_spec by done. by rewrite (proj2 (Nat.ltb_ge _ _)). Qed.

Lemma hexGroup_hexString g rest :
  is_group g -> stops rest -> exists o, hexGroup (hexString g ++ rest) 0 0 = Some (g, S o, rest).
Proof.
  unfold is_group. intros Hg Hr. unfold hexString.
  pose proof (Z.mod_pos_bound g 16 ltac:(lia)). pose proof (Z.mod_pos_bound (g / 16) 16 ltac:(lia)).
  pose proof (Z.mod_pos_bound (g / 256) 16 ltac:(lia)).
  pose proof (Z.div_mod g 16 ltac:(lia)). pose proof (Z.div_mod (g / 16) 16 ltac:(lia)) as E16.
  pose proof (Z.div_mod (g / 256) 16 ltac:(lia)) as E256.
  rewrite Z.div_div in E16 by lia. rewrite Z.div_div in E256 by lia. change (16 * 16) with 256 in E16.
  change (256 * 16) with 4096 in E256.
  assert (0 <= g / 4096 < 16) by (split; [apply Z.div_pos; lia|apply Z.div_lt_upper_bound; lia]).
  destruct (Z.leb_spec 4096 g) as [L4|L4]; destruct (Z.leb_spec 256 g) as [L3|L3];
    destruct (Z.leb_spec 16 g) as [L2|L2]; try lia; cbn [app];
    rewrite !hexGroup_step by lia; rewrite hexGroup_stop by done; eexists; do 3 f_equal.
  - lia.
  - assert (g / 4096 = 0) by (apply Z.div_small; lia). lia.
  - assert (g / 256 = 0) by (apply Z.div_small; lia). lia.
  - assert (g / 16 = 0) by (apply Z.div_small; lia). lia.
Qed.

Lemma hexString_head g : is_group g -> exists c s, hexString g = c :: s /\ hexVal c <> None.
Proof.
  intros Hg. destruct (hexGroup_hexString g [] Hg I) as (o & E). rewrite app_nil_r in E.
  destruct (hexString g) as [|c s]; [done|]. exists c, s. split; [done|]. intros Hc. cbn in E. rewrite Hc in E. done.
Qed.

Lemma hexVal_none c : c = ":"%char \/ c = "."%char \/ c = "%"%char -> hexVal c = None.
Proof. by intros [->|[->| ->]]. Qed.

Lemma hexString_free g c : is_group g -> hexVal c = None -> c ∉ hexString g.
Proof.
  intros Hg Hc. destruct (hexGroup_hexString g [] Hg I) as (o & E).
  apply hexGroup_suffix in E as (pre & E & Hp). rewrite app_nil_r in *. rewrite E, app_nil_r.
  intros Hin. rewrite Forall_forall in Hp. by apply (Hp c).
Qed.

(** ** Lists of groups *)

Definition groupBytes (gs : list Z) : list Z := concat (map (fun g => [g / 256; g mod 256]) gs).
Definition groupText (gs : list Z) : bytes := join [":"%char] (map hexString gs).

Lemma groupText_cons g g' gs : groupText (g :: g' :: gs) = hexString g ++ ":"%char :: groupText (g' :: gs).
Proof. done. Qed.

Lemma groupBytes_length gs : length (groupBytes gs) = (2 * length gs)%nat.
Proof. induction gs as [|g gs IH]; [done|]. unfold groupBytes in *. cbn. lia. Qed.

Lemma groupText_head g gs tail : is_group g -> exists c s, groupText (g :: gs) ++ tail = c :: s /\ c <> ":"%char.
Proof.
  intros Hg. destruct (hexString_head g Hg) as (c & s & E & Hc).
  assert (exists s', groupText (g :: gs) ++ tail = c :: s') as [s' ->].
  { unfold groupText. cbn. destruct (map hexString gs); rewrite E; cbn; eauto. }
  exists c, s'. split; [done|]. intros ->. done.
Qed.

Lemma parseGroups_all fuel ip e gs :
  Forall is_group gs -> gs <> [] -> (length gs <= fuel)%nat ->
  parseGroups fuel ip e (groupText gs) = Some (ip ++ groupBytes gs, e, []).
Proof.
  revert ip gs. induction fuel as [|fuel IH]; intros ip gs Hall Hne Hlen; [destruct gs; [done|cbn in Hlen; lia]|].
  destruct Hall as [|g gs Hg Hall]; [done|]. cbn [parseGroups]. destruct gs as [|g' gs].
  - change (groupText [g]) with (hexString g).
    destruct (hexGroup_hexString g [] Hg I) as (o & E). rewrite app_nil_r in E. by rewrite E.
  - rewrite groupText_cons. destruct (hexGroup_hexString g (":"%char :: groupText (g' :: gs)) Hg eq_refl) as (o & ->).
    rewrite decide_False, decide_True by done.
    destruct (groupText_head g' gs [] ltac:(by inversion Hall)) as (c & s & E & Hc). rewrite app_nil_r in E.
    rewrite E, decide_False, <- E by done. rewrite IH by (try done; cbn in *; lia).
    by rewrite <- app_assoc.
Qed.

Lemma parseGroups_ellipsis fuel ip gs hs :
  Forall is_group gs -> Forall is_group hs -> gs <> [] -> (length gs + length hs <= fuel)%nat ->
  parseGroups fuel ip None (groupText gs ++ ":"%char :: ":"%char :: groupText hs) =
  Some (ip ++ groupBytes gs ++ groupBytes hs, Some (length ip + length (groupBytes gs))%nat, []).
Proof.
  intros Hgs Hhs. revert ip gs Hgs. induction fuel as [|fuel IH]; intros ip gs Hgs Hne Hlen; [destruct gs; [done|cbn in Hlen; lia]|].
  destruct Hgs as [|g gs Hg Hall]; [done|]. cbn [parseGroups]. destruct gs as [|g' gs].
  - change (groupText [g]) with (hexString g).
    destruct (hexGroup_hexString g (":"%char :: ":"%char :: groupText hs) Hg eq_refl) as (o & ->).
    rewrite decide_False, !decide_True by done. rewrite length_app. destruct hs as [|h hs].
    { cbn. done. }
    destruct (groupText_head h hs [] ltac:(by inversion Hhs)) as (c & s & E & Hc). rewrite app_nil_r in E.
    rewrite E, <- E. rewrite parseGroups_all by (try done; cbn in *; lia). cbn. by rewrite <- app_assoc.
  - rewrite groupText_cons, <- app_assoc. cbn [app].
    match goal with |- context [hexGroup (hexString g ++ ?r)] =>
      destruct (hexGroup_hexString g r Hg eq_refl) as (o & ->) end.
    rewrite decide_False, decide_True by done.
    destruct (groupText_head g' gs (":"%char :: ":"%char :: groupText hs) ltac:(by inversion Hall)) as (c & s & E & Hc).
    rewrite E, decide_False, <- E by done. rewrite IH by (try done; cbn in *; lia).
    rewrite length_app, <- app_assoc. cbn. do 3 f_equal. f_equal. lia.
Qed.

(** ** The run of zeros *)

Definition run_ok (g : list Z) (r : nat * nat) : Prop :=
  snd r = 0%nat \/ (2 <= snd r /\ fst r + snd r <= length g)%nat /\ take (snd r) (drop (fst r) g) = repeat 0 (snd r).

Lemma zeroRun_spec g : (zeroRun g <= length g)%nat /\ take (zeroRun g) g = repeat 0 (zeroRun g).
Proof.
  induction g as [|x g [IH1 IH2]]; [done|]. cbn. destruct (Z.eqb_spec x 0) as [->|]; cbn; [|split; [lia|done]].
  split; [lia|by f_equal].
Qed.

Lemma longestRun_spec pre g best : run_ok (pre ++ g) best -> run_ok (pre ++ g) (longestRun (length pre) g best).
Proof.
  revert pre best. induction g as [|x g IH]; intros pre best Hb; [done|]. cbn -[zeroRun Nat.leb Nat.ltb].
  replace (S (length pre)) with (length (pre ++ [x])) by (rewrite length_app; cbn; lia).
  replace (pre ++ x :: g) with ((pre ++ [x]) ++ g) by (by rewrite <- app_assoc). apply IH.
  destruct (Nat.leb_spec 2 (zeroRun (x :: g))); cbn [andb]; [|by rewrite <- app_assoc].
  destruct (Nat.ltb _ _); [|by rewrite <- app_assoc]. right. rewrite <- app_assoc. cbn [fst snd].
  destruct (zeroRun_spec (x :: g)) as [H1 H2]. cbn [app]. rewrite drop_app_length, length_app. split; [lia|done].
Qed.

Lemma groups_spec b :
  Forall is_byte b -> Nat.even (length b) = true ->
  groupBytes (groups b) = b /\ Forall is_group (groups b) /\ length b = (2 * length (groups b))%nat.
Proof.
  revert b. fix IH 1. intros [|hi [|lo b]] Hall Hev; [by split_and!; [|constructor|]|done|].
  inversion Hall as [|? ? Hhi Hall']; subst. inversion Hall' as [|? ? Hlo Hall'']; subst.
  destruct (IH b Hall'' Hev) as (H1 & H2 & H3). unfold is_byte in *. cbn. split_and!.
  - unfold groupBytes in *. cbn. rewrite H1. f_equal; [|f_equal].
    + rewrite Z.div_add_l by lia. rewrite Z.div_small by lia. lia.
    + rewrite Z.add_comm, Z_mod_plus_full. by apply Z.mod_small.
  - constructor; [|done]. unfold is_group. lia.
  - lia.
Qed.

Lemma groupBytes_app g h : groupBytes (g ++ h) = groupBytes g ++ groupBytes h.
Proof. unfold groupBytes. by rewrite map_app, concat_app. Qed.

Lemma groupBytes_zeros n : groupBytes (repeat 0 n) = repeat 0 (2 * n).
Proof. induction n as [|n IH]; [done|]. replace (2 * S n)%nat with (S (S (2 * n)))%nat by lia. cbn [repeat]. by rewrite <- IH. Qed.

(** ** The whole address *)

(** The two forms [string6] takes. *)
Lemma string6_forms b :
  length b = 16%nat -> Forall is_byte b ->
  exists gs, length gs = 8%nat /\ Forall is_group gs /\ groupBytes gs = b /\
  (string6 b = groupText gs \/
   exists l n r, gs = l ++ repeat 0 n ++ r /\ (2 <= n)%nat /\
     string6 b = groupText l ++ ":"%char :: ":"%char :: groupText r).
Proof.
  intros Hlen Hb. destruct (groups_spec b Hb ltac:(by rewrite Hlen)) as (H1 & H2 & H3).
  exists (groups b). split; [lia|]. split; [done|]. split; [done|]. unfold string6.
  assert (run_ok (groups b) (longestRun 0 (groups b) (0%nat, 0%nat))) as Hrun.
  { apply (longestRun_spec [] (groups b)). by left. }
  destruct (longestRun 0 (groups b) (0%nat, 0%nat)) as [start len]. unfold run_ok in Hrun. cbn in Hrun.
  destruct Hrun as [->|[[Hl Hs] Hz]]; [by left|]. right.
  destruct (Nat.eqb_spec len 0) as [->|_]; [lia|].
  exists (take start (groups b)), len, (drop (start + len) (groups b)). split; [|done].
  rewrite <- Hz, <- drop_drop, take_drop, take_drop. done.
Qed.

(** No address is printed with a dot or a zone mark, and each with a colon. *)
Lemma groupText_free gs c : Forall is_group gs -> hexVal c = None -> c <> ":"%char -> c ∉ groupText gs.
Proof.
  intros Hall Hc Hne. induction Hall as [|g gs Hg Hall IH]; [apply not_elem_of_nil|].
  destruct gs as [|g' gs]; [by apply hexString_free|]. rewrite groupText_cons.
  rewrite elem_of_app, elem_of_cons. intros [?|[?|?]]; [by eapply hexString_free|done|done].
Qed.

Lemma addrKind_colon_first s : "."%char ∉ s -> "%"%char ∉ s -> ":"%char ∈ s -> forall t, addrKind (s ++ t) = Some ":"%char.
Proof.
  intros H1 H2 H3 t. induction s as [|c s IH]; [by apply elem_of_nil in H3|].
  apply not_elem_of_cons in H1 as [H1 H1'], H2 as [H2 H2']. cbn. destruct (decide _) as [[?|[->|?]]|Hn]; try done.
  apply elem_of_cons in H3 as [H3|H3]; [|by apply IH]. exfalso. apply Hn. by right; left.
Qed.

Lemma string6_chars b :
  length b = 16%nat -> Forall is_byte b -> ("."%char ∉ string6 b) /\ ("%"%char ∉ string6 b) /\ ":"%char ∈ string6 b.
Proof.
  intros Hlen Hb. destruct (string6_forms b Hlen Hb) as (gs & Hl & Hg & _ & [->|(l & n & r & Hgs & Hn & ->)]).
  - split_and!; [by apply groupText_free..|]. destruct gs as [|g [|g' gs]]; try done. rewrite groupText_cons.
    apply elem_of_app. right. apply elem_of_cons. by left.
  - rewrite Hgs in Hg. apply Forall_app in Hg as [Hgl Hg]. apply Forall_app in Hg as [_ Hgr].
    split_and!.
    1,2: rewrite elem_of_app, !elem_of_cons; intros [?|[?|[?|?]]]; try done; (eapply groupText_free; [| | |eassumption]; done).
    apply elem_of_app. right. apply elem_of_cons. by left.
Qed.

Lemma parse_string6 b :
  length b = 16%nat -> Forall is_byte b ->
  let '(ellipsis, s) :=
    match string6 b with
    | c :: c' :: more => if decide (c = ":"%char /\ c' = ":"%char) then (Some 0%nat, more) else (None, string6 b)
    | _ => (None, string6 b)
    end in
  (ellipsis = Some 0%nat /\ s = [] /\ b = repeat 0 16) \/
  (~ (ellipsis <> None /\ s = []) /\
   ((ellipsis = None /\ parseGroups 8 [] ellipsis s = Some (b, None, [])) \/
    exists l n r, b = l ++ repeat 0 n ++ r /\ (2 <= n)%nat /\
      parseGroups 8 [] ellipsis s = Some (l ++ r, Some (length l), []))).
Proof.
  intros Hlen Hb. destruct (string6_forms b Hlen Hb) as (gs & Hl & Hg & Eb & [->|(l & n & r & Hgs & Hn & ->)]).
  - destruct gs as [|g gs]; [done|]. assert (is_group g) as Hgg by (by inversion Hg).
    destruct (groupText_head g gs [] Hgg) as (c & s & E & Hc). rewrite app_nil_r in E. rewrite E.
    assert (match s with c' :: more => if decide (c = ":"%char /\ c' = ":"%char) then (Some 0%nat, more) else (None, c :: s)
            | [] => (None, c :: s) end = (None, c :: s)) as ->.
    { destruct s; [done|]. by rewrite decide_False by (intros [? _]; congruence). }
    right. split; [by intros [? _]|]. left. split; [done|]. rewrite <- E.
    rewrite parseGroups_all by (try done; lia). by rewrite Eb.
  - subst gs. apply Forall_app in Hg as [Hgl Hg]. apply Forall_app in Hg as [_ Hgr].
    rewrite !groupBytes_app, groupBytes_zeros in Eb. rewrite !length_app, repeat_length in Hl. destruct l as [|g l].
    + cbn [groupText map join app]. rewrite decide_True by done. destruct r as [|h r].
      { left. split_and!; [done..|]. cbn in Eb. rewrite app_nil_r in Eb. rewrite <- Eb. f_equal. cbn in Hl. lia. }
      right. destruct (groupText_head h r [] ltac:(by inversion Hgr)) as (c & s & E & Hc). rewrite app_nil_r in E.
      split; [rewrite E; by intros [_ ?]|]. right. exists [], (2 * n)%nat, (groupBytes (h :: r)).
      split; [done|]. split; [lia|]. rewrite parseGroups_all by (try done; cbn in *; lia). done.
    + destruct (groupText_head g l (":"%char :: ":"%char :: groupText r) ltac:(by inversion Hgl)) as (c & s & E & Hc).
      rewrite E.
      assert (match s with c' :: more => if decide (c = ":"%char /\ c' = ":"%char) then (Some 0%nat, more) else (None, c :: s)
              | [] => (None, c :: s) end = (None, c :: s)) as ->.
      { destruct s; [done|]. by rewrite decide_False by (intros [? _]; congruence). }
      right. split; [by intros [? _]|]. right. exists (groupBytes (g :: l)), (2 * n)%nat, (groupBytes r).
      split; [done|]. split; [lia|]. rewrite <- E. rewrite parseGroups_ellipsis by (try done; cbn in *; lia). done.
Qed.

(** Parsing inverts printing, with and without a zone. *)
Lemma ParseAddr_string6 b zone :
  length b = 16%nat -> Forall is_byte b ->
  ParseAddr (string6 b ++ match zone with [] => [] | _ => "%"%char :: zone end) = Some (IPv6 b zone).
Proof.
  intros Hlen Hb. destruct (string6_chars b Hlen Hb) as (Hdot & Hpct & Hcol).
  unfold ParseAddr. rewrite (addrKind_colon_first _ Hdot Hpct Hcol). rewrite decide_False, decide_True by done.
  unfold parseIPv6.
  assert (match cutFirst "%"%char (string6 b ++ match zone with [] => [] | _ => "%"%char :: zone end) with
    | Some (_, []) => None | Some (s, zone0) => Some (s, zone0)
    | None => Some (string6 b ++ match zone with [] => [] | _ => "%"%char :: zone end, []) end
    = Some (string6 b, zone)) as ->.
  { destruct zone as [|z zone]; [rewrite app_nil_r; by rewrite cutFirst_free|by rewrite cutFirst_app]. }
  pose proof (parse_string6 b Hlen Hb) as Hp.
  destruct (match string6 b with
    | c :: c' :: more => if decide (c = ":"%char /\ c' = ":"%char) then (Some 0%nat, more) else (None, string6 b)
    | _ => (None, string6 b) end) as [ellipsis s].
  destruct Hp as [(-> & -> & ->)|(Hne & Hp)]; [done|].
  assert (forall X Y : option ipAddr, match ellipsis with Some _ => match s with [] => X | _ => Y end | None => Y end = Y) as Hm.
  { intros X Y. destruct ellipsis; [|done]. destruct s; [|done]. exfalso. by apply Hne. }
  rewrite Hm. destruct Hp as [[-> ->]|(l & n & r & Eb & Hn & ->)].
  - by rewrite (proj2 (Nat.ltb_ge _ _)) by lia.
  - rewrite Eb, !length_app, repeat_length in Hlen. rewrite length_app.
    rewrite (proj2 (Nat.ltb_lt _ _)) by lia. rewrite take_app_length, drop_app_length.
    replace (16 - (length l + length r))%nat with n by lia. by rewrite Eb.
Qed.

(** ** What parsing yields *)

Definition ip_ok (a : ipAddr) : Prop :=
  match a with
  | IPv4 b => length b = 4%nat /\ Forall is_byte b
  | IPv6 b _ => length b = 16%nat /\ Forall is_byte b
  end.

Lemma parseIPv4Fields_ok s fields val dl pd b :
  Forall is_byte fields -> 0 <= val <= 255 -> (length fields <= 3)%nat ->
  parseIPv4Fields s fields val dl pd = Some b -> length b = 4%nat /\ Forall is_byte b.
Proof.
  revert fields val dl pd. induction s as [|c s IH]; intros fields val dl pd Hf Hv Hl; cbn.
  { destruct (Nat.eqb_spec (length fields) 3); [|done]. intros [= <-]. rewrite length_app. cbn. split; [lia|].
    apply Forall_app. split; [done|]. constructor; [unfold is_byte; lia|done]. }
  destruct (isDigit c) eqn:Ed.
  - destruct (_ && _); [done|]. destruct (Z.ltb_spec 255 (val * 10 + digitVal c)); [done|].
    apply IH; [done| |done]. unfold isDigit in Ed. unfold digitVal in *. zbool. lia.
  - destruct (decide _); [|done]. destruct (_ || _); [done|]. destruct (Nat.eqb_spec (length fields) 3); [done|].
    apply IH; [|lia|rewrite length_app; cbn; lia]. apply Forall_app. split; [done|]. constructor; [unfold is_byte; lia|done].
Qed.

Lemma hexVal_range c d : hexVal c = Some d -> 0 <= d < 16.
Proof. unfold hexVal. intros E. repeat case_match; simplify_eq; zbool; lia. Qed.

Lemma hexGroup_range s acc off a o rest :
  0 <= acc < 16 ^ Z.of_nat off -> (off <= 4)%nat -> hexGroup s acc off = Some (a, o, rest) -> 0 <= a < 65536.
Proof.
  assert (forall n : nat, (n <= 4)%nat -> 16 ^ Z.of_nat n <= 65536) as Hpow.
  { intros n Hn. change 65536 with (16 ^ 4). apply Z.pow_le_mono_r; lia. }
  revert acc off. induction s as [|c s IH]; intros acc off Ha Ho; cbn -[Nat.ltb Z.pow].
  { intros [= <- _ _]. specialize (Hpow off Ho). lia. }
  destruct (hexVal c) as [d|] eqn:Ed; [|intros [= <- _ _]; specialize (Hpow off Ho); lia].
  destruct (Nat.ltb_spec 3 off); [done|]. apply hexVal_range in Ed.
  apply IH; [|lia]. rewrite Nat2Z.inj_succ, Z.pow_succ_r by lia. lia.
Qed.

Lemma parseGroups_ok fuel ip e s ip' e' s' :
  Forall is_byte ip -> (length ip + 2 * fuel = 16)%nat ->
  (forall k, e = Some k -> (k <= length ip)%nat) ->
  parseGroups fuel ip e s = Some (ip', e', s') ->
  Forall is_byte ip' /\ (length ip' <= 16)%nat /\ (forall k, e' = Some k -> (k <= length ip')%nat).
Proof.
  revert ip e s. induction fuel as [|fuel IH]; intros ip e s Hb Hl He; cbn [parseGroups].
  { intros [= <- <- <-]. split; [done|]. split; [lia|done]. }
  destruct (hexGroup s 0 0) as [[[acc [|o]] rest]|] eqn:E; try done.
  apply hexGroup_range in E; [|cbn; lia|lia].
  assert (Forall is_byte (ip ++ [acc / 256; acc mod 256])) as Hb'.
  { apply Forall_app. split; [done|]. pose proof (Z.mod_pos_bound acc 256 ltac:(lia)).
    assert (0 <= acc / 256 < 256) by (split; [apply Z.div_pos; lia|apply Z.div_lt_upper_bound; lia]).
    repeat constructor; unfold is_byte; lia. }
  assert (length (ip ++ [acc / 256; acc mod 256])%Z = length ip + 2)%nat as Hl' by (rewrite length_app; done).
  destruct rest as [|c more].
  { intros [= <- <- <-]. split; [done|]. split; [lia|]. intros k Hk%He. lia. }
  destruct (decide (c = "."%char)).
  { destruct (_ || _) eqn:Eg; [done|]. apply orb_false_iff in Eg as [_ Eg%Nat.ltb_ge].
    destruct (parseIPv4 s) as [b|] eqn:E4; [|done]. intros [= <- <- <-].
    apply parseIPv4Fields_ok in E4 as [E4 Hb4]; [|done|lia|cbn; lia].
    rewrite length_app, E4. split; [by apply Forall_app|]. split; [lia|]. intros k Hk%He. lia. }
  destruct (decide (c = ":"%char)); [|done]. destruct more as [|c' more]; [done|].
  destruct (decide (c' = ":"%char)).
  - destruct (decide (e = None)); [|done]. destruct more as [|c'' more].
    + intros [= <- <- <-]. split; [done|]. split; [lia|]. by intros k [= <-].
    + apply IH; [done|lia|]. by intros k [= <-].
  - apply IH; [done|lia|]. intros k Hk%He. lia.
Qed.

Lemma parseIPv6_ok s a : parseIPv6 s = Some a -> ip_ok a.
Proof.
  unfold parseIPv6. destruct (match cutFirst "%"%char s with Some (_, []) => None | Some (s, zone) => Some (s, zone)
    | None => Some (s, []) end) as [[s1 zone]|]; [|done].
  destruct (match s1 with c :: c' :: more => _ | _ => _ end) as [e s2] eqn:Es.
  assert (forall k, e = Some k -> (k <= 0)%nat) as He.
  { intros k ->. destruct s1 as [|c [|c' more]]; [done..|]. destruct (decide _); [|done]. injection Es as <- _. lia. }
  assert (match parseGroups 8 [] e s2 with
    | Some (ip, e', []) => if Nat.ltb (length ip) 16 then
        match e' with None => None | Some k => Some (IPv6 (take k ip ++ repeat 0 (16 - length ip) ++ drop k ip) zone) end
        else match e' with None => Some (IPv6 ip zone) | Some _ => None end
    | _ => None end = Some a -> ip_ok a) as Hrest.
  { destruct (parseGroups 8 [] e s2) as [[[ip e'] [|? ?]]|] eqn:Ep; try done.
    apply parseGroups_ok in Ep as (Hb & Hl & Hk); [|done|done|exact He].
    destruct (Nat.ltb_spec (length ip) 16).
    - destruct e' as [k|]; [|done]. specialize (Hk k eq_refl). intros [= <-]. cbn. split.
      + rewrite !length_app, repeat_length, length_take, length_drop. lia.
      + rewrite !Forall_app. split; [by apply Forall_take|]. split; [|by apply Forall_drop].
        apply Forall_forall. intros x Hx%list_elem_of_In%repeat_spec. subst x. unfold is_byte. lia.
    - destruct e'; [done|]. intros [= <-]. cbn. split; [lia|done]. }
  destruct e as [k|]; [|exact Hrest]. destruct s2; [|exact Hrest]. intros [= <-]. cbn. split; [done|].
  repeat constructor; unfold is_byte; lia.
Qed.

Lemma Unmap_ok a : ip_ok a -> ip_ok (Unmap a).
Proof.
  destruct a as [b|b zone]; [done|]. cbn. intros [Hl Hb]. destruct (decide _); [|done]. cbn. split.
  - rewrite length_drop. lia.
  - by apply Forall_drop.
Qed.

Lemma ParseAddr_ok s a : ParseAddr s = Some a -> ip_ok a.
Proof.
  unfold ParseAddr. destruct (addrKind s) as [c|]; [|done]. destruct (decide _).
  - destruct (parseIPv4 s) as [b|] eqn:E; [|done]. intros [= <-]. cbn. by eapply parseIPv4Fields_ok; [..|exact E]; [|lia|cbn; lia].
  - destruct (decide _); [apply parseIPv6_ok|done].
Qed.

Lemma Unmap_idemp a : ip_ok a -> Unmap (Unmap a) = Unmap a.
Proof. destruct a as [b|b zone]; [done|]. cbn. intros [Hl Hb]. destruct (decide (take 12 b = v4InV6Prefix)) eqn:E; [done|]. cbn. by rewrite E. Qed.

(** Parsing inverts printing on every address parsing yields, unmapped. *)
Lemma ParseAddr_addrString a : ip_ok a -> ParseAddr (addrString a) = Some a.
Proof.
  destruct a as [b|b zone]; cbn; intros [Hl Hb]; [|by apply ParseAddr_string6].
  destruct b as [|x [|y [|z [|w [|? ?]]]]]; try done.
  repeat match goal with H : Forall _ (_ :: _) |- _ => apply Forall_cons in H as [? H] end.
  unfold is_byte in *. by apply ParseAddr_string4.
Qed.
