(* ===== verification/Addr.v ===== *)
(** * Addresses and peer names (addr.go) *)
From S2P Require Import Prelude GoRuntime Errors NetIP NetIPProps.
From Stdlib Require Import Ascii.

Definition listenPortBase : Z := 8000.
Definition ephemeralPortBase : Z := 32768.
Definition maxPort : Z := 65535.

Definition addr_Network (a : addr) : string := addr_network a.

Definition addr_String (a : addr) : string :=
  match addr_ip a with
  | Some ip => ofBytes (JoinHostPort (ipString ip) (itoa (addr_port a)))
  | None => ofBytes (JoinHostPort (toBytes (addr_peer a)) (itoa (addr_port a)))
  end.

(** The [*net.TCPAddr] handed out: the IP (a copy) and the port. *)
Definition tcpAddr (a : addr) : list Z * Z := (default [] (addr_ip a), addr_port a).

Definition parseLiteralIP (host : string) : option ipAddr := Unmap <$> ParseAddr (toBytes host).

(** A host, a port and whether the port was explicit; or the error. *)
Definition splitAddr (s : string) : (string * Z * bool) + goerror :=
  match parseLiteralIP s with
  | Some _ => inl (s, 0, false)
  | None =>
      if negb (contains ":"%char (toBytes s)) then inl (s, 0, false)
      else
        match SplitHostPort (toBytes s) with
        | None => inr (AddrError "invalid address" s)
        | Some (host, portStr) =>
            if bool_decide (portStr = []) || bool_decide (portStr = ["0"%char]) then inl (ofBytes host, 0, false)
            else
              match Atoi portStr with
              | None => inr (AddrError "invalid port" s)
              | Some port =>
                  if (port <? 0) || (maxPort <? port) then inr (AddrError "invalid port" s)
                  else inl (ofBytes host, port, true)
              end
        end
  end.

Definition peerName (dialAddr : string) : string :=
  match splitAddr dialAddr with
  | inr _ => dialAddr
  | inl (host, _, _) => host
  end.

Definition ephemeralPort (ordinal : Z) : Z :=
  let span := u64 (maxPort + 1 - ephemeralPortBase) in
  ephemeralPortBase + i64 (ordinal mod span).

Definition ephemeralPeerName (ordinal : Z) : string := "ephemeral-" ++ ofBytes (itoa ordinal).

Definition wildcardPeerName (ordinal : Z) : string := "wildcard-" ++ ofBytes (itoa ordinal).

Definition errAddr (network s : string) : option addr :=
  if String.eqb s "" then None
  else
    match splitAddr s with
    | inr _ => Some (mkAddr network s 0 None)
    | inl (host, port, _) => Some (mkAddr network host port None)
    end.

(** The message of the default case is kept up to the quoted network. *)
Definition validateNetwork (network : string) : option goerror :=
  if String.eqb network "tcp" || String.eqb network "tcp4" || String.eqb network "tcp6" then None
  else if String.eqb network "udp" || String.eqb network "udp4" || String.eqb network "udp6" then
    Some (WrapError "udp support is out of scope for netchaos v1" ErrUnsupportedNetwork)
  else Some (WrapError network ErrUnsupportedNetwork).

(** ** Contexts

    A [context.Context] as the program uses it: the peer name under
    [peerNameCtxKey], and from when on it is done, with which [Err]. *)
Record context : Type := mkContext {
  ctx_peerName : option string;
  ctx_done : option (Time * goerror)
}.

Definition Background : context := mkContext None None.

Definition WithPeerName (ctx : context) (name : string) : context := mkContext (Some name) (ctx_done ctx).

Definition peerNameFromContext (ctx : context) : option string := ctx_peerName ctx.

(** [ctx.Err()]: nil until the context is done. *)
Definition ctx_Err (now : Time) (ctx : context) : option goerror :=
  match ctx_done ctx with
  | Some (t, err) => if t <=? now then Some err else None
  | None => None
  end.

(** [context.WithTimeout]: the earlier of the parent's end and the deadline. *)
Definition ctx_WithTimeout (now : Time) (ctx : context) (d : Duration) : context :=
  let mine := (time_Add now d, ContextDeadlineExceeded) in
  mkContext (ctx_peerName ctx)
    (Some match ctx_done ctx with
          | Some (t, err) => if t <=? fst mine then (t, err) else mine
          | None => mine
          end).

(** ** Lemmas *)

Lemma ofBytes_toBytes s : ofBytes (toBytes s) = s.
Proof. apply String.string_of_list_ascii_of_string. Qed.

Lemma toBytes_ofBytes l : toBytes (ofBytes l) = l.
Proof. apply String.list_ascii_of_string_of_list_ascii. Qed.

Lemma toBytes_app s t : toBytes (s ++ t)%string = toBytes s ++ toBytes t.
Proof. induction s as [|c s IH]; [done|]. change (c :: toBytes (s ++ t)%string = c :: toBytes s ++ toBytes t). by rewrite IH. Qed.

Lemma toBytes_inj s t : toBytes s = toBytes t -> s = t.
Proof. intros E. by rewrite <- (ofBytes_toBytes s), E, ofBytes_toBytes. Qed.

(** A host name: no colon and no bracket. *)
Definition plain_host (h : string) : Prop :=
  (":"%char ∉ toBytes h) /\ ("["%char ∉ toBytes h) /\ ("]"%char ∉ toBytes h).

Definition withPort (h : string) (port : Z) : string := h ++ ":" ++ ofBytes (itoa port).

Lemma splitAddr_host h : plain_host h -> splitAddr h = inl (h, 0, false).
Proof.
  intros (H1 & _ & _). unfold splitAddr. destruct (parseLiteralIP h); [done|].
  by rewrite (proj2 (contains_false _ _) H1).
Qed.

(** A port that was split off is one. *)
Lemma splitAddr_range s host port explicit : splitAddr s = inl (host, port, explicit) -> 0 <= port <= maxPort.
Proof.
  unfold splitAddr, maxPort. destruct (parseLiteralIP s); [intros [= _ <- _]; lia|]. destruct (negb _); [intros [= _ <- _]; lia|].
  destruct (SplitHostPort _) as [[h p]|]; [|done]. destruct (_ || _); [intros [= _ <- _]; lia|].
  destruct (Atoi p) as [q|]; [|done]. destruct (_ || _) eqn:E; [done|]. intros [= _ <- _]. zbool. lia.
Qed.

(** The port of an address, split off its host. *)
Lemma splitAddr_port s host port :
  parseLiteralIP s = None -> ":"%char ∈ toBytes s -> SplitHostPort (toBytes s) = Some (toBytes host, utoa port) ->
  0 <= port <= maxPort -> splitAddr s = inl (host, port, negb (port =? 0)).
Proof.
  intros Hl Hc Hsplit Hp. unfold maxPort in Hp. unfold splitAddr. rewrite Hl, (proj2 (contains_spec _ _) Hc). cbn [negb].
  rewrite Hsplit, ofBytes_toBytes.
  rewrite (bool_decide_eq_false_2 (utoa port = [])) by (apply utoa_nonempty; lia). cbn [orb].
  destruct (Z.eqb_spec port 0) as [->|Hz].
  - by rewrite bool_decide_eq_true_2 by done.
  - rewrite bool_decide_eq_false_2.
    2: { change ["0"%char] with (utoa 0). intros E%utoa_inj; lia. }
    rewrite Atoi_utoa by lia. rewrite (proj2 (Z.ltb_ge port 0)), (proj2 (Z.ltb_ge maxPort port)) by (unfold maxPort; lia).
    done.
Qed.

Lemma splitAddr_host_port h port :
  plain_host h -> 0 <= port <= maxPort ->
  splitAddr (withPort h port) = if port =? 0 then inl (h, 0, false) else inl (h, port, true).
Proof.
  intros (H1 & H2 & H3) Hp. pose proof Hp as Hp'. unfold maxPort in Hp'.
  assert (toBytes (withPort h port) = toBytes h ++ ":"%char :: utoa port) as Eb.
  { unfold withPort. rewrite !toBytes_app, toBytes_ofBytes, itoa_utoa by lia. done. }
  assert (forall c, isDigit c = false -> c ∉ utoa port) as Hd by (intros c Hc; apply utoa_free; [lia|done]).
  rewrite (splitAddr_port _ h port); [by destruct (Z.eqb_spec port 0) as [->|]| | | |done].
  - unfold parseLiteralIP. rewrite Eb, ParseAddr_host_port by auto. done.
  - rewrite Eb. apply elem_of_app. right. apply elem_of_cons. by left.
  - rewrite Eb. apply SplitHostPort_plain; auto.
Qed.

(** ** Properties *)

(** A peer is its host, whatever port is written after it. A host name
    without a port, with port 0, and with any port names the same peer; the port
    is explicit exactly when it is not 0, and comes back as written. *)
Theorem peer_identity_ignores_port h port :
  plain_host h -> 0 <= port <= maxPort ->
  splitAddr h = inl (h, 0, false) /\
  splitAddr (withPort h port) = (if port =? 0 then inl (h, 0, false) else inl (h, port, true)) /\
  peerName (withPort h port) = h /\ peerName h = h.
Proof.
  intros Hh Hp. pose proof (splitAddr_host h Hh) as H1. pose proof (splitAddr_host_port h port Hh Hp) as H2.
  split; [done|]. split; [done|]. unfold peerName. rewrite H1, H2. by destruct (port =? 0).
Qed.

Lemma peer_identity_ignores_port_witness : peerName (withPort "server" 8080) = "server"%string.
Proof.
  refine (proj1 (proj2 (proj2 (peer_identity_ignores_port "server" 8080 _ _)))).
  - repeat split; apply contains_false; reflexivity.
  - unfold maxPort. lia.
Defined.

Lemma ephemeral_bytes n : 0 <= n -> toBytes (ephemeralPeerName n) = toBytes "ephemeral-" ++ utoa n.
Proof. intros Hn. unfold ephemeralPeerName. by rewrite toBytes_app, toBytes_ofBytes, itoa_utoa. Qed.

Lemma wildcard_bytes n : 0 <= n -> toBytes (wildcardPeerName n) = toBytes "wildcard-" ++ utoa n.
Proof. intros Hn. unfold wildcardPeerName. by rewrite toBytes_app, toBytes_ofBytes, itoa_utoa. Qed.

Lemma synthesized_plain pre n :
  plain_host pre -> 0 <= n -> plain_host (pre ++ ofBytes (itoa n)).
Proof.
  intros (H1 & H2 & H3) Hn. unfold plain_host. rewrite toBytes_app, toBytes_ofBytes, itoa_utoa by done.
  split_and!; (intros [?|?]%elem_of_app; [done|]); by (eapply utoa_free; [done| |eassumption]).
Qed.

Lemma addrKind_none l : "."%char ∉ l -> ":"%char ∉ l -> "%"%char ∉ l -> addrKind l = None.
Proof.
  induction l as [|c l IH]; [done|]. intros [? ?]%not_elem_of_cons [? ?]%not_elem_of_cons [? ?]%not_elem_of_cons.
  cbn. rewrite decide_False by (intros [?|[?|?]]; congruence). by apply IH.
Qed.

Lemma synthesized_not_literal pre n :
  addrKind (toBytes pre) = None -> 0 <= n -> parseLiteralIP (pre ++ ofBytes (itoa n)) = None.
Proof.
  intros Hk Hn. unfold parseLiteralIP, ParseAddr. rewrite toBytes_app, toBytes_ofBytes, itoa_utoa by done.
  assert (forall l, addrKind l = None -> addrKind (l ++ utoa n) = None) as Happ.
  { induction l as [|c l IH]; cbn; [|destruct (decide _); [done|exact IH]].
    intros _. apply addrKind_none; by apply utoa_free. }
  by rewrite Happ.
Qed.

(** Synthesized identities are distinct and survive a round trip. Distinct
    ordinals give distinct ephemeral names and distinct wildcard names, an
    ephemeral name is never a wildcard name, none is an IP literal, and each, with
    or without a port behind it, splits back into itself. *)
Theorem synthesized_names_distinct n m port :
  0 <= n -> 0 <= m -> 0 <= port <= maxPort ->
  (ephemeralPeerName n = ephemeralPeerName m -> n = m) /\
  (wildcardPeerName n = wildcardPeerName m -> n = m) /\
  ephemeralPeerName n <> wildcardPeerName m /\
  parseLiteralIP (ephemeralPeerName n) = None /\ parseLiteralIP (wildcardPeerName n) = None /\
  peerName (withPort (ephemeralPeerName n) port) = ephemeralPeerName n /\
  peerName (withPort (wildcardPeerName n) port) = wildcardPeerName n.
Proof.
  intros Hn Hm Hp.
  assert (forall h, plain_host h -> peerName (withPort h port) = h) as Hpeer.
  { intros h Hh. unfold peerName. rewrite (splitAddr_host_port h port Hh Hp). by destruct (port =? 0). }
  split_and!.
  - intros E%(f_equal toBytes). rewrite !ephemeral_bytes in E by done. apply app_inv_head in E. by apply utoa_inj.
  - intros E%(f_equal toBytes). rewrite !wildcard_bytes in E by done. apply app_inv_head in E. by apply utoa_inj.
  - discriminate.
  - by apply synthesized_not_literal.
  - by apply synthesized_not_literal.
  - apply Hpeer, synthesized_plain; [repeat split; by apply contains_false|done].
  - apply Hpeer, synthesized_plain; [repeat split; by apply contains_false|done].
Qed.

Lemma synthesized_names_distinct_witness :
  peerName (withPort (ephemeralPeerName 3) 32771) = ephemeralPeerName 3.
Proof.
  refine (proj1 (proj2 (proj2 (proj2 (proj2 (proj2 (synthesized_names_distinct 3 4 32771 _ _ _))))))); unfold maxPort; lia.
Defined.

Lemma ephemeralPort_range n : 0 <= n < 2 ^ 64 -> ephemeralPortBase <= ephemeralPort n <= maxPort.
Proof.
  intros Hn. unfold ephemeralPort, maxPort, ephemeralPortBase.
  rewrite (u64_id (65535 + 1 - 32768)) by (unfold is_u64; lia). change (65535 + 1 - 32768) with 32768.
  pose proof (Z.mod_pos_bound n 32768 ltac:(lia)). rewrite i64_id by (unfold is_i64; lia). lia.
Qed.

(** The port of a dialing side. Every ordinal gets a port of the ephemeral
    range; consecutive ordinals get distinct ports until the range is used up,
    then the ports repeat. *)
Theorem ephemeralPort_correct n m :
  0 <= n < 2 ^ 64 -> 0 <= m < 2 ^ 64 ->
  ephemeralPortBase <= ephemeralPort n <= maxPort /\
  (Z.abs (n - m) < 32768 -> ephemeralPort n = ephemeralPort m -> n = m) /\
  ephemeralPort (n + 32768) = ephemeralPort n.
Proof.
  intros Hn Hm. unfold ephemeralPort, maxPort, ephemeralPortBase.
  rewrite (u64_id (65535 + 1 - 32768)) by (unfold is_u64; lia). change (65535 + 1 - 32768) with 32768.
  pose proof (Z.mod_pos_bound n 32768 ltac:(lia)). pose proof (Z.mod_pos_bound m 32768 ltac:(lia)).
  rewrite (i64_id (n mod 32768)), (i64_id (m mod 32768)) by (unfold is_i64; lia).
  pose proof (Z.div_mod n 32768 ltac:(lia)). pose proof (Z.div_mod m 32768 ltac:(lia)).
  split; [lia|]. split; [intros; nia|].
  replace (n + 32768) with (n + 1 * 32768) by lia. rewrite Z_mod_plus_full. rewrite i64_id by (unfold is_i64; lia). done.
Qed.

Lemma ephemeralPort_correct_witness : 32768 <= ephemeralPort (2 ^ 64 - 1) <= 65535.
Proof.
  exact (proj1 (ephemeralPort_correct (2 ^ 64 - 1) 0 ltac:(lia) ltac:(lia))).
Defined.

(** The errors Listen and Dial report about an address carry what the caller
    wrote: nothing for the empty string, the whole string when it is malformed,
    and otherwise the host and the port split out of it. A network is accepted
    exactly when it is one of the three TCP spellings, and every refusal matches
    ErrUnsupportedNetwork. *)
Theorem address_errors `{!Platform} network s :
  (errAddr network s = None <-> s = ""%string) /\
  (forall err, splitAddr s = inr err -> s <> ""%string /\ errAddr network s = Some (mkAddr network s 0 None) /\
     (err = AddrError "invalid address" s \/ err = AddrError "invalid port" s)) /\
  (validateNetwork network = None <-> network = "tcp"%string \/ network = "tcp4"%string \/ network = "tcp6"%string) /\
  (forall err, validateNetwork network = Some err -> errors_is err ErrUnsupportedNetwork = true).
Proof.
  split_and!.
  - unfold errAddr. destruct (String.eqb_spec s "") as [->|Hs]; [done|].
    destruct (splitAddr s) as [[[host port] ex]|err]; split; done.
  - intros err E. unfold errAddr. rewrite E. destruct (String.eqb_spec s "") as [->|Hs].
    { discriminate E. }
    split; [done|]. split; [done|]. unfold splitAddr in E.
    destruct (parseLiteralIP s); [done|]. destruct (negb _); [done|].
    destruct (SplitHostPort _) as [[host portStr]|]; [|injection E; auto].
    destruct (_ || _); [done|]. destruct (Atoi portStr) as [port|]; [|injection E; auto].
    destruct (_ || _); [injection E; auto|done].
  - unfold validateNetwork.
    destruct (String.eqb_spec network "tcp") as [->|H1]; [split; auto|].
    destruct (String.eqb_spec network "tcp4") as [->|H2]; [split; auto|].
    destruct (String.eqb_spec network "tcp6") as [->|H3]; [split; auto|]. cbn [orb].
    destruct (_ || _); split; try done; intros [?|[?|?]]; congruence.
  - intros err E. unfold validateNetwork in E.
    destruct (_ || _); [done|]. destruct (_ || _); injection E as <-; cbn; by rewrite orb_true_r.
Qed.
