(* ===== verification/Addressing.v ===== *)
(** * The address book of a Network (addressing.go)

    Peer names resolve to themselves, IP literals to the peer that owns them;
    every peer is given at most one synthetic address per family. The part of
    [Network] guarded by [mu] for this is a record of its own. *)
From S2P Require Import Prelude GoRuntime Errors NetIP NetIPProps NetIP6 Addr.
From Stdlib Require Import Ascii.

Record addrBook : Type := mkAddrBook {
  ipOwners : gmap string string;
  peerIPs : gmap string (gmap Z (list Z));
  nextIPv4 : Z;   (** uint32 *)
  nextIPv6 : Z    (** uint64 *)
}.

Definition emptyBook : addrBook := mkAddrBook ∅ ∅ 0 0.

Definition keyOf (ip : ipAddr) : string := ofBytes (addrString ip).

Definition canonicalPeerLocked (host : string) (n : addrBook) : string * addrBook :=
  match parseLiteralIP host with
  | None => (host, n)
  | Some ip =>
      let key := keyOf ip in
      match ipOwners n !! key with
      | Some owner => (owner, n)
      | None => (key, mkAddrBook (<[key := key]> (ipOwners n)) (peerIPs n) (nextIPv4 n) (nextIPv6 n))
      end
  end.

Definition canonicalPeer (host : string) (n : addrBook) : string * addrBook := canonicalPeerLocked host n.

(** The candidates: 198.18.0.0/15 and fd00::/64, by counter. *)
Definition candidate4 (v : Z) : ipAddr :=
  IPv4 [198; u8 (18 + Z.shiftr v 16); u8 (Z.shiftr v 8); u8 v].
Definition candidate6 (v : Z) : ipAddr :=
  IPv6 [253; 0; 0; 0; 0; 0; 0; 0; u8 (Z.shiftr v 56); u8 (Z.shiftr v 48); u8 (Z.shiftr v 40);
        u8 (Z.shiftr v 32); u8 (Z.shiftr v 24); u8 (Z.shiftr v 16); u8 (Z.shiftr v 8); u8 v] [].

(** The next candidate of a family, with the counter moved on; or why there is
    none. *)
Definition nextCandidate (family : Z) (n : addrBook) : (ipAddr + goerror) * addrBook :=
  if family =? 4 then
    let v := nextIPv4 n in
    let n := mkAddrBook (ipOwners n) (peerIPs n) ((v + 1) mod 2 ^ 32) (nextIPv6 n) in
    if 2 ^ 17 <=? v then (inr (ErrorString "synthetic IPv4 space exhausted"), n)
    else (inl (candidate4 v), n)
  else
    let v := nextIPv6 n in
    let n := mkAddrBook (ipOwners n) (peerIPs n) (nextIPv4 n) (u64 (v + 1)) in
    if v =? 2 ^ 64 - 1 then (inr (ErrorString "synthetic IPv6 space exhausted"), n)
    else (inl (candidate6 v), n).

(** The allocation loop; each pass that goes on has met an occupied candidate. *)
Fixpoint allocLoop (fuel : nat) (peer : string) (family : Z) (n : addrBook) : go ((list Z + goerror) * addrBook) :=
  match fuel with
  | O => OutOfFuel
  | S fuel =>
      let '(r, n) := nextCandidate family n in
      match r with
      | inr err => Ret (inr err, n)
      | inl candidate =>
          match ipOwners n !! keyOf candidate with
          | Some _ => allocLoop fuel peer family n
          | None =>
              let ip := AsSlice candidate in
              let ips := default ∅ (peerIPs n !! peer) in
              Ret (inl ip, mkAddrBook (<[keyOf candidate := peer]> (ipOwners n))
                     (<[peer := <[family := ip]> ips]> (peerIPs n)) (nextIPv4 n) (nextIPv6 n))
          end
      end
  end.

Definition peerIPLocked (peer : string) (family : Z) (n : addrBook) : go ((list Z + goerror) * addrBook) :=
  match parseLiteralIP peer with
  | Some ip =>
      if (Is4 ip && negb (family =? 4)) || (Is6 ip && negb (family =? 6)) then
        Ret (inr (ErrorString ("address family mismatch: " ++ peer)), n)
      else
        Ret (inl (AsSlice ip),
             mkAddrBook (<[keyOf ip := peer]> (ipOwners n)) (peerIPs n) (nextIPv4 n) (nextIPv6 n))
  | None =>
      let ips := default ∅ (peerIPs n !! peer) in
      let n := mkAddrBook (ipOwners n) (<[peer := ips]> (peerIPs n)) (nextIPv4 n) (nextIPv6 n) in
      match ips !! family with
      | Some ip => Ret (inl ip, n)
      | None => allocLoop (S (size (ipOwners n))) peer family n
      end
  end.

Definition addressFamily (network host : string) : Z :=
  if String.eqb network "tcp6" then 6
  else if String.eqb network "tcp4" then 4
  else match parseLiteralIP host with
       | Some ip => if Is6 ip then 6 else 4
       | None => 4
       end.

(** ** Literals and their keys *)

Lemma literal_ok h ip : parseLiteralIP h = Some ip -> ip_ok ip /\ Unmap ip = ip.
Proof.
  unfold parseLiteralIP. destruct (ParseAddr (toBytes h)) as [a|] eqn:E; [|done]. intros [= <-].
  apply ParseAddr_ok in E. split; [by apply Unmap_ok|by apply Unmap_idemp].
Qed.

(** A key is a literal that stands for the same address. *)
Lemma literal_keyOf ip : ip_ok ip -> Unmap ip = ip -> parseLiteralIP (keyOf ip) = Some ip.
Proof.
  intros H1 H2. unfold parseLiteralIP, keyOf. rewrite toBytes_ofBytes, ParseAddr_addrString by done.
  cbn. by rewrite H2.
Qed.

Lemma keyOf_inj a b : ip_ok a -> ip_ok b -> Unmap a = a -> Unmap b = b -> keyOf a = keyOf b -> a = b.
Proof. intros A1 B1 A2 B2 E. pose proof (literal_keyOf a A1 A2) as H. rewrite E, literal_keyOf in H by done. congruence. Qed.

Lemma u8_range z : is_byte (u8 z).
Proof. unfold is_byte, u8. apply Z.mod_pos_bound. lia. Qed.

Lemma candidate4_ok v : ip_ok (candidate4 v) /\ Unmap (candidate4 v) = candidate4 v.
Proof. split; [|done]. split; [done|]. repeat constructor; try apply u8_range; unfold is_byte; lia. Qed.

Lemma candidate6_ok v : ip_ok (candidate6 v) /\ Unmap (candidate6 v) = candidate6 v.
Proof. split; [|done]. split; [done|]. repeat constructor; try apply u8_range; unfold is_byte; lia. Qed.

Lemma u8_shiftr v k : u8 (Z.shiftr v k) = (v / 2 ^ k) mod 256 \/ k < 0.
Proof. destruct (Z.lt_ge_cases k 0); [by right|left]. unfold u8. by rewrite Z.shiftr_div_pow2. Qed.

(** A number is determined by its bytes. *)
Lemma split_byte k v w :
  0 <= k -> (v / 2 ^ k) mod 256 = (w / 2 ^ k) mod 256 -> v / 2 ^ (k + 8) = w / 2 ^ (k + 8) -> v / 2 ^ k = w / 2 ^ k.
Proof.
  intros Hk H1 H2. rewrite Z.pow_add_r in H2 by lia. rewrite <- !Z.div_div in H2 by lia.
  change (2 ^ 8) with 256 in H2. pose proof (Z.div_mod (v / 2 ^ k) 256 ltac:(lia)).
  pose proof (Z.div_mod (w / 2 ^ k) 256 ltac:(lia)). lia.
Qed.

Lemma candidate4_inj v w : 0 <= v < 2 ^ 17 -> 0 <= w < 2 ^ 17 -> candidate4 v = candidate4 w -> v = w.
Proof.
  intros Hv Hw [= E1 E2 E3]. unfold u8 in *. rewrite !Z.shiftr_div_pow2 in * by lia.
  assert (0 <= v / 2 ^ 16 < 2) by (split; [apply Z.div_pos; lia|apply Z.div_lt_upper_bound; lia]).
  assert (0 <= w / 2 ^ 16 < 2) by (split; [apply Z.div_pos; lia|apply Z.div_lt_upper_bound; lia]).
  change (2 ^ 8) with 256 in *. rewrite !(Z.mod_small (18 + _)) in E1 by lia.
  assert (v / 2 ^ 16 = w / 2 ^ 16) as E16 by lia.
  pose proof (split_byte 8 v w ltac:(lia) E2 E16) as E8.
  rewrite <- (Z.div_1_r v), <- (Z.div_1_r w). apply (split_byte 0 v w); [lia| |exact E8].
  change (2 ^ 0) with 1. by rewrite !Z.div_1_r.
Qed.

Lemma candidate6_inj v w : 0 <= v < 2 ^ 64 -> 0 <= w < 2 ^ 64 -> candidate6 v = candidate6 w -> v = w.
Proof.
  intros Hv Hw [= E56 E48 E40 E32 E24 E16 E8 E0]. unfold u8 in *. rewrite !Z.shiftr_div_pow2 in * by lia.
  change (2 ^ 8) with 256 in E56, E48, E40, E32, E24, E16, E0.
  assert (v / 2 ^ 64 = w / 2 ^ 64) as E64 by (rewrite !Z.div_small by lia; done).
  pose proof (split_byte 56 v w ltac:(lia) E56 E64) as D56.
  pose proof (split_byte 48 v w ltac:(lia) E48 D56) as D48.
  pose proof (split_byte 40 v w ltac:(lia) E40 D48) as D40.
  pose proof (split_byte 32 v w ltac:(lia) E32 D40) as D32.
  pose proof (split_byte 24 v w ltac:(lia) E24 D32) as D24.
  pose proof (split_byte 16 v w ltac:(lia) E16 D24) as D16.
  pose proof (split_byte 8 v w ltac:(lia) E8 D16) as D8.
  rewrite <- (Z.div_1_r v), <- (Z.div_1_r w). apply (split_byte 0 v w); [lia| |exact D8].
  change (2 ^ 0) with 1. by rewrite !Z.div_1_r.
Qed.

(** ** The allocation loop terminates *)

Definition candidate (family v : Z) : ipAddr := if family =? 4 then candidate4 v else candidate6 v.
Definition counter (family : Z) (n : addrBook) : Z := if family =? 4 then nextIPv4 n else nextIPv6 n.
Definition limit (family : Z) : Z := if family =? 4 then 2 ^ 17 else 2 ^ 64 - 1.

Definition with_counter (family v : Z) (n : addrBook) : addrBook :=
  if family =? 4 then mkAddrBook (ipOwners n) (peerIPs n) v (nextIPv6 n)
  else mkAddrBook (ipOwners n) (peerIPs n) (nextIPv4 n) v.

Definition counters_ok (n : addrBook) : Prop := 0 <= nextIPv4 n < 2 ^ 32 /\ 0 <= nextIPv6 n < 2 ^ 64.

Lemma candidate_ok family v : ip_ok (candidate family v) /\ Unmap (candidate family v) = candidate family v.
Proof. unfold candidate. destruct (family =? 4); [apply candidate4_ok|apply candidate6_ok]. Qed.

Lemma candidate_inj family v w :
  0 <= v < limit family -> 0 <= w < limit family -> keyOf (candidate family v) = keyOf (candidate family w) -> v = w.
Proof.
  intros Hv Hw E. apply keyOf_inj in E; try apply candidate_ok. unfold candidate, limit in *.
  destruct (family =? 4); [by apply candidate4_inj|apply candidate6_inj; [lia|lia|done]].
Qed.

Lemma nextCandidate_eq family n :
  counters_ok n ->
  nextCandidate family n =
  if limit family <=? counter family n then
    (inr (ErrorString (if family =? 4 then "synthetic IPv4 space exhausted" else "synthetic IPv6 space exhausted")),
     with_counter family (if family =? 4 then (nextIPv4 n + 1) mod 2 ^ 32 else u64 (nextIPv6 n + 1)) n)
  else (inl (candidate family (counter family n)), with_counter family (counter family n + 1) n).
Proof.
  intros (H4 & H6). unfold nextCandidate, limit, counter, with_counter, candidate. destruct (family =? 4).
  - destruct (Z.leb_spec (2 ^ 17) (nextIPv4 n)); [done|]. rewrite Z.mod_small by lia. done.
  - destruct (Z.eqb_spec (nextIPv6 n) (2 ^ 64 - 1)), (Z.leb_spec (2 ^ 64 - 1) (nextIPv6 n)); try lia; try done.
    rewrite u64_id by (unfold is_u64; lia). done.
Qed.

Lemma with_counter_ok family v n :
  counters_ok n -> 0 <= v <= limit family -> counters_ok (with_counter family v n) /\
  counter family (with_counter family v n) = v /\ ipOwners (with_counter family v n) = ipOwners n /\
  peerIPs (with_counter family v n) = peerIPs n.
Proof.
  unfold counters_ok, with_counter, counter, limit. intros (H4 & H6) Hv. destruct (family =? 4); cbn; (split; [lia|done]).
Qed.

(** Running out of fuel means that many occupied candidates in a row. *)
Lemma allocLoop_out fuel peer family n :
  counters_ok n -> allocLoop fuel peer family n = OutOfFuel ->
  forall i, (i < fuel)%nat -> counter family n + Z.of_nat i < limit family /\
    is_Some (ipOwners n !! keyOf (candidate family (counter family n + Z.of_nat i))).
Proof.
  revert n. induction fuel as [|fuel IH]; intros n Hok; [lia|]. cbn [allocLoop].
  rewrite nextCandidate_eq by done. destruct (Z.leb_spec (limit family) (counter family n)) as [|Hlt]; [done|].
  assert (0 <= counter family n) as Hc by (unfold counter; destruct Hok; destruct (family =? 4); lia).
  destruct (with_counter_ok family (counter family n + 1) n Hok ltac:(lia)) as (Hok' & Ec & Eo & _).
  rewrite Eo. destruct (ipOwners n !! _) as [o|] eqn:Eown; [|done].
  intros Hrun i Hi. destruct i as [|i].
  - rewrite Z.add_0_r. split; [done|by rewrite Eown].
  - destruct (IH _ Hok' Hrun i ltac:(lia)) as [H1 H2]. rewrite Ec, Eo in *.
    replace (counter family n + Z.of_nat (S i)) with (counter family n + 1 + Z.of_nat i) by lia. done.
Qed.

Lemma allocLoop_total peer family n :
  counters_ok n -> allocLoop (S (size (ipOwners n))) peer family n <> OutOfFuel.
Proof.
  intros Hok Hrun. pose proof (allocLoop_out _ _ _ _ Hok Hrun) as Hocc.
  set (key := fun i : nat => keyOf (candidate family (counter family n + Z.of_nat i))).
  assert (0 <= counter family n) as Hc by (unfold counter; destruct Hok; destruct (family =? 4); lia).
  assert (length (map key (seq 0 (S (size (ipOwners n))))) <= size (dom (ipOwners n)))%nat as Hle.
  { rewrite <- (size_list_to_set (C := gset string)).
    - apply subseteq_size. intros k Hk%elem_of_list_to_set.
      apply list_elem_of_fmap in Hk as (i & -> & Hi%elem_of_seq). apply elem_of_dom. apply Hocc. lia.
    - apply NoDup_fmap_2_strong; [|apply NoDup_seq]. intros i j Hi%elem_of_seq Hj%elem_of_seq E.
      apply candidate_inj in E; [lia| |]; (split; [lia|]); apply Hocc; lia. }
  rewrite length_map, length_seq, size_dom in Hle. lia.
Qed.

Lemma allocLoop_no_panic fuel peer family n msg : allocLoop fuel peer family n <> Panic msg.
Proof.
  revert n. induction fuel as [|fuel IH]; intros n; [done|]. cbn.
  destruct (nextCandidate family n) as [[c|err] n']; [|done]. destruct (ipOwners n' !! keyOf c); [apply IH|done].
Qed.

(** What the loop returns. *)
Lemma allocLoop_spec fuel peer family n r n' :
  counters_ok n -> allocLoop fuel peer family n = Ret (r, n') ->
  counters_ok n' /\
  match r with
  | inr _ => ipOwners n' = ipOwners n /\ peerIPs n' = peerIPs n
  | inl ip =>
      exists v, counter family n <= v < limit family /\ ip = AsSlice (candidate family v) /\
        ipOwners n !! keyOf (candidate family v) = None /\
        ipOwners n' = <[keyOf (candidate family v) := peer]> (ipOwners n) /\
        peerIPs n' = <[peer := <[family := ip]> (default ∅ (peerIPs n !! peer))]> (peerIPs n)
  end.
Proof.
  revert n. induction fuel as [|fuel IH]; intros n Hok; [done|]. cbn [allocLoop].
  rewrite nextCandidate_eq by done. destruct (Z.leb_spec (limit family) (counter family n)) as [|Hlt].
  { intros [= <- <-]. unfold with_counter, counters_ok in *. destruct Hok as [H4 H6].
    destruct (family =? 4); cbn; (split; [|done]); split; try done.
    - apply Z.mod_pos_bound. lia.
    - apply u64_range. }
  assert (0 <= counter family n) as Hc by (unfold counter; destruct Hok; destruct (family =? 4); lia).
  destruct (with_counter_ok family (counter family n + 1) n Hok ltac:(lia)) as (Hok' & Ec & Eo & Ep).
  rewrite Eo, Ep. destruct (ipOwners n !! _) as [o|] eqn:Eown.
  - intros Hrun. destruct (IH _ Hok' Hrun) as [Hok'' Hr]. split; [done|]. destruct r as [ip|err].
    + rewrite Ec, Eo, Ep in Hr. destruct Hr as (v & Hv & Hr). exists v. split; [lia|done].
    + by rewrite Eo, Ep in Hr.
  - intros [= <- <-]. split; [done|]. exists (counter family n). split; [lia|]. done.
Qed.

(** ** The invariant of the book *)

(** The address an unzoned slice stands for. *)
Definition ofSlice (ip : list Z) : ipAddr := if Nat.eqb (length ip) 4 then IPv4 ip else IPv6 ip [].

(** A peer name that stands for itself: no literal, or the key of a literal
    nobody else owns. *)
Definition settled (n : addrBook) (peer : string) : Prop :=
  match parseLiteralIP peer with
  | None => True
  | Some ip => keyOf ip = peer /\ ipOwners n !! peer = Some peer
  end.

Record book_ok (n : addrBook) : Prop := {
  book_counters : counters_ok n;
  book_owners : forall key owner, ipOwners n !! key = Some owner ->
    (exists a, key = keyOf a /\ ip_ok a /\ Unmap a = a) /\ (owner = key \/ parseLiteralIP owner = None);
  book_ips : forall peer ips family ip, peerIPs n !! peer = Some ips -> ips !! family = Some ip ->
    parseLiteralIP peer = None /\ ip_ok (ofSlice ip) /\ Unmap (ofSlice ip) = ofSlice ip /\
    Is4 (ofSlice ip) = (family =? 4) /\ ipOwners n !! keyOf (ofSlice ip) = Some peer
}.

Lemma emptyBook_ok : book_ok emptyBook.
Proof. split; [done| |]; cbn; intros *; by rewrite lookup_empty. Qed.

(** Owners are only ever added. *)
Definition owners_le (n n' : addrBook) : Prop := ipOwners n ⊆ ipOwners n'.

Lemma owners_le_refl n : owners_le n n.
Proof. unfold owners_le. reflexivity. Qed.

Lemma owners_le_eq n n' : ipOwners n' = ipOwners n -> owners_le n n'.
Proof. unfold owners_le. by intros ->. Qed.

Lemma owners_le_trans n1 n2 n3 : owners_le n1 n2 -> owners_le n2 n3 -> owners_le n1 n3.
Proof. unfold owners_le. intros. by etrans. Qed.

#[export] Hint Resolve owners_le_refl : core.

Lemma settled_le n n' peer : owners_le n n' -> settled n peer -> settled n' peer.
Proof.
  unfold settled. intros Hle. destruct (parseLiteralIP peer); [|done]. intros [H1 H2]. split; [done|].
  by eapply lookup_weaken.
Qed.

(** Adding an owner for a key nobody owns. *)
Lemma add_owner_ok n a peer :
  book_ok n -> ip_ok a -> Unmap a = a -> ipOwners n !! keyOf a = None ->
  peer = keyOf a \/ parseLiteralIP peer = None ->
  let n' := mkAddrBook (<[keyOf a := peer]> (ipOwners n)) (peerIPs n) (nextIPv4 n) (nextIPv6 n) in
  book_ok n' /\ owners_le n n'.
Proof.
  intros [Hc Ho Hi] Ha Hu Hnone Hp n'. assert (owners_le n n') as Hle by (by apply insert_subseteq).
  split; [|done]. split; cbn; [done| |].
  - intros key owner [[<- <-]|[Hne Hk]]%lookup_insert_Some; [split; [by exists a|done]|by apply Ho].
  - intros q ips fam ip Hq Hf. destruct (Hi q ips fam ip Hq Hf) as (H1 & H2 & H3 & H4 & H5).
    split_and!; try done. by eapply (lookup_weaken _ (<[keyOf a:=peer]> (ipOwners n))).
Qed.

Lemma canonicalPeerLocked_ok host n :
  book_ok n ->
  let '(peer, n') := canonicalPeerLocked host n in
  book_ok n' /\ owners_le n n' /\ peerIPs n' = peerIPs n /\ settled n' peer /\
  canonicalPeerLocked host n' = (peer, n') /\ canonicalPeerLocked peer n' = (peer, n').
Proof.
  intros Hok. unfold canonicalPeerLocked. destruct (parseLiteralIP host) as [ip|] eqn:Eh.
  2: { unfold settled. rewrite !Eh. by split_and!. }
  destruct (literal_ok _ _ Eh) as [Hip Hum]. pose proof (literal_keyOf ip Hip Hum) as Hkey.
  destruct (ipOwners n !! keyOf ip) as [owner|] eqn:Eo.
  - destruct (book_owners _ Hok _ _ Eo) as [_ Hown]. unfold settled. rewrite Eo.
    destruct Hown as [->|Hown]; [rewrite Hkey, Eo|rewrite Hown]; by split_and!.
  - destruct (add_owner_ok n ip (keyOf ip) Hok Hip Hum Eo ltac:(by left)) as [Hok' Hle].
    split_and!; try done; unfold settled; rewrite ?Hkey; cbn; rewrite lookup_insert_eq; done.
Qed.

Lemma ofSlice_candidate family v :
  ofSlice (AsSlice (candidate family v)) = candidate family v /\ Is4 (candidate family v) = (family =? 4).
Proof. unfold candidate. by destruct (family =? 4). Qed.

(** Registering an allocated address. *)
Lemma register_ok n n' peer family v :
  book_ok n -> parseLiteralIP peer = None -> counters_ok n' ->
  ipOwners n !! keyOf (candidate family v) = None ->
  ipOwners n' = <[keyOf (candidate family v) := peer]> (ipOwners n) ->
  peerIPs n' = <[peer := <[family := AsSlice (candidate family v)]> (default ∅ (peerIPs n !! peer))]> (peerIPs n) ->
  book_ok n' /\ owners_le n n'.
Proof.
  intros [Hc Ho Hi] Hp Hc' Hnone Eo Ep. destruct (candidate_ok family v) as [Ha Hu].
  destruct (ofSlice_candidate family v) as [Hs H4].
  assert (owners_le n n') as Hle by (unfold owners_le; rewrite Eo; by apply insert_subseteq).
  split; [|done]. split; [done| |].
  - intros key owner. rewrite Eo. intros [[<- <-]|[Hne Hk]]%lookup_insert_Some; [|by apply Ho].
    split; [by exists (candidate family v)|by right].
  - assert (forall q ips fam ip, peerIPs n !! q = Some ips -> ips !! fam = Some ip ->
      parseLiteralIP q = None /\ ip_ok (ofSlice ip) /\ Unmap (ofSlice ip) = ofSlice ip /\
      Is4 (ofSlice ip) = (fam =? 4) /\ ipOwners n' !! keyOf (ofSlice ip) = Some q) as Hold.
    { intros q ips fam ip Hq Hf. destruct (Hi q ips fam ip Hq Hf) as (H1 & H2 & H3 & H5 & H6).
      split_and!; try done. by eapply lookup_weaken. }
    intros q ips fam ip. rewrite Ep. intros [[<- <-]|[Hne Hq]]%lookup_insert_Some; [|by apply Hold].
    intros [[<- <-]|[Hnf Hf]]%lookup_insert_Some.
    + rewrite Hs. split_and!; try done. rewrite Eo. apply lookup_insert_eq.
    + destruct (peerIPs n !! peer) as [ips'|] eqn:Eq; cbn in Hf; [by eapply Hold|by rewrite lookup_empty in Hf].
Qed.

(** Making room for a peer changes nothing else. *)
Lemma touch_ok n peer :
  book_ok n ->
  book_ok (mkAddrBook (ipOwners n) (<[peer := default ∅ (peerIPs n !! peer)]> (peerIPs n)) (nextIPv4 n) (nextIPv6 n)).
Proof.
  intros [Hc Ho Hi]. split; [done|done|]. cbn. intros q ips fam ip [[<- <-]|[Hne Hq]]%lookup_insert_Some Hf; [|by eapply Hi].
  destruct (peerIPs n !! peer) as [ips'|] eqn:Eq; cbn in Hf; [by eapply Hi|by rewrite lookup_empty in Hf].
Qed.

(** The lookup of a peer's address of a family. *)
Definition ipOf (n : addrBook) (peer : string) (family : Z) : option (list Z) :=
  peerIPs n !! peer ≫= (fun ips => ips !! family).

Lemma ipOf_default n peer family : ipOf n peer family = default ∅ (peerIPs n !! peer) !! family.
Proof. unfold ipOf. destruct (peerIPs n !! peer); cbn; [done|by rewrite lookup_empty]. Qed.

Lemma default_touch (m : gmap string (gmap Z (list Z))) peer q :
  default ∅ (<[peer := default ∅ (m !! peer)]> m !! q) = default ∅ (m !! q).
Proof.
  destruct (decide (peer = q)) as [->|Hne]; [by rewrite lookup_insert_eq|by rewrite lookup_insert_ne].
Qed.

(** Assigning an address to a name, from a good book. *)
Lemma peerIPLocked_name n peer family :
  book_ok n -> parseLiteralIP peer = None ->
  exists r n', peerIPLocked peer family n = Ret (r, n') /\ book_ok n' /\ owners_le n n' /\
    match r with
    | inl ip => ipOf n' peer family = Some ip
    | inr _ => ipOf n peer family = None
    end /\
    (forall q fam, q <> peer \/ fam <> family -> ipOf n' q fam = ipOf n q fam) /\
    (forall ip, ipOf n peer family = Some ip -> r = inl ip).
Proof.
  intros Hok Hp. unfold peerIPLocked. rewrite Hp.
  set (n1 := mkAddrBook (ipOwners n) _ (nextIPv4 n) (nextIPv6 n)).
  assert (book_ok n1) as Hok1 by (by apply touch_ok).
  assert (forall q fam, ipOf n1 q fam = ipOf n q fam) as Hsame.
  { intros q fam. rewrite !ipOf_default. unfold n1. cbn [peerIPs]. by rewrite default_touch. }
  assert (default ∅ (peerIPs n !! peer) !! family = ipOf n peer family) as Eips by (by rewrite ipOf_default).
  rewrite Eips. destruct (ipOf n peer family) as [ip|] eqn:Eip.
  { exists (inl ip), n1. split; [done|]. split; [done|]. split; [by apply owners_le_eq|]. rewrite Hsame, Eip.
    split; [done|]. split; [by intros; rewrite Hsame|]. by intros ? [= <-]. }
  change (size (ipOwners n)) with (size (ipOwners n1)).
  destruct (allocLoop _ peer family n1) as [[r n']|msg|] eqn:Ea.
  - exists r, n'. split; [done|]. destruct (allocLoop_spec _ _ _ _ _ _ (book_counters _ Hok1) Ea) as [Hc' Hr].
    destruct r as [ip|err].
    + destruct Hr as (v & Hv & -> & Hnone & Eo & Epi).
      destruct (register_ok n1 n' peer family v Hok1 Hp Hc' Hnone Eo Epi) as [Hok' Hle].
      split; [done|]. split; [done|]. split.
      { rewrite ipOf_default, Epi, lookup_insert_eq. cbn. apply lookup_insert_eq. }
      split; [|done]. intros q fam Hne. rewrite <- Hsame, !ipOf_default, Epi.
      destruct (decide (q = peer)) as [->|Hq].
      * rewrite lookup_insert_eq. cbn [default from_option id]. rewrite lookup_insert_ne by (intros ->; by destruct Hne). done.
      * by rewrite lookup_insert_ne by done.
    + destruct Hr as [Eo Epi].
      assert (book_ok n') as Hok'.
      { destruct Hok1 as [_ Ho Hi]. split; [done|by rewrite Eo|by rewrite Eo, Epi]. }
      split; [done|]. split; [by apply owners_le_eq|]. split; [done|]. split; [|done].
      intros q fam _. rewrite <- Hsame, !ipOf_default. by rewrite Epi.
  - by apply allocLoop_no_panic in Ea.
  - by apply allocLoop_total in Ea; [|apply Hok1].
Qed.

(** A literal peer keeps its own bits. *)
Lemma peerIPLocked_literal n peer family a :
  book_ok n -> settled n peer -> parseLiteralIP peer = Some a ->
  peerIPLocked peer family n =
  Ret (if (Is4 a && negb (family =? 4)) || (Is6 a && negb (family =? 6))
       then inr (ErrorString ("address family mismatch: " ++ peer)) else inl (AsSlice a), n).
Proof.
  intros Hok Hs Ha. unfold peerIPLocked, settled in *. rewrite Ha in *. destruct Hs as [Hk Ho].
  destruct (_ || _); [done|]. rewrite Hk, insert_id by done. by destruct n.
Qed.

(** The text of an unzoned, unmapped address. *)
Lemma ipString_keyOf ip : ip_ok (ofSlice ip) -> Unmap (ofSlice ip) = ofSlice ip -> ofBytes (ipString ip) = keyOf (ofSlice ip).
Proof.
  unfold ofSlice, keyOf, ipString. destruct (Nat.eqb (length ip) 4) eqn:E; [done|]. cbn. intros _.
  destruct (decide _); [done|]. intros _. by rewrite app_nil_r.
Qed.

Lemma peerIPLocked_ok n peer family :
  book_ok n -> settled n peer ->
  exists r n', peerIPLocked peer family n = Ret (r, n') /\ book_ok n' /\ owners_le n n'.
Proof.
  intros Hok Hs. destruct (parseLiteralIP peer) as [a|] eqn:Ea.
  - eexists _, n. split; [by apply peerIPLocked_literal|]. done.
  - destruct (peerIPLocked_name n peer family Hok Ea) as (r & n' & E & H1 & H2 & _). eauto.
Qed.

(** What a later book still knows: every owner and every assigned address. *)
Definition book_le (n n' : addrBook) : Prop :=
  owners_le n n' /\ forall q fam ip, ipOf n q fam = Some ip -> ipOf n' q fam = Some ip.

Lemma book_le_refl n : book_le n n.
Proof. by split. Qed.

Lemma book_le_trans n1 n2 n3 : book_le n1 n2 -> book_le n2 n3 -> book_le n1 n3.
Proof. intros [A1 A2] [B1 B2]. split; [by eapply owners_le_trans|auto]. Qed.

#[export] Hint Resolve book_le_refl : core.

Lemma canonicalPeerLocked_le host n peer n' : book_ok n -> canonicalPeerLocked host n = (peer, n') -> book_le n n'.
Proof.
  intros Hok E. pose proof (canonicalPeerLocked_ok host n Hok) as H. rewrite E in H. destruct H as (_ & Hle & Ep & _).
  split; [done|]. intros q fam ip. unfold ipOf. by rewrite Ep.
Qed.

Lemma peerIPLocked_le peer family n r n' :
  book_ok n -> settled n peer -> peerIPLocked peer family n = Ret (r, n') -> book_le n n'.
Proof.
  intros Hok Hs E. destruct (parseLiteralIP peer) as [a|] eqn:Ea.
  - rewrite (peerIPLocked_literal _ _ _ a) in E by done. injection E as _ <-. done.
  - destruct (peerIPLocked_name n peer family Hok Ea) as (r0 & n0 & E0 & _ & Hle & Hr & Hoth & Hsame).
    rewrite E in E0. injection E0 as <- <-. split; [done|]. intros q fam ip Hq.
    destruct (decide (q = peer)) as [->|Hne]; [|by rewrite Hoth by (by left)].
    destruct (decide (fam = family)) as [->|Hnf]; [|by rewrite Hoth by (by right)].
    rewrite (Hsame ip Hq) in Hr. done.
Qed.

(** The failures of an address request are plain messages. *)
Lemma peerIPLocked_err peer family n err n' :
  peerIPLocked peer family n = Ret (inr err, n') -> exists text, err = ErrorString text.
Proof.
  assert (forall fuel n0, allocLoop fuel peer family n0 = Ret (inr err, n') -> exists text, err = ErrorString text) as Hloop.
  { induction fuel as [|fuel IH]; intros n0; [done|]. cbn [allocLoop].
    destruct (nextCandidate family n0) as [[c|e] n1] eqn:Ec.
    - destruct (ipOwners n1 !! keyOf c); [apply IH|done].
    - intros [= <- _]. unfold nextCandidate in Ec. destruct (family =? 4); cbn zeta in Ec.
      + destruct (2 ^ 17 <=? _); [|done]. injection Ec as <- _. eauto.
      + destruct (_ =? _); [|done]. injection Ec as <- _. eauto. }
  unfold peerIPLocked. destruct (parseLiteralIP peer).
  - destruct (_ || _); [|done]. intros [= <- _]. eauto.
  - cbn zeta. destruct (_ !! family); [done|]. apply Hloop.
Qed.

(** The address [ip] is the one [peer] has in a family. *)
Definition ip_of_peer (n : addrBook) (peer : string) (family : Z) (ip : list Z) : Prop :=
  match parseLiteralIP peer with
  | None => ipOf n peer family = Some ip
  | Some a => ip = AsSlice a
  end.

Lemma ip_of_peer_le n n' peer family ip : book_le n n' -> ip_of_peer n peer family ip -> ip_of_peer n' peer family ip.
Proof. intros [_ Hle]. unfold ip_of_peer. destruct (parseLiteralIP peer); [done|apply Hle]. Qed.

Lemma peerIPLocked_gives n peer family ip n' :
  book_ok n -> settled n peer -> peerIPLocked peer family n = Ret (inl ip, n') -> ip_of_peer n' peer family ip.
Proof.
  intros Hok Hs E. unfold ip_of_peer. destruct (parseLiteralIP peer) as [a|] eqn:Ea.
  - rewrite (peerIPLocked_literal _ _ _ a) in E by done. destruct (_ || _); [done|]. by injection E as <- _.
  - destruct (peerIPLocked_name n peer family Hok Ea) as (r & m & E' & _ & _ & Hr & _). rewrite E' in E.
    by injection E as -> ->.
Qed.

(** ** Properties *)

(** Resolving names. A name that is no literal stands for itself; every
    spelling of one IP address resolves to the same peer; resolving is
    idempotent, keeps the book good, and once an answer was given it never
    changes while the book only grows. *)
Theorem canonical_peer_resolution n h1 h2 a :
  book_ok n ->
  (parseLiteralIP h1 = None -> canonicalPeer h1 n = (h1, n)) /\
  (let '(peer, n') := canonicalPeer h1 n in
   book_ok n' /\ owners_le n n' /\ canonicalPeer peer n' = (peer, n') /\
   (parseLiteralIP h1 = Some a -> parseLiteralIP h2 = Some a ->
    forall n'', owners_le n' n'' -> fst (canonicalPeer h2 n'') = peer)).
Proof.
  intros Hok. split.
  { intros E. unfold canonicalPeer, canonicalPeerLocked. by rewrite E. }
  unfold canonicalPeer. pose proof (canonicalPeerLocked_ok h1 n Hok) as H.
  destruct (canonicalPeerLocked h1 n) as [peer n'] eqn:E. destruct H as (H1 & H2 & H3 & H4 & H5 & H6).
  split_and!; try done. intros E1 E2 n'' Hle. unfold canonicalPeerLocked in *. rewrite E1 in H5. rewrite E2.
  destruct (ipOwners n' !! keyOf a) as [owner|] eqn:Eo.
  - injection H5 as ->. by rewrite (lookup_weaken _ _ _ _ Eo Hle).
  - apply (f_equal snd) in H5. cbn in H5. rewrite <- H5 in Eo. cbn in Eo. by rewrite lookup_insert_eq in Eo.
Qed.

Lemma canonical_peer_resolution_witness :
  fst (canonicalPeer "::ffff:10.0.0.1" (snd (canonicalPeer "10.0.0.1" emptyBook))) = "10.0.0.1"%string.
Proof.
  exact (proj2 (proj2 (proj2 (proj2 (canonical_peer_resolution emptyBook "10.0.0.1" "::ffff:10.0.0.1"
    (IPv4 [10; 0; 0; 1]) emptyBook_ok)))) eq_refl eq_refl _ (owners_le_refl _)).
Defined.

(** C27: addresses are assigned once. For a peer name the allocation always
    terminates (within one pass more than there are known addresses); the peer
    gets an address of the family asked for, the same one on every later
    request and whatever other requests come first, no two peers ever share one,
    and the printed address resolves back to the peer. *)
Theorem peer_addresses_distinct n peer family :
  book_ok n -> parseLiteralIP peer = None ->
  exists r n', peerIPLocked peer family n = Ret (r, n') /\ book_ok n' /\ owners_le n n' /\
    forall ip, r = inl ip ->
      length ip = (if family =? 4 then 4%nat else 16%nat) /\
      (exists n'', peerIPLocked peer family n' = Ret (inl ip, n'')) /\
      fst (canonicalPeer (ofBytes (ipString ip)) n') = peer /\
      (forall q fam, ipOf n' q fam = Some ip -> q = peer) /\
      (forall q fam, q <> peer \/ fam <> family -> ipOf n' q fam = ipOf n q fam).
Proof.
  intros Hok Hp. destruct (peerIPLocked_name n peer family Hok Hp) as (r & n' & Er & Hok' & Hle & Hr & Hoth & _).
  exists r, n'. split_and!; [done..|]. intros ip ->.
  assert (forall q fam jp, ipOf n' q fam = Some jp -> ip_ok (ofSlice jp) /\ Unmap (ofSlice jp) = ofSlice jp /\
    Is4 (ofSlice jp) = (fam =? 4) /\ ipOwners n' !! keyOf (ofSlice jp) = Some q) as Hinv.
  { intros q fam jp Hq. unfold ipOf in Hq. destruct (peerIPs n' !! q) as [ips|] eqn:Eq; [|done].
    by destruct (book_ips _ Hok' q ips fam jp Eq Hq) as (_ & H). }
  destruct (Hinv _ _ _ Hr) as (H1 & H2 & H3 & H4). split_and!; [| | | |done].
  - unfold ofSlice in *. destruct (Nat.eqb_spec (length ip) 4) as [E4|E4]; cbn in *; rewrite <- H3; [done|apply H1].
  - destruct (peerIPLocked_name n' peer family Hok' Hp) as (r & n'' & Er' & _ & _ & _ & _ & Hsame).
    exists n''. by rewrite Er', (Hsame ip Hr).
  - rewrite ipString_keyOf by done. unfold canonicalPeer, canonicalPeerLocked.
    rewrite literal_keyOf by done. by rewrite H4.
  - intros q fam Hq. destruct (Hinv _ _ _ Hq) as (_ & _ & _ & H5). congruence.
Qed.

Lemma peer_addresses_distinct_witness :
  exists r n', peerIPLocked "server" 4 emptyBook = Ret (r, n') /\
    (forall ip, r = inl ip -> fst (canonicalPeer (ofBytes (ipString ip)) n') = "server"%string).
Proof.
  destruct (peer_addresses_distinct emptyBook "server" 4 emptyBook_ok eq_refl) as (r & n' & E & _ & _ & H).
  exists r, n'. split; [exact E|]. intros ip Hr. exact (proj1 (proj2 (proj2 (H ip Hr)))).
Defined.

(** An IPv6 literal with a zone breaks the rule that a returned address is
    an alias of its peer: the zone is part of the peer's name but not of the
    address handed out for it, which resolves to another peer. *)
Theorem zoned_literal_is_no_alias :
  let '(peer, n) := canonicalPeer "fe80::1%eth0" emptyBook in
  match peerIPLocked peer 6 n with
  | Ret (inl ip, n') =>
      peer = "fe80::1%eth0"%string /\ fst (canonicalPeer (ofBytes (ipString ip)) n') = "fe80::1"%string
  | _ => False
  end.
Proof. vm_compute. split; reflexivity. Qed.
