(* ===== verification/AddrRoundtrip.v ===== *)
(** * Printed addresses (addr.go, addressing.go): what [String] prints of an
    address handed out parses back, and names the peer it was handed out for *)
From S2P Require Import Prelude GoRuntime Errors NetIP NetIPProps NetIP6 Addr Addressing.
From Stdlib Require Import Ascii.

(** ** IPv4: host and port *)

Lemma string4_plain b : ip_ok (IPv4 b) -> plain_host (ofBytes (string4 b)).
Proof.
  intros [Hlen Hb]. destruct b as [|b0 [|b1 [|b2 [|b3 [|]]]]]; try done.
  rewrite !Forall_cons in Hb. destruct Hb as (B0 & B1 & B2 & B3 & _). unfold is_byte in *.
  assert (forall x : ascii, isDigit x = false -> x <> "."%char -> x ∉ string4 [b0; b1; b2; b3]) as Hfree.
  { intros x Hd Hdot. unfold string4. cbn [map join]. rewrite !itoa_utoa by lia. cbn.
    rewrite !not_elem_of_app, !not_elem_of_cons, !not_elem_of_app, !not_elem_of_cons, !not_elem_of_app, !not_elem_of_cons.
    split_and!; try done; (apply utoa_free; [lia|done]). }
  unfold plain_host. rewrite toBytes_ofBytes. split_and!; by apply Hfree.
Qed.

(** ** IPv6: brackets *)

Lemma hexGroup_other c s : hexVal c = None -> hexGroup (c :: s) 0 0 = Some (0, 0%nat, c :: s).
Proof. intros Hc. cbn. by rewrite Hc. Qed.

(** No address starts with a bracket. *)
Lemma ParseAddr_bracket s : ParseAddr ("["%char :: s) = None.
Proof.
  unfold ParseAddr. destruct (addrKind _) as [c|]; [|done].
  destruct (decide (c = "."%char)); [unfold parseIPv4; by rewrite (parseIPv4Fields_bad "["%char) by (try apply list_elem_of_here; done)|].
  destruct (decide (c = ":"%char)); [|done]. unfold parseIPv6. cbn [cutFirst].
  assert (forall t zone, (let '(ellipsis, s) :=
        match "["%char :: t with
        | c :: c' :: more => if decide (c = ":"%char /\ c' = ":"%char) then (Some 0%nat, more) else (None, "["%char :: t)
        | _ => (None, "["%char :: t)
        end in
      match ellipsis, s with
      | Some _, [] => Some (IPv6 (repeat 0 16) zone)
      | _, _ =>
          match parseGroups 8 [] ellipsis s with
          | Some (ip, ellipsis, []) =>
              if Nat.ltb (length ip) 16 then
                match ellipsis with
                | None => None
                | Some e => Some (IPv6 (take e ip ++ repeat 0 (16 - length ip) ++ drop e ip) zone)
                end
              else match ellipsis with None => Some (IPv6 ip zone) | Some _ => None end
          | _ => None
          end
      end) = None) as Hnone.
  { intros t zone. destruct t as [|x t]; [done|]. by rewrite decide_False by (intros [? ?]; congruence). }
  rewrite decide_False by done. destruct (cutFirst "%"%char s) as [[a [|z zs]]|]; [done|apply Hnone..].
Qed.

Lemma string6_free b c :
  length b = 16%nat -> Forall is_byte b -> hexVal c = None -> c <> ":"%char -> c ∉ string6 b.
Proof.
  intros Hlen Hb Hc Hne. destruct (string6_forms b Hlen Hb) as (gs & Hl & Hg & _ & [->|(l & n & r & Hgs & Hn & ->)]).
  - by apply groupText_free.
  - rewrite Hgs in Hg. apply Forall_app in Hg as [Hgl Hg]. apply Forall_app in Hg as [_ Hgr].
    rewrite elem_of_app, !elem_of_cons. intros [?|[?|[?|?]]]; try done; (eapply groupText_free; [| | |eassumption]; done).
Qed.

Lemma SplitHostPort_bracket host port :
  "["%char ∉ host -> "]"%char ∉ host -> ":"%char ∉ port -> "["%char ∉ port -> "]"%char ∉ port ->
  SplitHostPort ("["%char :: host ++ "]"%char :: ":"%char :: port) = Some (host, port).
Proof.
  intros H1 H2 H3 H4 H5. unfold SplitHostPort.
  replace ("["%char :: host ++ "]"%char :: ":"%char :: port) with (("["%char :: host ++ ["]"%char]) ++ ":"%char :: port)
    by (cbn; by rewrite <- app_assoc).
  rewrite cutLast_app by done. cbn zeta. cbn [app]. rewrite decide_True by done. rewrite cutFirst_app by done.
  by rewrite (proj2 (contains_false "["%char host) H1), (proj2 (contains_false "["%char port) H4), (proj2 (contains_false "]"%char port) H5).
Qed.

(** ** The round trip *)

(** Whatever the family of the address. *)
Lemma splitAddr_printed network peer port ip :
  ip_ok (ofSlice ip) -> Unmap (ofSlice ip) = ofSlice ip -> 0 <= port <= maxPort ->
  splitAddr (addr_String (mkAddr network peer port (Some ip))) = inl (keyOf (ofSlice ip), port, negb (port =? 0)).
Proof.
  intros Hok Hun Hp. pose proof (ipString_keyOf ip Hok Hun) as Hkey. unfold addr_String. cbn [addr_ip addr_port].
  unfold maxPort in Hp. rewrite itoa_utoa by lia. rewrite <- Hkey.
  assert (forall c, isDigit c = false -> c ∉ utoa port) as Hd by (intros c Hc; apply utoa_free; [lia|done]).
  unfold ofSlice in Hok, Hun. unfold ipString in *. destruct (Nat.eqb (length ip) 4).
  - destruct (string4_plain ip Hok) as (H1 & H2 & H3). rewrite toBytes_ofBytes in H1, H2, H3.
    unfold JoinHostPort. rewrite (proj2 (contains_false _ _) H1).
    apply splitAddr_port; rewrite ?toBytes_ofBytes.
    + unfold parseLiteralIP. rewrite toBytes_ofBytes, ParseAddr_host_port by auto. done.
    + apply elem_of_app. right. apply elem_of_cons. by left.
    + apply SplitHostPort_plain; auto.
    + done.
  - destruct Hok as [Hlen Hb]. cbn in Hun. destruct (decide (take 12 ip = v4InV6Prefix)); [done|].
    destruct (string6_chars ip Hlen Hb) as (_ & _ & Hcolon).
    unfold JoinHostPort. rewrite (proj2 (contains_spec _ _) Hcolon).
    apply splitAddr_port; rewrite ?toBytes_ofBytes.
    + unfold parseLiteralIP. by rewrite toBytes_ofBytes, ParseAddr_bracket.
    + rewrite !elem_of_cons, elem_of_app, !elem_of_cons. auto.
    + apply SplitHostPort_bracket; auto; by apply string6_free.
    + done.
Qed.

(** No zone: a zoned literal is handed an address without its zone, which is
    another peer's. *)
Definition zoneless (peer : string) : Prop := forall b zone, parseLiteralIP peer = Some (IPv6 b zone) -> zone = [].

Lemma address_owned n peer family ip :
  book_ok n -> settled n peer -> zoneless peer -> ip_of_peer n peer family ip ->
  ip_ok (ofSlice ip) /\ Unmap (ofSlice ip) = ofSlice ip /\ ipOwners n !! keyOf (ofSlice ip) = Some peer.
Proof.
  intros Hok Hs Hz Hip. unfold ip_of_peer in Hip. destruct (parseLiteralIP peer) as [a|] eqn:Ea.
  - subst ip. destruct (literal_ok _ _ Ea) as [Hip Hun]. unfold settled in Hs. rewrite Ea in Hs. destruct Hs as [Hk Ho].
    assert (ofSlice (AsSlice a) = a) as ->.
    { unfold ofSlice. destruct a as [b|b zone]; destruct Hip as [Hlen _]; cbn; rewrite Hlen; [done|]. by rewrite (Hz b zone Ea). }
    by rewrite Hk.
  - unfold ipOf in Hip. destruct (peerIPs n !! peer) as [ips|] eqn:Ep; [|done]. cbn in Hip.
    by destruct (book_ips _ Hok peer ips family ip Ep Hip) as (_ & H1 & H2 & _ & H3).
Qed.

(** An address printed, taken apart, and resolved. *)
Lemma printed_resolves n network peer family port ip :
  book_ok n -> settled n peer -> zoneless peer -> ip_of_peer n peer family ip -> 0 <= port <= maxPort ->
  let printed := addr_String (mkAddr network peer port (Some ip)) in
  exists host, splitAddr printed = inl (host, port, negb (port =? 0)) /\
    peerName printed = host /\
    parseLiteralIP host = Some (ofSlice ip) /\
    canonicalPeer host n = (peer, n).
Proof.
  intros Hok Hs Hz Hof Hp printed. destruct (address_owned _ _ _ _ Hok Hs Hz Hof) as (Hip & Hun & Hown).
  pose proof (splitAddr_printed network peer port ip Hip Hun Hp) as Hsplit. fold printed in Hsplit.
  exists (keyOf (ofSlice ip)). split; [done|]. split; [unfold peerName; by rewrite Hsplit|].
  pose proof (literal_keyOf _ Hip Hun) as Hlit. split; [done|].
  unfold canonicalPeer, canonicalPeerLocked. by rewrite Hlit, Hown.
Qed.

(** C26: a printed address is an address. What a listener or a connection prints
    as its address, with the IP the Network assigned to a peer in either family
    (brackets around IPv6), is taken apart into exactly that IP and its port, a
    port 0 being no port; the host part parses to the IP, and it names the peer it
    was assigned to, then and as long as the Network lives. (A literal with a
    zone is the exception.) *)
Theorem printed_address_roundtrip network peer family port ip n n1 n2 :
  book_ok n -> settled n peer -> zoneless peer -> 0 <= port <= maxPort ->
  peerIPLocked peer family n = Ret (inl ip, n1) -> book_le n1 n2 -> book_ok n2 ->
  let printed := addr_String (mkAddr network peer port (Some ip)) in
  exists host, splitAddr printed = inl (host, port, negb (port =? 0)) /\
    peerName printed = host /\
    parseLiteralIP host = Some (ofSlice ip) /\
    canonicalPeer host n2 = (peer, n2).
Proof.
  intros Hok Hs Hz Hp E Hle Hok2. apply (printed_resolves n2 _ _ family); try done.
  - eapply settled_le; [|exact Hs]. eapply owners_le_trans; [|apply Hle]. eapply peerIPLocked_le; [exact Hok|exact Hs|exact E].
  - eapply ip_of_peer_le; [exact Hle|]. exact (peerIPLocked_gives _ _ _ _ _ Hok Hs E).
Qed.

(** The first IPv6 address of an empty book: "[fd00::]:8080". *)
Lemma printed_address_roundtrip_witness :
  exists host, splitAddr (addr_String (mkAddr "tcp6" "server" 8080 (Some [253; 0; 0; 0; 0; 0; 0; 0; 0; 0; 0; 0; 0; 0; 0; 0]))) =
    inl (host, 8080, true) /\ host = "fd00::"%string.
Proof.
  destruct (peerIPLocked "server" 6 emptyBook) as [[[ip|] n1]| |] eqn:E; try (vm_compute in E; discriminate E).
  assert (ip = [253; 0; 0; 0; 0; 0; 0; 0; 0; 0; 0; 0; 0; 0; 0; 0]) as -> by (vm_compute in E; congruence).
  assert (book_ok n1) as Hok1.
  { destruct (peerIPLocked_ok emptyBook "server" 6 emptyBook_ok I) as (r & m & E1 & Hm & _). rewrite E in E1. by injection E1 as _ <-. }
  destruct (printed_address_roundtrip "tcp6" "server" 6 8080 _ emptyBook n1 n1 emptyBook_ok I
    ltac:(intros b zone Hz; vm_compute in Hz; discriminate Hz) ltac:(unfold maxPort; lia) E ltac:(by split) Hok1) as (host & H1 & _).
  exists host. split; [exact H1|]. vm_compute in H1. congruence.
Defined.
