(* ===== verification/Listener.v ===== *)
(** * Listeners (listener.go): the bounded accept queue

    A connection in the queue is whatever reference its Network uses. [Close] is
    given by its two atomic parts, marking the listener closed and draining one
    queued connection, since Accept and Dial can run between them. *)
From S2P Require Import Prelude GoRuntime Errors.

Definition listenerBacklog : Z := 128.

Record listener (C : Type) : Type := mkListener {
  l_addr : addr;
  l_incoming : list C;   (** the buffered channel, oldest first *)
  l_cap : Z;             (** its capacity *)
  l_closed : bool;       (** [closed] is set and [closedCh] closed *)
  l_reserved : Z
}.
Arguments mkListener {C}.
Arguments l_addr {C}.
Arguments l_incoming {C}.
Arguments l_cap {C}.
Arguments l_closed {C}.
Arguments l_reserved {C}.

Section listener.
Context {C : Type} `{!Platform}.
Implicit Types (l : listener C) (c : C).

Definition set_incoming l (q : list C) : listener C := mkListener (l_addr l) q (l_cap l) (l_closed l) (l_reserved l).
Definition set_reserved l (r : Z) : listener C := mkListener (l_addr l) (l_incoming l) (l_cap l) (l_closed l) r.
Definition set_l_closed l : listener C := mkListener (l_addr l) (l_incoming l) (l_cap l) true (l_reserved l).

Definition listener_opError l (op : string) (err : goerror) : goerror :=
  OpError op (addr_network (l_addr l)) None (Some (l_addr l)) err.

(** The select of [Accept]: both cases can be ready, and then Go picks either. *)
Inductive acceptResult : Type :=
| Accepted (c : C)
| AcceptErr (err : goerror)
| AcceptBlocks.

Definition Accept (preferQueue : bool) l : acceptResult * listener C :=
  match l_incoming l with
  | c :: q =>
      if l_closed l && negb preferQueue then (AcceptErr (listener_opError l "accept" ErrClosed), l)
      else (Accepted c, set_incoming l q)
  | [] =>
      if l_closed l then (AcceptErr (listener_opError l "accept" ErrClosed), l) else (AcceptBlocks, l)
  end.

Definition reserve l : option goerror * listener C :=
  if l_closed l then (Some ErrConnectionRefused, l)
  else if l_cap l <=? zlen (l_incoming l) + l_reserved l then (Some ErrBacklogFull, l)
  else (None, set_reserved l (l_reserved l + 1)).

(** What [fill] does with the connection: queued, closed because the listener
    closed meanwhile, or blocked on a full channel. *)
Inductive fillResult : Type := Filled | FillCloses | FillBlocks.

Definition fill c l : fillResult * listener C :=
  let l := set_reserved l (l_reserved l - 1) in
  if l_closed l then (FillCloses, l)
  else if l_cap l <=? zlen (l_incoming l) then (FillBlocks, l)
  else (Filled, set_incoming l (l_incoming l ++ [c])).

Definition enqueue c l : option goerror * (option fillResult * listener C) :=
  match reserve l with
  | (Some err, l) => (Some err, (None, l))
  | (None, l) => let '(r, l) := fill c l in (None, (Some r, l))
  end.

(** [Close] under the lock: [false] when it was closed already. Taking the
    address out of the topology is the Network's. *)
Definition closeMark l : bool * listener C :=
  if l_closed l then (false, l) else (true, set_l_closed l).

(** One round of the loop of [Close]: a connection to close, or the end. *)
Definition drainOne l : option C * listener C :=
  match l_incoming l with
  | c :: q => (Some c, set_incoming l q)
  | [] => (None, l)
  end.

(** ** Every interleaving of dials, accepts and closes *)

(** The history of a listener: what fills handed over, what accepts returned,
    what it closed itself. *)
Record history : Type := mkHistory {
  h_offered : list C;
  h_accepted : list C;
  h_closed : list C
}.

Inductive listener_step : listener C * history -> listener C * history -> Prop :=
| lst_reserve l h e l' : reserve l = (e, l') -> listener_step (l, h) (l', h)
| lst_fill l h c r l' :
    0 < l_reserved l -> fill c l = (r, l') ->
    listener_step (l, h)
      (l', mkHistory (h_offered h ++ [c]) (h_accepted h)
             (match r with FillCloses => h_closed h ++ [c] | _ => h_closed h end))
| lst_accept l h b r l' :
    Accept b l = (r, l') ->
    listener_step (l, h)
      (l', mkHistory (h_offered h) (match r with Accepted c => h_accepted h ++ [c] | _ => h_accepted h end) (h_closed h))
| lst_close l h b l' : closeMark l = (b, l') -> listener_step (l, h) (l', h)
| lst_drain l h r l' :
    l_closed l = true -> drainOne l = (r, l') ->
    listener_step (l, h)
      (l', mkHistory (h_offered h) (h_accepted h) (match r with Some c => h_closed h ++ [c] | None => h_closed h end)).

Definition newListener (a : addr) (cap : Z) : listener C := mkListener a [] cap false 0.
Definition noHistory : history := mkHistory [] [] [].

Definition backlog_ok l : Prop := 0 <= l_reserved l /\ zlen (l_incoming l) + l_reserved l <= l_cap l.

Definition balanced (s : listener C * history) : Prop :=
  let '(l, h) := s in
  h_offered h ≡ₚ h_accepted h ++ h_closed h ++ l_incoming l /\
  (l_closed l = false -> h_closed h = [] /\ h_offered h = h_accepted h ++ l_incoming l).

Lemma reserve_ok l e l' : backlog_ok l -> reserve l = (e, l') ->
  backlog_ok l' /\ l_closed l' = l_closed l /\ l_incoming l' = l_incoming l /\ l_cap l' = l_cap l.
Proof.
  unfold reserve, backlog_ok. intros Hok. destruct (l_closed l) eqn:Ec; [intros [= <- <-]; by rewrite Ec|].
  destruct (Z.leb_spec (l_cap l) (zlen (l_incoming l) + l_reserved l)); intros [= <- <-]; cbn; (split; [lia|done]).
Qed.

Lemma fill_ok c l r l' : backlog_ok l -> 0 < l_reserved l -> fill c l = (r, l') ->
  backlog_ok l' /\ r <> FillBlocks /\ l_closed l' = l_closed l /\ l_cap l' = l_cap l /\
  (r = FillCloses <-> l_closed l = true) /\
  l_incoming l' = (if l_closed l then l_incoming l else l_incoming l ++ [c]).
Proof.
  unfold fill, backlog_ok. intros Hok Hpos. cbn. destruct (l_closed l) eqn:Ec.
  - intros [= <- <-]. cbn. split_and!; try done; lia.
  - destruct (Z.leb_spec (l_cap l) (zlen (l_incoming l))); [lia|]. intros [= <- <-]. cbn.
    rewrite zlen_app. unfold zlen at 2. cbn. split_and!; try done; lia.
Qed.

Lemma listener_step_ok s s' :
  backlog_ok (fst s) -> balanced s -> listener_step s s' ->
  backlog_ok (fst s') /\ balanced s' /\ l_cap (fst s') = l_cap (fst s).
Proof.
  intros Hok Hbal Hst. destruct Hst as [l h e l' Hr|l h c r l' Hpos Hf|l h b r l' Ha|l h b l' Hc|l h r l' Hcl Hd];
    cbn [fst] in *; destruct Hbal as [Hp Hb].
  - destruct (reserve_ok _ _ _ Hok Hr) as (H1 & H2 & H3 & H4). split; [done|]. split; [|done].
    unfold balanced. by rewrite H2, H3.
  - destruct (fill_ok _ _ _ _ Hok Hpos Hf) as (H1 & H2 & H3 & H4 & H5 & H6). split; [done|]. split; [|done].
    unfold balanced. cbn. rewrite H3, H6. destruct (l_closed l) eqn:Ec.
    + destruct r; try (by destruct H5 as [_ H5]; discriminate (H5 eq_refl)). split; [|done].
      rewrite Hp. rewrite <- !app_assoc. do 2 f_equiv. by rewrite Permutation_app_comm.
    + assert (r <> FillCloses) as Hnc by (intros ->; by destruct H5 as [H5 _]; discriminate (H5 eq_refl)).
      destruct (Hb eq_refl) as [E1 E2]. destruct r; try done. rewrite E1, E2. cbn. split; [by rewrite app_assoc|].
      intros _. by rewrite <- app_assoc.
  - unfold Accept in Ha. destruct (l_incoming l) as [|c q] eqn:Eq.
    + assert (l' = l /\ forall c, r <> Accepted c) as [-> Hr] by (destruct (l_closed l); injection Ha as <- <-; done).
      unfold balanced. split; [done|]. split; [|done]. cbn. rewrite Eq. destruct r; [by destruct (Hr c)|done|done].
    + destruct (l_closed l && negb b) eqn:Ec; injection Ha as <- <-; cbn.
      { split; [done|]. split; [|done]. by rewrite Eq. }
      split; [unfold backlog_ok in *; cbn; rewrite Eq, zlen_cons in Hok; lia|]. split; [|done]. split.
      * rewrite Hp, <- !app_assoc. f_equiv. cbn. by rewrite Permutation_middle.
      * intros Hcl. destruct (Hb Hcl) as [E1 E2]. split; [done|]. by rewrite E2, <- app_assoc.
  - unfold closeMark in Hc. destruct (l_closed l) eqn:Ec; injection Hc as <- <-; cbn; [by rewrite Ec|].
    split; [done|]. split; [|done]. by split.
  - unfold drainOne in Hd. destruct (l_incoming l) as [|c q] eqn:Eq; injection Hd as <- <-; cbn.
    { split; [done|]. split; [|done]. by rewrite Eq, Hcl. }
    split; [unfold backlog_ok in *; cbn; rewrite Eq, zlen_cons in Hok; lia|]. split; [|done]. split; [|by rewrite Hcl].
    rewrite Hp, <- !app_assoc. done.
Qed.

Lemma listener_run_ok s s' :
  backlog_ok (fst s) -> balanced s -> rtc listener_step s s' ->
  backlog_ok (fst s') /\ balanced s' /\ l_cap (fst s') = l_cap (fst s).
Proof.
  intros Hok Hbal Hst. induction Hst as [s|s1 s2 s3 H1 H2 IH]; [done|].
  destruct (listener_step_ok _ _ Hok Hbal H1) as (Hok2 & Hbal2 & <-). by apply IH.
Qed.

Lemma newListener_ok a cap : 0 <= cap -> backlog_ok (fst (newListener a cap, noHistory)).
Proof. split; cbn; [done|unfold zlen; cbn; lia]. Qed.

Lemma newListener_balanced a cap : balanced (newListener a cap, noHistory).
Proof. by split. Qed.

(** ** Properties *)

(** The backlog. Whatever dials, accepts and closes come in whatever order,
    the queue and the slots reserved for dials under way never exceed the
    backlog; a reservation is refused exactly when the listener is closed
    (connection refused) or all slots are taken (backlog full); and once a slot
    is reserved, filling it never blocks and never fails, even after a Close. *)
Theorem backlog_bounded a cap l h c :
  0 <= cap -> rtc listener_step (newListener a cap, noHistory) (l, h) ->
  zlen (l_incoming l) + l_reserved l <= cap /\
  (fst (reserve l) = Some ErrConnectionRefused <-> l_closed l = true) /\
  (fst (reserve l) = Some ErrBacklogFull <-> l_closed l = false /\ zlen (l_incoming l) + l_reserved l = cap) /\
  (0 < l_reserved l -> fst (fill c l) = if l_closed l then FillCloses else Filled).
Proof.
  intros Hcap Hst. destruct (listener_run_ok _ _ (newListener_ok a cap Hcap) (newListener_balanced a cap) Hst) as (Hok & _ & Ecap). cbn in *. destruct Hok as [H1 H2]. rewrite Ecap in H2.
  split; [done|]. unfold reserve. rewrite Ecap. split; [|split].
  - destruct (l_closed l); [done|]. destruct (Z.leb_spec cap (zlen (l_incoming l) + l_reserved l)); done.
  - destruct (l_closed l); [split; [done|by intros []]|].
    destruct (Z.leb_spec cap (zlen (l_incoming l) + l_reserved l)); cbn.
    + split; [intros _; split; [done|lia]|done].
    + split; [done|]. intros [_ E]. exfalso. lia.
  - intros Hpos. destruct (fill c l) as [r l'] eqn:Ef.
    assert (backlog_ok l) as Hok by (split; lia).
    destruct (fill_ok c l r l' Hok Hpos Ef) as (_ & Hb & _ & _ & Hc & _). cbn.
    destruct (l_closed l); [by apply Hc|]. destruct r; [done| |done]. by destruct Hc as [Hc _]; discriminate (Hc eq_refl).
Qed.

(** No connection is lost or delivered twice. Every connection a dial handed
    over is at any time in exactly one place: returned by one Accept, closed by
    the listener, or still queued; and as long as the listener is open they are
    accepted in the order they came, and none is closed. *)
Theorem accept_exactly_once a cap l h :
  0 <= cap -> rtc listener_step (newListener a cap, noHistory) (l, h) ->
  h_offered h ≡ₚ h_accepted h ++ h_closed h ++ l_incoming l /\
  (l_closed l = false -> h_closed h = [] /\ h_offered h = h_accepted h ++ l_incoming l).
Proof.
  intros Hcap Hst. by destruct (listener_run_ok _ _ (newListener_ok a cap Hcap) (newListener_balanced a cap) Hst) as (_ & Hbal & _).
Qed.
End listener.

(** ** Witnesses *)

Section witnesses.
#[local] Instance witness_listener_platform : Platform := false.

Definition w_laddr : addr := mkAddr "tcp" "server" 8000 None.

(** Two slots reserved, one filled, the listener closed, the other filled. *)
Definition w_listener : listener nat := mkListener w_laddr [1%nat] 2 true 0.
Definition w_history : history := mkHistory [1%nat; 2%nat] [] [2%nat].

Lemma w_listener_run : rtc listener_step (newListener w_laddr 2, noHistory) (w_listener, w_history).
Proof.
  eapply rtc_l; [eapply lst_reserve; reflexivity|].
  eapply rtc_l; [eapply lst_reserve; reflexivity|].
  eapply rtc_l; [eapply (lst_fill _ _ 1%nat); [|reflexivity]; reflexivity|].
  eapply rtc_l; [eapply lst_close; reflexivity|].
  eapply rtc_l; [eapply (lst_fill _ _ 2%nat); [|reflexivity]; reflexivity|].
  apply rtc_refl.
Qed.

Lemma backlog_bounded_witness : zlen (l_incoming w_listener) + l_reserved w_listener <= 2.
Proof. exact (proj1 (backlog_bounded w_laddr 2 w_listener w_history 3%nat ltac:(lia) w_listener_run)). Defined.

Lemma accept_exactly_once_witness : [1%nat; 2%nat] ≡ₚ [] ++ [2%nat] ++ [1%nat].
Proof. exact (proj1 (accept_exactly_once w_laddr 2 w_listener w_history ltac:(lia) w_listener_run)). Defined.
End witnesses.
