(* ===== verification/Network.v ===== *)
(** * The Network (netchaos.go, partition.go, reset.go)

    All the state a Network owns, with its listeners and established connections
    as heaps: a [*listener] is an index into [n_heap], a [*conn] the index of its
    connection in [n_conns] and a side. Each definition is one method, or one
    locked section of [DialContext], with nothing interleaved inside. *)
From S2P Require Import Prelude GoRuntime Errors Float64 Rand Partition Trace PipeState Faults FaultProps Pipe.
From S2P Require Import Deadline Options Conn NetIP Addr Addressing Listener.

Abbreviation connRef := (nat * connSide)%type.

Section network.
Context {Src : Type} `{!DrawSource Src} `{!RejectFuel} `{!Platform}.

Record Network : Type := mkNetwork {
  n_seed : Z;
  n_traceEnabled : bool;
  n_faults : faultConfig;
  n_part : partState;
  n_book : addrBook;
  n_listeners : gmap string (gmap Z nat);
  n_heap : list (listener connRef);
  n_nextOrdinal : Z;
  n_nextListenPort : Z;
  n_nextWildcard : Z;
  n_pipeBound : Z;
  n_listenerBacklog : Z;
  n_resetTargets : gmap pairKey (list connRef);
  n_traces : list traceHandle;
  n_conns : list (link Src)
}.
Implicit Types (n : Network).

Definition set_faults n (x : faultConfig) : Network :=
  mkNetwork (n_seed n) (n_traceEnabled n) x (n_part n) (n_book n) (n_listeners n) (n_heap n) (n_nextOrdinal n)
    (n_nextListenPort n) (n_nextWildcard n) (n_pipeBound n) (n_listenerBacklog n) (n_resetTargets n) (n_traces n) (n_conns n).
Definition set_part n (x : partState) : Network :=
  mkNetwork (n_seed n) (n_traceEnabled n) (n_faults n) x (n_book n) (n_listeners n) (n_heap n) (n_nextOrdinal n)
    (n_nextListenPort n) (n_nextWildcard n) (n_pipeBound n) (n_listenerBacklog n) (n_resetTargets n) (n_traces n) (n_conns n).
Definition set_book n (x : addrBook) : Network :=
  mkNetwork (n_seed n) (n_traceEnabled n) (n_faults n) (n_part n) x (n_listeners n) (n_heap n) (n_nextOrdinal n)
    (n_nextListenPort n) (n_nextWildcard n) (n_pipeBound n) (n_listenerBacklog n) (n_resetTargets n) (n_traces n) (n_conns n).
Definition set_listeners n (x : gmap string (gmap Z nat)) : Network :=
  mkNetwork (n_seed n) (n_traceEnabled n) (n_faults n) (n_part n) (n_book n) x (n_heap n) (n_nextOrdinal n)
    (n_nextListenPort n) (n_nextWildcard n) (n_pipeBound n) (n_listenerBacklog n) (n_resetTargets n) (n_traces n) (n_conns n).
Definition set_heap n (x : list (listener connRef)) : Network :=
  mkNetwork (n_seed n) (n_traceEnabled n) (n_faults n) (n_part n) (n_book n) (n_listeners n) x (n_nextOrdinal n)
    (n_nextListenPort n) (n_nextWildcard n) (n_pipeBound n) (n_listenerBacklog n) (n_resetTargets n) (n_traces n) (n_conns n).
Definition set_nextOrdinal n (x : Z) : Network :=
  mkNetwork (n_seed n) (n_traceEnabled n) (n_faults n) (n_part n) (n_book n) (n_listeners n) (n_heap n) x
    (n_nextListenPort n) (n_nextWildcard n) (n_pipeBound n) (n_listenerBacklog n) (n_resetTargets n) (n_traces n) (n_conns n).
Definition set_nextListenPort n (x : Z) : Network :=
  mkNetwork (n_seed n) (n_traceEnabled n) (n_faults n) (n_part n) (n_book n) (n_listeners n) (n_heap n) (n_nextOrdinal n)
    x (n_nextWildcard n) (n_pipeBound n) (n_listenerBacklog n) (n_resetTargets n) (n_traces n) (n_conns n).
Definition set_nextWildcard n (x : Z) : Network :=
  mkNetwork (n_seed n) (n_traceEnabled n) (n_faults n) (n_part n) (n_book n) (n_listeners n) (n_heap n) (n_nextOrdinal n)
    (n_nextListenPort n) x (n_pipeBound n) (n_listenerBacklog n) (n_resetTargets n) (n_traces n) (n_conns n).
Definition set_resetTargets n (x : gmap pairKey (list connRef)) : Network :=
  mkNetwork (n_seed n) (n_traceEnabled n) (n_faults n) (n_part n) (n_book n) (n_listeners n) (n_heap n) (n_nextOrdinal n)
    (n_nextListenPort n) (n_nextWildcard n) (n_pipeBound n) (n_listenerBacklog n) x (n_traces n) (n_conns n).
Definition set_traces n (x : list traceHandle) : Network :=
  mkNetwork (n_seed n) (n_traceEnabled n) (n_faults n) (n_part n) (n_book n) (n_listeners n) (n_heap n) (n_nextOrdinal n)
    (n_nextListenPort n) (n_nextWildcard n) (n_pipeBound n) (n_listenerBacklog n) (n_resetTargets n) x (n_conns n).
Definition set_conns n (x : list (link Src)) : Network :=
  mkNetwork (n_seed n) (n_traceEnabled n) (n_faults n) (n_part n) (n_book n) (n_listeners n) (n_heap n) (n_nextOrdinal n)
    (n_nextListenPort n) (n_nextWildcard n) (n_pipeBound n) (n_listenerBacklog n) (n_resetTargets n) (n_traces n) x.

(** ** Peer names *)

Definition resolvePeer (name : string) n : string * Network :=
  let '(peer, book) := canonicalPeer (peerName name) (n_book n) in (peer, set_book n book).

(** [newPairKey(n.canonicalPeer(peerName(a)), n.canonicalPeer(peerName(b)))] *)
Definition resolvePair (a b : string) n : pairKey * Network :=
  let '(pa, n) := resolvePeer a n in
  let '(pb, n) := resolvePeer b n in
  (newPairKey pa pb, n).

(** ** Construction *)

Definition NewNetwork (opts : list (option Option)) : go Network :=
  cfg ← applyOptions 0 opts initialConfig;
  _ ← validate cfg;
  let pipeBound := if nc_pipeBoundEnabled cfg then nc_pipeBound cfg else defaultPipeBound in
  let backlog := if nc_listenerBacklogEnabled cfg then nc_listenerBacklog cfg else listenerBacklog in
  let n := mkNetwork (nc_seed cfg) (nc_traceEnabled cfg) (nc_faults cfg) (mkPartState ∅ 0%nat) emptyBook ∅ []
             0 listenPortBase 0 pipeBound backlog ∅ [] [] in
  Ret (fold_left (fun n p =>
         let '(k, n) := resolvePair (peerA p) (peerB p) n in
         set_part n (mkPartState ({[k]} ∪ partitions (n_part n)) (partNotify (n_part n))))
       (nc_staticPartitions cfg) n).

(** ** Listeners *)

Definition listenOpError (network laddr : string) (err : goerror) : goerror :=
  OpError "listen" network None (errAddr network laddr) err.
Definition dialOpError (network dialAddr : string) (err : goerror) : goerror :=
  OpError "dial" network None (errAddr network dialAddr) err.

(** [n.listeners[peer][port]] *)
Definition listenerAt n (peer : string) (port : Z) : option nat :=
  n_listeners n !! peer ≫= (fun ports => ports !! port).

(** The loop that synthesizes a port: the port it stops at, and the counter. *)
Fixpoint pickPort (attempts : nat) n (peer : string) (port next : Z) : Z * Z :=
  match attempts with
  | O => (port, next)
  | S attempts =>
      let port := next in
      let next := next + 1 in
      let next := if maxPort <? next then listenPortBase else next in
      match listenerAt n peer port with
      | Some _ => pickPort attempts n peer port next
      | None => (port, next)
      end
  end.

(** The attempts of the loop: one per port there is to give. *)
Definition portAttempts : nat := Z.to_nat (maxPort - listenPortBase + 1).

(** The port of a Listen: the one asked for, or the next free one. *)
Definition listenPort (peer : string) (port : Z) (explicit : bool) n : Z * Network :=
  if negb explicit then
    let '(port, next) := pickPort portAttempts n peer port (n_nextListenPort n) in
    (port, set_nextListenPort n next)
  else (port, n).

(** The end of [Listen]: the port must be free; then the address, and the table. *)
Definition listenRegister (network laddr peer : string) (port : Z) n : go ((nat + goerror) * Network) :=
  match listenerAt n peer port with
  | Some _ => Ret (inr (listenOpError network laddr ErrAddressInUse), n)
  | None =>
      r ← peerIPLocked peer (addressFamily network peer) (n_book n);
      let '(r, book) := r in
      let n := set_book n book in
      match r with
      | inr err => Ret (inr (listenOpError network laddr err), n)
      | inl ip =>
          let l := newListener (mkAddr network peer port (Some ip)) (n_listenerBacklog n) in
          let id := length (n_heap n) in
          let n := set_heap n (n_heap n ++ [l]) in
          let ports := default ∅ (n_listeners n !! peer) in
          Ret (inl id, set_listeners n (<[peer := <[port := id]> ports]> (n_listeners n)))
      end
  end.

Definition Listen (network laddr : string) n : go ((nat + goerror) * Network) :=
  match validateNetwork network with
  | Some err => Ret (inr (listenOpError network laddr err), n)
  | None =>
  match splitAddr laddr with
  | inr err => Ret (inr (listenOpError network laddr err), n)
  | inl (peer, port, explicit) =>
      let '(peer, n) :=
        if String.eqb peer "" then
          (wildcardPeerName (n_nextWildcard n), set_nextWildcard n (u64 (n_nextWildcard n + 1)))
        else (peer, n) in
      let taken :=
        match parseLiteralIP peer with
        | Some ip =>
            match ipOwners (n_book n) !! keyOf ip with
            | Some owner => negb (String.eqb owner (keyOf ip))
            | None => false
            end
        | None => false
        end in
      if taken then Ret (inr (listenOpError network laddr ErrAddressInUse), n)
      else
        let '(peer, book) := canonicalPeerLocked peer (n_book n) in
        let n := set_book n book in
        let '(port, n) := listenPort peer port explicit n in
        listenRegister network laddr peer port n
  end
  end.

Definition deregister (a : addr) n : Network :=
  match n_listeners n !! addr_peer a with
  | None => n
  | Some ports =>
      let ports := delete (addr_port a) ports in
      set_listeners n
        (if decide (ports = ∅) then delete (addr_peer a) (n_listeners n)
         else <[addr_peer a := ports]> (n_listeners n))
  end.

(** ** Connections in the Network *)

(** What an operation at [now] observes of the Network. *)
Definition viewAt (now : Time) n : netView := mkNetView now (n_part n) (n_faults n).

Definition upd_conn (i : nat) (f : link Src -> link Src) n : Network := set_conns n (alter f i (n_conns n)).

Definition registerReset (pair : pairKey) (conns : list connRef) n : Network :=
  set_resetTargets n (<[pair := default [] (n_resetTargets n !! pair) ++ conns]> (n_resetTargets n)).

(** Remove the first occurrence. *)
Fixpoint removeFirst (c : connRef) (targets : list connRef) : list connRef :=
  match targets with
  | [] => []
  | t :: targets => if decide (t = c) then targets else t :: removeFirst c targets
  end.

Definition deregisterReset (pair : pairKey) (c : connRef) n : Network :=
  let targets := default [] (n_resetTargets n !! pair) in
  if decide (c ∈ targets) then set_resetTargets n (<[pair := removeFirst c targets]> (n_resetTargets n)) else n.

(** The addresses handed out: copies. *)
Definition LocalAddr (c : conn) : list Z * Z := tcpAddr (c_local c).
Definition RemoteAddr (c : conn) : list Z * Z := tcpAddr (c_remote c).
Definition listener_Addr (l : listener connRef) : list Z * Z := tcpAddr (l_addr l).

(** [conn.Close] *)
Definition connClose (c : connRef) n : Network :=
  match n_conns n !! fst c with
  | None => n
  | Some lk =>
      let e := end_of lk (snd c) in
      if c_closed e then n
      else
        let n := if c_nw e then deregisterReset (c_pair e) c n else n in
        upd_conn (fst c) (Close (snd c)) n
  end.

Definition connRead (now : Time) (c : connRef) (size : nat) n : option (callPC (list Z)) * Network :=
  match n_conns n !! fst c with
  | None => (None, n)
  | Some lk =>
      let '(r, lk) := Read (viewAt now n) size (snd c) lk in
      (Some r, set_conns n (<[fst c := lk]> (n_conns n)))
  end.

Definition connWrite (now : Time) (c : connRef) (data : list Z) n : go (option (callPC Z) * Network) :=
  match n_conns n !! fst c with
  | None => Ret (None, n)
  | Some lk =>
      r ← Write (viewAt now n) data (snd c) lk;
      let '(r, lk) := r in
      Ret (Some r, set_conns n (<[fst c := lk]> (n_conns n)))
  end.

(** [listener.Close], its drain included. *)
Definition listenerClose (id : nat) n : Network :=
  match n_heap n !! id with
  | None => n
  | Some l =>
      let '(first, l) := closeMark l in
      if first then
        let n := set_heap n (<[id := l]> (n_heap n)) in
        let n := deregister (l_addr l) n in
        let n := set_heap n (<[id := set_incoming l []]> (n_heap n)) in
        fold_left (fun n c => connClose c n) (l_incoming l) n
      else n
  end.

Definition listenerAccept (preferQueue : bool) (id : nat) n : option (@acceptResult connRef) * Network :=
  match n_heap n !! id with
  | None => (None, n)
  | Some l =>
      let '(r, l) := Accept preferQueue l in
      (Some r, set_heap n (<[id := l]> (n_heap n)))
  end.

(** ** Dialing *)

(** What [DialContext] knows once the names are resolved. *)
Record dialRequest : Type := mkDialRequest {
  dr_peer : string;
  dr_port : Z;
  dr_explicit : bool;
  dr_target : option ipAddr;      (** [targetIP], when [literalTarget] *)
  dr_local : option string        (** the dialer's own name, when it has one *)
}.

(** Up to the partition check. *)
Definition dialResolve (now : Time) (ctx : context) (network dialAddr : string) n :
    (dialRequest + goerror) * Network :=
  match ctx_Err now ctx with
  | Some err => (inr err, n)
  | None =>
  match validateNetwork network with
  | Some err => (inr err, n)
  | None =>
  match splitAddr dialAddr with
  | inr err => (inr err, n)
  | inl (peer, port, explicit) =>
      if String.eqb peer "" then (inr (AddrError "missing host" dialAddr), n)
      else
        let target := parseLiteralIP peer in
        let '(peer, book) := canonicalPeer peer (n_book n) in
        let n := set_book n book in
        match peerNameFromContext ctx with
        | Some name =>
            let '(localName, n) := resolvePeer name n in
            (inl (mkDialRequest peer port explicit target
                    (if String.eqb localName "" then None else Some localName)), n)
        | None => (inl (mkDialRequest peer port explicit target None), n)
        end
  end
  end
  end.

(** The two steps of [waitUnpartitioned]: the check, and the select it blocks in,
    which ends in an error, in another check, or not yet. When both its channels
    are ready Go picks either. *)
Inductive selectResult : Type :=
| SelectFails (err : goerror)
| SelectAgain
| SelectBlocks.

Definition waitSelect (preferHeal : bool) (now : Time) (ctx : context) (ch : generation) n : selectResult :=
  let notified := woken ch (partNotify (n_part n)) in
  match ctx_Err now ctx with
  | Some err => if notified && preferHeal then SelectAgain else SelectFails err
  | None => if notified then SelectAgain else SelectBlocks
  end.

(** The [matches] closure. *)
Definition matches (network peer : string) (target : option ipAddr) (candidate : listener connRef) : bool :=
  let a := l_addr candidate in
  if negb (String.eqb network "tcp") &&
     negb (addressFamily network peer =? addressFamily (addr_network a) (addr_peer a)) then false
  else
    match target with
    | Some ip => ipEqual (default [] (addr_ip a)) (AsSlice ip)
    | None => true
    end.

(** The loop over the listeners of a peer, in the order the map yields them. *)
Fixpoint soleMatch (ok : nat -> bool) (candidates : list nat) (l : option nat) : option nat :=
  match candidates with
  | [] => l
  | c :: candidates =>
      if negb (ok c) then soleMatch ok candidates l
      else match l with
           | Some _ => None
           | None => soleMatch ok candidates (Some c)
           end
  end.

Definition matchesAt n (network : string) (req : dialRequest) (id : nat) : bool :=
  match n_heap n !! id with
  | Some l => matches network (dr_peer req) (dr_target req) l
  | None => false
  end.

Definition lookupListener (network : string) (req : dialRequest) (order : list nat) n : option nat :=
  if dr_explicit req then
    match listenerAt n (dr_peer req) (dr_port req) with
    | Some id => if matchesAt n network req id then Some id else None
    | None => None
    end
  else soleMatch (matchesAt n network req) order None.

(** The listeners of a peer, in one of the orders of a map iteration. *)
Definition portIds n (peer : string) : list nat :=
  map snd (map_to_list (default ∅ (n_listeners n !! peer))).

(** The connection of a dial: its pipes under the Network's faults, its ends in
    the Network. *)
Definition dialPair (local remote : addr) (ordinal : Z) (network : string) (pair : pairKey) n : link Src :=
  let lk := newConnPairWithSeedAndTrace local remote ordinal network (n_pipeBound n) (n_seed n) (n_traceEnabled n) in
  let fp := mkFaultPolicy true pair noFaults in
  let lk := upd_writePipe sideDialer (fun p => installFaultPolicy p fp) lk in
  let lk := upd_writePipe sideAcceptor (fun p => installFaultPolicy p fp) lk in
  let lk := upd_end sideDialer (fun c => set_c_nw c true pair) lk in
  upd_end sideAcceptor (fun c => set_c_nw c true pair) lk.

(** The new connection, its entries for Reset and for Trace. *)
Definition dialRegister (ordinal : Z) (pair : pairKey) (lk : link Src) n : Network :=
  let i := length (n_conns n) in
  let n := set_conns n (n_conns n ++ [lk]) in
  let n := registerReset pair [(i, sideDialer); (i, sideAcceptor)] n in
  if n_traceEnabled n then
    let ts := registerTrace ordinal sideDialer (2 * i) (n_traces n) in
    set_traces n (registerTrace ordinal sideAcceptor (2 * i + 1) ts)
  else n.

(** The end of [DialContext], once a slot is reserved at listener [id]: the
    ordinal, the addresses, the connection and its registrations, the hand-off. *)
Definition dialConnect (network : string) (req : dialRequest) (id : nat) (l : listener connRef) n :
    go ((connRef + goerror) * Network) :=
  let ordinal := n_nextOrdinal n in
  let n := set_nextOrdinal n (u64 (ordinal + 1)) in
  let localName := match dr_local req with Some name => name | None => ephemeralPeerName ordinal end in
  r ← peerIPLocked localName (addressFamily (addr_network (l_addr l)) (addr_peer (l_addr l))) (n_book n);
  let '(r, book) := r in
  let n := set_book n book in
  match r with
  | inr err => Ret (inr err, n)
  | inl localIP =>
      let local := mkAddr network localName (ephemeralPort ordinal) (Some localIP) in
      let remote := mkAddr network (dr_peer req) (addr_port (l_addr l)) (addr_ip (l_addr l)) in
      let pair := newPairKey localName (dr_peer req) in
      let i := length (n_conns n) in
      let n := dialRegister ordinal pair (dialPair local remote ordinal network pair n) n in
      match n_heap n !! id with
      | None => Ret (inl (i, sideDialer), n)
      | Some l =>
          let '(f, l) := fill (i, sideAcceptor) l in
          let n := set_heap n (<[id := l]> (n_heap n)) in
          Ret (inl (i, sideDialer), match f with FillCloses => connClose (i, sideAcceptor) n | _ => n end)
      end
  end.

(** From the lookup on. *)
Definition dialEstablish (network dialAddr : string) (req : dialRequest) (order : list nat) n :
    go ((connRef + goerror) * Network) :=
  match lookupListener network req order n with
  | None => Ret (inr (dialOpError network dialAddr ErrConnectionRefused), n)
  | Some id =>
      match n_heap n !! id with
      | None => Ret (inr (dialOpError network dialAddr ErrConnectionRefused), n)
      | Some l =>
          let '(err, l) := reserve l in
          match err with
          | Some err => Ret (inr (dialOpError network dialAddr err), n)
          | None =>
              let n := set_heap n (<[id := l]> (n_heap n)) in
              r ← dialConnect network req id l n;
              let '(r, n) := r in
              Ret (match r with inl c => inl c | inr err => inr (dialOpError network dialAddr err) end, n)
          end
      end
  end.

(** A dial that waits for its pair to heal stands at the select. *)
Inductive dialResult : Type :=
| Dialed (c : connRef)
| DialFails (err : goerror)
| DialBlocks (req : dialRequest) (ch : generation).

Definition dialFinish (network dialAddr : string) (req : dialRequest) n : go (dialResult * Network) :=
  r ← dialEstablish network dialAddr req (portIds n (dr_peer req)) n;
  let '(r, n) := r in
  Ret (match r with inl c => Dialed c | inr err => DialFails err end, n).

(** The check of [waitUnpartitioned], and the rest when it passes. *)
Definition dialCheck (network dialAddr : string) (req : dialRequest) n : go (dialResult * Network) :=
  match dr_local req with
  | Some name =>
      let '(partitioned, ch) := checkPartition (n_part n) (newPairKey name (dr_peer req)) in
      if partitioned then Ret (DialBlocks req ch, n) else dialFinish network dialAddr req n
  | None => dialFinish network dialAddr req n
  end.

Definition DialContext (now : Time) (ctx : context) (network dialAddr : string) n : go (dialResult * Network) :=
  match dialResolve now ctx network dialAddr n with
  | (inr err, n) => Ret (DialFails (dialOpError network dialAddr err), n)
  | (inl req, n) => dialCheck network dialAddr req n
  end.

(** The select of a blocked dial. *)
Definition dialWake (preferHeal : bool) (now : Time) (ctx : context) (network dialAddr : string)
    (req : dialRequest) (ch : generation) n : go (dialResult * Network) :=
  match waitSelect preferHeal now ctx ch n with
  | SelectFails err => Ret (DialFails (dialOpError network dialAddr err), n)
  | SelectAgain => dialCheck network dialAddr req n
  | SelectBlocks => Ret (DialBlocks req ch, n)
  end.

Definition Dial (now : Time) (network dialAddr : string) n : go (dialResult * Network) :=
  DialContext now Background network dialAddr n.

(** The settings of a dialer, and an option over them; a nil one is [None]. *)
Record dialerConfig := mkDialerConfig { dc_timeout : Duration }.
Definition DialerOption := option (dialerConfig -> dialerConfig).

Definition WithDialTimeout (d : Duration) : go DialerOption :=
  if d <=? 0 then Panic "netchaos: WithDialTimeout: timeout must be positive"
  else Ret (Some (fun _ => mkDialerConfig d)).

(** [DialerFor]: the options are settled first, each in its turn, then each call
    dials under a context of its own. *)
Fixpoint applyDialerOptions (opts : list DialerOption) (cfg : dialerConfig) : go dialerConfig :=
  match opts with
  | [] => Ret cfg
  | None :: _ => Panic "netchaos: DialerFor: nil DialerOption at index"
  | Some opt :: opts => applyDialerOptions opts (opt cfg)
  end.

Definition dialerContext (cfg : dialerConfig) (name : string) (now : Time) : context :=
  let base := WithPeerName Background name in
  if 0 <? dc_timeout cfg then ctx_WithTimeout now base (dc_timeout cfg) else base.

Definition DialerFor (name : string) (opts : list DialerOption) :
    go (Time -> string -> string -> Network -> go (dialResult * Network)) :=
  cfg ← applyDialerOptions opts (mkDialerConfig 0);
  Ret (fun now network dialAddr n => DialContext now (dialerContext cfg name now) network dialAddr n).

(** ** Faults at run time *)

Definition Partition (a b : string) n : go Network :=
  _ ← validatePartitionPair "Partition" (mkPartitionPair a b);
  let '(k, n) := resolvePair a b n in
  Ret (set_part n (partition_pair k (n_part n))).

Definition Heal (a b : string) n : go Network :=
  _ ← validatePartitionPair "Heal" (mkPartitionPair a b);
  let '(k, n) := resolvePair a b n in
  Ret (set_part n (heal_pair k (n_part n))).

Definition Reset (a b : string) n : go Network :=
  _ ← validatePartitionPair "Reset" (mkPartitionPair a b);
  let '(k, n) := resolvePair a b n in
  let targets := default [] (n_resetTargets n !! k) in
  let n := set_resetTargets n (delete k (n_resetTargets n)) in
  let n := fold_left (fun n c => upd_conn (fst c) (signalReset (snd c)) n) targets n in
  Ret (fold_left (fun n c => upd_conn (fst c) (abortReset (snd c)) n) targets n).

Definition SetLatency (min max : Duration) n : go Network :=
  _ ← validateLatencyRange "SetLatency" min max;
  Ret (set_faults n (set_latencyCfg (n_faults n) min max)).

Definition SetPacketLoss (rate : float64) n : go Network :=
  _ ← validateLossRate "SetPacketLoss" rate;
  Ret (set_faults n (set_lossCfg (n_faults n) rate)).

Definition SetDuplication (rate : float64) n : go Network :=
  _ ← validateDuplicationRate "SetDuplication" rate;
  Ret (set_faults n (set_duplicateCfg (n_faults n) rate)).

Definition SetCorruption (rate : float64) n : go Network :=
  _ ← validateCorruptionRate "SetCorruption" rate;
  Ret (set_faults n (set_corruptCfg (n_faults n) rate)).

(** [Network.Trace]: recorder [2i] belongs to the dialer's direction of
    connection [i], recorder [2i+1] to the acceptor's. *)
Definition recorderOf n (k : nat) : traceRecorder :=
  match n_conns n !! Nat.div2 k with
  | Some lk => default [] (p_trace (writePipe lk (if Nat.even k then sideDialer else sideAcceptor)))
  | None => []
  end.

Definition NetworkTrace n : list FaultEvent := Trace (n_traceEnabled n) (recorderOf n) (n_traces n).
End network.

Arguments Network Src : clear implicits.
