(* ===== verification/NetworkInv.v ===== *)
(** * The invariant of a Network, over every interleaving of its operations

    [net_step] has one transition for every locked section of the operations of
    a Network, of its listeners and of its connections; [net_ok] is what they
    all keep. A dial is several transitions (resolve, reserve, connect), with
    anything in between. *)
From S2P Require Import Prelude GoRuntime Errors Float64 Rand Partition Trace PipeState Faults FaultProps Pipe.
From S2P Require Import PipeInv Deadline Options Conn ConnProps ConnRace NetIP NetIPProps NetIP6 Addr Addressing.
From S2P Require Import Replay Directions Listener Network.

(** What the calls in progress have yet to do to the tables of a Network: the
    ends they have still to take out of the registry or to mark, and the closed
    listeners they have still to take out of the table or to empty. *)
Record pending : Type := mkPending {
  pd_ends : list connRef;
  pd_unlisted : list nat;
  pd_undrained : list nat
}.

Definition no_pending : pending := mkPending [] [] [].

Section inv.
Context {Src : Type} `{!DrawSource Src} `{!RejectFuel} `{!Platform}.
Implicit Types (n : Network Src) (lk : link Src) (c : connRef) (P : pending).

(** ** The invariant *)

(** A listener is in the table: it is open, or its Close is not that far. *)
Definition listed P (id : nat) (l : listener connRef) : Prop := l_closed l = false \/ id ∈ pd_unlisted P.

(** The table is exactly the listeners that are listed, each under its own peer
    and port, with no empty row. *)
Record listeners_ok P (listeners : gmap string (gmap Z nat)) (heap : list (listener connRef)) : Prop := {
  lis_registered : forall peer ports port id, listeners !! peer = Some ports -> ports !! port = Some id ->
    exists l, heap !! id = Some l /\ addr_peer (l_addr l) = peer /\ addr_port (l_addr l) = port /\ listed P id l;
  lis_open : forall id l, heap !! id = Some l -> listed P id l ->
    exists ports, listeners !! addr_peer (l_addr l) = Some ports /\ ports !! addr_port (l_addr l) = Some id;
  lis_nonempty : forall peer ports, listeners !! peer = Some ports -> ports <> ∅
}.

(** A listener never holds more than its backlog; a closed one holds nothing,
    once its Close has emptied it. *)
Definition heap_ok P (heap : list (listener connRef)) : Prop :=
  forall id l, heap !! id = Some l -> backlog_ok l /\ (l_closed l = true -> id ∉ pd_undrained P -> l_incoming l = []).

(** The end [c] was established between the peers [k] and neither closed nor
    reset since. *)
Definition live_end (conns : list (link Src)) (k : pairKey) c : Prop :=
  exists lk, conns !! fst c = Some lk /\ c_nw (end_of lk (snd c)) = true /\ c_pair (end_of lk (snd c)) = k /\
    c_closed (end_of lk (snd c)) = false /\ c_reset (end_of lk (snd c)) = false.

Definition targets (rt : gmap pairKey (list connRef)) (k : pairKey) : list connRef := default [] (rt !! k).

(** The end [c] is of a connection of the pair [k]. *)
Definition end_of_pair (conns : list (link Src)) (k : pairKey) c : Prop :=
  exists lk, conns !! fst c = Some lk /\ forall s, c_nw (end_of lk s) = true /\ c_pair (end_of lk s) = k.

(** The registry of a pair lists ends of its connections, once each: its live
    ones, but for those a call in progress has yet to see to. *)
Definition registry_ok P (rt : gmap pairKey (list connRef)) (conns : list (link Src)) : Prop :=
  forall k, NoDup (targets rt k) /\ (forall c, c ∈ targets rt k -> end_of_pair conns k c) /\
    forall c, c ∉ pd_ends P -> c ∈ targets rt k <-> live_end conns k c.

(** Both ends of a connection carry its ordinal, one that was given out, and no
    other connection has it. *)
Definition ordinals_ok (conns : list (link Src)) (next : Z) : Prop :=
  0 <= next < 2 ^ 64 /\
  (forall i lk s, conns !! i = Some lk -> c_ordinal (end_of lk s) = c_ordinal (lk_client lk) /\
     0 <= c_ordinal (lk_client lk) < next) /\
  (forall i j lk lk', conns !! i = Some lk -> conns !! j = Some lk' ->
     c_ordinal (lk_client lk) = c_ordinal (lk_client lk') -> i = j).

(** The handle of one direction of connection [i], and both. *)
Definition recorderId (i : nat) (s : connSide) : nat :=
  match s with sideDialer => 2 * i | sideAcceptor => 2 * i + 1 end.

Definition handleOf (i : nat) lk (s : connSide) : traceHandle :=
  mkTraceHandle (c_ordinal (lk_client lk)) s (recorderId i s).

Definition handlesAt (i : nat) lk : list traceHandle := [handleOf i lk sideDialer; handleOf i lk sideAcceptor].

(** The trace registry holds directions of connections, each once, by whatever
    order they were registered in; nothing when tracing is off. *)
Definition traces_ok (enabled : bool) (traces : list traceHandle) (conns : list (link Src)) : Prop :=
  (enabled = false -> traces = []) /\ NoDup (map handle_key traces) /\
  forall h, h ∈ traces -> exists i lk, conns !! i = Some lk /\ h = handleOf i lk (th_side h).

(** What the directions of the connections share. *)
Definition envOf n : directionEnv := mkDirectionEnv (n_faults n) (n_pipeBound n) (n_seed n) (n_traceEnabled n).

Definition pipes_ok (E : directionEnv) (conns : list (link Src)) : Prop :=
  forall i lk, conns !! i = Some lk -> link_ok E lk.

(** An address is the one its peer has in the book, with a port. *)
Definition peer_addr (book : addrBook) (family : Z) (a : addr) : Prop :=
  settled book (addr_peer a) /\ 0 <= addr_port a <= maxPort /\
  exists ip, addr_ip a = Some ip /\ ip_of_peer book (addr_peer a) family ip.

(** The family a listener's address is of. *)
Definition family_of (l : listener connRef) : Z := addressFamily (addr_network (l_addr l)) (addr_peer (l_addr l)).

Definition addrs_ok (book : addrBook) (heap : list (listener connRef)) : Prop :=
  forall id l, heap !! id = Some l -> peer_addr book (family_of l) (l_addr l).

Record net_okP P n : Prop := {
  ok_book : book_ok (n_book n);
  ok_addrs : addrs_ok (n_book n) (n_heap n);
  ok_listeners : listeners_ok P (n_listeners n) (n_heap n);
  ok_heap : heap_ok P (n_heap n);
  ok_backlog : 0 < n_listenerBacklog n;
  ok_registry : registry_ok P (n_resetTargets n) (n_conns n);
  ok_ordinals : ordinals_ok (n_conns n) (n_nextOrdinal n);
  ok_traces : traces_ok (n_traceEnabled n) (n_traces n) (n_conns n);
  ok_ports : listenPortBase <= n_nextListenPort n <= maxPort;
  ok_faults : config_ok (n_faults n);
  ok_pipes : pipes_ok (envOf n) (n_conns n)
}.

End inv.

Arguments ok_book {Src _ _ P}.
Arguments ok_addrs {Src _ _ P}.
Arguments ok_listeners {Src _ _ P}.
Arguments ok_heap {Src _ _ P}.
Arguments ok_backlog {Src _ _ P}.
Arguments ok_registry {Src _ _ P}.
Arguments ok_ordinals {Src _ _ P}.
Arguments ok_traces {Src _ _ P}.
Arguments ok_ports {Src _ _ P}.
Arguments ok_faults {Src _ _ P}.
Arguments ok_pipes {Src _ _ P}.

(** With no call in progress. *)
Abbreviation net_ok := (net_okP no_pending).

Section inv.
Context {Src : Type} `{!DrawSource Src} `{!RejectFuel} `{!Platform}.
Implicit Types (n : Network Src) (lk : link Src) (c : connRef) (conns : list (link Src)).

(** ** The transitions *)

Definition req_ok n (req : dialRequest) : Prop :=
  match dr_local req with Some name => settled (n_book n) name | None => True end.

(** Pipe operations of connection [i], as the retries of waiting calls make them. *)
Definition upd_pipe (i : nat) (w : connSide) (p : pipe Src) n : Network Src :=
  upd_conn i (fun lk => set_writePipe lk w p) n.

(** The calls that are one locked section, the sections of Reads and Writes, and
    the timers. *)
Inductive section_step : Network Src -> Network Src -> Prop :=
| st_listen n network laddr r n' : Listen network laddr n = Ret (r, n') -> section_step n n'
| st_accept n b id : section_step n (snd (listenerAccept b id n))
| st_resolve n now ctx network dialAddr : section_step n (snd (dialResolve now ctx network dialAddr n))
| st_read n now c size : section_step n (snd (connRead now c size n))
| st_write n now c data r n' :
    zlen data < 2 ^ 63 -> (forall lk, n_conns n !! fst c = Some lk -> trace_room (writePipe lk (snd c))) ->
    connWrite now c data n = Ret (r, n') -> section_step n n'
| st_tryRead n now i lk w size :
    n_conns n !! i = Some lk -> section_step n (upd_pipe i w (snd (tryRead (viewAt now n) (writePipe lk w) size)) n)
| st_tryWrite n now i lk w data r p' :
    n_conns n !! i = Some lk -> zlen data < 2 ^ 63 -> trace_room (writePipe lk w) ->
    tryWrite (viewAt now n) (writePipe lk w) data = Ret (r, p') -> section_step n (upd_pipe i w p' n)
| st_release n now i lk w :
    n_conns n !! i = Some lk -> section_step n (upd_pipe i w (releaseDueLatency now (writePipe lk w)) n)
| st_deadline n i lk lk' :
    n_conns n !! i = Some lk -> io_step lk lk' -> (forall w, writePipe lk' w = writePipe lk w) ->
    section_step n (set_conns n (<[i := lk']> (n_conns n)))
| st_latency n min max n' : is_i64 max -> SetLatency min max n = Ret n' -> section_step n n'
| st_loss n rate n' : f64_valid rate = true -> SetPacketLoss rate n = Ret n' -> section_step n n'
| st_duplication n rate n' : f64_valid rate = true -> SetDuplication rate n = Ret n' -> section_step n n'
| st_corruption n rate n' : f64_valid rate = true -> SetCorruption rate n = Ret n' -> section_step n n'.

(** Every call but the part of a dial after its lookup, each with nothing in
    between. *)
Inductive call_step : Network Src -> Network Src -> Prop :=
| st_section n n' : section_step n n' -> call_step n n'
| st_closeListener n id : call_step n (listenerClose id n)
| st_close n c : call_step n (connClose c n)
| st_partition n a b n' : Partition a b n = Ret n' -> call_step n n'
| st_heal n a b n' : Heal a b n = Ret n' -> call_step n n'
| st_reset n a b n' : Reset a b n = Ret n' -> call_step n n'.

(** With a dial in three parts, each with nothing in between. *)
Inductive net_step : Network Src -> Network Src -> Prop :=
| st_call n n' : call_step n n' -> net_step n n'
| st_reserve n id l : n_heap n !! id = Some l -> net_step n (set_heap n (<[id := snd (reserve l)]> (n_heap n)))
| st_connect n network req id l r n' :
    req_ok n req -> n_heap n !! id = Some l -> 0 < l_reserved l -> n_nextOrdinal n + 1 < 2 ^ 64 ->
    dialConnect network req id l n = Ret (r, n') -> net_step n n'.

(** ** Connections between two states *)

(** What an end is given when it is made and keeps. *)
Definition conn_id (e : conn) : Z * addr * addr * (pairKey * bool) := (c_ordinal e, c_local e, c_remote e, (c_pair e, c_nw e)).

Lemma conn_id_ordinal e e' : conn_id e' = conn_id e -> c_ordinal e' = c_ordinal e.
Proof. by intros [= ? _ _ _ _]. Qed.

(** Nothing but the ends in [D] died, and the others are who they were. *)
Record conns_rel (D : list connRef) (conns conns' : list (link Src)) : Prop := {
  rel_ids : forall i, option_Forall2 (fun lk lk' => forall s, conn_id (end_of lk' s) = conn_id (end_of lk s)) (conns !! i) (conns' !! i);
  rel_live : forall k c, live_end conns' k c <-> live_end conns k c /\ c ∉ D
}.

Lemma conns_rel_refl conns : conns_rel [] conns conns.
Proof.
  split.
  - intros i. destruct (conns !! i); by constructor.
  - intros k c. split; [intros Hl; split; [done|apply not_elem_of_nil]|by intros [? _]].
Qed.

Lemma conns_rel_trans D1 D2 (x y z : list (link Src)) : conns_rel D1 x y -> conns_rel D2 y z -> conns_rel (D1 ++ D2) x z.
Proof.
  intros [A1 B1] [A2 B2]. split.
  - intros i. specialize (A1 i). specialize (A2 i). destruct A1 as [lk lk' E1|]; inversion A2 as [lk1 lk2 E2|]; subst; constructor.
    intros s. by rewrite E2, E1.
  - intros k c. rewrite B2, B1, not_elem_of_app. tauto.
Qed.

(** What an update of one connection does to its ends. *)
Definition same_end (e e' : conn) : Prop :=
  c_closed e' = c_closed e /\ c_reset e' = c_reset e /\ c_nw e' = c_nw e /\ c_pair e' = c_pair e /\ conn_id e' = conn_id e.

Lemma same_end_refl e : same_end e e.
Proof. done. Qed.

Lemma same_end_trans e1 e2 e3 : same_end e1 e2 -> same_end e2 e3 -> same_end e1 e3.
Proof. unfold same_end. intros (A1 & A2 & A3 & A4 & A5) (B1 & B2 & B3 & B4 & B5). repeat split; congruence. Qed.

Definition same_ends lk lk' : Prop := forall s, same_end (end_of lk s) (end_of lk' s).

Lemma update_rel conns i lk lk' D :
  conns !! i = Some lk -> (forall s, (i, s) ∉ D -> same_end (end_of lk s) (end_of lk' s)) ->
  (forall c, c ∈ D -> fst c = i) ->
  (forall s, (i, s) ∈ D -> conn_id (end_of lk' s) = conn_id (end_of lk s) /\
     (c_closed (end_of lk' s) = true \/ c_reset (end_of lk' s) = true)) ->
  conns_rel D conns (<[i := lk']> conns).
Proof.
  intros Hi Hsame Hfst Hdead. assert (i < length conns)%nat as Hlen by (by eapply lookup_lt_Some).
  split.
  - intros j. destruct (decide (j = i)) as [->|Hne].
    + rewrite list_lookup_insert_eq, Hi by done. constructor. intros s.
      destruct (decide ((i, s) ∈ D)) as [Hin|Hin]; [by apply Hdead|by apply Hsame].
    + rewrite list_lookup_insert_ne by done. destruct (conns !! j); by constructor.
  - intros k [j s]. unfold live_end. cbn. destruct (decide (j = i)) as [->|Hne].
    + rewrite list_lookup_insert_eq, Hi by done. destruct (decide ((i, s) ∈ D)) as [Hin|Hin].
      * split; [|by intros [_ ?]]. intros (lk0 & [= <-] & _ & _ & Hc & Hr). destruct (Hdead s Hin) as [_ [?|?]]; congruence.
      * destruct (Hsame s Hin) as (E1 & E2 & E3 & E4 & _). split.
        -- intros (lk0 & [= <-] & Hl). split; [|done]. exists lk. by rewrite <- E1, <- E2, <- E3, <- E4.
        -- intros [(lk0 & [= <-] & Hl) _]. exists lk'. by rewrite E1, E2, E3, E4.
    + rewrite list_lookup_insert_ne by done. split; [|by intros [? _]]. intros Hl. split; [done|].
      intros Hin. by destruct (Hne (Hfst _ Hin)).
Qed.

Lemma update_same conns i lk lk' : conns !! i = Some lk -> same_ends lk lk' -> conns_rel [] conns (<[i := lk']> conns).
Proof.
  intros Hi Hs. eapply update_rel; [done|intros s _; apply Hs| |]; intros ? Hin; by apply elem_of_nil in Hin.
Qed.

Lemma alter_insert {A} (f : A -> A) i (l : list A) x : l !! i = Some x -> alter f i l = <[i := f x]> l.
Proof.
  intros Hi. apply list_eq. intros j. assert (i < length l)%nat by (by eapply lookup_lt_Some).
  destruct (decide (i = j)) as [<-|Hne].
  - by rewrite list_lookup_alter_eq, list_lookup_insert_eq, Hi.
  - by rewrite list_lookup_alter_ne, list_lookup_insert_ne.
Qed.

Lemma upd_conn_absent i f n : n_conns n !! i = None -> n_conns (upd_conn i f n) = n_conns n.
Proof.
  intros Hi. cbn. apply list_eq. intros j. destruct (decide (i = j)) as [<-|Hne].
  - by rewrite list_lookup_alter_eq, Hi.
  - by rewrite list_lookup_alter_ne.
Qed.

(** ** What one call does to the two ends *)

Lemma set_writePipe_same lk w p : same_ends lk (set_writePipe lk w p).
Proof. intros s. by rewrite end_of_set_writePipe. Qed.

Lemma same_ends_trans lk1 lk2 lk3 : same_ends lk1 lk2 -> same_ends lk2 lk3 -> same_ends lk1 lk3.
Proof. intros A B s. by eapply same_end_trans. Qed.

Lemma same_ends_refl lk : same_ends lk lk.
Proof. by intros s. Qed.

Lemma readLoop_same k v size s pc lk pc' lk' : readLoop k v size s pc lk = (pc', lk') -> same_ends lk lk'.
Proof.
  revert pc lk. induction k as [|k IH]; intros pc lk; cbn [readLoop]; [intros [= _ <-]; apply same_ends_refl|].
  destruct (Conn.settled pc); [intros [= _ <-]; apply same_ends_refl|].
  destruct (readStep v size s pc lk) as [pc1 lk1] eqn:Es. intros E%IH. eapply same_ends_trans; [|exact E].
  destruct pc; cbn [readStep] in Es; try (injection Es as _ <-; apply same_ends_refl).
  destruct (tryRead v (readPipe lk s) size) as [r p]. injection Es as _ <-. apply set_writePipe_same.
Qed.

Lemma writeLoop_same k v data s pc lk pc' lk' : writeLoop k v data s pc lk = Ret (pc', lk') -> same_ends lk lk'.
Proof.
  revert pc lk. induction k as [|k IH]; intros pc lk; cbn [writeLoop]; [intros [= _ <-]; apply same_ends_refl|].
  destruct (Conn.settled pc); [intros [= _ <-]; apply same_ends_refl|].
  intros ([pc1 lk1] & Es & E%IH)%go_bind_ret. eapply same_ends_trans; [|exact E].
  destruct pc; cbn [writeStep] in Es; try (injection Es as _ <-; apply same_ends_refl).
  apply go_bind_ret in Es as ([r p] & _ & Es). injection Es as _ <-. apply set_writePipe_same.
Qed.

Lemma upd_end_same s f lk : (forall e, same_end e (f e)) -> same_ends lk (upd_end s f lk).
Proof.
  intros Hf e. unfold upd_end. rewrite end_of_set_end. destruct (decide (e = s)) as [->|]; [apply Hf|apply same_end_refl].
Qed.

Lemma io_step_same lk lk' : io_step lk lk' -> same_ends lk lk'.
Proof.
  intros Hst. destruct Hst as [lk w l p' _ _ _|lk now t s|lk now t s|lk now t s|lk s|lk s].
  - apply set_writePipe_same.
  - unfold SetDeadline. destruct (c_closed _); cbn [snd]; [apply same_ends_refl|].
    eapply same_ends_trans; by apply upd_end_same.
  - unfold SetReadDeadline. destruct (c_closed _); cbn [snd]; [apply same_ends_refl|by apply upd_end_same].
  - unfold SetWriteDeadline. destruct (c_closed _); cbn [snd]; [apply same_ends_refl|by apply upd_end_same].
  - by apply upd_end_same.
  - by apply upd_end_same.
Qed.

Lemma abortReset_same s lk : same_ends lk (abortReset s lk).
Proof. eapply same_ends_trans; apply set_writePipe_same. Qed.

(** An update that touches end [s] only: its identity stays, one flag is raised. *)
Definition marks_end (s : connSide) lk lk' : Prop :=
  (forall e, e <> s -> same_end (end_of lk e) (end_of lk' e)) /\
  conn_id (end_of lk' s) = conn_id (end_of lk s) /\ (c_closed (end_of lk' s) = true \/ c_reset (end_of lk' s) = true).

Lemma signalReset_marks s lk : marks_end s lk (signalReset s lk).
Proof.
  unfold signalReset, upd_end. split_and!.
  - intros e He. by rewrite end_of_set_end, decide_False.
  - by rewrite end_of_set_end, decide_True.
  - right. by rewrite end_of_set_end, decide_True.
Qed.

Lemma Close_marks s lk : c_closed (end_of lk s) = false -> marks_end s lk (Close s lk).
Proof.
  intros Ec. unfold Close. rewrite Ec. unfold upd_end, upd_writePipe, upd_readPipe, set_readPipe.
  split_and!.
  - intros e He. rewrite !end_of_set_end, !decide_False, !end_of_set_writePipe, end_of_set_end, decide_False by done. done.
  - rewrite end_of_set_end, decide_True by done. cbn.
    by rewrite end_of_set_end, decide_True, !end_of_set_writePipe, end_of_set_end, decide_True.
  - left. rewrite end_of_set_end, decide_True by done. cbn.
    by rewrite end_of_set_end, decide_True, !end_of_set_writePipe, end_of_set_end, decide_True.
Qed.

Lemma marks_rel conns i lk lk' s :
  conns !! i = Some lk -> marks_end s lk lk' -> conns_rel [(i, s)] conns (<[i := lk']> conns).
Proof.
  intros Hi (A & B & D). eapply update_rel; [done| | |].
  - intros e He. apply A. intros ->. apply He. by left.
  - by intros c ->%list_elem_of_singleton.
  - intros e He. apply list_elem_of_singleton in He as [= ->]. done.
Qed.

(** ** The parts of the invariant that speak of connections *)

Context {P : pending}.
#[local] Abbreviation net_ok := (net_okP P).

Lemma ordinals_rel D conns conns' next : conns_rel D conns conns' -> ordinals_ok conns next -> ordinals_ok conns' next.
Proof.
  intros [Hid _] (Hn & Hall & Hmono).
  assert (forall i lk', conns' !! i = Some lk' -> exists lk, conns !! i = Some lk /\
    forall s, c_ordinal (end_of lk' s) = c_ordinal (end_of lk s)) as Hback.
  { intros i lk' Hi. specialize (Hid i). rewrite Hi in Hid. inversion Hid as [lk lk0 E1 E2|]; subst. exists lk. split; [done|].
    intros s. by apply conn_id_ordinal. }
  split; [done|]. split.
  - intros i lk' s Hi. destruct (Hback i lk' Hi) as (lk & Hi0 & E). pose proof (E sideDialer) as Ed. cbn in Ed.
    rewrite E, Ed. by eapply Hall.
  - intros i j lk1 lk2 H1 H2. destruct (Hback i lk1 H1) as (lk1' & H1' & E1), (Hback j lk2 H2) as (lk2' & H2' & E2).
    specialize (E1 sideDialer). specialize (E2 sideDialer). cbn in E1, E2. rewrite E1, E2. by eapply Hmono.
Qed.

Lemma traces_rel D conns conns' enabled traces :
  conns_rel D conns conns' -> traces_ok enabled traces conns -> traces_ok enabled traces conns'.
Proof.
  intros [Hid _] (H1 & H2 & H3). split; [done|]. split; [done|]. intros h Hh. destruct (H3 h Hh) as (i & lk & Hi & ->).
  specialize (Hid i). rewrite Hi in Hid. inversion Hid as [lk0 lk' E E0 E1|]; subst. exists i, lk'. split; [done|].
  specialize (E sideDialer). apply conn_id_ordinal in E. cbn in E. unfold handleOf. by rewrite E.
Qed.

(** The pipes of a changed list of connections. *)
Lemma pipes_insert E conns (i : nat) lk' : pipes_ok E conns -> link_ok E lk' -> pipes_ok E (<[i := lk']> conns).
Proof.
  intros Hp Hk j lk [(-> & <- & _)|[_ Hj]]%list_lookup_insert_Some; [done|by eapply Hp].
Qed.

Lemma pipes_upd E f (i : nat) n :
  (forall lk, link_ok E lk -> link_ok E (f lk)) -> pipes_ok E (n_conns n) -> pipes_ok E (n_conns (upd_conn i f n)).
Proof.
  intros Hf Hp j lk. cbn. destruct (decide (i = j)) as [->|Hne].
  - rewrite list_lookup_alter_eq. destruct (n_conns n !! j) as [lk0|] eqn:Ej; [|done]. intros [= <-]. by apply Hf, (Hp j).
  - rewrite list_lookup_alter_ne by done. apply Hp.
Qed.

Lemma pipes_app E conns lk : pipes_ok E conns -> link_ok E lk -> pipes_ok E (conns ++ [lk]).
Proof. intros Hp Hk i lk0 [Hi|[_ Hi]]%lookup_app_Some; [by eapply Hp|]. by apply list_lookup_singleton_Some in Hi as [_ <-]. Qed.

Lemma pipes_env E E' conns :
  de_bound E' = de_bound E -> de_seed E' = de_seed E -> de_traced E' = de_traced E ->
  (holds_back (de_faults E) = true -> holds_back (de_faults E') = true) -> pipes_ok E conns -> pipes_ok E' conns.
Proof. intros E1 E2 E3 Hh Hp i lk Hi s. eapply direction_env; [done..|]. by eapply Hp. Qed.

Lemma end_of_pair_rel D conns conns' k c : conns_rel D conns conns' -> end_of_pair conns k c -> end_of_pair conns' k c.
Proof.
  intros [Hid _] (lk & Hi & Hk). specialize (Hid (fst c)). rewrite Hi in Hid. inversion Hid as [lk0 lk' E E0 E1|]; subst.
  exists lk'. split; [done|]. intros s. specialize (E s). injection E as _ _ _ -> ->. apply Hk.
Qed.

Lemma registry_rel D rt conns rt' conns' :
  conns_rel D conns conns' -> registry_ok P rt conns ->
  (forall k, NoDup (targets rt' k) /\ forall c, c ∈ targets rt' k <-> c ∈ targets rt k /\ c ∉ D) ->
  registry_ok P rt' conns'.
Proof.
  intros Hrel Hreg Hrt k. destruct (Hrt k) as [Hnd Hin], (Hreg k) as (_ & Hof & Hlive). split; [done|]. split.
  - intros c [Hc _]%Hin. by eapply end_of_pair_rel, Hof.
  - intros c Hc. rewrite Hin, (rel_live _ _ _ Hrel). by rewrite (Hlive c Hc).
Qed.

Lemma registry_same rt conns conns' : conns_rel [] conns conns' -> registry_ok P rt conns -> registry_ok P rt conns'.
Proof.
  intros Hrel Hreg. eapply registry_rel; [done|done|]. intros k. split; [apply Hreg|].
  intros c. split; [intros Hc; split; [done|apply not_elem_of_nil]|by intros [? _]].
Qed.

Lemma targets_insert rt k l q : targets (<[k := l]> rt) q = if decide (q = k) then l else targets rt q.
Proof.
  unfold targets. destruct (decide (q = k)) as [->|Hne]; [by rewrite lookup_insert_eq|by rewrite lookup_insert_ne].
Qed.

Lemma targets_delete rt k q : targets (delete k rt) q = if decide (q = k) then [] else targets rt q.
Proof.
  unfold targets. destruct (decide (q = k)) as [->|Hne]; [by rewrite lookup_delete_eq|by rewrite lookup_delete_ne].
Qed.

Lemma removeFirst_spec c l : NoDup l -> NoDup (removeFirst c l) /\ forall d, d ∈ removeFirst c l <-> d ∈ l /\ d <> c.
Proof.
  induction 1 as [|t l Ht Hnd [IH1 IH2]]; cbn.
  { split; [constructor|]. intros d. split; [intros Hd; by apply elem_of_nil in Hd|by intros [? _]]. }
  destruct (decide (t = c)) as [->|Hne].
  - split; [done|]. intros d. rewrite elem_of_cons. split; [|by intros [[->|?] ?]].
    intros Hd. split; [by right|]. by intros ->.
  - split.
    + constructor; [|done]. rewrite IH2. tauto.
    + intros d. rewrite !elem_of_cons, IH2. split; [|tauto]. intros [->|[? ?]]; [by split; [left|]|tauto].
Qed.

(** ** The operations keep the invariant: connections *)

Lemma net_ok_conns n conns' :
  conns_rel [] (n_conns n) conns' -> pipes_ok (envOf n) conns' -> net_ok n -> net_ok (set_conns n conns').
Proof.
  intros Hrel Hpi' [Hbk Ha Hl Hh Hb Hr Ho Ht Hp Hf Hpi]. split; cbn; try done.
  - by eapply registry_same.
  - by eapply ordinals_rel.
  - by eapply traces_rel.
Qed.

Lemma connRead_ok now c size n : net_ok n -> net_ok (snd (connRead now c size n)).
Proof.
  intros Hok. unfold connRead. destruct (n_conns n !! fst c) as [lk|] eqn:Ei; [|done].
  unfold Read. destruct (readLoop 8 (viewAt now n) size (snd c) CheckClosed lk) as [r lk'] eqn:E. cbn [snd].
  apply net_ok_conns; [| |done].
  - apply (update_same _ _ lk); [done|]. by eapply readLoop_same.
  - apply pipes_insert; [apply Hok|]. eapply Read_link; [|exact E]. by eapply (ok_pipes _ Hok).
Qed.

Lemma connWrite_ok now c data n r n' :
  net_ok n -> zlen data < 2 ^ 63 -> (forall lk, n_conns n !! fst c = Some lk -> trace_room (writePipe lk (snd c))) ->
  connWrite now c data n = Ret (r, n') -> net_ok n'.
Proof.
  intros Hok Hlen Hroom. unfold connWrite. destruct (n_conns n !! fst c) as [lk|] eqn:Ei; [|by intros [= _ <-]].
  intros ([pc lk'] & E & [= _ <-])%go_bind_ret.
  apply net_ok_conns; [| |done].
  - apply (update_same _ _ lk); [done|]. by eapply writeLoop_same.
  - apply pipes_insert; [apply Hok|].
    apply (Write_link (envOf n) (viewAt now n) data (snd c) lk pc lk'); try done; [by eapply (ok_pipes _ Hok)|apply Hok|by apply Hroom].
Qed.

(** One retry of a waiting call, or one firing of a latency timer. *)
Lemma upd_pipe_ok (i : nat) (w : connSide) p' lk n :
  net_ok n -> n_conns n !! i = Some lk ->
  (link_ok (envOf n) lk -> direction_ok (envOf n) (c_pair (end_of lk w)) (c_ordinal (end_of lk w)) w p') ->
  net_ok (upd_pipe i w p' n).
Proof.
  intros Hok Hi Hd. pose proof (ok_pipes _ Hok i lk Hi) as Hlk. unfold upd_pipe, upd_conn. rewrite (alter_insert _ _ _ lk) by done.
  apply net_ok_conns; [| |done].
  - apply (update_same _ _ lk); [done|]. apply set_writePipe_same.
  - apply pipes_insert; [apply Hok|]. apply link_ok_pipe; [by apply Hd|done].
Qed.

(** Closing an end takes exactly it out of the live ends, and of the registry. *)
Lemma connClose_frame c n :
  n_book (connClose c n) = n_book n /\ n_listeners (connClose c n) = n_listeners n /\ n_heap (connClose c n) = n_heap n /\
  n_faults (connClose c n) = n_faults n /\ n_part (connClose c n) = n_part n /\
  n_nextOrdinal (connClose c n) = n_nextOrdinal n /\ n_traces (connClose c n) = n_traces n /\
  length (n_conns (connClose c n)) = length (n_conns n).
Proof.
  unfold connClose. destruct (n_conns n !! fst c) as [lk|]; [|done]. cbn zeta. destruct (c_closed _); [done|].
  unfold deregisterReset. destruct (c_nw _); [cbn zeta; destruct (decide _)|]; cbn; by rewrite length_alter.
Qed.

Lemma connClose_ok c n : net_ok n -> net_ok (connClose c n).
Proof.
  intros Hok. unfold connClose. destruct (n_conns n !! fst c) as [lk|] eqn:Ei; [|done]. cbn zeta.
  destruct (c_closed (end_of lk (snd c))) eqn:Ec; [done|].
  assert (conns_rel [c] (n_conns n) (alter (Close (snd c)) (fst c) (n_conns n))) as Hrel.
  { rewrite (alter_insert _ _ _ lk) by done. destruct c as [i s]. apply (marks_rel _ i lk _ s); [done|by apply Close_marks]. }
  destruct Hok as [Hbk Ha Hl Hh Hb Hr Ho Ht Hp Hf Hpi].
  set (n1 := if c_nw (end_of lk (snd c)) then deregisterReset (c_pair (end_of lk (snd c))) c n else n).
  assert (forall k, NoDup (targets (n_resetTargets n1) k) /\ forall d, d ∈ targets (n_resetTargets n1) k <->
    d ∈ targets (n_resetTargets n) k /\ d ∉ [c]) as Hrt.
  { assert (forall k, c ∈ targets (n_resetTargets n) k -> c_nw (end_of lk (snd c)) = true /\ c_pair (end_of lk (snd c)) = k) as Honly.
    { intros k (lk0 & E0 & Hk)%(proj1 (proj2 (Hr k))). rewrite Ei in E0. injection E0 as <-. apply Hk. }
    intros k. destruct (Hr k) as [Hnd _]. unfold n1, deregisterReset.
    destruct (c_nw (end_of lk (snd c))) eqn:Enw.
    2: { split; [done|]. intros d. rewrite list_elem_of_singleton. split; [|by intros [? _]]. intros Hd. split; [done|].
         intros ->. by destruct (Honly k Hd). }
    cbn zeta. change (default [] (n_resetTargets n !! ?q)) with (targets (n_resetTargets n) q).
    destruct (decide (c ∈ targets (n_resetTargets n) (c_pair (end_of lk (snd c))))) as [Hin|Hin].
    - cbn [n_resetTargets set_resetTargets]. rewrite targets_insert. fold (targets (n_resetTargets n)).
      destruct (decide (k = c_pair (end_of lk (snd c)))) as [->|Hne].
      + destruct (removeFirst_spec c _ Hnd) as [Hn1 Hn2].
        split; [exact Hn1|]. intros d. rewrite list_elem_of_singleton. apply Hn2.
      + split; [exact Hnd|]. intros d. rewrite list_elem_of_singleton. split; [|by intros [? _]]. intros Hd.
        split; [exact Hd|]. intros ->. by destruct (Honly k Hd) as [_ <-].
    - split; [done|]. intros d. rewrite list_elem_of_singleton. split; [|by intros [? _]]. intros Hd. split; [done|]. intros ->.
      destruct (Honly k Hd) as [_ <-]. done. }
  assert (n_book n1 = n_book n /\ n_listeners n1 = n_listeners n /\ n_heap n1 = n_heap n /\
    n_listenerBacklog n1 = n_listenerBacklog n /\ n_conns n1 = n_conns n /\ n_nextOrdinal n1 = n_nextOrdinal n /\
    n_traceEnabled n1 = n_traceEnabled n /\ n_traces n1 = n_traces n /\ n_nextListenPort n1 = n_nextListenPort n /\
    n_faults n1 = n_faults n) as (E1 & E2 & E3 & E4 & E5 & E6 & E7 & E8 & E9 & E10).
  { unfold n1, deregisterReset. cbn zeta. by destruct (c_nw _); [destruct (decide _)|]. }
  split; cbn; rewrite ?E1, ?E2, ?E3, ?E4, ?E5, ?E6, ?E7, ?E8, ?E9, ?E10; try done.
  - by eapply registry_rel.
  - by eapply ordinals_rel.
  - by eapply traces_rel.
  - assert (envOf (upd_conn (fst c) (Close (snd c)) n1) = envOf n) as ->.
    { unfold n1, deregisterReset. cbn zeta. by destruct (c_nw _); [destruct (decide _)|]. }
    rewrite <- E5. apply pipes_upd; [intros; by apply Close_link|by rewrite E5].
Qed.

Lemma closeAll_ok cs n : net_ok n -> net_ok (fold_left (fun n c => connClose c n) cs n).
Proof. revert n. induction cs as [|c cs IH]; intros n Hok; [done|]. apply IH. by apply connClose_ok. Qed.

(** ** Reset *)

Lemma upd_conn_rel (i : nat) (s : connSide) (f : link Src -> link Src) n :
  (forall lk, marks_end s lk (f lk)) -> conns_rel [(i, s)] (n_conns n) (n_conns (upd_conn i f n)).
Proof.
  intros Hf. destruct (n_conns n !! i) as [lk|] eqn:Ei.
  - cbn. rewrite (alter_insert _ _ _ lk) by done. by apply (marks_rel _ i lk _ s).
  - rewrite upd_conn_absent by done. destruct (conns_rel_refl (n_conns n)) as [A B]. split; [done|].
    intros k [j e]. rewrite (B k). split; [|by intros [? _]]. intros Hl. split; [apply Hl|].
    intros [= -> ->]%list_elem_of_singleton. destruct Hl as [(lk & E & _) _]. cbn in E. congruence.
Qed.

Lemma signal_rel ts n :
  conns_rel ts (n_conns n) (n_conns (fold_left (fun n c => upd_conn (fst c) (signalReset (snd c)) n) ts n)).
Proof.
  revert n. induction ts as [|[i s] ts IH]; intros n; [apply conns_rel_refl|]. cbn [fold_left fst snd].
  change ((i, s) :: ts) with ([(i, s)] ++ ts). eapply conns_rel_trans; [|apply IH].
  apply upd_conn_rel. apply signalReset_marks.
Qed.

Lemma abort_rel ts n :
  conns_rel [] (n_conns n) (n_conns (fold_left (fun n c => upd_conn (fst c) (abortReset (snd c)) n) ts n)).
Proof.
  revert n. induction ts as [|[i s] ts IH]; intros n; [apply conns_rel_refl|]. cbn [fold_left fst snd].
  change (@nil connRef) with (@nil connRef ++ []). eapply conns_rel_trans; [|apply IH].
  destruct (n_conns n !! i) as [lk|] eqn:Ei.
  - cbn. rewrite (alter_insert _ _ _ lk) by done. apply (update_same _ _ lk); [done|apply abortReset_same].
  - rewrite upd_conn_absent by done. apply conns_rel_refl.
Qed.

(** Updates of connections leave the rest of the Network alone. *)
Lemma fold_conns (f : connRef -> link Src -> link Src) ts n :
  exists conns, fold_left (fun n c => upd_conn (fst c) (f c) n) ts n = set_conns n conns.
Proof.
  revert n. induction ts as [|c ts IH]; intros n; [exists (n_conns n); by destruct n|]. cbn [fold_left].
  destruct (IH (upd_conn (fst c) (f c) n)) as [conns E]. exists conns. rewrite E. by destruct n.
Qed.

(** ** Names, partitions, resets and settings *)

Lemma peer_addr_le book book' family a : book_le book book' -> peer_addr book family a -> peer_addr book' family a.
Proof.
  intros Hle (Hs & Hp & ip & E & Hip). split; [eapply settled_le; [apply Hle|done]|]. split; [done|].
  exists ip. split; [done|by eapply ip_of_peer_le].
Qed.

Lemma addrs_le book book' heap : book_le book book' -> addrs_ok book heap -> addrs_ok book' heap.
Proof.
  intros Hle Ha id l Hi. by apply (peer_addr_le book), (Ha id).
Qed.

Lemma addrs_update book heap id l l' :
  heap !! id = Some l -> l_addr l' = l_addr l -> addrs_ok book heap -> addrs_ok book (<[id := l']> heap).
Proof.
  intros Hi Ea Ha j l0 Hj. assert (id < length heap)%nat as Hlen by (by eapply lookup_lt_Some).
  destruct (decide (id = j)) as [<-|Hne].
  - rewrite list_lookup_insert_eq in Hj by done. injection Hj as <-. unfold family_of. rewrite Ea. by apply (Ha id).
  - rewrite list_lookup_insert_ne in Hj by done. by apply (Ha j).
Qed.

Lemma net_ok_book n book : book_ok book -> book_le (n_book n) book -> net_ok n -> net_ok (set_book n book).
Proof. intros Hbk Hle [? Ha]. split; cbn; try done. by eapply addrs_le. Qed.

Lemma net_ok_part n part : net_ok n -> net_ok (set_part n part).
Proof. intros []. by split. Qed.

Lemma net_ok_faults n f :
  config_ok f -> (holds_back (n_faults n) = true -> holds_back f = true) -> net_ok n -> net_ok (set_faults n f).
Proof. intros Hf Hh []. split; try done. by eapply (pipes_env (envOf n)). Qed.

Lemma resolvePeer_ok name n peer n' :
  net_ok n -> resolvePeer name n = (peer, n') ->
  net_ok n' /\ n' = set_book n (n_book n') /\ book_le (n_book n) (n_book n') /\ settled (n_book n') peer.
Proof.
  intros Hok. unfold resolvePeer, canonicalPeer. pose proof (canonicalPeerLocked_ok (peerName name) _ (ok_book _ Hok)) as Hc.
  destruct (canonicalPeerLocked (peerName name) (n_book n)) as [q book] eqn:Eq. destruct Hc as (H1 & _ & _ & H4 & _).
  pose proof (canonicalPeerLocked_le _ _ _ _ (ok_book _ Hok) Eq) as Hle.
  intros [= <- <-]. split; [by apply net_ok_book|done].
Qed.

Lemma resolvePair_ok a b n k n' :
  net_ok n -> resolvePair a b n = (k, n') ->
  net_ok n' /\ n' = set_book n (n_book n') /\ book_le (n_book n) (n_book n').
Proof.
  intros Hok. unfold resolvePair. destruct (resolvePeer a n) as [pa n1] eqn:Ea. destruct (resolvePeer b n1) as [pb n2] eqn:Eb.
  destruct (resolvePeer_ok _ _ _ _ Hok Ea) as (Hok1 & E1 & L1 & _).
  destruct (resolvePeer_ok _ _ _ _ Hok1 Eb) as (Hok2 & E2 & L2 & _). intros [= _ <-].
  split; [done|]. split; [rewrite E2; by rewrite E1|by eapply book_le_trans].
Qed.

Lemma Partition_ok a b n n' : net_ok n -> Partition a b n = Ret n' -> net_ok n'.
Proof.
  intros Hok. unfold Partition. intros ([] & _ & E)%go_bind_ret. destruct (resolvePair a b n) as [k n1] eqn:Ek.
  destruct (resolvePair_ok _ _ _ _ _ Hok Ek) as (Hok1 & _). injection E as <-. by apply net_ok_part.
Qed.

Lemma Heal_ok a b n n' : net_ok n -> Heal a b n = Ret n' -> net_ok n'.
Proof.
  intros Hok. unfold Heal. intros ([] & _ & E)%go_bind_ret. destruct (resolvePair a b n) as [k n1] eqn:Ek.
  destruct (resolvePair_ok _ _ _ _ _ Hok Ek) as (Hok1 & _). injection E as <-. by apply net_ok_part.
Qed.

(** What a Reset of the pair [k] does to the Network, its names resolved. *)
Definition resetPair (k : pairKey) n : Network Src :=
  let ts := targets (n_resetTargets n) k in
  let n := set_resetTargets n (delete k (n_resetTargets n)) in
  let n := fold_left (fun n c => upd_conn (fst c) (signalReset (snd c)) n) ts n in
  fold_left (fun n c => upd_conn (fst c) (abortReset (snd c)) n) ts n.

Lemma Reset_eq a b n :
  Reset a b n =
  _ ← validatePartitionPair "Reset" (mkPartitionPair a b);
  let '(k, n) := resolvePair a b n in Ret (resetPair k n).
Proof. unfold Reset. by destruct (validatePartitionPair _ _). Qed.

Lemma resetPair_shape k n :
  exists conns, resetPair k n = set_conns (set_resetTargets n (delete k (n_resetTargets n))) conns /\
    conns_rel (targets (n_resetTargets n) k) (n_conns n) conns.
Proof.
  unfold resetPair. set (ts := targets (n_resetTargets n) k). set (n0 := set_resetTargets n _).
  pose proof (signal_rel ts n0) as H1.
  destruct (fold_conns (fun c => signalReset (snd c)) ts n0) as [c1 E1]. rewrite E1 in H1 |- *. cbn [n_conns set_conns] in H1.
  pose proof (abort_rel ts (set_conns n0 c1)) as H2.
  destruct (fold_conns (fun c => abortReset (snd c)) ts (set_conns n0 c1)) as [c2 E2]. rewrite E2 in H2 |- *.
  cbn [n_conns set_conns] in H2. exists c2. split; [done|].
  rewrite <- (app_nil_r ts). by eapply conns_rel_trans.
Qed.

Lemma resetPair_pipes E k n : pipes_ok E (n_conns n) -> pipes_ok E (n_conns (resetPair k n)).
Proof.
  intros Hp. unfold resetPair.
  assert (forall (f : connRef -> link Src -> link Src) ts m,
    (forall c lk, link_ok E lk -> link_ok E (f c lk)) -> pipes_ok E (n_conns m) ->
    pipes_ok E (n_conns (fold_left (fun n c => upd_conn (fst c) (f c) n) ts m))) as Hfold.
  { intros f ts. induction ts as [|c ts IH]; intros m Hf Hm; [done|]. cbn [fold_left]. apply IH; [done|]. apply pipes_upd; [apply Hf|done]. }
  apply (Hfold (fun c => abortReset (snd c))); [intros; by apply abortReset_link|].
  apply (Hfold (fun c => signalReset (snd c))); [intros; by apply signalReset_link|done].
Qed.

Lemma resetPair_ok k n : net_ok n -> net_ok (resetPair k n).
Proof.
  intros [Hbk Ha Hl Hh Hb Hr Ho Ht Hp Hf Hpi]. pose proof (resetPair_pipes (envOf n) k n Hpi) as Hpi'.
  destruct (resetPair_shape k n) as (conns & Esh & Hrel). rewrite Esh in *.
  split; cbn; try done.
  - eapply registry_rel; [done|done|]. intros q. rewrite targets_delete. destruct (Hr q) as (Hnd & Hof & _).
    destruct (decide (q = k)) as [->|Hne].
    + split; [constructor|]. intros c. split; [intros Hc; by apply elem_of_nil in Hc|by intros [? ?]].
    + split; [done|]. intros c. split; [|by intros [? _]]. intros Hc. split; [done|]. intros Hk.
      apply Hof in Hc as (lk & E & Hq). apply (proj1 (proj2 (Hr k))) in Hk as (lk' & E' & Hk).
      rewrite E in E'. injection E' as <-. destruct (Hq sideDialer) as [_ E1], (Hk sideDialer) as [_ E2]. congruence.
  - by eapply ordinals_rel.
  - by eapply traces_rel.
Qed.

Lemma Reset_ok a b n n' : net_ok n -> Reset a b n = Ret n' -> net_ok n'.
Proof.
  intros Hok. rewrite Reset_eq. intros ([] & _ & E)%go_bind_ret. destruct (resolvePair a b n) as [k n1] eqn:Ek.
  destruct (resolvePair_ok _ _ _ _ _ Hok Ek) as (Hok1 & _). injection E as <-. by apply resetPair_ok.
Qed.

Lemma SetLatency_ok min max n n' : is_i64 max -> net_ok n -> SetLatency min max n = Ret n' -> net_ok n'.
Proof.
  intros Hm Hok. unfold SetLatency. intros ([] & Hv%validateLatency_spec & [= <-])%go_bind_ret.
  apply net_ok_faults; [|done|done]. destruct (ok_faults _ Hok) as (H1 & H2 & H3). split; [|done]. cbn. unfold is_i64 in Hm. lia.
Qed.

Lemma SetPacketLoss_ok rate n n' : f64_valid rate = true -> net_ok n -> SetPacketLoss rate n = Ret n' -> net_ok n'.
Proof.
  intros Hv Hok. unfold SetPacketLoss. intros ([] & _ & [= <-])%go_bind_ret.
  apply net_ok_faults; [|done|done]. by destruct (ok_faults _ Hok) as (H1 & H2 & H3 & H4).
Qed.

Lemma SetDuplication_ok rate n n' : f64_valid rate = true -> net_ok n -> SetDuplication rate n = Ret n' -> net_ok n'.
Proof.
  intros Hv Hok. unfold SetDuplication. intros ([] & _ & [= <-])%go_bind_ret.
  apply net_ok_faults; [|done|done]. by destruct (ok_faults _ Hok) as (H1 & H2 & H3 & H4 & H5).
Qed.

Lemma SetCorruption_ok rate n n' : f64_valid rate = true -> net_ok n -> SetCorruption rate n = Ret n' -> net_ok n'.
Proof.
  intros Hv Hok. unfold SetCorruption. intros ([] & _ & [= <-])%go_bind_ret.
  apply net_ok_faults; [|done|done]. by destruct (ok_faults _ Hok) as (H1 & H2 & H3 & H4 & H5).
Qed.

(** ** Listeners *)

Lemma listeners_insert listeners heap l :
  listeners_ok P listeners heap -> l_closed l = false ->
  listeners !! addr_peer (l_addr l) ≫= (fun ports => ports !! addr_port (l_addr l)) = None ->
  listeners_ok P (<[addr_peer (l_addr l) := <[addr_port (l_addr l) := length heap]>
                    (default ∅ (listeners !! addr_peer (l_addr l)))]> listeners) (heap ++ [l]).
Proof.
  intros [Hreg Hopen Hne] Hcl Hfree. set (peer := addr_peer (l_addr l)) in *. set (port := addr_port (l_addr l)) in *.
  split.
  - intros q ports pt id [[<- <-]|[Hq Hp]]%lookup_insert_Some.
    + intros [[<- <-]|[Hpt Hid]]%lookup_insert_Some.
      { exists l. rewrite list_lookup_middle by done. split_and!; try done. by left. }
      destruct (listeners !! peer) as [ports0|] eqn:El; cbn in Hid; [|by rewrite lookup_empty in Hid].
      destruct (Hreg peer ports0 pt id El Hid) as (l' & Hh & H'). exists l'. split; [by apply lookup_app_l_Some|done].
    + intros Hid. destruct (Hreg q ports pt id Hp Hid) as (l' & Hh & H'). exists l'. split; [by apply lookup_app_l_Some|done].
  - intros id l' [Hh|[Hge Hh]]%lookup_app_Some Hcl'.
    + destruct (Hopen id l' Hh Hcl') as (ports & Hp & Hid). destruct (decide (peer = addr_peer (l_addr l'))) as [E|E].
      * rewrite <- E in *. rewrite lookup_insert_eq. eexists. split; [done|]. rewrite Hp in Hfree |- *. cbn in Hfree |- *.
        rewrite lookup_insert_ne; [done|]. intros E2. congruence.
      * rewrite lookup_insert_ne by done. eauto.
    + apply list_lookup_singleton_Some in Hh as [Hz <-]. rewrite lookup_insert_eq. eexists. split; [done|].
      rewrite lookup_insert_eq. f_equal. lia.
  - intros q ports [[<- <-]|[Hq Hp]]%lookup_insert_Some; [apply insert_non_empty|by eapply Hne].
Qed.

(** Closing an open listener: out of the table. *)
Definition dropListener (a : addr) (listeners : gmap string (gmap Z nat)) : gmap string (gmap Z nat) :=
  match listeners !! addr_peer a with
  | None => listeners
  | Some ports =>
      let ports := delete (addr_port a) ports in
      if decide (ports = ∅) then delete (addr_peer a) listeners else <[addr_peer a := ports]> listeners
  end.

Lemma deregister_eq a n : deregister a n = set_listeners n (dropListener a (n_listeners n)).
Proof. unfold deregister, dropListener. destruct (n_listeners n !! addr_peer a); [done|]. by destruct n. Qed.

Definition entry (listeners : gmap string (gmap Z nat)) (peer : string) (port : Z) : option nat :=
  listeners !! peer ≫= (fun ports => ports !! port).

Lemma dropListener_entry a listeners peer port :
  entry (dropListener a listeners) peer port =
  if decide (peer = addr_peer a /\ port = addr_port a) then None else entry listeners peer port.
Proof.
  unfold entry, dropListener. destruct (listeners !! addr_peer a) as [ports|] eqn:Ep.
  2: { destruct (decide _) as [[-> ->]|]; [by rewrite Ep|done]. }
  cbn zeta. destruct (decide (peer = addr_peer a)) as [->|Hne].
  - destruct (decide (delete (addr_port a) ports = ∅)) as [E|E].
    + rewrite lookup_delete_eq. cbn. destruct (decide _) as [_|Hn]; [done|]. rewrite Ep. cbn.
      assert (port <> addr_port a) as Hp by tauto. symmetry.
      rewrite <- (lookup_delete_ne ports (addr_port a) port) by done. by rewrite E.
    + rewrite lookup_insert_eq. cbn. rewrite Ep. cbn. destruct (decide _) as [[_ ->]|Hn]; [by rewrite lookup_delete_eq|].
      apply lookup_delete_ne. intros E'. by apply Hn.
  - rewrite (decide_False (P := peer = _ /\ _)) by tauto.
    destruct (decide (delete (addr_port a) ports = ∅)); [by rewrite lookup_delete_ne|by rewrite lookup_insert_ne].
Qed.

Lemma dropListener_nonempty a listeners peer ports :
  (forall q ps, listeners !! q = Some ps -> ps <> ∅) -> dropListener a listeners !! peer = Some ports -> ports <> ∅.
Proof.
  intros Hne. unfold dropListener. destruct (listeners !! addr_peer a) as [ps|]; [|by apply Hne]. cbn zeta.
  destruct (decide (delete (addr_port a) ps = ∅)).
  - intros [_ E]%lookup_delete_Some. by eapply Hne.
  - intros [[_ <-]|[_ E]]%lookup_insert_Some; [done|by eapply Hne].
Qed.

Lemma entry_some listeners peer port id :
  entry listeners peer port = Some id <-> exists ports, listeners !! peer = Some ports /\ ports !! port = Some id.
Proof.
  unfold entry. destruct (listeners !! peer) as [ports|]; cbn; split; [by exists ports|by intros (? & [= ->] & ?)|done|].
  by intros (? & ? & ?).
Qed.

Lemma listeners_entries listeners heap :
  listeners_ok P listeners heap <->
  (forall peer port id, entry listeners peer port = Some id ->
     exists l, heap !! id = Some l /\ addr_peer (l_addr l) = peer /\ addr_port (l_addr l) = port /\ listed P id l) /\
  (forall id l, heap !! id = Some l -> listed P id l -> entry listeners (addr_peer (l_addr l)) (addr_port (l_addr l)) = Some id) /\
  (forall peer ports, listeners !! peer = Some ports -> ports <> ∅).
Proof.
  split.
  - intros [H1 H2 H3]. split_and!; [|intros id l Hh Hc; apply entry_some; eauto|done].
    intros peer port id (ports & E1 & E2)%entry_some. eauto.
  - intros (A1 & A2 & A3). split; [|intros id l Hh Hc; apply entry_some; eauto|done].
    intros peer ports port id E1 E2. apply A1, entry_some. eauto.
Qed.

(** A change of a listener that keeps its address and whether it is open. *)
Lemma listeners_update listeners heap id l l' :
  heap !! id = Some l -> l_addr l' = l_addr l -> l_closed l' = l_closed l ->
  listeners_ok P listeners heap -> listeners_ok P listeners (<[id := l']> heap).
Proof.
  intros Hi Ea Ec. rewrite !listeners_entries. intros (A1 & A2 & A3).
  assert (id < length heap)%nat as Hlen by (by eapply lookup_lt_Some). split_and!; [| |done].
  - intros peer port j Hj. destruct (A1 peer port j Hj) as (l0 & Hh & B1 & B2 & B3).
    destruct (decide (id = j)) as [<-|Hne]; [|exists l0; by rewrite list_lookup_insert_ne].
    rewrite Hi in Hh. injection Hh as <-. exists l'. rewrite list_lookup_insert_eq by done. unfold listed. by rewrite Ea, Ec.
  - intros j l0 Hj. destruct (decide (id = j)) as [<-|Hne].
    + rewrite list_lookup_insert_eq in Hj by done. injection Hj as <-. unfold listed. rewrite Ea, Ec. by apply A2.
    + rewrite list_lookup_insert_ne in Hj by done. by apply A2.
Qed.

Lemma listeners_close listeners heap id l l' :
  heap !! id = Some l -> listed P id l -> ~ listed P id l' ->
  listeners_ok P listeners heap -> listeners_ok P (dropListener (l_addr l) listeners) (<[id := l']> heap).
Proof.
  intros Hi Hopen Hcl. rewrite !listeners_entries. intros (A1 & A2 & A3).
  assert (id < length heap)%nat as Hlen by (by eapply lookup_lt_Some).
  pose proof (A2 id l Hi Hopen) as Hent. split_and!.
  - intros peer port j. rewrite dropListener_entry. destruct (decide _) as [|Hn]; [done|]. intros Hj.
    destruct (A1 peer port j Hj) as (l0 & Hh & B1 & B2 & B3). exists l0.
    rewrite list_lookup_insert_ne; [done|]. intros <-. rewrite Hi in Hh. injection Hh as <-. by destruct Hn.
  - intros j l0 Hj Hc. destruct (decide (id = j)) as [<-|Hne].
    { rewrite list_lookup_insert_eq in Hj by done. injection Hj as <-. by destruct Hcl. }
    rewrite list_lookup_insert_ne in Hj by done. rewrite dropListener_entry. rewrite decide_False; [by apply A2|].
    intros [E1 E2]. pose proof (A2 j l0 Hj Hc) as E. rewrite E1, E2, Hent in E. congruence.
  - intros peer ports. apply dropListener_nonempty. exact A3.
Qed.

Lemma heap_update heap id l' :
  heap_ok P heap -> backlog_ok l' -> (l_closed l' = true -> id ∉ pd_undrained P -> l_incoming l' = []) -> heap_ok P (<[id := l']> heap).
Proof.
  intros Hh Hb Hc j l0 Hj. destruct (decide (id = j)) as [<-|Hne].
  - destruct (decide (id < length heap)%nat) as [Hl|Hl].
    + rewrite list_lookup_insert_eq in Hj by done. by injection Hj as <-.
    + rewrite list_insert_ge in Hj by lia. by apply (Hh id).
  - rewrite list_lookup_insert_ne in Hj by done. by apply (Hh j).
Qed.

Lemma net_ok_heap n id l l' :
  net_ok n -> n_heap n !! id = Some l -> l_addr l' = l_addr l -> l_closed l' = l_closed l -> backlog_ok l' ->
  (l_closed l' = true -> id ∉ pd_undrained P -> l_incoming l' = []) -> net_ok (set_heap n (<[id := l']> (n_heap n))).
Proof.
  intros [Hbk Ha Hl Hh Hb Hr Ho Ht Hp Hf Hpi] Hi Ea Ec Hok Hq. split; cbn; try done; [by eapply addrs_update|by eapply listeners_update|by apply heap_update].
Qed.

Lemma reserve_net_ok n id l : net_ok n -> n_heap n !! id = Some l -> net_ok (set_heap n (<[id := snd (reserve l)]> (n_heap n))).
Proof.
  intros Hok Hi. destruct (ok_heap _ Hok id l Hi) as [Hb Hq]. destruct (reserve l) as [e l'] eqn:Er.
  destruct (reserve_ok _ _ _ Hb Er) as (B1 & B2 & B3 & B4). eapply net_ok_heap; [done|done| |done|done|cbn; by rewrite B2, B3].
  cbn. unfold reserve in Er. destruct (l_closed l); [by injection Er as _ <-|]. destruct (_ <=? _); by injection Er as _ <-.
Qed.

Lemma listenerAccept_ok b id n : net_ok n -> net_ok (snd (listenerAccept b id n)).
Proof.
  intros Hok. unfold listenerAccept. destruct (n_heap n !! id) as [l|] eqn:Hi; [|done].
  destruct (Accept b l) as [r l'] eqn:Ea. destruct (ok_heap _ Hok id l Hi) as [Hb Hq]. cbn [snd].
  assert (l' = l \/ exists c q, l_incoming l = c :: q /\ l' = set_incoming l q) as [->|(c & q & Eq & ->)].
  { unfold Accept in Ea. destruct (l_incoming l) as [|c q]; [left; destruct (l_closed l); by injection Ea|].
    destruct (_ && _); injection Ea as _ <-; [by left|right; by eexists _, _]. }
  - by eapply net_ok_heap.
  - eapply net_ok_heap; try done; cbn; [|intros Hc Hd; by rewrite (Hq Hc Hd) in Eq]. destruct Hb as [B1 B2]. rewrite Eq, zlen_cons in B2. split; cbn; [done|lia].
Qed.

Lemma listenerClose_ok id n : id ∉ pd_unlisted P -> net_ok n -> net_ok (listenerClose id n).
Proof.
  intros Hid Hok. unfold listenerClose. destruct (n_heap n !! id) as [l|] eqn:Hi; [|done]. unfold closeMark.
  destruct (l_closed l) eqn:Ec; [done|]. cbn zeta. apply closeAll_ok. rewrite deregister_eq. cbn.
  destruct Hok as [Hbk Ha Hl Hh Hb Hr Ho Ht Hp Hf Hpi]. destruct (Hh id l Hi) as [[B1 B2] _].
  rewrite list_insert_insert_eq. split; cbn; try done.
  - by eapply addrs_update.
  - eapply listeners_close; [done|by left| |done]. by intros [?|?].
  - apply heap_update; [done| |done]. split; cbn; [done|]. pose proof (zlen_nonneg (l_incoming l)).
    change (zlen (@nil connRef)) with 0. lia.
Qed.

(** *** Listen *)

Lemma pickPort_range attempts n peer port next port' next' :
  pickPort attempts n peer port next = (port', next') ->
  listenPortBase <= next <= maxPort -> listenPortBase <= next' <= maxPort /\
  (attempts <> 0%nat -> listenPortBase <= port' <= maxPort).
Proof.
  revert port next. induction attempts as [|k IH]; intros port next; cbn; [by intros [= <- <-]|].
  intros E Hn. assert (listenPortBase <= (if maxPort <? next + 1 then listenPortBase else next + 1) <= maxPort) as Hn'.
  { destruct (Z.ltb_spec maxPort (next + 1)); unfold listenPortBase, maxPort in *; lia. }
  destruct (listenerAt n peer next); [|injection E as <- <-; done].
  destruct (IH _ _ E Hn') as [H1 H2]. split; [done|]. intros _. destruct k; [injection E as <- <-; done|by apply H2].
Qed.

(** All that a Listen that registers nothing can change. *)
Definition listen_touched n n' : Prop :=
  exists book next wild, n' = set_book (set_nextListenPort (set_nextWildcard n wild) next) book /\
    book_le (n_book n) book.

Definition registered n n' (id : nat) (l : listener connRef) : Prop :=
  id = length (n_heap n) /\
  n_heap n' = n_heap n ++ [l] /\ entry (n_listeners n) (addr_peer (l_addr l)) (addr_port (l_addr l)) = None /\
  (forall peer port, entry (n_listeners n') peer port =
     if decide (peer = addr_peer (l_addr l) /\ port = addr_port (l_addr l)) then Some id else entry (n_listeners n) peer port).

Lemma insert_entry listeners peer port id q pt :
  entry (<[peer := <[port := id]> (default ∅ (listeners !! peer))]> listeners) q pt =
  if decide (q = peer /\ pt = port) then Some id else entry listeners q pt.
Proof.
  unfold entry. destruct (decide (q = peer)) as [->|Hne].
  - rewrite lookup_insert_eq. cbn. destruct (decide (pt = port)) as [->|Hp].
    + by rewrite lookup_insert_eq, decide_True.
    + rewrite lookup_insert_ne by done. rewrite decide_False by tauto.
      destruct (listeners !! peer); cbn; [done|by rewrite lookup_empty].
  - rewrite lookup_insert_ne by done. by rewrite decide_False by tauto.
Qed.

Lemma net_ok_port n next : listenPortBase <= next <= maxPort -> net_ok n -> net_ok (set_nextListenPort n next).
Proof. intros Hn []. by split. Qed.

Lemma net_ok_wild n w : net_ok n -> net_ok (set_nextWildcard n w).
Proof. intros []. by split. Qed.

(** The listener a Listen creates. *)
Record fresh_listener (network peer : string) (port : Z) n n' (l : listener connRef) : Prop := {
  fresh_id : l_addr l = mkAddr network peer port (addr_ip (l_addr l));
  fresh_ip : exists ip, addr_ip (l_addr l) = Some ip /\ ip_of_peer (n_book n') peer (addressFamily network peer) ip;
  fresh_state : l_closed l = false /\ l_incoming l = [] /\ l_reserved l = 0 /\ l_cap l = n_listenerBacklog n
}.

Lemma listenRegister_spec network laddr peer port n :
  net_ok n -> settled (n_book n) peer -> 0 <= port <= maxPort ->
  exists r n', listenRegister network laddr peer port n = Ret (r, n') /\ net_ok n' /\ book_le (n_book n) (n_book n') /\
    n_conns n' = n_conns n /\ n_nextOrdinal n' = n_nextOrdinal n /\
    match r with
    | inl id => exists l, fresh_listener network peer port n n' l /\ registered n n' id l
    | inr err => n' = set_book n (n_book n') /\
        (err = listenOpError network laddr ErrAddressInUse <-> is_Some (listenerAt n peer port))
    end.
Proof.
  intros Hok Hs Hport. unfold listenRegister. destruct (listenerAt n peer port) as [id|] eqn:Eat.
  { exists (inr (listenOpError network laddr ErrAddressInUse)), n. split_and!; try done. by destruct n. }
  destruct (peerIPLocked_ok _ peer (addressFamily network peer) (ok_book _ Hok) Hs) as (r & book & Er & Hbk & _).
  pose proof (peerIPLocked_le _ _ _ _ _ (ok_book _ Hok) Hs Er) as Hle.
  rewrite Er. cbn [mbind go_bind]. destruct r as [ip|err].
  - set (l := newListener (mkAddr network peer port (Some ip)) (n_listenerBacklog n) : listener connRef).
    eexists _, _. split; [done|]. cbn. split_and!; [|done..|].
    + destruct Hok as [Hbk0 Ha Hl Hh Hb Hr Ho Ht Hp Hf Hpi]. split; cbn; try done.
      * intros id l0 [Hi|[_ Hi]]%lookup_app_Some.
        { by apply (peer_addr_le (n_book n)), (Ha id). }
        apply list_lookup_singleton_Some in Hi as [_ <-]. cbn. split; [eapply settled_le; [apply Hle|done]|]. split; [done|].
        exists ip. split; [done|]. by apply (peerIPLocked_gives _ _ _ _ _ Hbk0 Hs Er).
      * by apply (listeners_insert _ _ l).
      * intros id l0 [Hi|[_ Hi]]%lookup_app_Some; [by apply (Hh id)|]. apply list_lookup_singleton_Some in Hi as [_ <-].
        split; [|done]. apply (newListener_ok (mkAddr network peer port (Some ip))). lia.
    + exists l. split; [split; [done| |done]|].
      * exists ip. split; [done|]. cbn. eapply peerIPLocked_gives; [|exact Hs|exact Er]. apply Hok.
      * split; [done|]. split; [done|]. split; [exact Eat|]. intros q pt. apply insert_entry.
  - eexists _, _. split; [done|]. cbn. split_and!; try done; [by apply net_ok_book|].
    split; [|by intros [? ?]]. destruct (peerIPLocked_err _ _ _ _ _ Er) as [text ->].
    unfold listenOpError, ErrAddressInUse. done.
Qed.

Lemma listenPort_spec peer port explicit n port' n' :
  net_ok n -> listenPort peer port explicit n = (port', n') ->
  net_ok n' /\ n' = set_nextListenPort n (n_nextListenPort n') /\
  (explicit = true -> port' = port) /\ (explicit = false -> listenPortBase <= port' <= maxPort).
Proof.
  intros Hok. unfold listenPort. destruct explicit; cbn [negb].
  { intros [= <- <-]. split; [done|]. split; [by destruct n|done]. }
  destruct (pickPort _ n peer port (n_nextListenPort n)) as [pt next] eqn:Ep. intros [= <- <-].
  destruct (pickPort_range _ _ _ _ _ _ _ Ep (ok_ports _ Hok)) as [H1 H2].
  split; [by apply net_ok_port|]. split; [done|]. split; [done|]. intros _. apply H2. unfold portAttempts, maxPort, listenPortBase. lia.
Qed.

(** A Listen on any Network in good state returns. What it registers is a new
    open listener under a name and port nobody had; what it refuses leaves
    listeners and connections alone. *)
Lemma Listen_spec network laddr n :
  net_ok n ->
  exists r n', Listen network laddr n = Ret (r, n') /\ net_ok n' /\ book_le (n_book n) (n_book n') /\
    n_conns n' = n_conns n /\ n_nextOrdinal n' = n_nextOrdinal n /\
    match r with
    | inl id => exists peer port l, fresh_listener network peer port n n' l /\ registered n n' id l /\ settled (n_book n') peer
    | inr err => n_listeners n' = n_listeners n /\ n_heap n' = n_heap n /\
        exists cause, err = listenOpError network laddr cause
    end.
Proof.
  intros Hok. unfold Listen. destruct (validateNetwork network) as [err|]; [exists (inr (listenOpError network laddr err)), n; split_and!; eauto|].
  destruct (splitAddr laddr) as [[[peer port] explicit]|err] eqn:Esplit; [|exists (inr (listenOpError network laddr err)), n; split_and!; eauto].
  set (pn := if String.eqb peer "" then _ else _).
  assert (exists peer1 w, pn = (peer1, set_nextWildcard n w)) as (peer1 & w & ->).
  { unfold pn. destruct (String.eqb peer ""); [eauto|]. exists peer, (n_nextWildcard n). by destruct n. }
  cbv beta iota zeta. set (taken := match parseLiteralIP peer1 with Some _ => _ | None => _ end). destruct taken.
  { eexists _, _. split; [done|]. split; [by apply net_ok_wild|]. split_and!; try done. by eexists. }
  cbn [n_book set_nextWildcard].
  pose proof (canonicalPeerLocked_ok peer1 _ (ok_book _ Hok)) as Hc.
  destruct (canonicalPeerLocked peer1 (n_book n)) as [peer2 book] eqn:Ecp. destruct Hc as (C1 & _ & _ & C4 & _).
  pose proof (canonicalPeerLocked_le _ _ _ _ (ok_book _ Hok) Ecp) as C2.
  set (n1 := set_book _ book). assert (net_ok n1) as Hok1 by (by apply net_ok_book, net_ok_wild).
  destruct (listenPort peer2 port explicit n1) as [port2 n2] eqn:Ep.
  destruct (listenPort_spec _ _ _ _ _ _ Hok1 Ep) as (Hok2 & En2 & Hgiven & Hpicked).
  assert (0 <= port2 <= maxPort) as Hport.
  { destruct explicit; [rewrite Hgiven by done; by apply (splitAddr_range _ _ _ _ Esplit)|].
    specialize (Hpicked eq_refl). unfold listenPortBase in Hpicked. lia. }
  assert (n_book n2 = book) as Eb by (by rewrite En2).
  destruct (listenRegister_spec network laddr peer2 port2 n2 Hok2 ltac:(by rewrite Eb) Hport) as (r & n3 & E3 & Hok3 & Hle & Hc3 & Ho3 & Hr).
  exists r, n3. split; [done|]. split; [done|]. split; [rewrite Eb in Hle; by eapply book_le_trans|].
  split; [rewrite Hc3, En2; done|]. split; [rewrite Ho3, En2; done|]. destruct r as [id|err].
  - destruct Hr as (l & [Hf1 Hf2 Hf3] & Hreg). exists peer2, port2, l. split.
    + split; [done|done|]. by rewrite En2 in Hf3.
    + split; [by rewrite En2 in Hreg|]. eapply settled_le; [apply Hle|]. by rewrite Eb.
  - destruct Hr as (Hn & _). rewrite Hn, En2. split_and!; try done.
    unfold listenRegister in E3. destruct (listenerAt n2 peer2 port2); [injection E3 as <- _; eauto|].
    apply go_bind_ret in E3 as ([[ip|e] b] & _ & E3); [done|]. injection E3 as <- _. eauto.
Qed.

(** ** Dialing *)

Lemma dialResolve_ok now ctx network dialAddr n r n' :
  net_ok n -> dialResolve now ctx network dialAddr n = (r, n') ->
  net_ok n' /\ n' = set_book n (n_book n') /\ book_le (n_book n) (n_book n') /\
  match r with
  | inl req => req_ok n' req /\ settled (n_book n') (dr_peer req) /\ dr_local req <> Some ""%string /\
      (peerNameFromContext ctx = None -> dr_local req = None)
  | inr err => n' = n
  end.
Proof.
  intros Hok. assert (n = set_book n (n_book n)) as Hself by (by destruct n). unfold dialResolve.
  destruct (ctx_Err now ctx); [by intros [= <- <-]|]. destruct (validateNetwork network); [by intros [= <- <-]|].
  destruct (splitAddr dialAddr) as [[[peer port] explicit]|err]; [|by intros [= <- <-]].
  destruct (String.eqb peer ""); [by intros [= <- <-]|]. cbn zeta. unfold canonicalPeer.
  pose proof (canonicalPeerLocked_ok peer _ (ok_book _ Hok)) as Hc.
  destruct (canonicalPeerLocked peer (n_book n)) as [peer1 book] eqn:Ecp. destruct Hc as (C1 & _ & _ & C4 & _).
  pose proof (canonicalPeerLocked_le _ _ _ _ (ok_book _ Hok) Ecp) as C2.
  assert (net_ok (set_book n book)) as Hok1 by (by apply net_ok_book).
  destruct (peerNameFromContext ctx) as [name|].
  2: { intros [= <- <-]. split; [done|]. split; [done|]. split; [done|]. by split_and!. }
  destruct (resolvePeer name (set_book n book)) as [localName n2] eqn:Er.
  destruct (resolvePeer_ok _ _ _ _ Hok1 Er) as (Hok2 & En2 & Hle & Hs).
  intros [= <- <-]. split; [done|]. split; [by rewrite En2|]. split; [by eapply book_le_trans|].
  split; [unfold req_ok; cbn; by destruct (String.eqb localName "")|].
  split; [by eapply settled_le; [apply Hle|]|]. cbn. destruct (String.eqb_spec localName ""); [done|]. split; [congruence|done].
Qed.

Lemma dialPair_ends local remote ordinal network pair n s :
  let e := end_of (dialPair local remote ordinal network pair n) s in
  c_closed e = false /\ c_reset e = false /\ c_nw e = true /\ c_pair e = pair /\ c_ordinal e = ordinal /\ c_network e = network /\
  c_local e = (match s with sideDialer => local | sideAcceptor => remote end) /\
  c_remote e = (match s with sideDialer => remote | sideAcceptor => local end).
Proof. by destruct s. Qed.

Lemma dialPair_link local remote ordinal network pair n : link_ok (envOf n) (dialPair local remote ordinal network pair n).
Proof. intros s. destruct s; apply (fresh_direction_ok (envOf n)). Qed.

Lemma live_end_app conns lk k c :
  live_end (conns ++ [lk]) k c <->
  live_end conns k c \/ fst c = length conns /\ live_end [lk] k (0%nat, snd c).
Proof.
  unfold live_end. cbn. split.
  - intros (lk0 & [Hi|[Hge Hi]]%lookup_app_Some & Hl); [left; eauto|right].
    apply list_lookup_singleton_Some in Hi as [Hz <-]. split; [lia|eauto].
  - intros [(lk0 & Hi & Hl)|(E & lk0 & [= <-] & Hl)].
    + exists lk0. split; [by apply lookup_app_l_Some|done].
    + exists lk. rewrite E, list_lookup_middle by done. done.
Qed.

Lemma registry_app rt conns lk pair :
  registry_ok P rt conns ->
  (forall s, let e := end_of lk s in c_closed e = false /\ c_reset e = false /\ c_nw e = true /\ c_pair e = pair) ->
  let i := length conns in
  registry_ok P (<[pair := default [] (rt !! pair) ++ [(i, sideDialer); (i, sideAcceptor)]]> rt) (conns ++ [lk]).
Proof.
  intros Hreg Hlk i k. fold (targets rt pair). rewrite targets_insert. destruct (Hreg k) as (Hnd & Hof & Hin).
  assert (forall q s, (i, s) ∉ targets rt q) as Hnew.
  { intros q s (lk0 & E & _)%(proj1 (proj2 (Hreg q))). cbn in E. apply lookup_lt_Some in E. unfold i in E. lia. }
  assert (forall q c, end_of_pair conns q c -> end_of_pair (conns ++ [lk]) q c) as Hgrow.
  { intros q c (lk0 & E & Hq). exists lk0. split; [by apply lookup_app_l_Some|done]. }
  assert (forall c, live_end (conns ++ [lk]) k c <-> live_end conns k c \/ fst c = i /\ k = pair) as Hlive.
  { intros c. rewrite live_end_app. unfold live_end. cbn. split; intros [Hl|[E Hl]]; auto; right; split; try done.
    - destruct Hl as (lk0 & [= <-] & _ & <- & _). by destruct (Hlk (snd c)) as (_ & _ & _ & ->).
    - exists lk. subst k. by destruct (Hlk (snd c)) as (-> & -> & -> & ->). }
  destruct (decide (k = pair)) as [->|Hne].
  - split; [|split].
    + apply NoDup_app. split; [done|]. split.
      * intros c Hc Hc'. apply elem_of_cons in Hc' as [->|Hc']; [by apply (Hnew pair sideDialer)|].
        apply list_elem_of_singleton in Hc' as ->. by apply (Hnew pair sideAcceptor).
      * apply NoDup_cons. split; [by intros [= ]%list_elem_of_singleton|apply NoDup_singleton].
    + intros c [Hc|Hc]%elem_of_app; [by apply Hgrow, Hof|]. assert (fst c = i) as E.
      { by apply elem_of_cons in Hc as [->| ->%list_elem_of_singleton]. }
      exists lk. rewrite E. split; [by apply list_lookup_middle|]. intros s. by destruct (Hlk s) as (_ & _ & ? & ?).
    + intros [j s] Hp. rewrite Hlive, elem_of_app, elem_of_cons, list_elem_of_singleton, (Hin _ Hp). cbn. split.
      * intros [?|[E|E]]; [by left|injection E as -> ->; by right..].
      * intros [?|[-> _]]; [auto|]. right. destruct s; auto.
  - split; [done|]. split; [intros c Hc; by apply Hgrow, Hof|]. intros c Hp. rewrite Hlive, (Hin c Hp). split; [auto|]. by intros [?|[_ ?]].
Qed.

Lemma ordinals_app conns next lk :
  ordinals_ok conns next -> next + 1 < 2 ^ 64 -> (forall s, c_ordinal (end_of lk s) = next) ->
  ordinals_ok (conns ++ [lk]) (next + 1).
Proof.
  intros (Hn & Hall & Hmono) Hlt Hlk. split; [lia|]. pose proof (Hlk sideDialer) as Hc. cbn in Hc. split.
  - intros i lk0 s [Hi|[_ Hi]]%lookup_app_Some.
    + destruct (Hall i lk0 s Hi). split; [done|lia].
    + apply list_lookup_singleton_Some in Hi as [_ <-]. rewrite Hlk, Hc. split; [done|lia].
  - intros i j lk1 lk2 [Hi|[Hge Hi]]%lookup_app_Some [Hj|[Hge' Hj]]%lookup_app_Some.
    + by eapply Hmono.
    + apply list_lookup_singleton_Some in Hj as [_ <-]. rewrite Hc. destruct (Hall i lk1 sideDialer Hi). lia.
    + apply list_lookup_singleton_Some in Hi as [_ <-]. rewrite Hc. destruct (Hall j lk2 sideDialer Hj). lia.
    + apply lookup_lt_Some in Hi, Hj. cbn in *. lia.
Qed.

Lemma ordinals_next conns next : ordinals_ok conns next -> next + 1 < 2 ^ 64 -> ordinals_ok conns (next + 1).
Proof. intros (Hn & Hall & Hmono) Hlt. split; [lia|]. split; [|done]. intros i lk s Hi. destruct (Hall i lk s Hi). split; [done|lia]. Qed.

Lemma traces_grow enabled traces conns lk : traces_ok enabled traces conns -> traces_ok enabled traces (conns ++ [lk]).
Proof.
  intros (H1 & H2 & H3). split; [done|]. split; [done|]. intros h Hh. destruct (H3 h Hh) as (i & lk0 & Hi & E).
  exists i, lk0. split; [by apply lookup_app_l_Some|done].
Qed.

(** Registering a direction that is not in yet. *)
Lemma traces_register traces conns next i lk s :
  traces_ok true traces conns -> ordinals_ok conns next -> conns !! i = Some lk -> handleOf i lk s ∉ traces ->
  traces_ok true (traces ++ [handleOf i lk s]) conns.
Proof.
  intros (H1 & H2 & H3) (_ & _ & Hinj) Hi Hnew. split; [done|]. split.
  - rewrite map_app. apply NoDup_app. split; [done|]. split; [|apply NoDup_singleton].
    intros k (h & -> & Hh)%list_elem_of_fmap Hk. apply list_elem_of_singleton in Hk. apply Hnew.
    destruct (H3 h Hh) as (j & lk' & Hj & E). unfold handle_key in Hk. rewrite E in Hk. injection Hk as Eo Es.
    assert (j = i) as -> by (by eapply Hinj). assert (lk' = lk) as -> by congruence. by rewrite <- Es, <- E.
  - intros h [Hh| ->%list_elem_of_singleton]%elem_of_app; [by apply H3|by exists i, lk].
Qed.

Lemma dialRegister_ok ordinal pair lk n :
  net_ok (set_nextOrdinal n ordinal) -> ordinal + 1 < 2 ^ 64 ->
  (forall s, let e := end_of lk s in c_closed e = false /\ c_reset e = false /\ c_nw e = true /\ c_pair e = pair /\ c_ordinal e = ordinal) ->
  link_ok (envOf n) lk -> n_nextOrdinal n = ordinal + 1 -> net_ok (dialRegister ordinal pair lk n).
Proof.
  intros [Hbk Ha Hl Hh Hb Hr Ho Ht Hp Hf Hpi] Hlt Hlk Hlkok Hnext. cbn in *. unfold dialRegister, registerReset. cbn zeta.
  assert (registry_ok P (<[pair := default [] (n_resetTargets n !! pair) ++ [(length (n_conns n), sideDialer); (length (n_conns n), sideAcceptor)]]> (n_resetTargets n)) (n_conns n ++ [lk])) as Hreg'.
  { apply registry_app; [done|]. intros s. by destruct (Hlk s) as (? & ? & ? & ? & _). }
  assert (ordinals_ok (n_conns n ++ [lk]) (n_nextOrdinal n)) as Hord'.
  { rewrite Hnext. apply ordinals_app; [done|done|]. intros s. by destruct (Hlk s) as (_ & _ & _ & _ & ?). }
  pose proof (traces_grow _ _ _ lk Ht) as Htr. assert (pipes_ok (envOf n) (n_conns n ++ [lk])) as Hpi' by (by apply pipes_app).
  cbn [n_traceEnabled set_resetTargets set_conns]. destruct (n_traceEnabled n) eqn:Et.
  2: { split; cbn; try done. by rewrite Et. }
  assert (c_ordinal (lk_client lk) = ordinal) as Eord by (by destruct (Hlk sideDialer) as (_ & _ & _ & _ & ?)).
  assert ((n_conns n ++ [lk]) !! length (n_conns n) = Some lk) as Hi by (by apply list_lookup_middle).
  assert (forall s, handleOf (length (n_conns n)) lk s ∉ n_traces n) as Hnew.
  { intros s Hin. destruct (proj2 (proj2 Ht) _ Hin) as (j & lk' & Hj & E). apply (f_equal th_rec) in E.
    apply lookup_lt_Some in Hj. cbn in E. destruct s; cbn in E; lia. }
  pose proof (traces_register _ _ _ _ _ sideDialer Htr Hord' Hi (Hnew sideDialer)) as Htr1.
  assert (handleOf (length (n_conns n)) lk sideAcceptor ∉ n_traces n ++ [handleOf (length (n_conns n)) lk sideDialer]) as Hnew1.
  { intros [Hin|Hin%list_elem_of_singleton]%elem_of_app; [by apply Hnew in Hin|]. discriminate Hin. }
  pose proof (traces_register _ _ _ _ _ sideAcceptor Htr1 Hord' Hi Hnew1) as Htr2.
  split; cbn; try done. rewrite Et. unfold handleOf in Htr2. rewrite Eord in Htr2. exact Htr2.
Qed.

(** What is established, and what a dial turns down after its reservation. *)
Lemma dialConnect_ok network req id l n r n' :
  net_ok n -> req_ok n req -> n_heap n !! id = Some l -> 0 < l_reserved l -> n_nextOrdinal n + 1 < 2 ^ 64 ->
  dialConnect network req id l n = Ret (r, n') ->
  net_ok n' /\ book_le (n_book n) (n_book n') /\ n_nextOrdinal n' = n_nextOrdinal n + 1 /\
  n_listeners n' = n_listeners n.
Proof.
  intros Hok Hreq Hi Hres Hlt. unfold dialConnect. cbn zeta.
  assert (u64 (n_nextOrdinal n + 1) = n_nextOrdinal n + 1) as Eu.
  { apply u64_id. destruct (ok_ordinals _ Hok) as (? & _). unfold is_u64. lia. }
  rewrite Eu. set (localName := match dr_local req with Some name => name | None => _ end).
  assert (settled (n_book n) localName) as Hs.
  { unfold localName, req_ok in *. destruct (dr_local req); [done|].
    assert (parseLiteralIP (ephemeralPeerName (n_nextOrdinal n)) = None) as E.
    { apply synthesized_not_literal; [done|]. destruct (ok_ordinals _ Hok) as (? & _). lia. }
    unfold settled. by rewrite E. }
  intros ([q book] & Eq & E)%go_bind_ret. cbn [n_book set_nextOrdinal] in Eq.
  destruct (peerIPLocked_ok _ localName (addressFamily (addr_network (l_addr l)) (addr_peer (l_addr l))) (ok_book _ Hok) Hs) as (q' & book' & Eq' & Hbk & _).
  pose proof (peerIPLocked_le _ _ _ _ _ (ok_book _ Hok) Hs Eq') as Hle.
  rewrite Eq' in Eq. injection Eq as -> ->. destruct q as [localIP|err].
  2: { injection E as _ <-. split_and!; try done. destruct Hok as [Hbk0 Ha Hl Hh Hb Hr Ho Ht Hp Hf Hpi]. split; cbn; try done; [by eapply addrs_le|by apply ordinals_next]. }
  set (pair := newPairKey localName (dr_peer req)) in *. set (n1 := set_book _ book) in *.
  set (lk := dialPair _ _ _ _ _ n1) in *. set (n2 := dialRegister _ pair lk n1) in *.
  assert (net_ok n2 /\ n_heap n2 = n_heap n /\ n_book n2 = book /\ n_nextOrdinal n2 = n_nextOrdinal n + 1 /\
    n_listeners n2 = n_listeners n) as (Hok2 & Eh & Eb & Eo & El).
  { split.
    - apply dialRegister_ok; [|done| |by apply dialPair_link|done].
      + destruct Hok as [Hbk0 Ha Hl Hh Hb Hr Ho Ht Hp Hf Hpi]. split; cbn; try done. by eapply addrs_le.
      + intros s. pose proof (dialPair_ends (mkAddr network localName (ephemeralPort (n_nextOrdinal n)) (Some localIP))
          (mkAddr network (dr_peer req) (addr_port (l_addr l)) (addr_ip (l_addr l))) (n_nextOrdinal n) network pair n1 s) as Hends.
        cbn zeta in Hends. fold lk in Hends. by destruct Hends as (H1 & H2 & H3 & H4 & H5 & _).
    - unfold n2, dialRegister, n1. cbn zeta. cbn. by destruct (n_traceEnabled n). }
  rewrite Eh, Hi in E. destruct (fill _ l) as [f l'] eqn:Ef. cbn zeta in E.
  assert (net_ok (set_heap n2 (<[id := l']> (n_heap n)))) as Hok3.
  { rewrite <- Eh. destruct (ok_heap _ Hok id l Hi) as [Hb Hq].
    destruct (fill_ok _ _ _ _ Hb Hres Ef) as (B1 & B2 & B3 & B4 & B5 & B6).
    assert (l_addr l' = l_addr l) as Ea.
    { unfold fill in Ef. cbn zeta in Ef. destruct (l_closed _); [by injection Ef as _ <-|]. destruct (_ <=? _); by injection Ef as _ <-. }
    apply (net_ok_heap _ _ l); try done; [by rewrite Eh|]. rewrite B3, B6. destruct (l_closed l); [by intros; apply Hq|done]. }
  injection E as _ <-. destruct f; [cbn; by rewrite Eb, Eo, El| |cbn; by rewrite Eb, Eo, El].
  match goal with |- context [connClose ?d ?m] => destruct (connClose_frame d m) as (F1 & F2 & F3 & F4 & F5 & F6 & _) end.
  rewrite F1, F6, F2. cbn. rewrite Eb, Eo, El. split_and!; try done. by apply connClose_ok.
Qed.

(** ** The invariant *)

Lemma section_step_ok n n' : net_ok n -> section_step n n' -> net_ok n'.
Proof.
  intros Hok Hst. destruct Hst as [n network laddr r n' E|n b id|n now ctx network dialAddr
    |n now c size|n now c data r n' Hlen Hroom E|n now i lk w size Hi|n now i lk w data r p' Hi Hlen Hroom E|n now i lk w Hi
    |n i lk lk' Hi Hio Hp|n min max n' Hm E|n rate n' Hv E|n rate n' Hv E|n rate n' Hv E].
  - destruct (Listen_spec network laddr n Hok) as (r0 & n0 & E0 & H1 & _). rewrite E in E0. by injection E0 as -> ->.
  - by apply listenerAccept_ok.
  - destruct (dialResolve now ctx network dialAddr n) as [r n'] eqn:E. by destruct (dialResolve_ok _ _ _ _ _ _ _ Hok E).
  - by apply connRead_ok.
  - by eapply connWrite_ok.
  - apply (upd_pipe_ok _ _ _ lk); [done|done|]. intros Hlk. destruct (tryRead _ _ size) as [r p'] eqn:E.
    eapply direction_read; [apply Hlk|exact E].
  - apply (upd_pipe_ok _ _ _ lk); [done|done|]. intros Hlk.
    apply (direction_write (envOf n) _ _ w (writePipe lk w) (viewAt now n) data r p'); try done. apply Hok.
  - apply (upd_pipe_ok _ _ _ lk); [done|done|]. intros Hlk. apply direction_release, Hlk.
  - pose proof (io_step_same _ _ Hio) as Hsame. apply net_ok_conns; [by apply (update_same _ _ lk)| |done].
    apply pipes_insert; [apply Hok|]. apply (link_ok_move _ lk).
    + intros s. destruct (Hsame s) as (_ & _ & _ & Hpair & Hid). split; [done|by apply conn_id_ordinal].
    + intros s. by rewrite Hp.
    + by eapply (ok_pipes _ Hok).
  - by eapply SetLatency_ok.
  - by eapply SetPacketLoss_ok.
  - by eapply SetDuplication_ok.
  - by eapply SetCorruption_ok.
Qed.

End inv.

Section runs.
Context {Src : Type} `{!DrawSource Src} `{!RejectFuel} `{!Platform}.
Implicit Types (n : Network Src).

(** ** Whole calls *)

(** With no call in progress the table is exactly the open listeners, a closed
    listener is empty, and the registry is exactly the live ends. *)
Lemma listed_open id (l : listener connRef) : listed no_pending id l <-> l_closed l = false.
Proof. split; [by intros [?|?%elem_of_nil]|by left]. Qed.

Lemma table_open n :
  net_ok n ->
  (forall peer port id, entry (n_listeners n) peer port = Some id ->
     exists l, n_heap n !! id = Some l /\ addr_peer (l_addr l) = peer /\ addr_port (l_addr l) = port /\ l_closed l = false) /\
  (forall id l, n_heap n !! id = Some l -> l_closed l = false ->
     entry (n_listeners n) (addr_peer (l_addr l)) (addr_port (l_addr l)) = Some id).
Proof.
  intros Hok. destruct (proj1 (listeners_entries _ _) (ok_listeners _ Hok)) as (A1 & A2 & _). split.
  - intros peer port id He. destruct (A1 _ _ _ He) as (l & B1 & B2 & B3 & B4%listed_open). by exists l.
  - intros id l Hi Hc. apply A2; [done|by apply listed_open].
Qed.

Lemma backlog_drained n id l :
  net_ok n -> n_heap n !! id = Some l -> backlog_ok l /\ (l_closed l = true -> l_incoming l = []).
Proof. intros Hok Hi. destruct (ok_heap _ Hok id l Hi) as [Hb Hq]. split; [done|]. intros Hc. apply Hq; [done|apply not_elem_of_nil]. Qed.

Lemma registry_live n k :
  net_ok n -> NoDup (targets (n_resetTargets n) k) /\ forall c, c ∈ targets (n_resetTargets n) k <-> live_end (n_conns n) k c.
Proof. intros Hok. destruct (ok_registry _ Hok k) as (Hnd & _ & Hin). split; [done|]. intros c. apply Hin, not_elem_of_nil. Qed.

Lemma call_step_ok n n' : net_ok n -> call_step n n' -> net_ok n'.
Proof.
  intros Hok Hst. destruct Hst as [n n' Hst|n id|n c|n a b n' E|n a b n' E|n a b n' E].
  - by eapply section_step_ok.
  - apply listenerClose_ok; [apply not_elem_of_nil|done].
  - by apply connClose_ok.
  - by eapply Partition_ok.
  - by eapply Heal_ok.
  - by eapply Reset_ok.
Qed.

Lemma net_step_ok n n' : net_ok n -> net_step n n' -> net_ok n'.
Proof.
  intros Hok Hst. destruct Hst as [n n' Hst|n id l Hi|n network req id l r n' Hreq Hi Hres Hlt E].
  - by eapply call_step_ok.
  - by apply reserve_net_ok.
  - by eapply dialConnect_ok.
Qed.

Lemma net_run_ok n n' : net_ok n -> rtc net_step n n' -> net_ok n'.
Proof. intros Hok. induction 1 as [|n1 n2 n3 Hst _ IH]; [done|]. apply IH. by eapply net_step_ok. Qed.

(** ** A new Network *)

(** The numbers an option can be given are of their Go types. *)
Definition option_typed (o : optionValue) : Prop :=
  match o with
  | OLoss r | ODuplication r | OCorruption r => f64_valid r = true
  | OLatency min max => is_i64 min /\ is_i64 max
  | OBandwidth z | OPipeBound z | OBacklog z => is_i64 z
  | _ => True
  end.

Definition config_typed (c : networkConfig) : Prop :=
  let f := nc_faults c in
  latencyMax f < 2 ^ 63 /\ bandwidthBPS f < 2 ^ 63 /\
  rate_ok (lossRate f) /\ rate_ok (duplicateRate f) /\ rate_ok (corruptRate f).

Lemma configure_typed vs (c : networkConfig) : Forall option_typed vs -> config_typed c -> config_typed (configure vs c).
Proof.
  intros Hvs. revert c. induction Hvs as [|o vs Ho _ IH]; intros c Hc; [done|]. apply IH.
  destruct Hc as (H1 & H2 & H3 & H4 & H5). destruct o; cbn in *; unfold config_typed; cbn; unfold is_i64 in *; split_and!; try done; lia.
Qed.

Lemma resolveAll_ok (ps : list partitionPair) n :
  net_ok n ->
  net_ok (fold_left (fun n p =>
    let '(k, n) := resolvePair (peerA p) (peerB p) n in
    set_part n (mkPartState ({[k]} ∪ partitions (n_part n)) (partNotify (n_part n)))) ps n).
Proof.
  revert n. induction ps as [|p ps IH]; intros n Hok; [done|]. cbn [fold_left]. apply IH.
  destruct (resolvePair (peerA p) (peerB p) n) as [k n1] eqn:E.
  apply net_ok_part. by destruct (resolvePair_ok _ _ _ _ _ Hok E).
Qed.

Lemma NewNetwork_ok vs n : Forall option_typed vs -> NewNetwork (map (fun o => Some (optionOf o)) vs) = Ret n -> net_ok n.
Proof.
  intros Hvs. unfold NewNetwork. rewrite applyOptions_configure. cbn [mbind go_bind].
  set (cfg := configure vs initialConfig). intros ([] & Hv%validate_spec & E)%go_bind_ret. injection E as <-.
  assert (config_typed cfg) as (T1 & T2 & T3 & T4 & T5) by (apply configure_typed; [done|by split_and!]).
  destruct Hv as (_ & V2 & V3 & _ & _ & _ & V7 & _).
  apply resolveAll_ok. split; cbn; try done.
  - destruct (nc_listenerBacklogEnabled cfg); [by apply V7|done].
  - intros k. unfold targets. rewrite lookup_empty. cbn. split; [constructor|]. split; [by intros c ?%elem_of_nil|]. intros c _.
    split; [intros Hc; by apply elem_of_nil in Hc|]. by intros (lk & E & _).
  - split; [done|]. split; [constructor|]. intros h Hh. by apply elem_of_nil in Hh.
  - split; [|split; [|done]]; [intros Hl; specialize (V2 Hl); lia|intros Hb; specialize (V3 Hb); lia].
Qed.
End runs.
