(* ===== verification/NetworkFrame.v ===== *)
(** * What a call leaves alone

    The calls other than the end of a dial give out no ordinal, register no
    trace, make no connection and hold no slot of a backlog; the address book
    only grows. *)
From S2P Require Import Prelude GoRuntime Errors Float64 Rand Partition Trace PipeState Faults FaultProps Pipe.
From S2P Require Import PipeInv Deadline Options Conn ConnProps ConnRace NetIP NetIPProps NetIP6 Addr Addressing.
From S2P Require Import Replay Directions Listener Network NetworkInv.

Section frame.
Context {Src : Type} `{!DrawSource Src} `{!RejectFuel} `{!Platform}.
Implicit Types (n : Network Src) (lk : link Src) (c : connRef).

Context {P : pending}.
#[local] Abbreviation net_ok := (net_okP P).

(** The connections are the same ones. *)
Definition same_conns (conns conns' : list (link Src)) : Prop :=
  forall i, option_Forall2 (fun lk lk' => forall s, conn_id (end_of lk' s) = conn_id (end_of lk s)) (conns !! i) (conns' !! i).

(** The listeners are the same ones, with the same slots held, and new ones hold
    none; no listener opens again. *)
Definition same_slots (heap heap' : list (listener connRef)) : Prop :=
  (forall id l, heap !! id = Some l -> exists l', heap' !! id = Some l' /\ l_reserved l' = l_reserved l /\ l_addr l' = l_addr l /\
     (l_closed l = true -> l_closed l' = true)) /\
  (forall id l', heap !! id = None -> heap' !! id = Some l' -> l_reserved l' = 0).

Record call_frame n n' : Prop := {
  fr_book : book_le (n_book n) (n_book n');
  fr_ordinal : n_nextOrdinal n' = n_nextOrdinal n;
  fr_traces : n_traces n' = n_traces n;
  fr_fixed : n_traceEnabled n' = n_traceEnabled n /\ n_seed n' = n_seed n /\ n_pipeBound n' = n_pipeBound n;
  fr_conns : same_conns (n_conns n) (n_conns n');
  fr_slots : same_slots (n_heap n) (n_heap n')
}.

Lemma same_conns_refl conns : same_conns conns conns.
Proof. intros i. destruct (conns !! i); by constructor. Qed.

Lemma same_slots_refl heap : same_slots heap heap.
Proof. split; [|congruence]. intros id l Hi. by exists l. Qed.

#[local] Hint Resolve same_conns_refl same_slots_refl book_le_refl : core.

Lemma call_frame_refl n : call_frame n n.
Proof. by split. Qed.

Lemma same_slots_update heap id l l' :
  heap !! id = Some l -> l_reserved l' = l_reserved l -> l_addr l' = l_addr l -> (l_closed l = true -> l_closed l' = true) ->
  same_slots heap (<[id := l']> heap).
Proof.
  intros Hi Er Ea Ec. split.
  - intros j l0 Hj. destruct (decide (id = j)) as [<-|Hne].
    + assert (l0 = l) as -> by congruence. exists l'. rewrite list_lookup_insert_eq by (by eapply lookup_lt_Some). done.
    + exists l0. by rewrite list_lookup_insert_ne.
  - intros j l0 Hj Hj'. apply lookup_ge_None in Hj. apply lookup_lt_Some in Hj'. rewrite length_insert in Hj'. lia.
Qed.

(** The calls that only change the connections. *)
Lemma frame_conns n conns' : same_conns (n_conns n) conns' -> call_frame n (set_conns n conns').
Proof. by split. Qed.

Lemma conns_rel_same D conns conns' : conns_rel D conns conns' -> same_conns conns conns'.
Proof. by intros [Hids _]. Qed.

Lemma connClose_call c n : call_frame n (connClose c n).
Proof.
  unfold connClose. destruct (n_conns n !! fst c) as [lk|] eqn:Ei; [|apply call_frame_refl]. cbn zeta.
  destruct (c_closed (end_of lk (snd c))) eqn:Ec; [apply call_frame_refl|].
  assert (same_conns (n_conns n) (alter (Close (snd c)) (fst c) (n_conns n))) as Hc.
  { rewrite (alter_insert _ _ _ lk) by done. apply (conns_rel_same [(fst c, snd c)]). apply (marks_rel _ _ lk); [done|by apply Close_marks]. }
  unfold deregisterReset. destruct (c_nw _); [cbn zeta; destruct (decide _)|]; by split.
Qed.

Lemma call_frame_trans n1 n2 n3 : call_frame n1 n2 -> call_frame n2 n3 -> call_frame n1 n3.
Proof.
  intros [A1 A2 A3 (A4 & A5 & A6) A7 [A8 A9]] [B1 B2 B3 (B4 & B5 & B6) B7 [B8 B9]]. split.
  - by eapply book_le_trans.
  - congruence.
  - congruence.
  - split_and!; congruence.
  - intros i. specialize (A7 i). specialize (B7 i). destruct A7 as [x y E1|]; inversion B7 as [x1 y1 E2|]; subst; constructor.
    intros s. by rewrite E2, E1.
  - split.
    + intros id l Hi. destruct (A8 id l Hi) as (l1 & H1 & R1 & D1 & C1). destruct (B8 id l1 H1) as (l2 & H2 & R2 & D2 & C2).
      exists l2. split_and!; [done|congruence|congruence|auto].
    + intros id l3 Hi H3. destruct (n_heap n2 !! id) as [l2|] eqn:E2.
      * destruct (B8 id l2 E2) as (l3' & H3' & R & _). rewrite H3 in H3'. injection H3' as <-. rewrite R. by apply (A9 id).
      * by apply (B9 id).
Qed.

Lemma closeAll_call cs n : call_frame n (fold_left (fun n c => connClose c n) cs n).
Proof.
  revert n. induction cs as [|c cs IH]; intros n; [apply call_frame_refl|]. cbn [fold_left].
  eapply call_frame_trans; [apply connClose_call|apply IH].
Qed.

Lemma listenerClose_call id n : call_frame n (listenerClose id n).
Proof.
  unfold listenerClose. destruct (n_heap n !! id) as [l|] eqn:Hi; [|apply call_frame_refl]. unfold closeMark.
  destruct (l_closed l); [apply call_frame_refl|]. cbn zeta. eapply call_frame_trans; [|apply closeAll_call].
  rewrite deregister_eq. split; cbn; try done. rewrite list_insert_insert_eq. by apply (same_slots_update _ _ l).
Qed.

Definition kept n n' : Prop :=
  n_traces n' = n_traces n /\ n_traceEnabled n' = n_traceEnabled n /\ n_seed n' = n_seed n /\
  (n_pipeBound n' = n_pipeBound n /\ n_part n' = n_part n /\ n_faults n' = n_faults n).

Lemma listenRegister_kept network laddr peer port n r n' : listenRegister network laddr peer port n = Ret (r, n') -> kept n n'.
Proof.
  unfold listenRegister. destruct (listenerAt n peer port); [by intros [= _ <-]|].
  intros ([q book] & _ & E)%go_bind_ret. destruct q; by injection E as _ <-.
Qed.

Lemma Listen_kept network laddr n r n' : Listen network laddr n = Ret (r, n') -> kept n n'.
Proof.
  unfold Listen. destruct (validateNetwork network); [by intros [= _ <-]|].
  destruct (splitAddr laddr) as [[[peer port] explicit]|err]; [|by intros [= _ <-]].
  set (pn := if String.eqb peer "" then _ else _).
  assert (exists peer1 n1, pn = (peer1, n1) /\ kept n n1) as (peer1 & n1 & -> & H1).
  { unfold pn. destruct (String.eqb peer ""); by eexists _, _. }
  cbv beta iota zeta. destruct (match parseLiteralIP peer1 with Some _ => _ | None => _ end); [by intros [= _ <-]|].
  destruct (canonicalPeerLocked peer1 (n_book n1)) as [peer2 book].
  destruct (listenPort peer2 port explicit (set_book n1 book)) as [port2 n2] eqn:Ep.
  assert (kept n n2) as H2.
  { unfold listenPort in Ep. destruct (negb explicit); [|by injection Ep as _ <-].
    destruct (pickPort _ _ _ _ _) as [pt next]. by injection Ep as _ <-. }
  intros H3%listenRegister_kept. destruct H2 as (A1 & A2 & A3 & A4 & A5 & A6), H3 as (B1 & B2 & B3 & B4 & B5 & B6). unfold kept. split_and!; congruence.
Qed.

Lemma Listen_call network laddr n r n' : net_ok n -> Listen network laddr n = Ret (r, n') -> call_frame n n'.
Proof.
  intros Hok E. destruct (Listen_kept _ _ _ _ _ E) as (K1 & K2 & K3 & K4 & _).
  destruct (Listen_spec network laddr n Hok) as (r0 & n0 & E0 & _ & Hle & Hc & Ho & Hr).
  rewrite E in E0. injection E0 as <- <-. split; [done|done|done|done|by rewrite Hc|].
  destruct r as [id|err]; [|destruct Hr as (_ & -> & _); done].
  destruct Hr as (peer & port & l & [_ _ (_ & _ & Hres & _)] & (_ & Hh & _) & _). rewrite Hh. split.
  - intros j l0 Hj. exists l0. split; [by apply lookup_app_l_Some|done].
  - intros j l0 Hj [Hj'|[_ Hj']]%lookup_app_Some; [congruence|]. by apply list_lookup_singleton_Some in Hj' as [_ <-].
Qed.

Lemma set_book_call n book : book_le (n_book n) book -> call_frame n (set_book n book).
Proof. by split. Qed.

Lemma resolvePair_call a b n k n' : net_ok n -> resolvePair a b n = (k, n') -> call_frame n n'.
Proof. intros Hok E. destruct (resolvePair_ok _ _ _ _ _ Hok E) as (_ & -> & Hle). by apply set_book_call. Qed.

Lemma set_part_call n part : call_frame n (set_part n part).
Proof. by split. Qed.

Lemma upd_pipe_call (i : nat) w p lk n : n_conns n !! i = Some lk -> call_frame n (upd_pipe i w p n).
Proof.
  intros Hi. unfold upd_pipe, upd_conn. rewrite (alter_insert _ _ _ lk) by done. apply frame_conns.
  apply (conns_rel_same []). apply (update_same _ _ lk); [done|]. apply set_writePipe_same.
Qed.

Lemma set_faults_call n f : call_frame n (set_faults n f).
Proof. by split. Qed.

Lemma section_step_frame n n' : net_ok n -> section_step n n' -> call_frame n n'.
Proof.
  intros Hok Hst. destruct Hst as [n network laddr r n' E|n b id|n now ctx network dialAddr
    |n now c size|n now c data r n' Hlen Hroom E|n now i lk w size Hi|n now i lk w data r p' Hi Hlen Hroom E|n now i lk w Hi
    |n i lk lk' Hi Hio Hp|n min max n' Hm E|n rate n' Hv E|n rate n' Hv E|n rate n' Hv E].
  - by eapply Listen_call.
  - unfold listenerAccept. destruct (n_heap n !! id) as [l|] eqn:Hi; [|apply call_frame_refl].
    destruct (Accept b l) as [r l'] eqn:Ea. cbn [snd]. split; cbn; try done. unfold Accept in Ea.
    apply (same_slots_update _ _ l); [done|..]; repeat case_match; by simplify_eq/=.
  - destruct (dialResolve now ctx network dialAddr n) as [r n'] eqn:E.
    destruct (dialResolve_ok _ _ _ _ _ _ _ Hok E) as (_ & En & Hle & _). cbn [snd]. rewrite En. by apply set_book_call.
  - unfold connRead. destruct (n_conns n !! fst c) as [lk|] eqn:Ei; [|apply call_frame_refl].
    unfold Read. destruct (readLoop _ _ _ _ _ _) as [r lk'] eqn:E. cbn [snd]. apply frame_conns.
    apply (conns_rel_same []). apply (update_same _ _ lk); [done|]. by eapply readLoop_same.
  - unfold connWrite in E. destruct (n_conns n !! fst c) as [lk|] eqn:Ei; [|injection E as _ <-; apply call_frame_refl].
    apply go_bind_ret in E as ([pc lk'] & E & Er). injection Er as _ <-. apply frame_conns.
    apply (conns_rel_same []). apply (update_same _ _ lk); [done|]. by eapply writeLoop_same.
  - apply (upd_pipe_call _ _ _ lk). done.
  - apply (upd_pipe_call _ _ _ lk). done.
  - apply (upd_pipe_call _ _ _ lk). done.
  - apply frame_conns. apply (conns_rel_same []). apply (update_same _ _ lk); [done|]. by apply io_step_same.
  - apply go_bind_ret in E as ([] & _ & E). injection E as <-. apply set_faults_call.
  - apply go_bind_ret in E as ([] & _ & E). injection E as <-. apply set_faults_call.
  - apply go_bind_ret in E as ([] & _ & E). injection E as <-. apply set_faults_call.
  - apply go_bind_ret in E as ([] & _ & E). injection E as <-. apply set_faults_call.
Qed.

Lemma Partition_call a b n n' : net_ok n -> Partition a b n = Ret n' -> call_frame n n'.
Proof.
  intros Hok E. apply go_bind_ret in E as ([] & _ & E). destruct (resolvePair a b n) as [k n1] eqn:Ek.
  injection E as <-. eapply call_frame_trans; [by eapply resolvePair_call|apply set_part_call].
Qed.

Lemma Heal_call a b n n' : net_ok n -> Heal a b n = Ret n' -> call_frame n n'.
Proof.
  intros Hok E. apply go_bind_ret in E as ([] & _ & E). destruct (resolvePair a b n) as [k n1] eqn:Ek.
  injection E as <-. eapply call_frame_trans; [by eapply resolvePair_call|apply set_part_call].
Qed.

Lemma Reset_call a b n n' : net_ok n -> Reset a b n = Ret n' -> call_frame n n'.
Proof.
  rewrite Reset_eq. intros Hok ([] & _ & E)%go_bind_ret. destruct (resolvePair a b n) as [k n1] eqn:Ek.
  injection E as <-. eapply call_frame_trans; [by eapply resolvePair_call|].
  destruct (resetPair_shape k n1) as (conns & -> & Hrel%conns_rel_same). by split.
Qed.
End frame.

Section runs.
Context {Src : Type} `{!DrawSource Src} `{!RejectFuel} `{!Platform}.
Implicit Types (n : Network Src).

(** Every call but the end of a dial. *)
Lemma call_step_frame n n' : net_ok n -> call_step n n' -> call_frame n n'.
Proof.
  intros Hok Hst. destruct Hst as [n n' Hst|n id|n c|n a b n' E|n a b n' E|n a b n' E].
  - by apply (section_step_frame _ _ Hok).
  - apply listenerClose_call.
  - apply connClose_call.
  - by apply (Partition_call _ _ _ _ Hok E).
  - by apply (Heal_call _ _ _ _ Hok E).
  - by apply (Reset_call _ _ _ _ Hok E).
Qed.

(** The address book only grows. *)
Lemma net_step_le n n' : net_ok n -> net_step n n' -> book_le (n_book n) (n_book n').
Proof.
  intros Hok Hst. destruct Hst as [n n' Hst|n id l Hi|n network req id l r n' Hreq Hi Hres Hlt E].
  - by apply call_step_frame.
  - done.
  - by destruct (dialConnect_ok _ _ _ _ _ _ _ Hok Hreq Hi Hres Hlt E) as (_ & ? & _).
Qed.

Lemma net_run_le n n' : net_ok n -> rtc net_step n n' -> net_ok n' /\ book_le (n_book n) (n_book n').
Proof.
  intros Hok Hrun. induction Hrun as [n|n1 n2 n3 Hst _ IH]; [done|].
  destruct (IH (net_step_ok _ _ Hok Hst)) as [Hok3 Hle]. split; [done|].
  eapply book_le_trans; [by apply net_step_le|done].
Qed.
End runs.
