(* ===== verification/NetworkListen.v ===== *)
(** * Properties of Listen, of listeners and of the whole Network's invariant *)
From S2P Require Import Prelude GoRuntime Errors Float64 Rand Partition Trace PipeState Faults FaultProps Pipe.
From S2P Require Import PipeInv Deadline Options Conn ConnProps ConnRace NetIP NetIPProps NetIP6 Addr Addressing.
From S2P Require Import Replay Directions Listener Network NetworkInv NetworkFrame.

Section listen.
Context {Src : Type} `{!DrawSource Src} `{!RejectFuel} `{!Platform}.
Implicit Types (n : Network Src) (lk : link Src) (c : connRef).

(** The invariant of a Network. From [NewNetwork] on, whatever operations run
    in whatever order, those of a dial apart and with anything in between: the
    listener table holds exactly the open listeners, each under its peer and
    port; no backlog is exceeded, and a closed listener queues nothing; the Reset
    registry lists exactly the live ends of each pair, once; ordinals grow with
    the connections, both ends carrying the same; the trace registry has the two
    directions of every connection; and the address book stays good. *)
Theorem network_invariant vs n n' :
  Forall option_typed vs -> NewNetwork (map (fun o => Some (optionOf o)) vs) = Ret n -> rtc net_step n n' -> net_ok n'.
Proof. intros Hvs Hn Hrun. eapply net_run_ok; [|exact Hrun]. by eapply NewNetwork_ok. Qed.

(** ** Listening *)

(** A host that is a peer name: printable in an address, and no IP literal. *)
Definition peer_host (h : string) : Prop := plain_host h /\ h <> ""%string /\ parseLiteralIP h = None.

Lemma canonical_host h b : parseLiteralIP h = None -> canonicalPeerLocked h b = (h, b).
Proof. unfold canonicalPeerLocked. by intros ->. Qed.

Lemma Listen_host_eq network laddr h port explicit n :
  validateNetwork network = None -> peer_host h -> splitAddr laddr = inl (h, port, explicit) ->
  Listen network laddr n = let '(port, n) := listenPort h port explicit n in listenRegister network laddr h port n.
Proof.
  intros Hv (Hp & Hne & Hl) Es. unfold Listen. rewrite Hv, Es.
  destruct (String.eqb_spec h "") as [|_]; [done|]. cbv beta iota zeta. rewrite Hl, canonical_host by done.
  by destruct n.
Qed.

(** C30: Listen on a named host and port. If the peer already listens on the port
    the call fails with ErrAddressInUse and changes nothing at all; otherwise it
    registers a new open listener with an empty queue of the configured backlog,
    under that name and port and with an address of the peer, and no other entry
    moves; the only other failure is a used-up address space. *)
Theorem listen_named network h port n :
  net_ok n -> validateNetwork network = None -> peer_host h -> 1 <= port <= maxPort ->
  let laddr := withPort h port in
  match entry (n_listeners n) h port with
  | Some _ => Listen network laddr n = Ret (inr (listenOpError network laddr ErrAddressInUse), n)
  | None =>
      exists r n', Listen network laddr n = Ret (r, n') /\ n_conns n' = n_conns n /\
        match r with
        | inl id =>
            exists l ip, n_heap n' !! id = Some l /\ l_addr l = mkAddr network h port (Some ip) /\
              ip_of_peer (n_book n') h (addressFamily network h) ip /\
              (l_closed l = false /\ l_incoming l = [] /\ l_cap l = n_listenerBacklog n) /\
              forall peer pt, entry (n_listeners n') peer pt =
                if decide (peer = h /\ pt = port) then Some id else entry (n_listeners n) peer pt
        | inr err => (exists text, err = listenOpError network laddr (ErrorString text)) /\ n_listeners n' = n_listeners n
        end
  end.
Proof.
  intros Hok Hv Hh Hp laddr.
  assert (Listen network laddr n = listenRegister network laddr h port n) as E.
  { rewrite (Listen_host_eq _ _ h port true); [done..|]. unfold laddr. rewrite splitAddr_host_port by (destruct Hh; done || lia).
    rewrite (proj2 (Z.eqb_neq port 0)) by lia. done. }
  rewrite E. change (entry (n_listeners n) h port) with (listenerAt n h port).
  destruct (listenerAt n h port) as [id|] eqn:Eat; [unfold listenRegister; by rewrite Eat|].
  assert (settled (n_book n) h) as Hs by (unfold settled; by destruct Hh as (_ & _ & ->)).
  destruct (listenRegister_spec network laddr h port n Hok Hs ltac:(lia)) as (r & n' & Er & Hok' & Hle & Hc & Ho & Hr).
  exists r, n'. split; [done|]. split; [done|]. destruct r as [id|err].
  - destruct Hr as (l & [F1 (ip & F2 & F3) F4] & R1 & R2 & R3 & R4). exists l, ip. rewrite F2 in F1. rewrite F1 in R4. cbn in R4.
    split; [by rewrite R2, R1, list_lookup_middle|]. split; [exact F1|]. split; [exact F3|].
    destruct F4 as (? & ? & _ & ?). by split.
  - destruct Hr as (-> & _). split; [|done]. unfold listenRegister in Er. rewrite Eat in Er.
    apply go_bind_ret in Er as ([[ip|e] b] & Ep & Er); [done|]. injection Er as <- _.
    destruct (peerIPLocked_err _ _ _ _ _ Ep) as [text ->]. by exists text.
Qed.

(** ** Synthesized ports *)

(** The [i]-th port tried from [next] on. *)
Definition cyclic (next : Z) (i : nat) : Z := listenPortBase + (next - listenPortBase + Z.of_nat i) mod (maxPort - listenPortBase + 1).

Lemma cyclic_next next i :
  listenPortBase <= next <= maxPort ->
  cyclic (if maxPort <? next + 1 then listenPortBase else next + 1) i = cyclic next (S i).
Proof.
  intros Hn. unfold cyclic, maxPort, listenPortBase in *. destruct (Z.ltb_spec 65535 (next + 1)).
  - replace (next - 8000 + Z.of_nat (S i)) with (8000 - 8000 + Z.of_nat i + 1 * (65535 - 8000 + 1)) by lia.
    by rewrite Z_mod_plus_full.
  - do 2 f_equal. lia.
Qed.

Lemma cyclic_0 next : listenPortBase <= next <= maxPort -> cyclic next 0 = next.
Proof. unfold cyclic, maxPort, listenPortBase. intros Hn. rewrite Z.mod_small by lia. lia. Qed.

(** Every port of the range is tried. *)
Lemma cyclic_all next port :
  listenPortBase <= next <= maxPort -> listenPortBase <= port <= maxPort ->
  exists i, (i < portAttempts)%nat /\ cyclic next i = port.
Proof.
  intros Hn Hp. exists (Z.to_nat ((port - next) mod (maxPort - listenPortBase + 1))).
  unfold portAttempts, cyclic, maxPort, listenPortBase in *.
  pose proof (Z.mod_pos_bound (port - next) (65535 - 8000 + 1) ltac:(lia)). split; [lia|].
  rewrite Z2Nat.id by lia. rewrite Zplus_mod_idemp_r. replace (next - 8000 + (port - next)) with (port - 8000) by lia.
  rewrite Z.mod_small by lia. lia.
Qed.

Lemma pickPort_free attempts n peer port next :
  listenPortBase <= next <= maxPort ->
  let '(port', _) := pickPort attempts n peer port next in
  (attempts <> 0%nat -> listenerAt n peer port' = None) \/
  forall i, (i < attempts)%nat -> is_Some (listenerAt n peer (cyclic next i)).
Proof.
  revert port next. induction attempts as [|k IH]; intros port next Hn; cbn [pickPort]; [by left|].
  destruct (listenerAt n peer next) as [id|] eqn:Eat; [|by left].
  set (next' := if maxPort <? next + 1 then listenPortBase else next + 1).
  assert (listenPortBase <= next' <= maxPort) as Hn'.
  { unfold next'. destruct (Z.ltb_spec maxPort (next + 1)); unfold listenPortBase, maxPort in *; lia. }
  specialize (IH next next' Hn'). destruct (pickPort k n peer next next') as [port' next2] eqn:Ep.
  destruct IH as [IH|IH].
  - destruct k as [|k]; [|left; intros _; by apply IH]. right. intros i Hi. assert (i = 0%nat) as -> by lia.
    by rewrite cyclic_0, Eat.
  - right. intros [|i] Hi; [by rewrite cyclic_0, Eat|]. rewrite <- cyclic_next by done. apply IH. lia.
Qed.

Lemma listenPort_free peer port n port' n' :
  listenPortBase <= n_nextListenPort n <= maxPort -> listenPort peer port false n = (port', n') ->
  is_Some (listenerAt n peer port') ->
  forall pt, listenPortBase <= pt <= maxPort -> is_Some (listenerAt n peer pt).
Proof.
  intros Hn. unfold listenPort. cbn [negb].
  pose proof (pickPort_free portAttempts n peer port (n_nextListenPort n) Hn) as Hfree.
  assert (portAttempts <> 0%nat) as Hne by (unfold portAttempts, maxPort, listenPortBase; lia).
  revert Hfree. generalize (pickPort portAttempts n peer port (n_nextListenPort n)). intros [p nx] Hfree [= <- <-] Hsome pt Hpt.
  destruct Hfree as [Hfree|Hfree].
  - rewrite Hfree in Hsome by done. by destruct Hsome.
  - destruct (cyclic_all (n_nextListenPort n) pt Hn Hpt) as (i & Hi & <-). by apply Hfree.
Qed.

(** Listen without a port. The call gives the peer a port of 8000..65535 it
    did not listen on; it fails with ErrAddressInUse exactly when the peer
    already listens on all 57536 of them. *)
Theorem listen_synthesizes_port network h n :
  net_ok n -> validateNetwork network = None -> peer_host h ->
  exists r n', Listen network h n = Ret (r, n') /\ n_conns n' = n_conns n /\
    (r = inr (listenOpError network h ErrAddressInUse) <->
       forall port, listenPortBase <= port <= maxPort -> is_Some (entry (n_listeners n) h port)) /\
    forall id, r = inl id ->
      exists port, listenPortBase <= port <= maxPort /\ entry (n_listeners n) h port = None /\
        entry (n_listeners n') h port = Some id.
Proof.
  intros Hok Hv Hh. rewrite (Listen_host_eq _ _ h 0 false) by (done || by apply splitAddr_host; destruct Hh).
  assert (settled (n_book n) h) as Hs by (unfold settled; by destruct Hh as (_ & _ & ->)).
  destruct (listenPort h 0 false n) as [port n1] eqn:Ep.
  destruct (listenPort_spec _ _ _ _ _ _ Hok Ep) as (Hok1 & En1 & _ & Hrange). specialize (Hrange eq_refl).
  assert (n_book n1 = n_book n) as Eb by (by rewrite En1). assert (n_listeners n1 = n_listeners n) as El by (by rewrite En1).
  assert (n_conns n1 = n_conns n) as Ec by (by rewrite En1). assert (listenerAt n1 h port = listenerAt n h port) as Ea by (by rewrite En1).
  assert (is_Some (listenerAt n h port) -> forall pt, listenPortBase <= pt <= maxPort -> is_Some (entry (n_listeners n) h pt)) as Hall.
  { intros Hsome. by apply (listenPort_free _ _ _ _ _ (ok_ports _ Hok) Ep). }
  destruct (listenRegister_spec network h h port n1 Hok1 ltac:(by rewrite Eb) ltac:(unfold listenPortBase in Hrange; lia)) as (r & n' & Er & Hok' & Hle & Hc & Ho & Hr).
  exists r, n'. split; [done|]. split; [by rewrite Hc|]. destruct r as [id|err].
  - destruct Hr as (l & [F1 _ _] & R1 & R2 & R3 & R4). rewrite F1 in R3, R4. cbn in R3, R4. rewrite El in R3. split.
    + split; [done|]. intros Hfull. destruct (Hfull port Hrange) as [id' E']. congruence.
    + intros id' [= <-]. exists port. split; [done|]. split; [done|]. rewrite R4. by rewrite decide_True.
  - destruct Hr as (_ & Herr). rewrite Ea in Herr. split; [|done]. split.
    + intros [= E]. apply Hall, Herr, E.
    + intros Hfull. f_equal. apply Herr. by apply Hfull.
Qed.
End listen.
