(* ===== verification/NetworkDial.v ===== *)
(** * Properties of dialing: what a dial reaches, what it establishes, what it
    costs when it fails *)
From S2P Require Import Prelude GoRuntime Errors Float64 Rand Partition Trace PipeState Faults FaultProps Pipe.
From S2P Require Import PipeInv Deadline Options Conn ConnProps ConnRace NetIP NetIPProps NetIP6 Addr Addressing AddrRoundtrip.
From S2P Require Import Replay Directions Listener Network NetworkInv NetworkFrame NetworkListen.
From Stdlib Require Import Ascii.

Section dial.
Context {Src : Type} `{!DrawSource Src} `{!RejectFuel} `{!Platform}.
Implicit Types (n : Network Src) (lk : link Src) (c : connRef).

(** ** One dial, without interruption *)

Lemma dialResolve_unnamed now ctx network g port n :
  ctx_Err now ctx = None -> validateNetwork network = None -> plain_host g -> g <> ""%string -> 1 <= port <= maxPort ->
  peerNameFromContext ctx = None ->
  dialResolve now ctx network (withPort g port) n =
  let '(peer, book) := canonicalPeer g (n_book n) in
  (inl (mkDialRequest peer port true (parseLiteralIP g) None), set_book n book).
Proof.
  intros Hc Hv Hg Hne Hp Hn. unfold dialResolve. rewrite Hc, Hv, splitAddr_host_port by (done || lia).
  rewrite (proj2 (Z.eqb_neq port 0)) by lia. destruct (String.eqb_spec g "") as [|_]; [done|]. cbv beta iota zeta.
  destruct (canonicalPeer g (n_book n)). by rewrite Hn.
Qed.

Lemma reserve_room (l : listener connRef) :
  l_closed l = false -> zlen (l_incoming l) + l_reserved l < l_cap l -> reserve l = (None, set_reserved l (l_reserved l + 1)).
Proof. intros Hc Hr. unfold reserve. rewrite Hc. by destruct (Z.leb_spec (l_cap l) (zlen (l_incoming l) + l_reserved l)); [lia|]. Qed.

Lemma fill_room (l : listener connRef) c :
  l_closed l = false -> zlen (l_incoming l) < l_cap l ->
  fill c (set_reserved l (l_reserved l + 1)) = (Filled, set_incoming l (l_incoming l ++ [c])).
Proof.
  intros Hc Hr. unfold fill. cbn. rewrite Hc. destruct (Z.leb_spec (l_cap l) (zlen (l_incoming l))); [lia|].
  replace (l_reserved l + 1 - 1) with (l_reserved l) by lia. by destruct l.
Qed.

(** A Network after a dial was established at listener [id]: the connection, its
    registrations, and the acceptor's end in the queue. *)
Definition established (network : string) (req : dialRequest) (id : nat) (l : listener connRef) n n' : Prop :=
  let ordinal := n_nextOrdinal n in
  let localName := match dr_local req with Some name => name | None => ephemeralPeerName ordinal end in
  exists localIP book,
    peerIPLocked localName (addressFamily (addr_network (l_addr l)) (addr_peer (l_addr l))) (n_book n) = Ret (inl localIP, book) /\
    let local := mkAddr network localName (ephemeralPort ordinal) (Some localIP) in
    let remote := mkAddr network (dr_peer req) (addr_port (l_addr l)) (addr_ip (l_addr l)) in
    let pair := newPairKey localName (dr_peer req) in
    let n1 := set_book (set_nextOrdinal n (u64 (ordinal + 1))) book in
    let n2 := dialRegister ordinal pair (dialPair local remote ordinal network pair n1) n1 in
    n' = set_heap n2 (<[id := set_incoming l (l_incoming l ++ [(length (n_conns n), sideAcceptor)])]> (n_heap n)).

(** What a reserved slot becomes when the caller's name cannot have an address of
    the listener's family. *)
Definition slot_lost (id : nat) (l : listener connRef) n n' : Prop :=
  exists book,
    n' = set_book (set_nextOrdinal (set_heap n (<[id := set_reserved l (l_reserved l + 1)]> (n_heap n))) (u64 (n_nextOrdinal n + 1))) book.

Lemma dialRegister_frame ordinal pair lk n :
  n_heap (dialRegister ordinal pair lk n) = n_heap n /\ n_book (dialRegister ordinal pair lk n) = n_book n /\
  n_conns (dialRegister ordinal pair lk n) = n_conns n ++ [lk] /\ n_nextOrdinal (dialRegister ordinal pair lk n) = n_nextOrdinal n /\
  n_listeners (dialRegister ordinal pair lk n) = n_listeners n.
Proof. unfold dialRegister. cbn. by destruct (n_traceEnabled n). Qed.

Lemma dialRegister_tables ordinal pair lk n :
  n_resetTargets (dialRegister ordinal pair lk n) =
    <[pair := targets (n_resetTargets n) pair ++ [(length (n_conns n), sideDialer); (length (n_conns n), sideAcceptor)]]> (n_resetTargets n) /\
  n_traces (dialRegister ordinal pair lk n) =
    n_traces n ++ (if n_traceEnabled n then
      [mkTraceHandle ordinal sideDialer (2 * length (n_conns n)); mkTraceHandle ordinal sideAcceptor (2 * length (n_conns n) + 1)] else []).
Proof.
  unfold dialRegister, registerTrace. cbn. destruct (n_traceEnabled n); cbn; [by rewrite <- app_assoc|by rewrite app_nil_r].
Qed.

Lemma dialPair_pipes local remote ordinal network pair n s :
  let p := writePipe (dialPair local remote ordinal network pair n) s in
  p_loss p = Some (deriveStream (n_seed n) ordinal s kindLoss) /\ p_latency p = Some (deriveStream (n_seed n) ordinal s kindLatency) /\
  p_duplicate p = Some (deriveStream (n_seed n) ordinal s kindDuplicate) /\
  p_corrupt p = Some (deriveStream (n_seed n) ordinal s kindCorrupt) /\
  p_deliver p = faultEvaluator (mkFaultPolicy true pair noFaults) /\ p_bound p = n_pipeBound n.
Proof. unfold dialPair, newConnPairWithSeedAndTrace, wirePipe. destruct s; by destruct (n_traceEnabled n). Qed.

Lemma set_heap_twice n h h' : set_heap (set_heap n h) h' = set_heap n h'.
Proof. done. Qed.

Lemma dialRegister_set_heap ordinal pair lk n h : dialRegister ordinal pair lk (set_heap n h) = set_heap (dialRegister ordinal pair lk n) h.
Proof. unfold dialRegister, registerReset. cbn. by destruct (n_traceEnabled n). Qed.


(** The end of a dial, on an unclosed listener with a free slot. *)
Lemma dialConnect_spec network req id l n :
  net_ok n -> req_ok n req -> n_heap n !! id = Some l -> l_closed l = false ->
  zlen (l_incoming l) + l_reserved l < l_cap l ->
  let n0 := set_heap n (<[id := set_reserved l (l_reserved l + 1)]> (n_heap n)) in
  exists r n', dialConnect network req id (set_reserved l (l_reserved l + 1)) n0 = Ret (r, n') /\
    (r = inl (length (n_conns n), sideDialer) /\ established network req id l n n' \/
     exists text, r = inr (ErrorString text) /\ slot_lost id l n n').
Proof.
  intros Hok Hreq Hi Hcl Hroom n0. assert (id < length (n_heap n))%nat as Hlen by (by eapply lookup_lt_Some).
  destruct (ok_heap _ Hok id l Hi) as [[Hres _] _].
  unfold dialConnect, established. cbn zeta.
  set (localName := match dr_local req with Some name => name | None => ephemeralPeerName (n_nextOrdinal n0) end).
  change (match dr_local req with Some name => name | None => ephemeralPeerName (n_nextOrdinal n) end) with localName.
  assert (settled (n_book n) localName) as Hs.
  { unfold localName, req_ok in *. destruct (dr_local req); [done|]. unfold settled.
    assert (parseLiteralIP (ephemeralPeerName (n_nextOrdinal n0)) = None) as ->; [|done].
    apply synthesized_not_literal; [done|]. by destruct (ok_ordinals _ Hok) as ((? & _) & _). }
  change (l_addr (set_reserved l (l_reserved l + 1))) with (l_addr l).
  change (n_book (set_nextOrdinal n0 _)) with (n_book n).
  destruct (peerIPLocked_ok _ localName (addressFamily (addr_network (l_addr l)) (addr_peer (l_addr l))) (ok_book _ Hok) Hs) as (q & book & Eq & _).
  rewrite Eq. cbn [mbind go_bind]. destruct q as [localIP|err].
  2: { destruct (peerIPLocked_err _ _ _ _ _ Eq) as [text ->]. eexists _, _. split; [done|]. right. exists text. split; [done|]. by exists book. }
  set (lk := dialPair _ _ _ _ _ _). set (n1 := set_book (set_nextOrdinal n0 _) book).
  change n1 with (set_heap (set_book (set_nextOrdinal n (u64 (n_nextOrdinal n + 1))) book) (n_heap n0)).
  rewrite dialRegister_set_heap. set (n2 := dialRegister _ _ lk _).
  cbn [n_heap set_heap]. unfold n0 at 1. cbn [n_heap set_heap]. rewrite list_lookup_insert_eq by done.
  change (n_conns (set_heap _ _)) with (n_conns n). rewrite fill_room by (done || lia). unfold n0. cbn [n_heap set_heap].
  rewrite list_insert_insert_eq.
  eexists _, _. split; [done|]. left. split; [done|]. exists localIP, book. split; reflexivity.
Qed.

Lemma soleMatch_ok ok cs l id : soleMatch ok cs l = Some id -> l = Some id \/ ok id = true.
Proof.
  revert l. induction cs as [|c cs IH]; intros l; cbn; [by left|]. destruct (ok c) eqn:Ec; cbn; [|apply IH].
  destruct l; [done|]. intros [E|E]%IH; [injection E as <-; by right|by right].
Qed.

Lemma lookupListener_listener network req order n id :
  lookupListener network req order n = Some id ->
  exists l, n_heap n !! id = Some l /\ matches network (dr_peer req) (dr_target req) l = true.
Proof.
  assert (matchesAt n network req id = true -> exists l, n_heap n !! id = Some l /\ matches network (dr_peer req) (dr_target req) l = true) as Hm.
  { unfold matchesAt. destruct (n_heap n !! id) as [l|]; [by exists l|done]. }
  unfold lookupListener. destruct (dr_explicit req).
  - destruct (listenerAt _ _ _) as [id'|]; [|done]. destruct (matchesAt n network req id') eqn:E; [|done]. intros [= ->]. by apply Hm.
  - intros [|]%soleMatch_ok; [done|by apply Hm].
Qed.

(** Every outcome of a dial from the lookup on. *)
Lemma dialEstablish_spec network a req order n :
  net_ok n -> req_ok n req ->
  exists r n', dialEstablish network a req order n = Ret (r, n') /\
    match lookupListener network req order n with
    | None => r = inr (dialOpError network a ErrConnectionRefused) /\ n' = n
    | Some id =>
        exists l, n_heap n !! id = Some l /\
        if l_closed l then r = inr (dialOpError network a ErrConnectionRefused) /\ n' = n
        else if l_cap l <=? zlen (l_incoming l) + l_reserved l then r = inr (dialOpError network a ErrBacklogFull) /\ n' = n
        else
          r = inl (length (n_conns n), sideDialer) /\ established network req id l n n' \/
          exists text, r = inr (dialOpError network a (ErrorString text)) /\ slot_lost id l n n'
    end.
Proof.
  intros Hok Hreq. unfold dialEstablish. destruct (lookupListener network req order n) as [id|] eqn:El; [|by eexists _, _].
  destruct (lookupListener_listener _ _ _ _ _ El) as (l & Hi & _). rewrite Hi. unfold reserve.
  destruct (l_closed l) eqn:Ec; [eexists _, _; split; [done|]; exists l; by rewrite Ec|].
  destruct (Z.leb_spec (l_cap l) (zlen (l_incoming l) + l_reserved l)) as [Hf|Hf].
  { eexists _, _. split; [done|]. exists l. rewrite Ec. by destruct (Z.leb_spec (l_cap l) (zlen (l_incoming l) + l_reserved l)); [|lia]. }
  destruct (dialConnect_spec network req id l n Hok Hreq Hi Ec Hf) as (r & n' & E & Hr). cbn zeta in E. cbn zeta. rewrite E.
  cbn [mbind go_bind]. eexists _, _. split; [done|]. exists l. split; [done|]. rewrite Ec.
  destruct (Z.leb_spec (l_cap l) (zlen (l_incoming l) + l_reserved l)); [lia|].
  destruct Hr as [[-> He]|(text & -> & Hl)]; [by left|right]. by exists text.
Qed.

(** ** Properties *)

Lemma book_self n : set_book n (n_book n) = n.
Proof. by destruct n. Qed.

Lemma dialFinish_spec network a req n :
  net_ok n -> req_ok n req ->
  exists r n', dialFinish network a req n = Ret (r, n') /\
    match r with
    | Dialed c =>
        exists id l, c = (length (n_conns n), sideDialer) /\ n_heap n !! id = Some l /\
          matches network (dr_peer req) (dr_target req) l = true /\
          lookupListener network req (portIds n (dr_peer req)) n = Some id /\ l_closed l = false /\
          zlen (l_incoming l) + l_reserved l < l_cap l /\ established network req id l n n'
    | DialFails err =>
        exists cause, err = dialOpError network a cause /\
          ((n' = n /\ (cause = ErrConnectionRefused \/ cause = ErrBacklogFull)) \/
           exists id l text, n_heap n !! id = Some l /\ cause = ErrorString text /\ slot_lost id l n n')
    | DialBlocks _ _ => False
    end.
Proof.
  intros Hok Hreq. unfold dialFinish.
  destruct (dialEstablish_spec network a req (portIds n (dr_peer req)) n Hok Hreq) as (r & n' & E & Hr).
  rewrite E. cbn [mbind go_bind]. eexists _, _. split; [done|].
  destruct (lookupListener _ _ _ _) as [id|] eqn:El; [|destruct Hr as [-> ->]; eauto 6].
  destruct Hr as (l & Hi & Hr). destruct (l_closed l) eqn:Ec; [destruct Hr as [-> ->]; eauto 6|].
  destruct (Z.leb_spec (l_cap l) (zlen (l_incoming l) + l_reserved l)); [destruct Hr as [-> ->]; eauto 6|].
  destruct Hr as [[-> He]|(text & -> & Hl)].
  - destruct (lookupListener_listener _ _ _ _ _ El) as (l' & Hi' & Hm). rewrite Hi in Hi'. injection Hi' as <-. by exists id, l.
  - eexists. split; [done|]. right. by exists id, l, text.
Qed.

(** Every outcome of a dial. *)
Lemma DialContext_spec now ctx network a n :
  net_ok n ->
  exists r n', DialContext now ctx network a n = Ret (r, n') /\
    exists book, book_le (n_book n) book /\
    match r with
    | Dialed c =>
        exists req id l, c = (length (n_conns n), sideDialer) /\ n_heap n !! id = Some l /\
          matches network (dr_peer req) (dr_target req) l = true /\ l_closed l = false /\
          zlen (l_incoming l) + l_reserved l < l_cap l /\ established network req id l (set_book n book) n'
    | DialFails err =>
        exists cause, err = dialOpError network a cause /\
          (n' = set_book n book \/
           exists id l text, n_heap n !! id = Some l /\ cause = ErrorString text /\ slot_lost id l (set_book n book) n')
    | DialBlocks req ch =>
        n' = set_book n book /\ ch = partNotify (n_part n) /\
        exists name, dr_local req = Some name /\ isPartitioned (n_part n) (newPairKey name (dr_peer req)) = true
    end.
Proof.
  intros Hok. unfold DialContext. destruct (dialResolve now ctx network a n) as [r n1] eqn:Er.
  destruct (dialResolve_ok _ _ _ _ _ _ _ Hok Er) as (Hok1 & E1 & Hle & Hr). destruct r as [req|err].
  2: { eexists _, _. split; [done|]. exists (n_book n). split; [done|]. exists err. split; [done|]. left. by rewrite book_self. }
  destruct Hr as (Hreq & _).
  assert (exists r n', dialCheck network a req n1 = Ret (r, n') /\
    (dialFinish network a req n1 = Ret (r, n') \/ r = DialBlocks req (partNotify (n_part n)) /\ n' = n1 /\
       exists name, dr_local req = Some name /\ isPartitioned (n_part n) (newPairKey name (dr_peer req)) = true)) as (r & n' & Ed & Hd).
  { destruct (dialFinish_spec network a req n1 Hok1 Hreq) as (r & n' & Ef & _). unfold dialCheck.
    destruct (dr_local req) as [name|]; [|eauto]. unfold checkPartition. rewrite E1. cbn [n_part set_book]. rewrite <- E1.
    destruct (bool_decide _) eqn:Eb; [|eauto]. eexists _, _. split; [done|]. right. split; [done|]. split; [done|]. by exists name. }
  exists r, n'. split; [done|]. exists (n_book n1). split; [done|].
  destruct Hd as [Ef|(-> & -> & name & Hn & Hpart)]; [|split; [done|]; split; [done|by exists name]].
  destruct (dialFinish_spec network a req n1 Hok1 Hreq) as (r' & n'' & Ef' & Hr). rewrite Ef in Ef'. injection Ef' as <- <-.
  assert (n_heap n1 = n_heap n /\ n_conns n1 = n_conns n) as [Eh Ec] by (by rewrite E1).
  rewrite ?Eh, ?Ec in Hr. destruct r as [c|err|rq ch].
  - destruct Hr as (id & l & Hc & Hi & Hm & _ & Hcl & Hroom & He). rewrite E1 in He. by exists req, id, l.
  - destruct Hr as (cause & -> & [[-> _]|(id & l & text & Hi & -> & Hl)]); eexists; (split; [done|]); [by left|].
    right. rewrite E1 in Hl. by exists id, l, text.
  - done.
Qed.



(** *** Names and addresses reach the listener *)

Lemma ipEqual_refl x : ipEqual x x = true.
Proof. unfold ipEqual. by rewrite Nat.eqb_refl, bool_decide_eq_true_2. Qed.

(** Both spellings of a peer with an IPv4 address resolve to it. *)
Lemma spelling_resolves b h ip g :
  book_ok b -> peer_host h -> ip_of_peer b h 4 ip -> g = h \/ g = ofBytes (ipString ip) ->
  plain_host g /\ g <> ""%string /\ canonicalPeer g b = (h, b) /\
  (parseLiteralIP g = None \/ parseLiteralIP g = Some (IPv4 ip)).
Proof.
  intros Hok (Hh & Hne & Hl) Hip [->| ->].
  { split_and!; try done; [by apply canonical_host|by left]. }
  unfold ip_of_peer in Hip. rewrite Hl in Hip. unfold ipOf in Hip.
  destruct (peerIPs b !! h) as [ips|] eqn:Ep; [|done]. cbn in Hip.
  destruct (book_ips _ Hok h ips 4 ip Ep Hip) as (_ & Hipok & Hun & H4 & Hown).
  assert (ofSlice ip = IPv4 ip) as Es by (unfold ofSlice in *; by destruct (Nat.eqb (length ip) 4)).
  assert (parseLiteralIP (ofBytes (ipString ip)) = Some (IPv4 ip)) as Ep4.
  { rewrite ipString_keyOf by done. rewrite literal_keyOf by done. by rewrite Es. }
  assert (ipString ip = string4 ip) as E4.
  { unfold ipString. rewrite Es in Hipok. destruct Hipok as [Hlen _]. by rewrite Hlen. }
  split; [rewrite E4; apply string4_plain; by rewrite Es in Hipok|]. split; [intros E; rewrite E in Ep4; discriminate Ep4|].
  split; [|by right]. unfold canonicalPeer, canonicalPeerLocked. rewrite Ep4. rewrite Es in Hown. by rewrite Hown.
Qed.


(** *** A dial without a port *)

Lemma soleMatch_spec (ok : nat -> bool) cs l :
  NoDup cs -> (forall i, l = Some i -> i ∉ cs) ->
  soleMatch ok cs l =
  match l, filter (fun x => ok x = true) cs with
  | None, [x] => Some x
  | Some i, [] => Some i
  | _, _ => None
  end.
Proof.
  intros Hnd. revert l. induction Hnd as [|x cs Hx Hnd IH]; intros l Hl; [by destruct l|]. cbn [soleMatch].
  rewrite filter_cons. destruct (ok x) eqn:Ex; cbn [negb].
  - rewrite decide_True by done. destruct l as [i|]; [done|]. rewrite IH.
    + by destruct (filter _ cs).
    + by intros i [= <-].
  - rewrite decide_False by done. apply IH. intros i Hi Hin. apply (Hl i Hi). by right.
Qed.

(** What a lookup finds: an open listener of the peer that matches, at the port
    the dial names; and when it names none, no other listener of the peer does. *)
Lemma lookup_found network req order n id :
  net_ok n -> order ≡ₚ portIds n (dr_peer req) ->
  lookupListener network req order n = Some id <->
  (exists pt, entry (n_listeners n) (dr_peer req) pt = Some id /\ (dr_explicit req = true -> pt = dr_port req)) /\
  matchesAt n network req id = true /\
  (dr_explicit req = false -> forall id' pt, entry (n_listeners n) (dr_peer req) pt = Some id' ->
     matchesAt n network req id' = true -> id' = id).
Proof.
  intros Hok Hord. unfold lookupListener. destruct (dr_explicit req) eqn:Eexp.
  { change (listenerAt n (dr_peer req) (dr_port req)) with (entry (n_listeners n) (dr_peer req) (dr_port req)). split.
    - intros E. destruct (entry _ _ _) as [id'|] eqn:Ee; [|done]. destruct (matchesAt n network req id') eqn:Em; [|done].
      injection E as ->. split; [eauto|done].
    - intros ((pt & He & Hpt) & Hm & _). rewrite <- Hpt, He by done. by rewrite Hm. }
  assert (forall x, x ∈ order <-> exists pt, entry (n_listeners n) (dr_peer req) pt = Some x) as Hin.
  { intros x. rewrite Hord. unfold portIds, entry. rewrite list_elem_of_fmap. split.
    - intros ((pt, y) & -> & Hy%elem_of_map_to_list). exists pt. cbn in *.
      destruct (n_listeners n !! dr_peer req) as [ports|]; cbn in *; [done|by rewrite lookup_empty in Hy].
    - intros (pt & Hx). exists (pt, x). split; [done|]. apply elem_of_map_to_list.
      by destruct (n_listeners n !! dr_peer req) as [ports|]. }
  assert (NoDup order) as Hnd.
  { rewrite Hord. unfold portIds. apply NoDup_fmap_2_strong; [|apply NoDup_map_to_list].
    destruct (n_listeners n !! dr_peer req) as [ports|] eqn:Ep; cbn.
    2: { intros x y Hx%elem_of_map_to_list'. by rewrite lookup_empty in Hx. }
    intros [p1 i1] [p2 i2] H1%elem_of_map_to_list H2%elem_of_map_to_list E. cbn in E. subst i2.
    destruct (lis_registered _ _ _ (ok_listeners _ Hok) _ _ _ _ Ep H1) as (l1 & A1 & _ & A3 & _).
    destruct (lis_registered _ _ _ (ok_listeners _ Hok) _ _ _ _ Ep H2) as (l2 & B1 & _ & B3 & _). congruence. }
  rewrite soleMatch_spec by done. set (ok := fun x : nat => matchesAt n network req x = true).
  assert (forall x, x ∈ filter ok order <-> (exists pt, entry (n_listeners n) (dr_peer req) pt = Some x) /\ matchesAt n network req x = true) as Hf.
  { intros x. rewrite list_elem_of_filter, Hin. unfold ok. tauto. }
  assert (NoDup (filter ok order)) as Hndf by (by apply NoDup_filter).
  destruct (filter ok order) as [|x [|y ys]] eqn:Ef.
  - split; [done|]. intros ((pt & H1 & _) & H2 & _). exfalso. apply (not_elem_of_nil id). apply Hf. eauto.
  - split.
    + intros [= ->]. destruct (proj1 (Hf id)) as [H1 H2]; [by left|]. split_and!; [|done|].
      { destruct H1 as [pt H1]. exists pt. by split. }
      intros _ id' pt He Hm. apply list_elem_of_singleton. apply Hf. eauto.
    + intros ((pt & H1 & _) & H2 & H3). f_equal. symmetry. apply list_elem_of_singleton. apply Hf. eauto.
  - split; [done|]. intros (H1 & H2 & H3). specialize (H3 eq_refl). exfalso. destruct (proj1 (Hf x)) as ((px & Hx) & Mx); [by left|].
    destruct (proj1 (Hf y)) as ((py & Hy) & My); [right; by left|].
    rewrite (H3 _ _ Hx Mx), (H3 _ _ Hy My) in Hndf. apply NoDup_cons in Hndf as [Hn _]. apply Hn. by left.
Qed.

(** C29: a dial without a port reaches the peer's only listener that matches: in
    whatever order the map yields them, the lookup finds a listener exactly when
    it is one of the peer's and matches the dial, and no other does; with none or
    several the dial is refused. *)
Theorem portless_lookup network peer port target loc order n id :
  net_ok n -> order ≡ₚ portIds n peer ->
  let req := mkDialRequest peer port false target loc in
  lookupListener network req order n = Some id <->
  (exists pt, entry (n_listeners n) peer pt = Some id) /\ matchesAt n network req id = true /\
  forall id' pt, entry (n_listeners n) peer pt = Some id' -> matchesAt n network req id' = true -> id' = id.
Proof.
  intros Hok Hord req. rewrite lookup_found by done. cbn [req dr_peer dr_explicit dr_port]. split.
  - intros ((pt & He & _) & Hm & Hu). split_and!; [eauto|done|by apply Hu].
  - intros ((pt & He) & Hm & Hu). split_and!; [by exists pt|done|done].
Qed.
End dial.
