(* ===== verification/NetworkFaults.v ===== *)
(** * Properties of partitions, resets, runtime settings and closing, at the level
    of a whole Network *)
From S2P Require Import Prelude GoRuntime Errors Float64 Rand Partition Trace PipeState Faults FaultProps Pipe.
From S2P Require Import PipeInv Deadline Options Conn ConnProps ConnRace NetIP NetIPProps NetIP6 Addr Addressing.
From S2P Require Import Replay Directions Listener Network NetworkInv NetworkFrame NetworkListen NetworkDial.

Section faults.
Context {Src : Type} `{!DrawSource Src} `{!RejectFuel} `{!Platform}.
Implicit Types (n : Network Src) (lk : link Src) (c : connRef).

(** ** A dial is a run of the transitions *)

Lemma dialCheck_run network a req n r n' :
  net_ok n -> req_ok n req -> n_nextOrdinal n + 1 < 2 ^ 64 ->
  dialCheck network a req n = Ret (r, n') -> rtc net_step n n'.
Proof.
  intros Hok Hreq Hlt E.
  assert (dialFinish network a req n = Ret (r, n') \/ n' = n) as [Ef| ->]; [|clear E|apply rtc_refl].
  { unfold dialCheck in E. destruct (dr_local req); [|by left]. destruct (checkPartition _ _) as [[] ?]; [right; by injection E|by left]. }
  unfold dialFinish in Ef. apply go_bind_ret in Ef as ([q n1] & Ee & Ef). injection Ef as _ <-.
  unfold dialEstablish in Ee. destruct (lookupListener _ _ _ _) as [id|]; [|injection Ee as _ <-; apply rtc_refl].
  destruct (n_heap n !! id) as [l|] eqn:Hi; [|injection Ee as _ <-; apply rtc_refl].
  assert (id < length (n_heap n))%nat as Hlen by (by eapply lookup_lt_Some).
  destruct (ok_heap _ Hok id l Hi) as [[Hres _] _].
  destruct (reserve l) as [[err|] l'] eqn:Er; [injection Ee as _ <-; apply rtc_refl|].
  apply go_bind_ret in Ee as ([q' n2] & Ec & Ee). injection Ee as _ <-.
  eapply rtc_l; [apply (st_reserve n id l Hi)|]. rewrite Er. cbn [snd].
  assert (l' = set_reserved l (l_reserved l + 1)) as ->.
  { unfold reserve in Er. destruct (l_closed l); [done|]. destruct (_ <=? _); [done|]. by injection Er as <-. }
  eapply rtc_l; [|apply rtc_refl].
  eapply (st_connect _ network req id (set_reserved l (l_reserved l + 1))); [exact Hreq| |cbn; lia|exact Hlt|exact Ec].
  cbn. by rewrite list_lookup_insert_eq.
Qed.

Lemma DialContext_run now ctx network a n r n' :
  net_ok n -> n_nextOrdinal n + 1 < 2 ^ 64 -> DialContext now ctx network a n = Ret (r, n') ->
  rtc net_step n n' /\ forall req ch, r = DialBlocks req ch -> req_ok n' req.
Proof.
  intros Hok Hlt. unfold DialContext. destruct (dialResolve now ctx network a n) as [q n1] eqn:Er.
  destruct (dialResolve_ok _ _ _ _ _ _ _ Hok Er) as (Hok1 & E1 & Hle & Hq).
  assert (net_step n n1) as Hst by (pose proof (st_resolve n now ctx network a) as Hs; rewrite Er in Hs; by apply st_call, st_section).
  destruct q as [req|err]; [|intros [= <- <-]; split; [by apply rtc_once|done]]. destruct Hq as (Hreq & _). intros E.
  split; [eapply rtc_l; [done|]; eapply dialCheck_run; [done|done|by rewrite E1|done]|].
  intros req' ch ->. unfold dialCheck in E.
  assert (forall y, dialFinish network a req n1 <> Ret (DialBlocks req' ch, y)) as Hno.
  { intros y Ef. unfold dialFinish in Ef. apply go_bind_ret in Ef as ([[?|?] ?] & _ & Ef); discriminate Ef. }
  destruct (dr_local req); [|by apply Hno in E]. destruct (checkPartition _ _) as [[] ?]; [|by apply Hno in E]. by injection E as -> _ ->.
Qed.

Lemma dialWake_run pref now ctx network a req ch n r n' :
  net_ok n -> req_ok n req -> n_nextOrdinal n + 1 < 2 ^ 64 ->
  dialWake pref now ctx network a req ch n = Ret (r, n') -> rtc net_step n n'.
Proof.
  intros Hok Hreq Hlt. unfold dialWake. destruct (waitSelect pref now ctx ch n).
  - intros [= _ <-]. apply rtc_refl.
  - by apply dialCheck_run.
  - intros [= _ <-]. apply rtc_refl.
Qed.

(** Refinement. A dial with nothing in between is a run of the interleaved
    transitions of the Network, so whatever the invariant says of every
    interleaving holds after it; and so is the rest of a dial that waited. *)
Theorem dial_refines_steps now ctx network a n r n' :
  net_ok n -> n_nextOrdinal n + 1 < 2 ^ 64 -> DialContext now ctx network a n = Ret (r, n') ->
  rtc net_step n n' /\
  forall pref now' req ch n1 r1 n2, r = DialBlocks req ch -> rtc net_step n' n1 -> n_nextOrdinal n1 + 1 < 2 ^ 64 ->
    dialWake pref now' ctx network a req ch n1 = Ret (r1, n2) -> rtc net_step n1 n2.
Proof.
  intros Hok Hlt E. destruct (DialContext_run _ _ _ _ _ _ _ Hok Hlt E) as [Hrun Hreq]. split; [done|].
  intros pref now' req ch n1 r1 n2 -> Hmid Hlt1 Ew. specialize (Hreq req ch eq_refl).
  destruct (net_run_le n' n1 (net_run_ok _ _ Hok Hrun) Hmid) as [Hok1 Hle].
  eapply dialWake_run; [done| |done|exact Ew].
  unfold req_ok in *. destruct (dr_local req); [|done]. eapply settled_le; [apply Hle|done].
Qed.

(** ** Partitions *)

Lemma peerName_host_port h port : plain_host h -> 0 <= port <= maxPort -> peerName (withPort h port) = h.
Proof. intros Hh Hp. unfold peerName. rewrite splitAddr_host_port by done. by destruct (port =? 0). Qed.

Lemma resolvePair_hosts a b pa pb n :
  peer_host a -> peer_host b -> 0 <= pa <= maxPort -> 0 <= pb <= maxPort ->
  resolvePair (withPort a pa) (withPort b pb) n = (newPairKey a b, n).
Proof.
  intros (Ha & _ & La) (Hb & _ & Lb) Hpa Hpb. unfold resolvePair, resolvePeer, canonicalPeer.
  rewrite !peerName_host_port, !canonical_host by done. by rewrite !book_self.
Qed.

Lemma dialResolve_named now ctx network a b qa qb n :
  ctx_Err now ctx = None -> validateNetwork network = None -> peer_host a -> peer_host b ->
  0 <= qa <= maxPort -> 0 <= qb <= maxPort -> peerNameFromContext ctx = Some (withPort a qa) ->
  dialResolve now ctx network (withPort b qb) n =
  (inl (mkDialRequest b qb (negb (qb =? 0)) None (Some a)), n).
Proof.
  intros Hc Hv (Ha & Na & La) (Hb & Nb & Lb) Hqa Hqb Hn. unfold dialResolve, resolvePeer, canonicalPeer.
  rewrite Hc, Hv, splitAddr_host_port, Hn, peerName_host_port by done.
  assert ((if qb =? 0 then inl (b, 0, false) else inl (b, qb, true)) = inl (b, qb, negb (qb =? 0)) :> _ + goerror) as ->
    by (by destruct (Z.eqb_spec qb 0) as [->|]).
  destruct (String.eqb_spec b ""); [done|]. rewrite !canonical_host, Lb by done.
  destruct (String.eqb_spec a ""); [done|]. by rewrite !book_self.
Qed.

Lemma valid_pair_hosts caller a b pa pb :
  peer_host a -> peer_host b -> 0 <= pa <= maxPort -> 0 <= pb <= maxPort -> a <> b ->
  validatePartitionPair caller (mkPartitionPair (withPort a pa) (withPort b pb)) = Ret tt.
Proof.
  intros (Ha & _ & _) (Hb & _ & _) Hpa Hpb Hne. apply validatePair_spec. unfold pair_valid. cbn.
  split_and!; [| |intros E; apply (f_equal peerName) in E; by rewrite !peerName_host_port in E];
    intros E; apply (f_equal toBytes) in E; unfold withPort in E; rewrite !toBytes_app in E;
    apply app_eq_nil in E as [_ E]; discriminate E.
Qed.

(** C23: a partition stops dials between the two peers, whatever ports the names
    carry and whichever of the two dials. After Partition a dial by the named
    peer waits; it fails with the context's error when that ends first; and after
    Heal, given in either order, the waiting dial is woken and goes on to connect. *)
Theorem partition_blocks_dials pref now now' ctx network a b pa pb qa qb ra rb n :
  peer_host a -> peer_host b -> a <> b -> validateNetwork network = None ->
  Forall (fun port => 0 <= port <= maxPort) [pa; pb; qa; qb; ra; rb] ->
  ctx_Err now ctx = None -> peerNameFromContext ctx = Some (withPort a qa) ->
  let req := mkDialRequest b qb (negb (qb =? 0)) None (Some a) in
  let target := withPort b qb in
  exists n1 n2, (Partition (withPort a pa) (withPort b pb) n = Ret n1 /\ Partition (withPort b pb) (withPort a pa) n = Ret n1) /\
    Heal (withPort b rb) (withPort a ra) n1 = Ret n2 /\
    let ch := partNotify (n_part n1) in
    DialContext now ctx network target n1 = Ret (DialBlocks req ch, n1) /\
    (forall err, ctx_Err now' ctx = Some err ->
       dialWake pref now' ctx network target req ch n1 = Ret (DialFails (dialOpError network target err), n1)) /\
    (ctx_Err now' ctx = None -> dialWake pref now' ctx network target req ch n1 = Ret (DialBlocks req ch, n1)) /\
    (ctx_Err now' ctx = None -> dialWake pref now' ctx network target req ch n2 = dialFinish network target req n2).
Proof.
  intros Ha Hb Hne Hv Hports Hctx Hname req target.
  rewrite !Forall_cons in Hports. destruct Hports as (P1 & P2 & P3 & P4 & P5 & P6 & _).
  set (k := newPairKey a b). set (n1 := set_part n (partition_pair k (n_part n))).
  set (n2 := set_part n1 (heal_pair k (n_part n1))).
  assert (isPartitioned (n_part n1) k = true) as Hk1.
  { unfold n1. cbn [n_part set_part]. by rewrite isPartitioned_partition, bool_decide_eq_true_2. }
  assert (isPartitioned (n_part n2) k = false) as Hk2.
  { unfold n2. cbn [n_part set_part]. rewrite isPartitioned_heal. rewrite bool_decide_eq_false_2 by (intros Hx; by apply Hx). done. }
  exists n1, n2. split.
  { unfold Partition. rewrite !valid_pair_hosts by done. cbn [mbind go_bind]. rewrite !resolvePair_hosts by done.
    by rewrite (newPairKey_sym b a). }
  split.
  { unfold Heal. rewrite valid_pair_hosts by done. cbn [mbind go_bind]. rewrite resolvePair_hosts by done.
    by rewrite (newPairKey_sym b a). }
  cbn zeta. split_and!.
  - unfold DialContext, target. rewrite (dialResolve_named _ _ _ a b qa) by done. fold req. unfold dialCheck, checkPartition.
    cbn [dr_local dr_peer req]. fold k. unfold isPartitioned in Hk1. by rewrite Hk1.
  - intros err Herr. unfold dialWake, waitSelect. rewrite Herr. unfold woken. by rewrite Nat.ltb_irrefl.
  - intros Herr. unfold dialWake, waitSelect. rewrite Herr. unfold woken. by rewrite Nat.ltb_irrefl.
  - intros Herr. unfold dialWake, waitSelect. rewrite Herr.
    assert (woken (partNotify (n_part n1)) (partNotify (n_part n2)) = true) as ->.
    { unfold n2. cbn [n_part set_part]. unfold heal_pair. unfold isPartitioned in Hk1. apply bool_decide_eq_true in Hk1.
      rewrite decide_True by done. unfold woken. apply Nat.ltb_lt. cbn [partNotify bumpPartNotifyLocked]. lia. }
    unfold dialCheck, checkPartition. cbn [dr_local dr_peer req]. fold k. unfold isPartitioned in Hk2. by rewrite Hk2.
Qed.

(** Partition accepts a peer and itself. The check that the two names differ
    compares them as written, before their ports are stripped: a name and the
    same name with a port pass it, and the pair that is then partitioned is the
    peer with itself; only the identical spelling is refused. *)
Theorem self_partition_accepted h port n :
  peer_host h -> 0 <= port <= maxPort ->
  (exists n', Partition h (withPort h port) n = Ret n' /\ isPartitioned (n_part n') (newPairKey h h) = true) /\
  exists msg, Partition h h n = Panic msg.
Proof.
  intros (Hh & Hne & Hl) Hp. assert (peerName h = h) as Ehn by (unfold peerName; by rewrite splitAddr_host).
  split.
  - exists (set_part n (partition_pair (newPairKey h h) (n_part n))). split.
    + unfold Partition.
      assert (validatePartitionPair "Partition" (mkPartitionPair h (withPort h port)) = Ret tt) as ->.
      { apply validatePair_spec. unfold pair_valid. cbn. split_and!; [done| |]; intros E; apply (f_equal toBytes) in E;
          unfold withPort in E; rewrite !toBytes_app in E.
        - apply app_eq_nil in E as [_ E]. discriminate E.
        - apply (f_equal length) in E. rewrite !length_app in E. cbn in E. lia. }
      cbn [mbind go_bind]. unfold resolvePair, resolvePeer, canonicalPeer.
      rewrite Ehn, peerName_host_port, !canonical_host by done. by rewrite !book_self.
    + cbn [n_part set_part]. by rewrite isPartitioned_partition, bool_decide_eq_true_2.
  - unfold Partition, validatePartitionPair. cbn. destruct (String.eqb_spec h ""); [done|]. rewrite String.eqb_refl. cbn. eauto.
Qed.

(** ** Reset *)

Lemma fold_length (f : connRef -> link Src -> link Src) ts n :
  length (n_conns (fold_left (fun n c => upd_conn (fst c) (f c) n) ts n)) = length (n_conns n).
Proof. revert n. induction ts as [|c ts IH]; intros n; [done|]. cbn [fold_left]. rewrite IH. cbn. apply length_alter. Qed.

(** What a Reset of the ends [ts] leaves of connection [i]. *)
Definition reset_of (i : nat) (ts : list connRef) lk lk' : Prop :=
  (forall s, c_closed (end_of lk' s) = c_closed (end_of lk s) /\
     c_reset (end_of lk' s) = c_reset (end_of lk s) || bool_decide ((i, s) ∈ ts)).

Lemma signal_marks ts n i lk :
  n_conns n !! i = Some lk ->
  exists lk', n_conns (fold_left (fun n c => upd_conn (fst c) (signalReset (snd c)) n) ts n) !! i = Some lk' /\
    reset_of i ts lk lk' /\ (forall w, writePipe lk' w = writePipe lk w) /\ ((forall s, (i, s) ∉ ts) -> lk' = lk).
Proof.
  revert n lk. induction ts as [|[j s] ts IH]; intros n lk Hi; cbn [fold_left fst snd].
  { exists lk. split; [done|]. split; [|done]. intros s. by rewrite bool_decide_eq_false_2, orb_false_r by apply not_elem_of_nil. }
  destruct (decide (j = i)) as [->|Hne].
  - destruct (IH (upd_conn i (signalReset s) n) (signalReset s lk)) as (lk' & Hi' & Hr & Hw & _).
    { cbn. by rewrite list_lookup_alter_eq, Hi. }
    exists lk'. split; [done|]. split; [|split].
    + intros e. destruct (Hr e) as [E1 E2]. rewrite E1, E2. unfold signalReset, upd_end. rewrite end_of_set_end.
      destruct (decide (e = s)) as [->|He]; cbn.
      * split; [done|]. rewrite (bool_decide_eq_true_2 ((i, s) ∈ _ :: _)) by (by left). by rewrite orb_true_r.
      * split; [done|]. f_equal. apply bool_decide_ext. rewrite elem_of_cons. split; [auto|]. intros [[= ->]|]; [done|auto].
    + intros w. rewrite Hw. unfold signalReset, upd_end. apply writePipe_set_end.
    + intros Hno. exfalso. apply (Hno s). by left.
  - destruct (IH (upd_conn j (signalReset s) n) lk) as (lk' & Hi' & Hr & Hw & Hsame).
    { cbn. by rewrite list_lookup_alter_ne. }
    exists lk'. split; [done|]. split; [|split; [done|]].
    + intros e. destruct (Hr e) as [E1 E2]. split; [done|]. rewrite E2. f_equal. apply bool_decide_ext.
      rewrite elem_of_cons. split; [auto|]. intros [[= -> ->]|]; [done|auto].
    + intros Hno. apply Hsame. intros e He. apply (Hno e). by right.
Qed.

Lemma abortReset_pipes s lk w : p_readClosed (writePipe (abortReset s lk) w) = true.
Proof.
  unfold abortReset, upd_readPipe, upd_writePipe, set_readPipe. rewrite !writePipe_set_writePipe. unfold readPipe.
  rewrite writePipe_set_writePipe. assert (forall p : pipe Src, p_readClosed (abort p) = true) as Ha.
  { intros p. unfold abort. destruct (p_readClosed p) eqn:E; [by rewrite E|done]. }
  destruct s, w; cbn; apply Ha.
Qed.

Lemma abort_marks_all ts n i lk :
  n_conns n !! i = Some lk ->
  exists lk', n_conns (fold_left (fun n c => upd_conn (fst c) (abortReset (snd c)) n) ts n) !! i = Some lk' /\
    (forall s, end_of lk' s = end_of lk s) /\ ((forall s, (i, s) ∉ ts) -> lk' = lk) /\
    ((exists s, (i, s) ∈ ts) \/ (forall w, p_readClosed (writePipe lk w) = true) -> forall w, p_readClosed (writePipe lk' w) = true).
Proof.
  revert n lk. induction ts as [|[j s] ts IH]; intros n lk Hi; cbn [fold_left fst snd].
  { exists lk. split_and!; try done. intros [[s Hs]|Hw]; [by apply elem_of_nil in Hs|done]. }
  destruct (decide (j = i)) as [->|Hne].
  - destruct (IH (upd_conn i (abortReset s) n) (abortReset s lk)) as (lk' & Hi' & He & _ & Hw).
    { cbn. by rewrite list_lookup_alter_eq, Hi. }
    exists lk'. split; [done|]. split_and!.
    + intros e. rewrite He. unfold abortReset, upd_readPipe, upd_writePipe, set_readPipe. by rewrite !end_of_set_writePipe.
    + intros Hno. exfalso. apply (Hno s). by left.
    + intros _. apply Hw. right. intros w. apply abortReset_pipes.
  - destruct (IH (upd_conn j (abortReset s) n) lk) as (lk' & Hi' & He & Hsame & Hw).
    { cbn. by rewrite list_lookup_alter_ne. }
    exists lk'. split; [done|]. split; [done|]. split.
    + intros Hno. apply Hsame. intros e Hin. apply (Hno e). by right.
    + intros Hor. apply Hw. destruct Hor as [[e He']|]; [left|by right]. exists e. apply elem_of_cons in He' as [[= -> ->]|]; [done|done].
Qed.

Lemma Read_reset v size s lk :
  c_closed (end_of lk s) = false -> c_reset (end_of lk s) = true ->
  Read v size s lk = (Return [] (Some (opError (end_of lk s) "read" errConnReset)), lk).
Proof.
  intros Hc Hr. unfold Read. rewrite readLoop_S. cbn [Conn.settled readStep]. rewrite Hc, readLoop_S.
  cbn [Conn.settled readStep]. by rewrite Hr.
Qed.

Lemma Write_reset v data s lk :
  c_closed (end_of lk s) = false -> c_reset (end_of lk s) = true ->
  Write v data s lk = Ret (Return 0 (Some (opError (end_of lk s) "write" errConnReset)), lk).
Proof.
  intros Hc Hr. unfold Write. rewrite writeLoop_S. cbn [Conn.settled writeStep mbind go_bind]. rewrite Hc, writeLoop_S.
  cbn [Conn.settled writeStep mbind go_bind]. by rewrite Hr.
Qed.

(** C24: Reset hits exactly the live connections of the pair. Every end
    established between the two peers and neither closed nor reset yet is marked:
    from then on all its reads and writes, under any view and of any size, fail
    with ECONNRESET, and both directions are cut with everything in flight
    dropped; every connection with no such end is left as it was; and the pair's
    registry is empty, the others' untouched. *)
Theorem reset_exact a b n n' :
  net_ok n -> Reset a b n = Ret n' ->
  exists k n1, resolvePair a b n = (k, n1) /\
    (forall c, live_end (n_conns n) k c ->
       exists lk, n_conns n' !! fst c = Some lk /\
         (forall w, p_readClosed (writePipe lk w) = true) /\
         let e := end_of lk (snd c) in
         forall v size data,
           Read v size (snd c) lk = (Return [] (Some (opError e "read" errConnReset)), lk) /\
           Write v data (snd c) lk = Ret (Return 0 (Some (opError e "write" errConnReset)), lk)) /\
    (forall i, (forall s, ~ live_end (n_conns n) k (i, s)) -> n_conns n' !! i = n_conns n !! i) /\
    (forall k', targets (n_resetTargets n') k' = if decide (k' = k) then [] else targets (n_resetTargets n) k').
Proof.
  intros Hok. rewrite Reset_eq. intros ([] & _ & E)%go_bind_ret. destruct (resolvePair a b n) as [k n1] eqn:Ek.
  destruct (resolvePair_ok _ _ _ _ _ Hok Ek) as (Hok1 & E1 & _). injection E as <-. exists k, n1. split; [done|].
  assert (n_conns n1 = n_conns n /\ n_resetTargets n1 = n_resetTargets n) as [Ec Er] by (by rewrite E1).
  destruct (registry_live n k Hok) as [_ Hin].
  unfold resetPair. rewrite Er. set (ts := targets (n_resetTargets n) k). set (n0 := set_resetTargets n1 _).
  set (ns := fold_left (fun n c => upd_conn (fst c) (signalReset (snd c)) n) ts n0).
  assert (n_conns n0 = n_conns n) as Ec0 by done. split_and!.
  - intros [i s] Hl. pose proof Hl as (lk & Hi & _ & _ & Hcl & _). cbn in Hi, Hcl. apply Hin in Hl. fold ts in Hl.
    rewrite <- Ec0 in Hi. destruct (signal_marks ts n0 i lk Hi) as (lk1 & Hi1 & Hr & _ & _). fold ns in Hi1.
    destruct (abort_marks_all ts ns i lk1 Hi1) as (lk2 & Hi2 & He & _ & Hw). exists lk2. split; [done|].
    split; [apply Hw; left; by exists s|]. cbn zeta. cbn [snd]. intros v size data. destruct (Hr s) as [R1 R2].
    rewrite bool_decide_eq_true_2, orb_true_r in R2 by done. rewrite Hcl in R1.
    split; [apply Read_reset|apply Write_reset]; by rewrite He.
  - intros i Hno. assert (forall s, (i, s) ∉ ts) as Hno' by (intros s Hs; apply (Hno s); by apply Hin).
    destruct (n_conns n !! i) as [lk|] eqn:Hi.
    + rewrite <- Ec0 in Hi. destruct (signal_marks ts n0 i lk Hi) as (lk1 & Hi1 & _ & _ & S1). fold ns in Hi1.
      destruct (abort_marks_all ts ns i lk1 Hi1) as (lk2 & Hi2 & _ & S2 & _). by rewrite Hi2, S2, S1.
    + apply lookup_ge_None. apply lookup_ge_None in Hi. rewrite <- Ec0 in Hi.
      rewrite (fold_length (fun c => abortReset (snd c))). unfold ns. by rewrite (fold_length (fun c => signalReset (snd c))).
  - intros k'.
    destruct (fold_conns (fun c => signalReset (snd c)) ts n0) as [cs1 F1]. fold ns in F1.
    destruct (fold_conns (fun c => abortReset (snd c)) ts ns) as [cs2 F2]. rewrite F2, F1. cbn. apply targets_delete.
Qed.

(** ** Settings at run time *)

Lemma bind_valid (m : go unit) n n1 (P : Prop) : (m = Ret tt <-> P) -> (m ≫= (fun _ => Ret n1)) = Ret n <-> P /\ n = n1.
Proof.
  intros HP. rewrite go_bind_ret. split.
  - intros ([] & Hm & [= ->]). split; [by apply HP|done].
  - intros [Hm ->]. exists tt. split; [by apply HP|done].
Qed.

(** The settings of a running Network. A setter goes through exactly when its
    values are valid and panics otherwise; it switches its own fault on with the
    new values and leaves the four others, and everything else of the Network, as
    they were; and the next unit of every connection, old or new, is evaluated
    under the new settings. *)
Theorem setters_apply_live now min max rate pair static n n' :
  let fp := mkFaultPolicy true pair static in
  (SetLatency min max n = Ret n' <-> 0 <= min <= max /\ n' = set_faults n (set_latencyCfg (n_faults n) min max)) /\
  (SetPacketLoss rate n = Ret n' <-> rate_valid rate /\ n' = set_faults n (set_lossCfg (n_faults n) rate)) /\
  (SetDuplication rate n = Ret n' <-> rate_valid rate /\ n' = set_faults n (set_duplicateCfg (n_faults n) rate)) /\
  (SetCorruption rate n = Ret n' <-> rate_valid rate /\ n' = set_faults n (set_corruptCfg (n_faults n) rate)) /\
  (SetLatency min max n = Ret n' ->
     let f := current (viewAt now n') fp in
     latencyEnabled f = true /\ latencyMin f = min /\ latencyMax f = max /\ lossEnabled f = lossEnabled (n_faults n) /\
     bandwidthEnabled f = bandwidthEnabled (n_faults n) /\ duplicateEnabled f = duplicateEnabled (n_faults n) /\
     corruptEnabled f = corruptEnabled (n_faults n)) /\
  (SetPacketLoss rate n = Ret n' ->
     let f := current (viewAt now n') fp in
     lossEnabled f = true /\ lossRate f = rate /\ latencyEnabled f = latencyEnabled (n_faults n) /\
     bandwidthEnabled f = bandwidthEnabled (n_faults n) /\ duplicateEnabled f = duplicateEnabled (n_faults n) /\
     corruptEnabled f = corruptEnabled (n_faults n)) /\
  n_conns (set_faults n (n_faults n')) = n_conns n.
Proof.
  intros fp. pose proof (validateRate_spec "SetPacketLoss" rate) as V1.
  pose proof (validateRate_spec "SetDuplication" rate) as V2. pose proof (validateRate_spec "SetCorruption" rate) as V3.
  pose proof (validateLatency_spec "SetLatency" min max) as V4.
  assert (SetLatency min max n = Ret n' <-> 0 <= min <= max /\ n' = set_faults n (set_latencyCfg (n_faults n) min max)) as B1 by (by apply bind_valid).
  assert (SetPacketLoss rate n = Ret n' <-> rate_valid rate /\ n' = set_faults n (set_lossCfg (n_faults n) rate)) as B2 by (by apply bind_valid).
  split_and!; [exact B1|exact B2|by apply bind_valid|by apply bind_valid| | |done].
  - intros [_ ->]%B1. done.
  - intros [_ ->]%B2. done.
Qed.

(** ** Closing a listener *)

Lemma connClose_conn c n i lk :
  n_conns n !! i = Some lk ->
  exists lk', n_conns (connClose c n) !! i = Some lk' /\
    (forall s, c_closed (end_of lk s) = true \/ c = (i, s) -> c_closed (end_of lk' s) = true).
Proof.
  intros Hi. unfold connClose. destruct (n_conns n !! fst c) as [lk0|] eqn:Hc.
  2: { exists lk. split; [done|]. intros s [?| ->]; [done|]. cbn in Hc. congruence. }
  cbn zeta. destruct (c_closed (end_of lk0 (snd c))) eqn:Ec.
  { exists lk. split; [done|]. intros s [?| ->]; [done|]. cbn in *. congruence. }
  set (n1 := if c_nw _ then _ else n). assert (n_conns n1 = n_conns n) as E1.
  { unfold n1, deregisterReset. cbn zeta. by destruct (c_nw _); [destruct (decide _)|]. }
  cbn. rewrite E1. destruct (decide (fst c = i)) as [<-|Hne].
  - rewrite list_lookup_alter_eq, Hi. eexists. split; [done|]. rewrite Hi in Hc. injection Hc as <-.
    destruct (Close_marks (snd c) lk Ec) as (Hoth & _ & _). intros s Hs. destruct (decide (s = snd c)) as [->|Hn].
    + unfold Close. rewrite Ec. unfold upd_end, upd_writePipe, upd_readPipe, set_readPipe.
      rewrite end_of_set_end, decide_True by done. cbn.
      by rewrite end_of_set_end, decide_True, !end_of_set_writePipe, end_of_set_end, decide_True.
    + destruct (Hoth s Hn) as (-> & _). destruct Hs as [?|E]; [done|]. apply (f_equal snd) in E. by destruct Hn.
  - rewrite list_lookup_alter_ne by done. exists lk. split; [done|]. intros s [?| ->]; [done|]. by destruct Hne.
Qed.

Lemma closeAll_conn cs n i lk :
  n_conns n !! i = Some lk ->
  exists lk', n_conns (fold_left (fun n c => connClose c n) cs n) !! i = Some lk' /\
    forall s, c_closed (end_of lk s) = true \/ (i, s) ∈ cs -> c_closed (end_of lk' s) = true.
Proof.
  revert n lk. induction cs as [|c cs IH]; intros n lk Hi; cbn [fold_left].
  { exists lk. split; [done|]. intros s [?|Hs]; [done|by apply elem_of_nil in Hs]. }
  destruct (connClose_conn c n i lk Hi) as (lk1 & Hi1 & H1). destruct (IH _ lk1 Hi1) as (lk2 & Hi2 & H2).
  exists lk2. split; [done|]. intros s Hs. apply H2. rewrite elem_of_cons in Hs. destruct Hs as [?|[<-|?]]; [left; apply H1; by left|left; apply H1; by right|by right].
Qed.

Lemma closeAll_frame cs n :
  let n' := fold_left (fun n c => connClose c n) cs n in n_listeners n' = n_listeners n /\ n_heap n' = n_heap n.
Proof.
  revert n. induction cs as [|c cs IH]; intros n; [done|]. cbn [fold_left]. destruct (IH (connClose c n)) as [E1 E2].
  destruct (connClose_frame c n) as (_ & F1 & F2 & _). cbn zeta. by rewrite E1, E2.
Qed.


(** ** The registry after connections are gone *)

Lemma connClose_rel c n : conns_rel [c] (n_conns n) (n_conns (connClose c n)).
Proof.
  assert ((forall k, ~ live_end (n_conns n) k c) -> conns_rel [c] (n_conns n) (n_conns n)) as Hdead.
  { intros Hno. destruct (conns_rel_refl (n_conns n)) as [A _]. split; [done|]. intros k d. split; [|by intros [? _]].
    intros Hl. split; [done|]. intros ->%list_elem_of_singleton. by apply (Hno k). }
  unfold connClose. destruct (n_conns n !! fst c) as [lk|] eqn:Hi.
  2: { apply Hdead. intros k (lk & E & _). congruence. }
  cbn zeta. destruct (c_closed (end_of lk (snd c))) eqn:Ec.
  { apply Hdead. intros k (lk' & E & _ & _ & Ec' & _). rewrite Hi in E. injection E as <-. congruence. }
  set (n1 := if c_nw _ then _ else n). assert (n_conns n1 = n_conns n) as E1.
  { unfold n1, deregisterReset. cbn zeta. by destruct (c_nw _); [destruct (decide _)|]. }
  cbn. rewrite E1, (alter_insert _ _ _ lk) by done. destruct c as [i s]. by apply (marks_rel _ i lk _ s); [|apply Close_marks].
Qed.

Lemma connClose_keys c n k : is_Some (n_resetTargets n !! k) -> is_Some (n_resetTargets (connClose c n) !! k).
Proof.
  intros Hk. unfold connClose. destruct (n_conns n !! fst c) as [lk|]; [|done]. cbn zeta. destruct (c_closed _); [done|].
  unfold deregisterReset. cbn zeta. destruct (c_nw _); [|done]. destruct (decide _); [|done]. cbn.
  destruct (decide (c_pair (end_of lk (snd c)) = k)) as [->|Hne]; [by rewrite lookup_insert_eq|by rewrite lookup_insert_ne].
Qed.

(** The Reset registry keeps a key for every pair that was ever connected.
    Once a dialed connection is closed at both ends no end of it is left to
    reset, but its pair's list, empty or not, stays in the registry, and so does
    every other; an unnamed dial makes a pair of its own, so that the registry
    grows with the number of dials although no connection is left. *)
Theorem closed_pairs_stay_registered now ctx network a c n n' :
  net_ok n -> DialContext now ctx network a n = Ret (Dialed c, n') ->
  let n2 := connClose (fst c, sideAcceptor) (connClose (fst c, sideDialer) n') in
  (forall k d, live_end (n_conns n2) k d <-> live_end (n_conns n) k d) /\
  (forall k, is_Some (n_resetTargets n !! k) -> is_Some (n_resetTargets n2 !! k)) /\
  exists name peer, is_Some (n_resetTargets n2 !! newPairKey name peer) /\
    (peerNameFromContext ctx = None -> name = ephemeralPeerName (n_nextOrdinal n)).
Proof.
  intros Hok E n2. unfold DialContext in E. destruct (dialResolve now ctx network a n) as [[req|err] n1] eqn:Er; [|done].
  destruct (dialResolve_ok _ _ _ _ _ _ _ Hok Er) as (Hok1 & E1 & _ & Hreq & _ & _ & Hnone).
  assert (n_conns n1 = n_conns n /\ n_resetTargets n1 = n_resetTargets n /\ n_nextOrdinal n1 = n_nextOrdinal n) as (Ec & Et & Eo) by (by rewrite E1).
  assert (dialFinish network a req n1 = Ret (Dialed c, n')) as Ef.
  { unfold dialCheck in E. destruct (dr_local req); [|done]. by destruct (checkPartition _ _) as [[] ?]. }
  destruct (dialFinish_spec network a req n1 Hok1 Hreq) as (r & n'' & Ef' & Hr). rewrite Ef in Ef'. injection Ef' as <- <-.
  destruct Hr as (id & l & -> & _ & _ & _ & _ & _ & localIP & book & _ & En').
  set (name := match dr_local req with Some name => name | None => ephemeralPeerName (n_nextOrdinal n1) end) in En'.
  set (pair := newPairKey name (dr_peer req)) in En'. cbn zeta in En'.
  match type of En' with _ = set_heap (dialRegister _ _ ?lk0 ?m) _ =>
    destruct (dialRegister_frame (n_nextOrdinal n1) pair lk0 m) as (_ & _ & Fc & _); destruct (dialRegister_tables (n_nextOrdinal n1) pair lk0 m) as [Ft _];
    set (lk := lk0) in *; set (m0 := m) in * end.
  assert (n_conns n' = n_conns n ++ [lk]) as Ec' by (rewrite En'; cbn [n_conns set_heap]; rewrite Fc, <- Ec; done).
  assert (forall k, is_Some (n_resetTargets n !! k) \/ k = pair -> is_Some (n_resetTargets n' !! k)) as Hkeys.
  { intros k Hk. rewrite En'. cbn [n_resetTargets set_heap]. rewrite Ft. destruct (decide (pair = k)) as [->|Hne]; [by rewrite lookup_insert_eq|].
    rewrite lookup_insert_ne by done. cbn. rewrite Et. by destruct Hk as [?| ->]. }
  assert (forall k, is_Some (n_resetTargets n !! k) \/ k = pair -> is_Some (n_resetTargets n2 !! k)) as Hkeys2.
  { intros k Hk. apply connClose_keys, connClose_keys. by apply Hkeys. }
  split; [|split; [intros k Hk; apply Hkeys2; by left|]].
  - intros k d. unfold n2. cbn [fst].
    rewrite (rel_live _ _ _ (connClose_rel _ _)), (rel_live _ _ _ (connClose_rel _ _)), Ec', live_end_app, Ec.
    rewrite !list_elem_of_singleton. split.
    + intros [[[?|[E0 _]] N1] N2]; [done|]. exfalso. destruct d as [i [|]]; cbn in E0; subst i; [by apply N1|by apply N2].
    + intros Hl. assert (fst d <> length (n_conns n)) as Hne.
      { destruct Hl as (lk0 & Hlk & _). apply lookup_lt_Some in Hlk. lia. }
      split; [split; [by left|]|]; intros ->; by apply Hne.
  - exists name, (dr_peer req). split; [apply Hkeys2; by right|]. intros Hn. unfold name. rewrite (Hnone Hn). by rewrite Eo.
Qed.
End faults.
