(* ===== verification/NetworkFlows.v ===== *)
(** * Flows across the components: a write into a Network, a connection from
    dial to read, a dialer with a timeout *)
From S2P Require Import Prelude GoRuntime Errors Float64 Rand Partition Trace PipeState Faults FaultProps Pipe.
From S2P Require Import PipeInv PipeProps Deadline Options Conn ConnProps ConnRace NetIP NetIPProps NetIP6 Addr Addressing.
From S2P Require Import Replay Directions Listener Network NetworkInv NetworkFrame NetworkListen NetworkDial NetworkFaults.

Section flows.
Context {Src : Type} `{!DrawSource Src} `{!RejectFuel} `{!Platform}.
Implicit Types (n : Network Src) (lk : link Src) (p : pipe Src) (v : netView).

(** ** Writes *)

Lemma connWrite_wp b now c data n :
  net_ok n -> zlen data < 2 ^ 63 -> (b = false -> forall s : stream Src, accepting s) ->
  wp b (connWrite now c data n) (fun r => fst r = None <-> n_conns n !! fst c = None).
Proof.
  intros Hok Hlen Hacc. unfold connWrite. destruct (n_conns n !! fst c) as [lk|] eqn:Hi; [|done].
  apply wp_bind. apply (wp_mono _ _ (fun _ => True)); [|by intros [r lk'] _].
  rewrite Write_precedence. cbn zeta. destruct (c_closed _); [done|]. destruct (c_reset _); [done|].
  destruct (expired _ _); [done|]. apply wp_bind.
  apply (wp_mono _ _ (fun _ => True)); [|by intros [r p'] _].
  apply (direction_write_wp b (envOf n) _ _ (snd c) _ (viewAt now n) data (ok_pipes _ Hok _ lk Hi (snd c))); [done|apply Hok|done|].
  intros Hb. split; intros _ s _; by apply Hacc.
Qed.

(** C21: a Write cannot bring the program down. In a Network in good state, on any
    end of any connection, open or closed, under whatever faults are set, a Write
    of any payload does not panic (no nil stream, no index out of range, no
    overflowing division), and it returns or comes to wait whenever bounded draws
    are accepted within the fuel. *)
Theorem write_never_panics now c data n :
  net_ok n -> zlen data < 2 ^ 63 ->
  (forall msg, connWrite now c data n <> Panic msg) /\
  ((forall s : stream Src, accepting s) ->
     exists r n', connWrite now c data n = Ret (r, n') /\ (r = None <-> n_conns n !! fst c = None)).
Proof.
  intros Hok Hlen. split.
  - intros msg. eapply wp_safe, connWrite_wp; done.
  - intros Hacc. destruct (wp_returns _ _ (connWrite_wp false now c data n Hok Hlen (fun _ => Hacc))) as ([r n'] & E & H1).
    by exists r, n'.
Qed.

(** ** A connection without faults *)

(** No fault is configured. *)
Definition calm (cfg : faultConfig) : Prop :=
  lossEnabled cfg = false /\ latencyEnabled cfg = false /\ bandwidthEnabled cfg = false /\
  duplicateEnabled cfg = false /\ corruptEnabled cfg = false.

Lemma calm_write v p pair static data :
  p_deliver p = faultEvaluator (mkFaultPolicy true pair static) -> calm (nv_faults v) -> isPartitioned (nv_parts v) pair = false ->
  p_closed p = false -> p_readClosed p = false -> p_bufBytes p = 0 \/ p_bufBytes p + zlen data <= p_bound p ->
  exists p', tryWrite v p data = Ret (Done (zlen data) None, p') /\ p_readable p' = p_readable p ++ [data] /\
    p_pending p' = p_pending p /\ p_readClosed p' = false.
Proof.
  intros Hd (C1 & C2 & C3 & C4 & C5) Hp Hc Hrc Hroom. unfold tryWrite. rewrite Hc, Hrc. cbn [orb].
  assert ((p_bufBytes p =? 0) || (p_bufBytes p + zlen data <=? p_bound p) = true) as ->.
  { apply orb_true_iff. destruct Hroom as [->|?]; [by left|right; by apply Z.leb_le]. }
  unfold runDeliver. cbn [p_deliver set_bufBytes]. rewrite Hd. unfold deliverUnit. cbn [fp_network fp_pair andb]. rewrite Hp.
  unfold current. cbn [fp_network]. unfold drawLoss, drawLatency, drawDuplicate, drawCorrupt, corruptUnit, throttle.
  rewrite C1, C2, C3, C4, C5. cbn [mbind go_bind negb andb]. rewrite recordEvent_eq, deliverNow_eq.
  eexists. split; [done|]. by cbn.
Qed.

Lemma ready_read v p bytes size :
  p_readClosed p = false -> concat (p_readable p) = bytes -> bytes <> [] -> (0 < size)%nat ->
  exists p', tryRead v p size = (Done (take size bytes) None, p').
Proof.
  intros Hrc Hb Hne Hs. unfold tryRead. rewrite Hrc. destruct (p_readable p) as [|c cs] eqn:Er; [by rewrite <- Hb in Hne|].
  rewrite <- Er in *. destruct (copyOut (p_readable p) size) as [out rest] eqn:Ec.
  apply copyOut_spec in Ec as (H1 & H2 & H3). rewrite Hb in H1.
  assert (out = take size bytes) as ->.
  { destruct (Nat.lt_ge_cases (length out) size) as [Hlt|Hge].
    - rewrite (H3 Hlt) in H1. cbn in H1. rewrite app_nil_r in H1. subst out. rewrite firstn_all2; [done|lia].
    - rewrite <- H1, take_app_length'; [done|lia]. }
  assert ((0 <? zlen (take size bytes)) = true) as ->.
  { apply Z.ltb_lt. unfold zlen. rewrite length_take. destruct bytes; [done|cbn; lia]. }
  by eexists.
Qed.

(** A connection none of whose ends has been closed, reset or given a deadline,
    and whose pipes are empty and deliver through the Network's evaluator. *)
Definition unused (pair : pairKey) (lk : link Src) : Prop :=
  (forall e, c_closed (end_of lk e) = false /\ c_reset (end_of lk e) = false /\
     (forall t, expired t (c_rd (end_of lk e)) = false) /\ (forall t, expired t (c_wd (end_of lk e)) = false)) /\
  (forall e, p_deliver (writePipe lk e) = faultEvaluator (mkFaultPolicy true pair noFaults) /\
     p_closed (writePipe lk e) = false /\ p_readClosed (writePipe lk e) = false /\
     p_bufBytes (writePipe lk e) = 0 /\ p_readable (writePipe lk e) = []).

Lemma dialPair_unused local remote ordinal network pair n0 : unused pair (dialPair local remote ordinal network pair n0).
Proof.
  unfold dialPair, newConnPairWithSeedAndTrace.
  generalize (deriveStream (n_seed n0)). intros ds. split; [by intros []|]. destruct (n_traceEnabled n0).
  all: by intros [].
Qed.

(** A first exchange on it: what one end writes the other reads. *)
Lemma unused_exchange pair lk n (i : nat) s data size t1 t2 :
  n_conns n !! i = Some lk -> unused pair lk ->
  calm (n_faults n) -> isPartitioned (n_part n) pair = false -> data <> [] -> (0 < size)%nat ->
  exists n2 n3, connWrite t1 (i, s) data n = Ret (Some (Return (zlen data) None), n2) /\
    connRead t2 (i, other s) size n2 = (Some (Return (take size data) None), n3).
Proof.
  intros Hi [Hends Hpipes] Hcalm Hpart Hne Hs. destruct (Hpipes s) as (P1 & P2 & P3 & P4 & P5).
  destruct (calm_write (viewAt t1 n) _ pair noFaults data P1 Hcalm Hpart P2 P3 (or_introl P4)) as (p' & Ew & Er & _ & Hrc).
  set (n2 := set_conns n (<[i := set_writePipe lk s p']> (n_conns n))).
  destruct (ready_read (viewAt t2 n2) p' data size Hrc) as (p2 & Erd);
    [rewrite Er, P5; cbn; by rewrite app_nil_r|done|done|].
  assert (n_conns n2 !! i = Some (set_writePipe lk s p')) as Hi2 by (cbn; rewrite list_lookup_insert_eq by (by eapply lookup_lt_Some); done).
  exists n2. eexists. split.
  - unfold connWrite. cbn [fst snd]. rewrite Hi, Write_precedence. cbn zeta.
    destruct (Hends s) as (-> & -> & _ & ->). rewrite Ew. done.
  - unfold connRead. cbn [fst snd]. rewrite Hi2, Read_precedence. cbn zeta. rewrite end_of_set_writePipe.
    destruct (Hends (other s)) as (-> & -> & -> & _).
    unfold readPipe at 1. rewrite other_other, writePipe_set_writePipe, decide_True by done. by rewrite Erd.
Qed.

(** From dial to read. In a Network with no fault set and no partition, once
    a dial has connected, the acceptor's end is the last in the queue of an open
    listener, which Accept hands out when it is alone there; a first Write on
    either end is taken whole at once, and a Read on the other end then gets its
    first bytes, as many as its buffer holds. *)
Theorem dial_write_accept_read now ctx network a n c n1 s data size t1 t2 b :
  net_ok n -> calm (n_faults n) -> partitions (n_part n) = ∅ -> data <> [] -> (0 < size)%nat ->
  DialContext now ctx network a n = Ret (Dialed c, n1) ->
  exists i id l, c = (i, sideDialer) /\ n_heap n1 !! id = Some l /\ l_closed l = false /\
    last (l_incoming l) = Some (i, sideAcceptor) /\
    (length (l_incoming l) = 1%nat -> fst (listenerAccept b id n1) = Some (Accepted (i, sideAcceptor))) /\
    exists n2 n3, connWrite t1 (i, s) data n1 = Ret (Some (Return (zlen data) None), n2) /\
      connRead t2 (i, other s) size n2 = (Some (Return (take size data) None), n3).
Proof.
  intros Hok Hcalm Hparts Hne Hs E.
  destruct (DialContext_spec now ctx network a n Hok) as (r & n' & E' & book & _ & Hr). rewrite E in E'. injection E' as <- <-.
  destruct Hr as (req & id & l & -> & Hi & _ & Hcl & _ & (localIP & book' & _ & ->)). cbn zeta.
  set (pair := newPairKey _ _). set (n0 := set_book _ book'). set (lk := dialPair _ _ _ _ pair n0).
  set (n2 := dialRegister _ pair lk n0).
  destruct (dialRegister_frame (n_nextOrdinal (set_book n book)) pair lk n0) as (F1 & F2 & F3 & F4 & F5).
  assert (n_faults n2 = n_faults n /\ n_part n2 = n_part n) as [G1 G2] by (unfold n2, dialRegister; cbn; by destruct (n_traceEnabled n)).
  exists (length (n_conns n)), id, (set_incoming l (l_incoming l ++ [(length (n_conns n), sideAcceptor)])).
  assert (forall X : list (listener connRef), n_heap (set_heap n2 X) = X) as Hh by done.
  assert (id < length (n_heap n))%nat as Hlen by (by eapply lookup_lt_Some).
  split; [done|]. split; [cbn; by rewrite list_lookup_insert_eq|]. split; [done|].
  split; [cbn; by rewrite last_app|]. split.
  - cbn [l_incoming set_incoming]. rewrite length_app. cbn. intros Hl. unfold listenerAccept. cbn [n_heap set_heap set_book].
    rewrite list_lookup_insert_eq by done. unfold Accept. cbn [l_incoming set_incoming l_closed].
    assert (l_incoming l = []) as -> by (destruct (l_incoming l); [done|cbn in Hl; lia]). cbn. by rewrite Hcl.
  - eapply (unused_exchange pair lk); [|apply dialPair_unused|by rewrite <- G1 in Hcalm|unfold isPartitioned; cbn [n_part set_heap]; rewrite G2, Hparts; by apply bool_decide_eq_false_2, not_elem_of_empty|done|done].
    cbn [n_conns set_heap]. unfold n2. rewrite F3. by apply list_lookup_middle.
Qed.

(** ** Dialers *)

(** A list of dialer options as [WithDialTimeout] makes them. *)
Definition timeouts (ds : list Duration) : list DialerOption :=
  map (fun d => Some (fun _ => mkDialerConfig d)) ds.

Lemma timeouts_last ds t :
  applyDialerOptions (timeouts ds) (mkDialerConfig t) = Ret (mkDialerConfig (default t (last ds))).
Proof.
  revert t. induction ds as [|d ds IH]; intros t; [done|]. cbn [timeouts map applyDialerOptions].
  change (map _ ds) with (timeouts ds). rewrite IH. do 2 f_equal.
  destruct ds as [|d' ds]; [done|]. change (last (d :: d' :: ds)) with (last (d' :: ds)).
  destruct (last (d' :: ds)) eqn:El; [done|]. by apply last_None in El.
Qed.

(** C37: the timeout of a dialer. [WithDialTimeout] refuses what is not positive,
    a nil option panics, and of several timeouts the last one counts, measured
    from each dial. A dial to a peer partitioned away waits; looked at before the
    timeout has passed, with no heal, it still waits, and from the very instant
    it has passed the dial fails with the deadline error, wrapped as any other
    dial error; without a timeout it waits for ever. *)
Theorem dialer_timeout pref now now' name b qa qb (ds : list Duration) n :
  peer_host name -> peer_host b -> 0 <= qa <= maxPort -> 0 <= qb <= maxPort -> Forall (fun d => 0 < d) ds ->
  isPartitioned (n_part n) (newPairKey name b) = true ->
  let target := withPort b qb in
  let timeout := default 0 (last ds) in
  let ctx := dialerContext (mkDialerConfig timeout) (withPort name qa) now in
  let req := mkDialRequest b qb (negb (qb =? 0)) None (Some name) in
  let ch := partNotify (n_part n) in
  (forall d f, WithDialTimeout d = Ret f <-> 0 < d /\ f = Some (fun _ => mkDialerConfig d)) /\
  (exists dial, DialerFor (withPort name qa) (timeouts ds) = Ret dial /\
     dial now "tcp" target n = Ret (DialBlocks req ch, n)) /\
  (forall opts, exists msg, DialerFor (Src := Src) (withPort name qa) (timeouts ds ++ None :: opts) = Panic msg) /\
  dialWake pref now' ctx "tcp" target req ch n =
    (if (0 <? timeout) && (now + timeout <=? now') then Ret (DialFails (dialOpError "tcp" target ContextDeadlineExceeded), n)
     else Ret (DialBlocks req ch, n)).
Proof.
  intros Hname Hb Hqa Hqb Hds Hpart target timeout ctx req ch.
  assert (0 <= timeout) as Ht.
  { unfold timeout. destruct (last ds) as [d|] eqn:El; [|done]. cbn. apply last_Some_elem_of in El.
    rewrite Forall_forall in Hds. specialize (Hds d El). lia. }
  assert (forall t, ctx_Err t ctx = if (0 <? timeout) && (now + timeout <=? t) then Some ContextDeadlineExceeded else None) as Herr.
  { intros t. unfold ctx, dialerContext. cbn [dc_timeout]. destruct (0 <? timeout); [|done]. cbn. unfold ctx_Err. cbn. unfold time_Add. done. }
  split; [|split; [|split]].
  - intros d f. unfold WithDialTimeout. destruct (Z.leb_spec d 0); [split; [done|lia]|]. split; [by intros [= <-]|by intros [_ ->]].
  - eexists. split; [unfold DialerFor; by rewrite timeouts_last|]. cbn beta.
    change (dialerContext _ _ now) with ctx. unfold DialContext, target.
    assert (ctx_Err now ctx = None) as Hnow.
    { rewrite Herr. destruct (Z.ltb_spec 0 timeout); [|done]. destruct (Z.leb_spec (now + timeout) now); [lia|done]. }
    rewrite (dialResolve_named now ctx "tcp" name b qa qb n Hnow eq_refl Hname Hb Hqa Hqb)
      by (unfold ctx, dialerContext; cbn; by destruct (0 <? timeout)).
    fold req. unfold dialCheck, checkPartition. cbn [dr_local dr_peer req]. unfold isPartitioned in Hpart. by rewrite Hpart.
  - intros opts. eexists. unfold DialerFor.
    assert (forall cfg, applyDialerOptions (timeouts ds ++ None :: opts) cfg = Panic "netchaos: DialerFor: nil DialerOption at index") as ->; [|done].
    clear. induction ds as [|d ds IH]; intros cfg; [done|]. apply IH.
  - unfold dialWake, waitSelect. rewrite Herr. unfold ch, woken. rewrite Nat.ltb_irrefl. by destruct (_ && _).
Qed.
End flows.
