(* ===== verification/NetworkExamples.v ===== *)
(** * Networks at work: concrete runs, the witnesses of the Network's properties,
    and the slot a mismatched dial loses *)
From S2P Require Import Prelude GoRuntime Errors Float64 Rand Partition Trace PipeState Faults FaultProps Pipe.
From S2P Require Import PipeInv Deadline Options Conn ConnProps ConnRace NetIP NetIPProps NetIP6 Addr Addressing.
From S2P Require Import Replay Directions Listener Network NetworkInv NetworkFrame NetworkListen NetworkDial NetworkFaults NetworkFlows.

#[local] Instance example_platform : Platform := false.
#[local] Instance example_fuel : RejectFuel := 3%nat.

(** The Network of a call that returned one. *)
Definition netOf (m : go (Network unit)) : Network unit :=
  match m with
  | Ret n => n
  | _ => mkNetwork 0 false noFaults (mkPartState ∅ 0%nat) emptyBook ∅ [] 0 listenPortBase 0 0 1 ∅ [] []
  end.

Definition stateOf {R} (m : go (R * Network unit)) : Network unit := netOf (r ← m; Ret (snd r)).

(** One slot of backlog; a server on port 80; one unnamed dial to it. *)
Definition ex_options : list optionValue := [OSeed 7; OBacklog 1].
Definition ex_new : Network unit := netOf (NewNetwork (map (fun o => Some (optionOf o)) ex_options)).
Definition ex_listening : Network unit := stateOf (Listen "tcp" "server:80" ex_new).
Definition ex_dialed : Network unit := stateOf (Dial 0 "tcp" "server:80" ex_listening).

Lemma ex_options_typed : Forall option_typed ex_options.
Proof. repeat constructor; cbn; unfold is_i64; lia. Qed.

Lemma ex_new_eq : NewNetwork (map (fun o => Some (optionOf o)) ex_options) = Ret ex_new.
Proof. vm_compute. reflexivity. Qed.

Lemma ex_new_ok : net_ok ex_new.
Proof. exact (NewNetwork_ok ex_options ex_new ex_options_typed ex_new_eq). Qed.

Lemma ex_listen_step : net_step ex_new ex_listening.
Proof. apply st_call, st_section, (st_listen ex_new "tcp" "server:80" (inl 0%nat)). vm_compute. reflexivity. Qed.

Lemma ex_listening_ok : net_ok ex_listening.
Proof. exact (net_step_ok _ _ ex_new_ok ex_listen_step). Qed.

Lemma ex_dial_eq : DialContext 0 Background "tcp" "server:80" ex_listening = Ret (Dialed (0%nat, sideDialer), ex_dialed).
Proof. vm_compute. reflexivity. Qed.

(** ** The lost slot *)

(** The dialer's own name is an IPv4 literal, the listener is an IPv6 one. *)
Definition ex_six : Network unit := stateOf (Listen "tcp6" "server:80" ex_new).
Definition ex_literal : context := WithPeerName Background "10.0.0.1".

(** A failed dial can cost an ordinal and a slot of the accept queue, for
    good. A dial by a peer named by an IPv4 literal to an IPv6 listener passes the
    reservation and takes an ordinal before its own address is looked at; then it
    fails, with no connection made, and the slot is never given back: with a
    backlog of one, the next dial, which nothing is wrong with, is refused with
    ErrBacklogFull although the queue is empty. *)
Theorem mismatched_dial_leaks_slot :
  match DialContext 0 ex_literal "tcp6" "server:80" ex_six with
  | Ret (DialFails err, n) =>
      err = dialOpError "tcp6" "server:80" (ErrorString "address family mismatch: 10.0.0.1") /\
      n_conns n = [] /\ n_nextOrdinal n = n_nextOrdinal ex_six + 1 /\
      map l_reserved (n_heap n) = [1] /\ map l_incoming (n_heap n) = [[]] /\
      match Dial 0 "tcp6" "server:80" n with
      | Ret (DialFails err, _) => err = dialOpError "tcp6" "server:80" ErrBacklogFull
      | _ => False
      end
  | _ => False
  end.
Proof. vm_compute. repeat split. Qed.

(** ** Witnesses *)

Lemma network_invariant_witness : net_ok ex_listening.
Proof. exact (network_invariant ex_options ex_new ex_listening ex_options_typed ex_new_eq (rtc_once _ _ ex_listen_step)). Defined.

Lemma ex_server : peer_host "server".
Proof. split; [repeat split; by apply contains_false|by split]. Qed.

Lemma ex_client : peer_host "client".
Proof. split; [repeat split; by apply contains_false|by split]. Qed.

(** The address is taken. *)
Lemma listen_named_witness :
  Listen "tcp" "server:80" ex_listening = Ret (inr (listenOpError "tcp" "server:80" ErrAddressInUse), ex_listening).
Proof.
  exact (listen_named "tcp" "server" 80 ex_listening ex_listening_ok eq_refl ex_server ltac:(unfold maxPort; lia)).
Defined.

Lemma listen_synthesizes_port_witness : exists r n', Listen "tcp" "server" ex_listening = Ret (r, n') /\ n_conns n' = n_conns ex_listening.
Proof.
  destruct (listen_synthesizes_port "tcp" "server" ex_listening ex_listening_ok eq_refl ex_server) as (r & n' & E & Hc & _).
  exists r, n'. exact (conj E Hc).
Defined.


Definition ex_req : dialRequest := mkDialRequest "server" 80 true None None.
Definition ex_listener : listener connRef := mkListener (mkAddr "tcp" "server" 80 (Some [198; 18; 0; 0])) [] 1 false 0.

Lemma ex_heap : n_heap ex_listening !! 0%nat = Some ex_listener.
Proof. vm_compute. reflexivity. Qed.

Lemma ex_established : exists n', established "tcp" ex_req 0 ex_listener ex_listening n'.
Proof. eexists. unfold established. eexists [198; 18; 0; 1], _. split; [vm_compute; reflexivity|]. reflexivity. Qed.



Lemma portless_lookup_witness :
  matchesAt ex_listening "tcp" (mkDialRequest "server" 0 false None None) 0 = true.
Proof.
  refine (proj1 (proj2 (proj1 (portless_lookup "tcp" "server" 0 None None (portIds ex_listening "server") ex_listening 0
    ex_listening_ok (Permutation_refl _)) _))).
  vm_compute. reflexivity.
Defined.

Lemma dial_refines_steps_witness : rtc net_step ex_listening ex_dialed.
Proof.
  exact (proj1 (dial_refines_steps 0 Background "tcp" "server:80" ex_listening _ ex_dialed ex_listening_ok eq_refl ex_dial_eq)).
Defined.

Lemma ex_dialed_ok : net_ok ex_dialed.
Proof.
  eapply net_run_ok; [exact ex_listening_ok|].
  exact (proj1 (DialContext_run _ _ _ _ _ _ _ ex_listening_ok eq_refl ex_dial_eq)).
Qed.

Lemma partition_blocks_dials_witness :
  exists n1, Partition "client:0" "server:80" ex_listening = Ret n1 /\
    DialContext 0 (WithPeerName Background "client:1") "tcp" "server:80" n1 =
      Ret (DialBlocks (mkDialRequest "server" 80 true None (Some "client"%string)) (partNotify (n_part n1)), n1).
Proof.
  destruct (partition_blocks_dials true 0 0 (WithPeerName Background "client:1") "tcp" "client" "server" 0 80 1 80 2 3 ex_listening
    ex_client ex_server ltac:(discriminate) eq_refl ltac:(repeat constructor; unfold maxPort; lia) eq_refl eq_refl)
    as (n1 & n2 & [E1 _] & _ & E2 & _).
  exists n1. exact (conj E1 E2).
Defined.

Lemma self_partition_accepted_witness :
  exists n', Partition "server" "server:80" ex_listening = Ret n' /\ isPartitioned (n_part n') (newPairKey "server" "server") = true.
Proof. exact (proj1 (self_partition_accepted "server" 80 ex_listening ex_server ltac:(unfold maxPort; lia))). Defined.

(** The dialer of [ex_dialed] is the peer "ephemeral-0". *)
Definition ex_reset : Network unit := netOf (Reset "server" "ephemeral-0" ex_dialed).

Lemma ex_reset_eq : Reset "server" "ephemeral-0" ex_dialed = Ret ex_reset.
Proof. vm_compute. reflexivity. Qed.

Lemma reset_exact_witness :
  exists k n1, resolvePair "server" "ephemeral-0" ex_dialed = (k, n1) /\ targets (n_resetTargets ex_reset) k = [].
Proof.
  destruct (reset_exact "server" "ephemeral-0" ex_dialed ex_reset ex_dialed_ok ex_reset_eq) as (k & n1 & E & _ & _ & Ht).
  exists k, n1. split; [exact E|]. specialize (Ht k). rewrite decide_True in Ht by reflexivity. exact Ht.
Defined.

Definition ex_queued : listener connRef := mkListener (mkAddr "tcp" "server" 80 (Some [198; 18; 0; 0])) [(0%nat, sideAcceptor)] 1 false 0.


Lemma closed_pairs_stay_registered_witness :
  exists name peer, is_Some (n_resetTargets (connClose (0%nat, sideAcceptor) (connClose (0%nat, sideDialer) ex_dialed)) !! newPairKey name peer).
Proof.
  destruct (closed_pairs_stay_registered 0 Background "tcp" "server:80" (0%nat, sideDialer) ex_listening ex_dialed
    ex_listening_ok ex_dial_eq) as (_ & _ & name & peer & Hk & _).
  exists name, peer. exact Hk.
Defined.

Lemma write_never_panics_witness :
  exists r n', connWrite 0 (0%nat, sideDialer) [1; 2; 3] ex_dialed = Ret (r, n') /\ (r = None <-> n_conns ex_dialed !! 0%nat = None).
Proof.
  apply (write_never_panics 0 (0%nat, sideDialer) [1; 2; 3] ex_dialed ex_dialed_ok); [reflexivity|].
  intros s. apply max_source_accepting.
Defined.

Lemma dial_write_accept_read_witness :
  exists n2 n3, connWrite 0 (0%nat, sideAcceptor) [7; 8; 9] ex_dialed = Ret (Some (Return 3 None), n2) /\
    connRead 0 (0%nat, sideDialer) 2 n2 = (Some (Return [7; 8] None), n3).
Proof.
  destruct (dial_write_accept_read 0 Background "tcp" "server:80" ex_listening (0%nat, sideDialer) ex_dialed sideAcceptor
    [7; 8; 9] 2 0 0 true ex_listening_ok ltac:(repeat split) eq_refl ltac:(discriminate) ltac:(lia) ex_dial_eq)
    as (i & id & l & [= <-] & _ & _ & _ & _ & H1). exact H1.
Defined.

Definition ex_partitioned : Network unit := netOf (Partition "client" "server" ex_listening).

Lemma dialer_timeout_witness :
  dialWake true 20 (dialerContext (mkDialerConfig 10) "client" 10) "tcp" "server:80"
    (mkDialRequest "server" 80 true None (Some "client")) (partNotify (n_part ex_partitioned)) ex_partitioned =
  Ret (DialFails (dialOpError "tcp" "server:80" ContextDeadlineExceeded), ex_partitioned).
Proof.
  exact (proj2 (proj2 (proj2 (dialer_timeout true 10 20 "client" "server" 0 80 [3; 10] ex_partitioned ex_client ex_server
    ltac:(unfold maxPort; lia) ltac:(unfold maxPort; lia) ltac:(repeat constructor) ltac:(vm_compute; reflexivity))))).
Defined.
