(* ===== verification/DialThreads.v ===== *)
(** * Dials as threads

    A [DialContext] in progress is a thread that stands before one of its locked
    sections; [threadStep] runs that section. A system is a Network and the dials
    made in it, in any interleaving with one another and with every other call. *)
From S2P Require Import Prelude GoRuntime Errors Float64 Rand Partition Trace PipeState Faults FaultProps Pipe.
From S2P Require Import PipeInv Deadline Options Conn ConnProps ConnRace NetIP NetIPProps NetIP6 Addr Addressing.
From S2P Require Import Replay Directions Listener Network NetworkInv NetworkFrame.

(** Where a dial is, with its local variables. *)
Inductive dialPC : Type :=
| Resolving
| Checking (req : dialRequest)
| Waiting (req : dialRequest) (ch : generation)
| Looking (req : dialRequest)
| Reserving (req : dialRequest) (id : nat)
| Numbering (req : dialRequest) (id : nat)
| Addressing (req : dialRequest) (id : nat) (ordinal : Z)
| Publishing (req : dialRequest) (id : nat) (ordinal : Z) (localIP : list Z)
| Tracing (side : connSide) (id i : nat) (ordinal : Z)
| HandingOff (id i : nat)
| Sending (id i : nat)                              (** blocked on a full channel *)
| ClosingOff (i : nat)
| Connected (i : nat)
| Failed (err : goerror)
| FailedHolding (id : nat) (ordinal : Z) (err : goerror).   (** with a slot and an ordinal spent *)

Record dialThread : Type := mkDialThread {
  dt_ctx : context;
  dt_network : string;
  dt_addr : string;
  dt_pc : dialPC
}.

Definition set_pc (d : dialThread) (pc : dialPC) : dialThread := mkDialThread (dt_ctx d) (dt_network d) (dt_addr d) pc.

Definition startDial (ctx : context) (network dialAddr : string) : dialThread := mkDialThread ctx network dialAddr Resolving.

Section threads.
Context {Src : Type} `{!DrawSource Src} `{!RejectFuel} `{!Platform}.
Implicit Types (n : Network Src) (lk : link Src) (d : dialThread) (ts rest : list dialThread) (pc : dialPC).

(** The name a dial goes by. *)
Definition dialName (req : dialRequest) (ordinal : Z) : string :=
  match dr_local req with Some name => name | None => ephemeralPeerName ordinal end.

(** The connection, built and entered for Reset. *)
Definition publish (pair : pairKey) lk n : Network Src :=
  let i := length (n_conns n) in
  registerReset pair [(i, sideDialer); (i, sideAcceptor)] (set_conns n (n_conns n ++ [lk])).

(** One locked section of a dial. [pick] is the order in which the map of a
    peer's listeners is ranged over. *)
Definition threadStep (preferHeal : bool) (pick : list nat -> list nat) (now : Time) (d : dialThread) n :
    go (dialThread * Network Src) :=
  let fail err := set_pc d (Failed (dialOpError (dt_network d) (dt_addr d) err)) in
  match dt_pc d with
  | Resolving =>
      match dialResolve now (dt_ctx d) (dt_network d) (dt_addr d) n with
      | (inl req, n) => Ret (set_pc d (Checking req), n)
      | (inr err, n) => Ret (fail err, n)
      end
  | Checking req =>
      match dr_local req with
      | Some name =>
          let '(partitioned, ch) := checkPartition (n_part n) (newPairKey name (dr_peer req)) in
          Ret (set_pc d (if partitioned then Waiting req ch else Looking req), n)
      | None => Ret (set_pc d (Looking req), n)
      end
  | Waiting req ch =>
      match waitSelect preferHeal now (dt_ctx d) ch n with
      | SelectFails err => Ret (fail err, n)
      | SelectAgain => Ret (set_pc d (Checking req), n)
      | SelectBlocks => Ret (d, n)
      end
  | Looking req =>
      match lookupListener (dt_network d) req (pick (portIds n (dr_peer req))) n with
      | Some id => Ret (set_pc d (Reserving req id), n)
      | None => Ret (fail ErrConnectionRefused, n)
      end
  | Reserving req id =>
      l ← deref (n_heap n !! id);
      let '(err, l) := reserve l in
      match err with
      | Some err => Ret (fail err, n)
      | None => Ret (set_pc d (Numbering req id), set_heap n (<[id := l]> (n_heap n)))
      end
  | Numbering req id =>
      Ret (set_pc d (Addressing req id (n_nextOrdinal n)), set_nextOrdinal n (u64 (n_nextOrdinal n + 1)))
  | Addressing req id ordinal =>
      l ← deref (n_heap n !! id);
      r ← peerIPLocked (dialName req ordinal) (addressFamily (addr_network (l_addr l)) (addr_peer (l_addr l))) (n_book n);
      let '(r, book) := r in
      match r with
      | inl localIP => Ret (set_pc d (Publishing req id ordinal localIP), set_book n book)
      | inr err => Ret (set_pc d (FailedHolding id ordinal (dialOpError (dt_network d) (dt_addr d) err)), set_book n book)
      end
  | Publishing req id ordinal localIP =>
      l ← deref (n_heap n !! id);
      let local := mkAddr (dt_network d) (dialName req ordinal) (ephemeralPort ordinal) (Some localIP) in
      let remote := mkAddr (dt_network d) (dr_peer req) (addr_port (l_addr l)) (addr_ip (l_addr l)) in
      let pair := newPairKey (dialName req ordinal) (dr_peer req) in
      let i := length (n_conns n) in
      Ret (set_pc d (if n_traceEnabled n then Tracing sideDialer id i ordinal else HandingOff id i),
           publish pair (dialPair local remote ordinal (dt_network d) pair n) n)
  | Tracing side id i ordinal =>
      Ret (set_pc d (match side with sideDialer => Tracing sideAcceptor id i ordinal | sideAcceptor => HandingOff id i end),
           set_traces n (registerTrace ordinal side (recorderId i side) (n_traces n)))
  | HandingOff id i =>
      l ← deref (n_heap n !! id);
      let '(f, l) := fill (i, sideAcceptor) l in
      Ret (set_pc d (match f with Filled => Connected i | FillCloses => ClosingOff i | FillBlocks => Sending id i end),
           set_heap n (<[id := l]> (n_heap n)))
  | ClosingOff i => Ret (set_pc d (Connected i), connClose (i, sideAcceptor) n)
  | Sending _ _ | Connected _ | Failed _ | FailedHolding _ _ _ => Ret (d, n)
  end.

(** The dial has returned, or blocks. *)
Definition halted (pc : dialPC) : bool :=
  match pc with Waiting _ _ | Sending _ _ | Connected _ | Failed _ | FailedHolding _ _ _ => true | _ => false end.

(** A dial with nothing in between. *)
Fixpoint threadRun (k : nat) (now : Time) (d : dialThread) n : go (dialThread * Network Src) :=
  match k with
  | O => Ret (d, n)
  | S k =>
      if halted (dt_pc d) then Ret (d, n)
      else r ← threadStep true id now d n; let '(d, n) := r in threadRun k now d n
  end.

Definition pcResult (pc : dialPC) : option dialResult :=
  match pc with
  | Connected i => Some (Dialed (i, sideDialer))
  | Failed err | FailedHolding _ _ err => Some (DialFails err)
  | Waiting req ch => Some (DialBlocks req ch)
  | _ => None
  end.

(** ** Systems *)

Inductive sys_step : Network Src * list dialThread -> Network Src * list dialThread -> Prop :=
| sy_call n ts n' : call_step n n' -> sys_step (n, ts) (n', ts)
| sy_dial n ts ctx network a : sys_step (n, ts) (n, ts ++ [startDial ctx network a])
| sy_thread n ts j d pref pick now d' n' :
    ts !! j = Some d -> (forall l, pick l ≡ₚ l) -> n_nextOrdinal n + 1 < 2 ^ 64 ->
    threadStep pref pick now d n = Ret (d', n') -> sys_step (n, ts) (n', <[j := d']> ts).

(** *** What a dial holds *)

Definition pc_req (pc : dialPC) : option dialRequest :=
  match pc with
  | Checking req | Waiting req _ | Looking req | Reserving req _ | Numbering req _ | Addressing req _ _ | Publishing req _ _ _ => Some req
  | _ => None
  end.

(** The listener it works with. *)
Definition pc_listener (pc : dialPC) : option nat :=
  match pc with
  | Reserving _ id | Numbering _ id | Addressing _ id _ | Publishing _ id _ _ | Tracing _ id _ _ | HandingOff id _ | FailedHolding id _ _ => Some id
  | _ => None
  end.

(** The listener it holds a slot of. *)
Definition pc_slot (pc : dialPC) : option nat :=
  match pc with Reserving _ _ => None | _ => pc_listener pc end.

(** The ordinal it holds, one that no connection has. *)
Definition pc_ordinal (pc : dialPC) : option Z :=
  match pc with Addressing _ _ o | Publishing _ _ o _ | FailedHolding _ o _ => Some o | _ => None end.

(** The connection it made. *)
Definition pc_conn (pc : dialPC) : option nat :=
  match pc with Tracing _ _ i _ | HandingOff _ i | Sending _ i | ClosingOff i | Connected i => Some i | _ => None end.

(** The direction of connection [i] it has yet to register for Trace. *)
Definition owes (i : nat) (s : connSide) (pc : dialPC) : Prop :=
  match pc with
  | Tracing sideDialer _ j _ => j = i
  | Tracing sideAcceptor _ j _ => j = i /\ s = sideAcceptor
  | _ => False
  end.

Definition slots (ts : list dialThread) : list nat := omap (fun d => pc_slot (dt_pc d)) ts.
Definition held_ordinals (ts : list dialThread) : list Z := omap (fun d => pc_ordinal (dt_pc d)) ts.
Definition made_conns (ts : list dialThread) : list nat := omap (fun d => pc_conn (dt_pc d)) ts.

(** The slots held at listener [id]. *)
Definition slots_at (id : nat) (ts : list dialThread) : Z := zlen (filter (fun j => j = id) (slots ts)).

Record threads_ok n ts : Prop := {
  tk_req : forall d req, d ∈ ts -> pc_req (dt_pc d) = Some req -> req_ok n req;
  tk_listener : forall d id, d ∈ ts -> pc_listener (dt_pc d) = Some id -> is_Some (n_heap n !! id);
  tk_slots : forall id l, n_heap n !! id = Some l -> l_reserved l = slots_at id ts;
  tk_ordinals : NoDup (held_ordinals ts) /\
    (forall o, o ∈ held_ordinals ts -> 0 <= o < n_nextOrdinal n /\
       forall i lk, n_conns n !! i = Some lk -> c_ordinal (lk_client lk) <> o);
  tk_count : n_nextOrdinal n = zlen (n_conns n) + zlen (held_ordinals ts);
  tk_conns : NoDup (made_conns ts) /\ (forall i, i ∈ made_conns ts <-> (i < length (n_conns n))%nat);
  tk_tracing : forall d s id i o, d ∈ ts -> dt_pc d = Tracing s id i o ->
    n_traceEnabled n = true /\ exists lk, n_conns n !! i = Some lk /\ c_ordinal (lk_client lk) = o;
  tk_traces : n_traceEnabled n = true -> forall i lk s, n_conns n !! i = Some lk ->
    (handleOf i lk s ∈ n_traces n <-> forall d, d ∈ ts -> ~ owes i s (dt_pc d));
  tk_sending : forall d id i, d ∈ ts -> dt_pc d <> Sending id i
}.

(** With [P] of the calls in progress yet to do. *)
Record sys_okP (P : pending) (sys : Network Src * list dialThread) : Prop := {
  so_net : net_okP P (fst sys);
  so_threads : threads_ok (fst sys) (snd sys)
}.

(** ** The invariant of the threads *)

Lemma update_perm {A} (l : list A) (j : nat) x y :
  l !! j = Some x -> exists l', l ≡ₚ x :: l' /\ <[j := y]> l ≡ₚ y :: l'.
Proof.
  intros Hj. exists (take j l ++ drop (S j) l). split.
  - rewrite <- (take_drop_middle l j x Hj) at 1. by rewrite Permutation_middle.
  - rewrite insert_take_drop by (by eapply lookup_lt_Some). by rewrite Permutation_middle.
Qed.

Lemma threads_perm n ts ts' : ts ≡ₚ ts' -> threads_ok n ts -> threads_ok n ts'.
Proof.
  intros Hp [A1 A2 A3 A4 A5 A6 A7 A8 A9].
  assert (slots ts ≡ₚ slots ts' /\ held_ordinals ts ≡ₚ held_ordinals ts' /\ made_conns ts ≡ₚ made_conns ts') as (P1 & P2 & P3).
  { unfold slots, held_ordinals, made_conns. by rewrite Hp. }
  split.
  - intros d req Hd. apply A1. by rewrite Hp.
  - intros d id Hd. apply A2. by rewrite Hp.
  - intros id l Hi. rewrite (A3 id l Hi). unfold slots_at, zlen. by rewrite P1.
  - rewrite <- P2. split; [apply A4|]. intros o. rewrite <- P2. apply A4.
  - unfold zlen. rewrite <- P2. exact A5.
  - rewrite <- P3. split; [apply A6|]. intros i. rewrite <- P3. apply A6.
  - intros d s id i o Hd. eapply A7. by rewrite Hp.
  - intros He i lk s Hi. rewrite (A8 He i lk s Hi). split; intros Hn d Hd; apply Hn; by rewrite Hp in *.
  - intros d id i Hd. apply A9. by rewrite Hp.
Qed.

Lemma zlen_same_conns (conns conns' : list (link Src)) : same_conns conns conns' -> length conns' = length conns.
Proof.
  intros Hs. apply Nat.le_antisymm; apply Nat.nlt_ge; intros Hlt; apply lookup_lt_is_Some in Hlt as [lk E];
    specialize (Hs (length conns)) as H1; specialize (Hs (length conns')) as H2.
  - rewrite E, (proj2 (lookup_ge_None conns _)) in H1 by lia. inversion H1.
  - rewrite E, (proj2 (lookup_ge_None conns' _)) in H2 by lia. inversion H2.
Qed.

(** What calls leave alone is all the threads depend on. *)
Lemma threads_frame n n' ts : (forall d id, d ∈ ts -> pc_slot (dt_pc d) = Some id -> is_Some (n_heap n !! id)) ->
  call_frame n n' -> threads_ok n ts -> threads_ok n' ts.
Proof.
  intros Hin [B1 B2 B3 (B4 & _) B5 [B6 B7]] [A1 A2 A3 A4 A5 A6 A7 A8 A9]. pose proof (zlen_same_conns _ _ B5) as Hlen.
  assert (forall i lk', n_conns n' !! i = Some lk' ->
    exists lk, n_conns n !! i = Some lk /\ c_ordinal (lk_client lk) = c_ordinal (lk_client lk')) as Hback.
  { intros i lk' Hi. specialize (B5 i). rewrite Hi in B5. inversion B5 as [lk lk0 E E1 E2|]; subst. exists lk. split; [done|].
    specialize (E sideDialer). apply conn_id_ordinal in E. cbn in E. by rewrite E. }
  split.
  - intros d req Hd Hr. specialize (A1 d req Hd Hr). unfold req_ok in *. destruct (dr_local req); [|done].
    eapply settled_le; [apply B1|done].
  - intros d id Hd Hl. destruct (A2 d id Hd Hl) as [l Hi]. destruct (B6 id l Hi) as (l' & Hi' & _). by exists l'.
  - intros id l' Hi'. destruct (n_heap n !! id) as [l|] eqn:Hi.
    + destruct (B6 id l Hi) as (l1 & Hi1 & Hr & _). assert (l1 = l') as -> by congruence. rewrite Hr. by apply A3.
    + rewrite (B7 id l' Hi Hi'). unfold slots_at. symmetry.
      assert (filter (fun j => j = id) (slots ts) = []) as ->; [|done].
      destruct (filter _ (slots ts)) as [|x xs] eqn:Ef; [done|]. exfalso.
      assert (x ∈ filter (fun j => j = id) (slots ts)) as Hx by (rewrite Ef; by left).
      apply list_elem_of_filter in Hx as [-> Hx]. unfold slots in Hx. apply list_elem_of_omap in Hx as (d & Hd & Hs).
      destruct (Hin d id Hd Hs) as [l E]. congruence.
  - rewrite B2. split; [apply A4|]. intros o Ho. destruct (proj2 A4 o Ho) as [H1 H2]. split; [done|].
    intros i lk' Hi. destruct (Hback i lk' Hi) as (lk & Hi0 & E). rewrite <- E. by eapply H2.
  - rewrite B2, A5. unfold zlen. by rewrite Hlen.
  - rewrite Hlen. exact A6.
  - intros d s id i o Hd E. rewrite B4. destruct (A7 d s id i o Hd E) as (H1 & lk & Hi & Ho). split; [done|].
    specialize (B5 i). rewrite Hi in B5. inversion B5 as [lk0 lk' E0 E1 E2|]; subst. exists lk'. split; [done|].
    specialize (E0 sideDialer). apply conn_id_ordinal in E0. cbn in E0. by rewrite E0.
  - rewrite B4, B3. intros He i lk' s Hi. destruct (Hback i lk' Hi) as (lk & Hi0 & E).
    rewrite <- (A8 He i lk s Hi0). unfold handleOf. by rewrite E.
  - exact A9.
Qed.

Lemma pc_slot_listener pc id : pc_slot pc = Some id -> pc_listener pc = Some id.
Proof. by destruct pc. Qed.

Lemma threads_call n n' ts : call_frame n n' -> threads_ok n ts -> threads_ok n' ts.
Proof.
  intros Hf Hok. eapply threads_frame; [|done|done]. intros d id Hd Hs. eapply (tk_listener _ _ Hok); [done|]. by apply pc_slot_listener.
Qed.

(** One thread and the others. *)
Lemma slots_at_cons id d rest :
  slots_at id (d :: rest) = (if decide (pc_slot (dt_pc d) = Some id) then 1 else 0) + slots_at id rest.
Proof.
  unfold slots_at, slots. cbn [omap list_omap]. destruct (pc_slot (dt_pc d)) as [j|]; [|done]. rewrite filter_cons.
  destruct (decide (j = id)) as [->|Hne].
  - rewrite decide_True, zlen_cons by done. done.
  - rewrite decide_False by (intros [= ->]; done). done.
Qed.

Lemma held_cons d rest : held_ordinals (d :: rest) = option_list (pc_ordinal (dt_pc d)) ++ held_ordinals rest.
Proof. unfold held_ordinals. cbn [omap list_omap]. by destruct (pc_ordinal (dt_pc d)). Qed.

Lemma made_cons d rest : made_conns (d :: rest) = option_list (pc_conn (dt_pc d)) ++ made_conns rest.
Proof. unfold made_conns. cbn [omap list_omap]. by destruct (pc_conn (dt_pc d)). Qed.

(** The thread [d'] in the place of [d], the Network unchanged. *)
Record same_place n (pc pc' : dialPC) : Prop := {
  sp_slot : pc_slot pc' = pc_slot pc;
  sp_ordinal : pc_ordinal pc' = pc_ordinal pc;
  sp_conn : pc_conn pc' = pc_conn pc;
  sp_req : forall req, pc_req pc' = Some req -> req_ok n req;
  sp_listener : forall id, pc_listener pc' = Some id -> is_Some (n_heap n !! id);
  sp_owes : forall i s, ~ owes i s pc /\ ~ owes i s pc';
  sp_sending : forall id i, pc' <> Sending id i
}.

Lemma threads_place n d d' rest :
  same_place n (dt_pc d) (dt_pc d') -> threads_ok n (d :: rest) -> threads_ok n (d' :: rest).
Proof.
  intros [E1 E2 E3 Hreq Hlis Howes Hsend] [A1 A2 A3 A4 A5 A6 A7 A8 A9]. split.
  - intros d0 req [->|Hd]%elem_of_cons; [apply Hreq|]. apply A1. by right.
  - intros d0 id [->|Hd]%elem_of_cons; [apply Hlis|]. apply A2. by right.
  - intros id l Hi. rewrite (A3 id l Hi), !slots_at_cons. by rewrite E1.
  - rewrite held_cons, E2, <- held_cons. exact A4.
  - rewrite held_cons, E2, <- held_cons. exact A5.
  - rewrite made_cons, E3, <- made_cons. exact A6.
  - intros d0 s id i o [->|Hd]%elem_of_cons E; [|eapply A7; [by right|done]].
    exfalso. apply (proj2 (Howes i sideAcceptor)). rewrite E. by destruct s.
  - intros He i lk s Hi. rewrite (A8 He i lk s Hi). destruct (Howes i s) as [H1 H2].
    split; intros Hn d0 [->|Hd]%elem_of_cons; try done; apply Hn; by right.
  - intros d0 id i [->|Hd]%elem_of_cons; [apply Hsend|]. apply A9. by right.
Qed.

(** *** Each locked section *)

(** Reserving a slot. *)
Lemma threads_reserve n d rest req id l :
  dt_pc d = Reserving req id -> n_heap n !! id = Some l -> threads_ok n (d :: rest) ->
  let n' := set_heap n (<[id := set_reserved l (l_reserved l + 1)]> (n_heap n)) in
  threads_ok n' (set_pc d (Numbering req id) :: rest).
Proof.
  intros Ed Hi [A1 A2 A3 A4 A5 A6 A7 A8 A9] n'. assert (id < length (n_heap n))%nat as Hlen by (by eapply lookup_lt_Some).
  rewrite held_cons, Ed in A4, A5. rewrite made_cons, Ed in A6. cbn in A4, A5, A6.
  assert (forall j, is_Some (n_heap n !! j) -> is_Some (n_heap n' !! j)) as Hheap.
  { intros j Hj. unfold n'. cbn. apply lookup_lt_is_Some. rewrite length_insert. by apply lookup_lt_is_Some. }
  split; rewrite ?held_cons, ?made_cons; cbn; try done.
  - intros d0 r [->|Hd]%elem_of_cons; cbn; [intros [= <-]; apply (A1 d); [by left|by rewrite Ed]|]. apply A1. by right.
  - intros d0 j [->|Hd]%elem_of_cons; cbn; [intros [= <-]; apply Hheap; eauto|]. intros Hj. apply Hheap. apply (A2 d0); [by right|done].
  - intros j l0 Hj. rewrite slots_at_cons. cbn. destruct (decide (id = j)) as [<-|Hne].
    + rewrite list_lookup_insert_eq in Hj by done. injection Hj as <-. cbn. rewrite decide_True by done.
      rewrite (A3 id l Hi), slots_at_cons, Ed. cbn. rewrite decide_False by done. lia.
    + rewrite list_lookup_insert_ne in Hj by done. rewrite decide_False by (intros [= ->]; done).
      rewrite (A3 j l0 Hj), slots_at_cons, Ed. cbn. by rewrite decide_False by done.
  - intros d0 s j i o [->|Hd]%elem_of_cons E; [done|]. eapply A7; [by right|done].
  - intros He i lk s Hl. rewrite (A8 He i lk s Hl). split; intros Hn d0 [->|Hd]%elem_of_cons; try (apply Hn; by right); [exact (fun x => x)|rewrite Ed; exact (fun x => x)].
  - intros d0 j i [->|Hd]%elem_of_cons; [done|]. apply A9. by right.
Qed.

(** Taking an ordinal. *)
Lemma threads_number n d rest req id :
  0 <= n_nextOrdinal n -> ordinals_ok (n_conns n) (n_nextOrdinal n) -> dt_pc d = Numbering req id -> threads_ok n (d :: rest) ->
  threads_ok (set_nextOrdinal n (n_nextOrdinal n + 1)) (set_pc d (Addressing req id (n_nextOrdinal n)) :: rest).
Proof.
  intros Hn (_ & Hall & _) Ed [A1 A2 A3 A4 A5 A6 A7 A8 A9].
  rewrite held_cons, Ed in A4, A5. rewrite made_cons, Ed in A6. cbn in A4, A5, A6.
  split; rewrite ?held_cons, ?made_cons; cbn; try done.
  - intros d0 r [->|Hd]%elem_of_cons; cbn; [intros [= <-]; apply (A1 d); [by left|by rewrite Ed]|]. apply A1. by right.
  - intros d0 j [->|Hd]%elem_of_cons; cbn; [intros [= <-]; apply (A2 d); [by left|by rewrite Ed]|]. apply A2. by right.
  - intros j l Hj. rewrite (A3 j l Hj), !slots_at_cons, Ed. done.
  - split.
    + constructor; [|apply A4]. intros Ho. destruct (proj2 A4 _ Ho) as [? _]. lia.
    + intros o [->|Ho]%elem_of_cons.
      * split; [lia|]. intros i lk Hi. destruct (Hall i lk sideDialer Hi) as [_ ?]. lia.
      * destruct (proj2 A4 o Ho) as [? H2]. split; [lia|done].
  - rewrite zlen_cons. lia.
  - intros d0 s j i o [->|Hd]%elem_of_cons E; [done|]. eapply A7; [by right|done].
  - intros He i lk s Hl. rewrite (A8 He i lk s Hl). split; intros Hx d0 [->|Hd]%elem_of_cons; try (apply Hx; by right); [exact (fun x => x)|rewrite Ed; exact (fun x => x)].
  - intros d0 j i [->|Hd]%elem_of_cons; [done|]. apply A9. by right.
Qed.

(** Making the connection. *)
Lemma threads_publish n d rest req id o ip pair lk :
  dt_pc d = Publishing req id o ip -> c_ordinal (lk_client lk) = o -> traces_ok (n_traceEnabled n) (n_traces n) (n_conns n) ->
  threads_ok n (d :: rest) ->
  let i := length (n_conns n) in
  threads_ok (publish pair lk n) (set_pc d (if n_traceEnabled n then Tracing sideDialer id i o else HandingOff id i) :: rest).
Proof.
  intros Ed Eo Htr [A1 A2 A3 A4 A5 A6 A7 A8 A9] i.
  rewrite held_cons, Ed in A4, A5. rewrite made_cons, Ed in A6. cbn in A4, A5, A6.
  set (pc' := if n_traceEnabled n then _ else _).
  assert (pc_slot pc' = Some id /\ pc_listener pc' = Some id /\ pc_ordinal pc' = None /\ pc_conn pc' = Some i /\ pc_req pc' = None) as (P1 & P2 & P3 & P4 & P5)
    by (unfold pc'; by destruct (n_traceEnabled n)).
  destruct A4 as [Hnd Hord]. apply NoDup_cons in Hnd as [Hno Hnd].
  split; rewrite ?held_cons, ?made_cons; cbn.
  - intros d0 r [->|Hd]%elem_of_cons; cbn; [by rewrite P5|]. apply A1. by right.
  - intros d0 j [->|Hd]%elem_of_cons; cbn; [rewrite P2; intros [= <-]; apply (A2 d); [by left|by rewrite Ed]|]. apply A2. by right.
  - intros j l Hj. rewrite (A3 j l Hj), !slots_at_cons, Ed. cbn. by rewrite P1.
  - rewrite P3. cbn. split; [done|]. intros o' Ho. destruct (Hord o') as [H1 H2]; [by right|]. split; [done|].
    intros j lk0 [Hj|[_ Hj]]%lookup_app_Some; [by eapply H2|]. apply list_lookup_singleton_Some in Hj as [_ <-]. rewrite Eo. congruence.
  - rewrite P3. cbn. rewrite A5, zlen_cons, zlen_app, zlen_cons. unfold zlen at 4. cbn. lia.
  - rewrite P4. cbn. destruct A6 as [N1 N2]. split.
    + constructor; [|done]. intros Hi%N2. unfold i in Hi. lia.
    + intros j. rewrite elem_of_cons, N2, length_app. cbn. unfold i. lia.
  - intros d0 s j k o' [->|Hd]%elem_of_cons E.
    + cbn in E. unfold pc' in E. destruct (n_traceEnabled n); [|done]. injection E as <- <- <- <-. split; [done|].
      exists lk. by rewrite list_lookup_middle.
    + destruct (A7 d0 s j k o') as (H1 & lk0 & Hk & Ho); [by right|done|]. split; [done|]. exists lk0. split; [by apply lookup_app_l_Some|done].
  - intros He j lk0 s Hj.
    assert (forall d0, d0 ∈ rest -> ~ owes i s (dt_pc d0)) as Hnot.
    { intros d0 Hd Ho. destruct (dt_pc d0) as [| | | | | | | |s0 j0 i0 o0| | | | | |] eqn:E0; try done.
      destruct (A7 d0 s0 j0 i0 o0) as (_ & lk1 & Hk & _); [by right|done|]. apply lookup_lt_Some in Hk.
      destruct s0; cbn in Ho; [|destruct Ho as [Ho _]]; unfold i in Ho; lia. }
    apply lookup_app_Some in Hj as [Hj|[Hge Hj]].
    + rewrite (A8 He j lk0 s Hj). apply lookup_lt_Some in Hj. split; intros Hx d0 [->|Hd]%elem_of_cons; try (apply Hx; by right).
      * cbn. unfold pc'. rewrite He. cbn. unfold i. lia.
      * rewrite Ed. exact (fun x => x).
    + apply list_lookup_singleton_Some in Hj as [Hz <-]. assert (j = i) as -> by (unfold i; lia). split.
      * intros Hin. exfalso. destruct Htr as (_ & _ & H3). destruct (H3 _ Hin) as (k & lk1 & Hk & E).
        apply (f_equal th_rec) in E. apply lookup_lt_Some in Hk. cbn in E. unfold i in E. destruct s; cbn in E; lia.
      * intros Hx. exfalso. apply (Hx (set_pc d pc')); [by left|]. cbn. unfold pc'. by rewrite He.
  - intros d0 j k [->|Hd]%elem_of_cons; [cbn; unfold pc'; by destruct (n_traceEnabled n)|]. apply A9. by right.
Qed.

(** Registering a direction. *)
Lemma threads_trace n d rest s id i o :
  traces_ok true (n_traces n) (n_conns n) -> ordinals_ok (n_conns n) (n_nextOrdinal n) ->
  dt_pc d = Tracing s id i o -> threads_ok n (d :: rest) ->
  traces_ok true (registerTrace o s (recorderId i s) (n_traces n)) (n_conns n) /\
  threads_ok (set_traces n (registerTrace o s (recorderId i s) (n_traces n)))
    (set_pc d (match s with sideDialer => Tracing sideAcceptor id i o | sideAcceptor => HandingOff id i end) :: rest).
Proof.
  intros Htr Hord Ed [A1 A2 A3 A4 A5 A6 A7 A8 A9].
  rewrite held_cons, Ed in A4, A5. rewrite made_cons, Ed in A6. cbn in A4, A5, A6.
  destruct (A7 d s id i o ltac:(by left) Ed) as (He & lk & Hi & Eo). destruct A6 as [N1 N2]. apply NoDup_cons in N1 as [Ni N1].
  assert (forall j s' d0, d0 ∈ rest -> owes j s' (dt_pc d0) -> j <> i) as Hother.
  { intros j s' d0 Hd Ho ->. apply Ni. apply list_elem_of_omap. exists d0. split; [done|].
    destruct (dt_pc d0) as [| | | | | | | |s0 j0 i0 o0| | | | | |]; try done. cbn. f_equal. by destruct s0; [|destruct Ho]. }
  assert (mkTraceHandle o s (recorderId i s) = handleOf i lk s) as Eh by (unfold handleOf; by rewrite Eo).
  unfold registerTrace. rewrite Eh.
  assert (handleOf i lk s ∉ n_traces n) as Hnew.
  { intros Hin. apply (proj1 (A8 He i lk s Hi) Hin d); [by left|]. rewrite Ed. by destruct s. }
  split; [by eapply traces_register|].
  set (pc' := match s with sideDialer => _ | sideAcceptor => _ end).
  assert (pc_slot pc' = Some id /\ pc_listener pc' = Some id /\ pc_ordinal pc' = None /\ pc_conn pc' = Some i /\ pc_req pc' = None) as (P1 & P2 & P3 & P4 & P5)
    by (unfold pc'; by destruct s).
  split; rewrite ?held_cons, ?made_cons; cbn; rewrite ?P3, ?P4; try done.
  - intros d0 r [->|Hd]%elem_of_cons; cbn; [by rewrite P5|]. apply A1. by right.
  - intros d0 j [->|Hd]%elem_of_cons; cbn; [rewrite P2; intros [= <-]; apply (A2 d); [by left|by rewrite Ed]|]. apply A2. by right.
  - intros j l Hj. rewrite (A3 j l Hj), !slots_at_cons, Ed. cbn. by rewrite P1.
  - split; [by constructor|done].
  - intros d0 s' j k o' [->|Hd]%elem_of_cons E; [|eapply A7; [by right|done]].
    cbn in E. unfold pc' in E. destruct s; [|done]. injection E as <- <- <- <-. eauto.
  - intros _ j lk0 s' Hj. rewrite elem_of_app, list_elem_of_singleton, (A8 He j lk0 s' Hj). split.
    + intros [Hx|E] d0 [->|Hd]%elem_of_cons.
      * cbn. unfold pc'. destruct s; [|exact (fun x => x)]. intros [<- ->]. apply (Hx d); [by left|]. rewrite Ed. reflexivity.
      * apply Hx. by right.
      * cbn. unfold pc'. unfold handleOf in E. injection E as _ <- _. destruct s'; [|exact (fun x => x)]. by intros [_ ?].
      * intros Ho. apply (Hother j s' d0 Hd Ho). destruct Hord as (_ & _ & Hinj). unfold handleOf in E. injection E as E1 _ _. by eapply Hinj.
    + intros Hx. destruct (decide (j = i /\ s' = s)) as [[-> ->]|Hne].
      { right. congruence. }
      left. intros d0 [->|Hd]%elem_of_cons; [|apply Hx; by right]. rewrite Ed. intros Ho.
      destruct s; cbn in Ho; [|destruct Ho as [-> ->]; by apply Hne]. subst j.
      destruct s'; [by apply Hne|]. apply (Hx (set_pc d pc')); [by left|]. cbn. done.
  - intros d0 j k [->|Hd]%elem_of_cons; [cbn; unfold pc'; by destruct s|]. apply A9. by right.
Qed.

(** Giving the slot back. *)
Lemma threads_fill n d rest id i l l' pc' :
  dt_pc d = HandingOff id i -> n_heap n !! id = Some l -> l_reserved l' = l_reserved l - 1 -> pc' = Connected i \/ pc' = ClosingOff i ->
  threads_ok n (d :: rest) -> threads_ok (set_heap n (<[id := l']> (n_heap n))) (set_pc d pc' :: rest).
Proof.
  intros Ed Hi Er Hpc [A1 A2 A3 A4 A5 A6 A7 A8 A9]. assert (id < length (n_heap n))%nat as Hlen by (by eapply lookup_lt_Some).
  rewrite held_cons, Ed in A4, A5. rewrite made_cons, Ed in A6. cbn in A4, A5, A6.
  assert (pc_slot pc' = None /\ pc_listener pc' = None /\ pc_ordinal pc' = None /\ pc_conn pc' = Some i /\ pc_req pc' = None /\
    (forall j s, ~ owes j s pc') /\ forall s j k o, pc' <> Tracing s j k o) as (P1 & P2 & P3 & P4 & P5 & P6 & P7)
    by (destruct Hpc as [->| ->]; (split_and!; [done..| |done]; intros j s; exact (fun x => x))).
  split; rewrite ?held_cons, ?made_cons; cbn; rewrite ?P3, ?P4; try done.
  - intros d0 r [->|Hd]%elem_of_cons; cbn; [by rewrite P5|]. apply A1. by right.
  - intros d0 j [->|Hd]%elem_of_cons; cbn; [by rewrite P2|]. intros Hj. apply lookup_lt_is_Some. rewrite length_insert.
    apply lookup_lt_is_Some. apply (A2 d0); [by right|done].
  - intros j l0 Hj. rewrite slots_at_cons. cbn. rewrite P1, decide_False by done. destruct (decide (id = j)) as [<-|Hne].
    + rewrite list_lookup_insert_eq in Hj by done. injection Hj as <-.
      rewrite Er, (A3 id l Hi), slots_at_cons, Ed. cbn. rewrite decide_True by done. lia.
    + rewrite list_lookup_insert_ne in Hj by done. rewrite (A3 j l0 Hj), slots_at_cons, Ed. cbn.
      by rewrite decide_False by (intros [= ->]; done).
  - intros d0 s j k o [->|Hd]%elem_of_cons E; [by apply P7 in E|]. eapply A7; [by right|done].
  - intros He j lk s Hl. rewrite (A8 He j lk s Hl). split; intros Hn d0 [->|Hd]%elem_of_cons; try (apply Hn; by right); [apply P6|rewrite Ed; exact (fun x => x)].
  - intros d0 j k [->|Hd]%elem_of_cons; [by destruct Hpc as [->| ->]|]. apply A9. by right.
Qed.
End threads.

Arguments so_net {Src _ _ P}.
Arguments so_threads {Src _ _ P}.

(** With no call in progress. *)
Abbreviation sys_ok := (sys_okP no_pending).

(** The step of a dial whose place is known. *)
Ltac at_step E Ed := unfold threadStep in E; rewrite Ed in E.
