(* ===== verification/DialSystem.v ===== *)
(** * Any number of concurrent dials

    Every locked section of every dial keeps the invariant of its Network and the
    accounts of slots, ordinals, connections and trace handles; so does every
    other call; a dial alone is [DialContext]. *)
From S2P Require Import Prelude GoRuntime Errors Float64 Rand Partition Trace PipeState Faults FaultProps Pipe.
From S2P Require Import PipeInv Deadline Options Conn ConnProps ConnRace NetIP NetIPProps NetIP6 Addr Addressing.
From S2P Require Import Replay Directions Listener Network NetworkInv NetworkFrame NetworkListen NetworkDial DialThreads.

Section system.
Context {Src : Type} `{!DrawSource Src} `{!RejectFuel} `{!Platform}.
Implicit Types (n : Network Src) (lk : link Src) (d : dialThread) (ts rest : list dialThread) (pc : dialPC).
Context {P : pending}.
#[local] Abbreviation net_ok := (net_okP P).
#[local] Abbreviation sys_ok := (sys_okP P).

(** How far a dial is from returning, in sections of its own. *)
Definition pc_rank (pc : dialPC) : nat :=
  match pc with
  | Resolving => 11
  | Checking _ => 10
  | Looking _ => 9
  | Reserving _ _ => 8
  | Numbering _ _ => 7
  | Addressing _ _ _ => 6
  | Publishing _ _ _ _ => 5
  | Tracing sideDialer _ _ _ => 4
  | Tracing sideAcceptor _ _ _ => 3
  | HandingOff _ _ => 2
  | ClosingOff _ => 1
  | Waiting _ _ | Sending _ _ | Connected _ | Failed _ | FailedHolding _ _ _ => 0
  end.

(** ** The Network through each section *)

Lemma net_ok_number n : net_ok n -> n_nextOrdinal n + 1 < 2 ^ 64 -> net_ok (set_nextOrdinal n (n_nextOrdinal n + 1)).
Proof. intros [] Hlt. split; try done. by apply ordinals_next. Qed.

Lemma net_ok_traces n traces : net_ok n -> traces_ok (n_traceEnabled n) traces (n_conns n) -> net_ok (set_traces n traces).
Proof. intros [] Ht. by split. Qed.

Lemma ordinals_new conns next lk :
  ordinals_ok conns next -> (forall s, c_ordinal (end_of lk s) = c_ordinal (lk_client lk)) -> 0 <= c_ordinal (lk_client lk) < next ->
  (forall i lk', conns !! i = Some lk' -> c_ordinal (lk_client lk') <> c_ordinal (lk_client lk)) -> ordinals_ok (conns ++ [lk]) next.
Proof.
  intros (Hn & Hall & Hinj) Hlk Ho Hnew. split; [done|]. split.
  - intros i lk0 s [Hi|[_ Hi]]%lookup_app_Some; [by apply (Hall i)|].
    apply list_lookup_singleton_Some in Hi as [_ <-]. by rewrite Hlk.
  - intros i j lk1 lk2 [Hi|[Hge Hi]]%lookup_app_Some [Hj|[Hge' Hj]]%lookup_app_Some.
    + by eapply Hinj.
    + apply list_lookup_singleton_Some in Hj as [_ <-]. intros E. by apply Hnew in Hi.
    + apply list_lookup_singleton_Some in Hi as [_ <-]. intros E. by apply Hnew in Hj.
    + apply lookup_lt_Some in Hi, Hj. cbn in *. lia.
Qed.

Lemma net_ok_publish pair lk n :
  net_ok n -> link_ok (envOf n) lk ->
  (forall s, let e := end_of lk s in c_closed e = false /\ c_reset e = false /\ c_nw e = true /\ c_pair e = pair /\ c_ordinal e = c_ordinal (lk_client lk)) ->
  0 <= c_ordinal (lk_client lk) < n_nextOrdinal n ->
  (forall i lk', n_conns n !! i = Some lk' -> c_ordinal (lk_client lk') <> c_ordinal (lk_client lk)) -> net_ok (publish pair lk n).
Proof.
  intros [Hbk Ha Hl Hh Hb Hr Ho Ht Hp Hf Hpi] Hlk Hends Hord Hnew. unfold publish, registerReset. split; cbn; try done.
  - apply registry_app; [done|]. intros s. by destruct (Hends s) as (? & ? & ? & ? & _).
  - apply ordinals_new; [done|intros s; by destruct (Hends s) as (_ & _ & _ & _ & ?)|done|done].
  - by apply traces_grow.
  - by apply pipes_app.
Qed.

Lemma dialName_settled b req o n :
  n_book n = b -> req_ok n req -> 0 <= o < 2 ^ 64 -> Addressing.settled b (dialName req o).
Proof.
  intros <- Hreq Ho. unfold dialName, req_ok in *. destruct (dr_local req); [done|]. unfold Addressing.settled.
  assert (parseLiteralIP (ephemeralPeerName o) = None) as ->; [|done]. apply synthesized_not_literal; [done|lia].
Qed.

Lemma slots_nonneg id ts : 0 <= slots_at id ts.
Proof. apply zlen_nonneg. Qed.

(** A thread that stays in place, goal by goal. *)
#[local] Ltac solve_place := split; cbn; try done; first [by intros ? [= <-] | by intros ? [= <-]; eauto | auto].

(** ** One section *)

(** What a section of a dial that has not halted achieves. *)
Definition advances pref pick now d rest n : Prop :=
  exists d' n', threadStep pref pick now d n = Ret (d', n') /\ sys_ok (n', d' :: rest) /\
    (halted (dt_pc d) = false -> (pc_rank (dt_pc d') < pc_rank (dt_pc d))%nat) /\
    exists pc, d' = set_pc d pc.

Lemma advance_place n n' d rest pc :
  net_ok n' -> call_frame n n' -> same_place n' (dt_pc d) pc -> threads_ok n (d :: rest) -> sys_ok (n', set_pc d pc :: rest).
Proof.
  intros Hok Hf Hsp Hth. split; [done|]. cbn. apply (threads_place _ d); [done|]. by eapply threads_call.
Qed.

Lemma set_pc_self d : set_pc d (dt_pc d) = d.
Proof. by destruct d. Qed.

Lemma step_resolving pref pick now d rest n :
  sys_ok (n, d :: rest) -> dt_pc d = Resolving -> advances pref pick now d rest n.
Proof.
  intros [Hok Hth] Ed. cbn in Hok, Hth. unfold advances, threadStep. rewrite Ed.
  destruct (dialResolve now (dt_ctx d) (dt_network d) (dt_addr d) n) as [r n1] eqn:Er.
  destruct (dialResolve_ok _ _ _ _ _ _ _ Hok Er) as (Hok1 & En & Hle & Hr).
  assert (call_frame n n1) as Hf by (rewrite En; by apply set_book_call).
  destruct r as [req|err]; eexists _, _; (split; [done|]); (split; [|split; [cbn; lia|by eexists]]).
  - destruct Hr as (Hreq & _). apply (advance_place n); [done..| |done]. rewrite Ed. solve_place.
  - apply (advance_place n); [done..| |done]. rewrite Ed. solve_place.
Qed.

(** The thread that takes the place of [d] while the Network stays. *)
Lemma step_stays pref pick now d rest n pc :
  sys_ok (n, d :: rest) -> threadStep pref pick now d n = Ret (set_pc d pc, n) -> same_place n (dt_pc d) pc ->
  (halted (dt_pc d) = false -> (pc_rank pc < pc_rank (dt_pc d))%nat) -> advances pref pick now d rest n.
Proof.
  intros [Hok Hth] E Hsp Hrank. exists (set_pc d pc), n. split; [done|]. split; [|split; [done|by eexists]].
  by apply (advance_place n); [|apply call_frame_refl|..].
Qed.

Lemma step_checking pref pick now d rest n req :
  sys_ok (n, d :: rest) -> dt_pc d = Checking req -> advances pref pick now d rest n.
Proof.
  intros Hsys Ed. destruct (Hsys) as [Hok Hth]. cbn in Hok, Hth.
  pose proof (tk_req _ _ Hth d req ltac:(by left) ltac:(by rewrite Ed)) as Hreq.
  assert (forall pc, pc = Looking req \/ (exists ch, pc = Waiting req ch) -> same_place n (dt_pc d) pc /\ (pc_rank pc < pc_rank (dt_pc d))%nat) as Hpc.
  { intros pc [->|[ch ->]]; rewrite Ed; (split; [solve_place|cbn; lia]). }
  assert (exists pc, threadStep pref pick now d n = Ret (set_pc d pc, n) /\ (pc = Looking req \/ exists ch, pc = Waiting req ch)) as (pc & E & H1).
  { unfold threadStep. rewrite Ed. destruct (dr_local req) as [name|]; [|eauto]. unfold checkPartition.
    destruct (bool_decide _); eexists; (split; [done|eauto]). }
  destruct (Hpc pc H1) as [H2 H3]. by apply (step_stays _ _ _ _ _ _ pc).
Qed.

Lemma step_waiting pref pick now d rest n req ch :
  sys_ok (n, d :: rest) -> dt_pc d = Waiting req ch -> advances pref pick now d rest n.
Proof.
  intros Hsys Ed. destruct (Hsys) as [Hok Hth]. cbn in Hok, Hth.
  pose proof (tk_req _ _ Hth d req ltac:(by left) ltac:(by rewrite Ed)) as Hreq.
  assert (exists pc, threadStep pref pick now d n = Ret (set_pc d pc, n) /\ same_place n (dt_pc d) pc) as (pc & E & H1).
  { unfold threadStep. rewrite Ed. destruct (waitSelect pref now (dt_ctx d) ch n) as [err| |].
    - eexists. split; [done|]. solve_place.
    - exists (Checking req). split; [done|]. solve_place.
    - exists (Waiting req ch). rewrite <- Ed at 1. rewrite set_pc_self. split; [done|]. solve_place. }
  apply (step_stays _ _ _ _ _ _ pc); [done..|]. rewrite Ed. done.
Qed.

Lemma step_looking pref pick now d rest n req :
  sys_ok (n, d :: rest) -> dt_pc d = Looking req -> advances pref pick now d rest n.
Proof.
  intros Hsys Ed. destruct (Hsys) as [Hok Hth]. cbn in Hok, Hth.
  pose proof (tk_req _ _ Hth d req ltac:(by left) ltac:(by rewrite Ed)) as Hreq.
  destruct (lookupListener (dt_network d) req (pick (portIds n (dr_peer req))) n) as [id|] eqn:El.
  - destruct (lookupListener_listener _ _ _ _ _ El) as (l & Hi & _).
    apply (step_stays _ _ _ _ _ _ (Reserving req id)); [done|unfold threadStep; by rewrite Ed, El| |rewrite Ed; cbn; lia].
    rewrite Ed. solve_place.
  - eapply step_stays; [done|unfold threadStep; by rewrite Ed, El| |rewrite Ed; cbn; lia].
    rewrite Ed. solve_place.
Qed.

(** The listener of a thread is there. *)
Lemma thread_listener n d rest id : threads_ok n (d :: rest) -> pc_listener (dt_pc d) = Some id -> exists l, n_heap n !! id = Some l.
Proof. intros Hth Hl. exact (tk_listener _ _ Hth d id ltac:(by left) Hl). Qed.

Lemma step_reserving pref pick now d rest n req id :
  sys_ok (n, d :: rest) -> dt_pc d = Reserving req id -> advances pref pick now d rest n.
Proof.
  intros Hsys Ed. destruct (Hsys) as [Hok Hth]. cbn in Hok, Hth.
  destruct (thread_listener n d rest id Hth) as [l Hi]; [by rewrite Ed|].
  pose proof (reserve_net_ok n id l Hok Hi) as Hok'. destruct (reserve l) as [[err|] l'] eqn:Er; cbn [snd] in Hok'.
  - eapply step_stays; [done|unfold threadStep; rewrite Ed, Hi; cbn [deref mbind go_bind]; by rewrite Er| |rewrite Ed; cbn; lia].
    rewrite Ed. solve_place.
  - assert (l' = set_reserved l (l_reserved l + 1)) as ->.
    { unfold reserve in Er. destruct (l_closed l); [done|]. destruct (_ <=? _); [done|]. by injection Er as <-. }
    unfold advances, threadStep. rewrite Ed, Hi. cbn [deref mbind go_bind]. rewrite Er.
    eexists _, _. split; [done|]. split; [|split; [cbn; lia|by eexists]]. split; [done|]. cbn [fst snd]. by apply threads_reserve.
Qed.

Lemma step_numbering pref pick now d rest n req id :
  n_nextOrdinal n + 1 < 2 ^ 64 -> sys_ok (n, d :: rest) -> dt_pc d = Numbering req id -> advances pref pick now d rest n.
Proof.
  intros Hlt [Hok Hth] Ed. cbn in Hok, Hth. pose proof (proj1 (ok_ordinals _ Hok)) as Hn.
  unfold advances, threadStep. rewrite Ed. rewrite u64_id by (unfold is_u64; lia).
  eexists _, _. split; [done|]. split; [|split; [cbn; lia|by eexists]].
  split; [by apply net_ok_number|]. cbn [fst snd]. apply threads_number; [lia|apply Hok|done|done].
Qed.

(** An ordinal a thread holds. *)
Lemma thread_ordinal n d rest o : threads_ok n (d :: rest) -> pc_ordinal (dt_pc d) = Some o ->
  0 <= o < n_nextOrdinal n /\ forall i lk, n_conns n !! i = Some lk -> c_ordinal (lk_client lk) <> o.
Proof.
  intros Hth Ho. apply (proj2 (tk_ordinals _ _ Hth)). rewrite held_cons, Ho. by left.
Qed.

Lemma step_addressing pref pick now d rest n req id o :
  sys_ok (n, d :: rest) -> dt_pc d = Addressing req id o -> advances pref pick now d rest n.
Proof.
  intros [Hok Hth] Ed. cbn in Hok, Hth. destruct (thread_listener n d rest id Hth) as [l Hi]; [by rewrite Ed|].
  pose proof (tk_req _ _ Hth d req ltac:(by left) ltac:(by rewrite Ed)) as Hreq.
  destruct (thread_ordinal n d rest o Hth) as [Ho _]; [by rewrite Ed|]. destruct (ok_ordinals _ Hok) as (Hn & _).
  assert (Addressing.settled (n_book n) (dialName req o)) as Hs by (apply (dialName_settled _ _ _ n); [done|done|lia]).
  unfold advances, threadStep. rewrite Ed, Hi. cbn [deref mbind go_bind].
  destruct (peerIPLocked_ok _ (dialName req o) (addressFamily (addr_network (l_addr l)) (addr_peer (l_addr l))) (ok_book _ Hok) Hs) as (r & book & Er & Hbk & _).
  pose proof (peerIPLocked_le _ _ _ _ _ (ok_book _ Hok) Hs Er) as Hle. rewrite Er. cbn [mbind go_bind].
  assert (net_ok (set_book n book)) as Hok1 by (by apply net_ok_book).
  assert (req_ok (set_book n book) req) as Hreq1.
  { unfold req_ok in *. destruct (dr_local req); [|done]. cbn. eapply settled_le; [apply Hle|done]. }
  destruct r as [ip|err]; eexists _, _; (split; [done|]); (split; [|split; [cbn; lia|by eexists]]).
  - apply (advance_place n); [done|by apply set_book_call| |done]. rewrite Ed. solve_place.
  - apply (advance_place n); [done|by apply set_book_call| |done]. rewrite Ed. solve_place.
Qed.

Lemma step_publishing pref pick now d rest n req id o ip :
  sys_ok (n, d :: rest) -> dt_pc d = Publishing req id o ip -> advances pref pick now d rest n.
Proof.
  intros [Hok Hth] Ed. cbn in Hok, Hth. destruct (thread_listener n d rest id Hth) as [l Hi]; [by rewrite Ed|].
  destruct (thread_ordinal n d rest o Hth) as [Ho Hnew]; [by rewrite Ed|].
  unfold advances, threadStep. rewrite Ed, Hi. cbn [deref mbind go_bind].
  set (pair := newPairKey _ _). set (lk := dialPair _ _ _ _ pair n). assert (c_ordinal (lk_client lk) = o) as Eo by done.
  eexists _, _. split; [done|]. split; [|split; [cbn; destruct (n_traceEnabled n); cbn; lia|by eexists]].
  split; cbn [fst snd].
  - apply net_ok_publish; [done|apply dialPair_link| |by rewrite Eo|by rewrite Eo].
    intros s. destruct s; by split_and!.
  - by eapply threads_publish; [| |apply Hok|].
Qed.

Lemma step_tracing pref pick now d rest n s id i o :
  sys_ok (n, d :: rest) -> dt_pc d = Tracing s id i o -> advances pref pick now d rest n.
Proof.
  intros [Hok Hth] Ed. cbn in Hok, Hth. destruct (tk_tracing _ _ Hth d s id i o ltac:(by left) Ed) as [He _].
  pose proof (ok_traces _ Hok) as Htr. rewrite He in Htr.
  destruct (threads_trace n d rest s id i o Htr (ok_ordinals _ Hok) Ed Hth) as [Htr' Hth'].
  unfold advances, threadStep. rewrite Ed. eexists _, _. split; [done|].
  split; [|split; [destruct s; cbn; lia|by eexists]]. split; [|exact Hth']. cbn [fst]. apply net_ok_traces; [done|]. by rewrite He.
Qed.

Lemma fill_fields c (l : listener connRef) r l' : fill c l = (r, l') -> l_addr l' = l_addr l /\ l_reserved l' = l_reserved l - 1.
Proof. unfold fill. cbn zeta. destruct (l_closed _); [by intros [= _ <-]|]. destruct (_ <=? _); by intros [= _ <-]. Qed.

Lemma step_handing pref pick now d rest n id i :
  sys_ok (n, d :: rest) -> dt_pc d = HandingOff id i -> advances pref pick now d rest n.
Proof.
  intros [Hok Hth] Ed. cbn in Hok, Hth. destruct (thread_listener n d rest id Hth) as [l Hi]; [by rewrite Ed|].
  assert (0 < l_reserved l) as Hres.
  { rewrite (tk_slots _ _ Hth id l Hi), slots_at_cons, Ed. cbn. rewrite decide_True by done. pose proof (slots_nonneg id rest). lia. }
  destruct (ok_heap _ Hok id l Hi) as [Hb Hq].
  unfold advances, threadStep. rewrite Ed, Hi. cbn [deref mbind go_bind]. destruct (fill (i, sideAcceptor) l) as [f l'] eqn:Ef.
  destruct (fill_ok _ _ _ _ Hb Hres Ef) as (B1 & B2 & B3 & B4 & B5 & B6). destruct (fill_fields _ _ _ _ Ef) as [F1 F2].
  eexists _, _. split; [done|]. split; [|split; [destruct f; cbn; lia|by eexists]]. split; cbn [fst snd].
  - apply (net_ok_heap _ _ l); try done. rewrite B3, B6. destruct (l_closed l); [by intros; apply Hq|done].
  - eapply threads_fill; [exact Ed|done|done| |done]. destruct f; auto. done.
Qed.

Lemma step_closing pref pick now d rest n i :
  sys_ok (n, d :: rest) -> dt_pc d = ClosingOff i -> advances pref pick now d rest n.
Proof.
  intros [Hok Hth] Ed. cbn in Hok, Hth. unfold advances, threadStep. rewrite Ed.
  eexists _, _. split; [done|]. split; [|split; [cbn; lia|by eexists]].
  apply (advance_place n); [by apply connClose_ok|apply connClose_call| |done]. rewrite Ed. solve_place.
Qed.

Lemma step_returned pref pick now d rest n :
  sys_ok (n, d :: rest) -> (exists i, dt_pc d = Connected i) \/ (exists err, dt_pc d = Failed err) \/ (exists id o err, dt_pc d = FailedHolding id o err) ->
  advances pref pick now d rest n.
Proof.
  intros Hsys Hpc. exists d, n. split; [unfold threadStep; by destruct Hpc as [[? ->]|[[? ->]|(? & ? & ? & ->)]]|]. split; [done|].
  split; [by destruct Hpc as [[? ->]|[[? ->]|(? & ? & ? & ->)]]|]. exists (dt_pc d). by rewrite set_pc_self.
Qed.

Lemma step_advances pref pick now d rest n :
  n_nextOrdinal n + 1 < 2 ^ 64 -> sys_ok (n, d :: rest) -> advances pref pick now d rest n.
Proof.
  intros Hlt Hsys. destruct (dt_pc d) as [|req|req ch|req|req id|req id|req id o|req id o ip|s id i o|id i|id i|i|i|err|id o err] eqn:Ed.
  - by apply step_resolving.
  - by eapply step_checking.
  - by eapply step_waiting.
  - by eapply step_looking.
  - by eapply step_reserving.
  - by eapply step_numbering.
  - by eapply step_addressing.
  - by eapply step_publishing.
  - by eapply step_tracing.
  - by eapply step_handing.
  - exfalso. by apply (tk_sending _ _ (so_threads _ Hsys) d id i ltac:(by left)).
  - by eapply step_closing.
  - apply step_returned; eauto.
  - apply step_returned; eauto.
  - apply step_returned; [done|]. right. right. eauto.
Qed.

(** ** Every interleaving *)

Lemma threads_start n ts ctx network a : threads_ok n ts -> threads_ok n (startDial ctx network a :: ts).
Proof.
  intros [A1 A2 A3 A4 A5 A6 A7 A8 A9]. split; rewrite ?held_cons, ?made_cons; cbn; try done.
  - intros d req [->|Hd]%elem_of_cons; [done|by apply A1].
  - intros d id [->|Hd]%elem_of_cons; [done|by apply A2].
  - intros d s id i o [->|Hd]%elem_of_cons E; [done|by eapply A7].
  - intros He i lk s Hi. rewrite (A8 He i lk s Hi). split; intros Hn d.
    + intros [->|Hd]%elem_of_cons; [exact (fun x => x)|by apply Hn].
    + intros Hd. apply Hn. by right.
  - intros d id i [->|Hd]%elem_of_cons; [done|by apply A9].
Qed.

Lemma start_ok n ts ctx network a : sys_ok (n, ts) -> sys_ok (n, ts ++ [startDial ctx network a]).
Proof.
  intros [Hok Hth]. split; [done|]. cbn. apply (threads_perm _ (startDial ctx network a :: ts)); [|by apply threads_start].
  by rewrite Permutation_app_comm.
Qed.

Lemma thread_step_ok n ts (j : nat) d pref pick now d' n' :
  sys_ok (n, ts) -> ts !! j = Some d -> n_nextOrdinal n + 1 < 2 ^ 64 -> threadStep pref pick now d n = Ret (d', n') ->
  sys_ok (n', <[j := d']> ts).
Proof.
  intros [Hok Hth] Hj Hlt E. destruct (update_perm ts j d d' Hj) as (rest & P1 & P2).
  assert (sys_ok (n, d :: rest)) as Hsys by (split; [done|by eapply threads_perm]).
  destruct (step_advances pref pick now d rest n Hlt Hsys) as (d1 & n1 & E1 & [Hok1 Hth1] & _).
  rewrite E in E1. injection E1 as <- <-. split; [done|]. cbn. eapply threads_perm; [|exact Hth1]. by rewrite P2.
Qed.
End system.

Section runs.
Context {Src : Type} `{!DrawSource Src} `{!RejectFuel} `{!Platform}.
Implicit Types (n : Network Src).

Lemma sys_step_ok sys sys' : sys_ok sys -> sys_step sys sys' -> sys_ok sys'.
Proof.
  intros Hsys Hst. destruct Hst as [n ts n' Hst|n ts ctx network a|n ts j d pref pick now d' n' Hj _ Hlt E].
  - destruct Hsys as [Hok Hth]. split; cbn; [by eapply call_step_ok|]. eapply threads_call; [by apply call_step_frame|done].
  - by apply start_ok.
  - by eapply thread_step_ok.
Qed.

Lemma sys_run_ok sys sys' : sys_ok sys -> rtc sys_step sys sys' -> sys_ok sys'.
Proof. intros Hok. induction 1 as [|s1 s2 s3 Hst _ IH]; [done|]. apply IH. by eapply sys_step_ok. Qed.

(** A new Network holds nothing. *)
Lemma NewNetwork_empty opts n :
  NewNetwork opts = Ret n -> n_heap n = [] /\ n_conns n = [] /\ n_nextOrdinal n = 0.
Proof.
  unfold NewNetwork. intros (cfg & _ & (u & _ & [= <-])%go_bind_ret)%go_bind_ret.
  match goal with |- context [fold_left ?f ?l ?m] =>
    assert (forall ps m0, n_heap m0 = [] /\ n_conns m0 = [] /\ n_nextOrdinal m0 = 0 ->
      n_heap (fold_left f ps m0) = [] /\ n_conns (fold_left f ps m0) = [] /\ n_nextOrdinal (fold_left f ps m0) = 0) as Hf end.
  { intros ps. induction ps as [|p ps IH]; intros m0 Hm; [done|]. cbn [fold_left]. apply IH. unfold resolvePair, resolvePeer.
    destruct (canonicalPeer _ (n_book m0)) as [pa ba]. cbn. by destruct (canonicalPeer _ ba) as [pb bb]. }
  by apply Hf.
Qed.

(** A system: what [NewNetwork] gives, and any run from there. *)
Definition reachable (sys : Network Src * list dialThread) : Prop :=
  exists vs n, Forall option_typed vs /\ NewNetwork (map (fun o => Some (optionOf o)) vs) = Ret n /\ rtc sys_step (n, []) sys.

Lemma new_system_ok vs n : Forall option_typed vs -> NewNetwork (map (fun o => Some (optionOf o)) vs) = Ret n -> sys_ok (n, []).
Proof.
  intros Hvs E. destruct (NewNetwork_empty _ _ E) as (E1 & E2 & E3). split; [by eapply NewNetwork_ok|]. cbn.
  split; cbn.
  - intros d req Hd. by apply elem_of_nil in Hd.
  - intros d id Hd. by apply elem_of_nil in Hd.
  - intros id l. by rewrite E1.
  - split; [constructor|]. intros o Ho. by apply elem_of_nil in Ho.
  - by rewrite E2, E3.
  - split; [constructor|]. intros i. rewrite E2. cbn. split; [intros Hi; by apply elem_of_nil in Hi|lia].
  - intros d s id i o Hd. by apply elem_of_nil in Hd.
  - intros He i lk s. by rewrite E2.
  - intros d id i Hd. by apply elem_of_nil in Hd.
Qed.

Lemma reachable_ok sys : reachable sys -> sys_ok sys.
Proof. intros (vs & n & Hvs & E & Hrun). eapply sys_run_ok; [|exact Hrun]. by eapply new_system_ok. Qed.
End runs.
