(* ===== verification/Ends.v ===== *)
(** * The addresses of connections: what both ends of every connection are given,
    and that it names them, in every state a system reaches *)
From S2P Require Import Prelude GoRuntime Errors Float64 Rand Partition Trace PipeState Faults FaultProps Pipe.
From S2P Require Import PipeInv Deadline Options Conn ConnProps ConnRace NetIP NetIPProps NetIP6 Addr Addressing AddrRoundtrip.
From S2P Require Import Replay Directions Listener Network NetworkInv NetworkFrame NetworkListen NetworkDial DialThreads DialSystem.

Section ends.
Context {Src : Type} `{!DrawSource Src} `{!RejectFuel} `{!Platform}.
Implicit Types (n : Network Src) (lk : link Src) (d : dialThread) (ts rest : list dialThread) (pc : dialPC).

(** ** The invariant *)

(** The ends mirror each other, both addresses are those of their peers, of one
    family, the dialer's port is that of the ordinal, and the pair is that of the
    two peers. *)
Record link_named (book : addrBook) lk : Prop := {
  ln_mirror : forall s, c_local (end_of lk (other s)) = c_remote (end_of lk s);
  ln_pair : forall s, c_pair (end_of lk s) = newPairKey (addr_peer (c_local (end_of lk sideDialer))) (addr_peer (c_remote (end_of lk sideDialer)));
  ln_port : addr_port (c_local (end_of lk sideDialer)) = ephemeralPort (c_ordinal (end_of lk sideDialer));
  ln_addrs : exists family, peer_addr book family (c_local (end_of lk sideDialer)) /\ peer_addr book family (c_remote (end_of lk sideDialer));
  ln_nw : forall s, c_nw (end_of lk s) = true
}.

Definition conns_named (book : addrBook) (conns : list (link Src)) : Prop :=
  forall i lk, conns !! i = Some lk -> link_named book lk.

(** The listener a dial works with is its peer's. *)
Definition at_peer (heap : list (listener connRef)) pc : Prop :=
  forall req id, pc_req pc = Some req -> pc_listener pc = Some id ->
    exists l, heap !! id = Some l /\ addr_peer (l_addr l) = dr_peer req.

(** The address a dial was given is its name's, of the listener's family. *)
Definition at_name n pc : Prop :=
  forall req id o ip, pc = Publishing req id o ip ->
    exists l, n_heap n !! id = Some l /\ ip_of_peer (n_book n) (dialName req o) (family_of l) ip.

Record named n ts : Prop := {
  nm_conns : conns_named (n_book n) (n_conns n);
  nm_peer : forall d, d ∈ ts -> at_peer (n_heap n) (dt_pc d);
  nm_name : forall d, d ∈ ts -> at_name n (dt_pc d)
}.

(** ** What later states keep *)

Lemma conn_id_fields e e' : conn_id e' = conn_id e ->
  c_ordinal e' = c_ordinal e /\ c_local e' = c_local e /\ c_remote e' = c_remote e /\ c_pair e' = c_pair e /\ c_nw e' = c_nw e.
Proof. by intros [= ? ? ? ? ?]. Qed.

Lemma link_named_le book book' lk lk' :
  book_le book book' -> (forall s, conn_id (end_of lk' s) = conn_id (end_of lk s)) -> link_named book lk -> link_named book' lk'.
Proof.
  intros Hle Hid [H1 H2 H3 (fam & H4 & H5) H6].
  assert (forall s, c_ordinal (end_of lk' s) = c_ordinal (end_of lk s) /\ c_local (end_of lk' s) = c_local (end_of lk s) /\
    c_remote (end_of lk' s) = c_remote (end_of lk s) /\ c_pair (end_of lk' s) = c_pair (end_of lk s) /\
    c_nw (end_of lk' s) = c_nw (end_of lk s)) as Hf
    by (intros s; by apply conn_id_fields).
  destruct (Hf sideDialer) as (D1 & D2 & D3 & _). split.
  - intros s. destruct (Hf s) as (_ & _ & -> & _), (Hf (other s)) as (_ & -> & _). apply H1.
  - intros s. destruct (Hf s) as (_ & _ & _ & -> & _). rewrite D2, D3. apply H2.
  - by rewrite D1, D2.
  - exists fam. rewrite D2, D3. split; by eapply peer_addr_le.
  - intros s. destruct (Hf s) as (_ & _ & _ & _ & ->). apply H6.
Qed.

Lemma conns_named_le book book' conns conns' :
  book_le book book' -> same_conns conns conns' -> conns_named book conns -> conns_named book' conns'.
Proof.
  intros Hle Hs Hn i lk' Hi. specialize (Hs i). rewrite Hi in Hs. inversion Hs as [lk lk0 E E1 E2|]; subst.
  eapply link_named_le; [done|exact E|by apply (Hn i)].
Qed.

(** Listeners keep their addresses. *)
Definition same_addrs (heap heap' : list (listener connRef)) : Prop :=
  forall id l, heap !! id = Some l -> exists l', heap' !! id = Some l' /\ l_addr l' = l_addr l.

Lemma same_addrs_refl heap : same_addrs heap heap.
Proof. intros id l Hi. by exists l. Qed.

Lemma same_addrs_update heap (id : nat) l l' :
  heap !! id = Some l -> l_addr l' = l_addr l -> same_addrs heap (<[id := l']> heap).
Proof.
  intros Hi Ea j l0 Hj. destruct (decide (id = j)) as [<-|Hne].
  - assert (l0 = l) as -> by congruence. exists l'. rewrite list_lookup_insert_eq by (by eapply lookup_lt_Some). done.
  - exists l0. by rewrite list_lookup_insert_ne.
Qed.

Lemma at_peer_le heap heap' pc : same_addrs heap heap' -> at_peer heap pc -> at_peer heap' pc.
Proof.
  intros Hs Hp req id Hr Hl. destruct (Hp req id Hr Hl) as (l & Hi & E). destruct (Hs id l Hi) as (l' & Hi' & E').
  exists l'. by rewrite E'.
Qed.

Lemma at_name_le n n' pc : book_le (n_book n) (n_book n') -> same_addrs (n_heap n) (n_heap n') -> at_name n pc -> at_name n' pc.
Proof.
  intros Hle Hs Hp req id o ip E. destruct (Hp req id o ip E) as (l & Hi & Hip). destruct (Hs id l Hi) as (l' & Hi' & E').
  exists l'. split; [done|]. unfold family_of. rewrite E'. by eapply ip_of_peer_le.
Qed.

(** A step that makes no connection. *)
Lemma named_step n n' ts ts' :
  book_le (n_book n) (n_book n') -> same_addrs (n_heap n) (n_heap n') -> same_conns (n_conns n) (n_conns n') ->
  (forall d, d ∈ ts' -> d ∈ ts \/ (at_peer (n_heap n') (dt_pc d) /\ at_name n' (dt_pc d))) ->
  named n ts -> named n' ts'.
Proof.
  intros Hle Ha Hc Hts [H1 H2 H3]. split.
  - by eapply conns_named_le.
  - intros d [Hd|[Hd _]]%Hts; [|done]. by eapply at_peer_le, H2.
  - intros d [Hd|[_ Hd]]%Hts; [|done]. by eapply at_name_le, H3.
Qed.

Lemma call_frame_addrs n n' : call_frame n n' -> same_addrs (n_heap n) (n_heap n').
Proof. intros [_ _ _ _ _ [Hs _]] id l Hi. destruct (Hs id l Hi) as (l' & Hi' & _ & Ea & _). by exists l'. Qed.

(** ** One section of a dial *)

Lemma soleMatch_in (ok : nat -> bool) cs l id : soleMatch ok cs l = Some id -> l = Some id \/ id ∈ cs.
Proof.
  revert l. induction cs as [|c cs IH]; intros l; cbn; [by left|]. destruct (ok c) eqn:Ec; cbn.
  - destruct l; [done|]. intros [[= <-]|E]%IH; right; [by left|by right].
  - intros [E|E]%IH; [by left|by right; right].
Qed.

Lemma portIds_entry n peer id : id ∈ portIds n peer -> exists port, entry (n_listeners n) peer port = Some id.
Proof.
  unfold portIds, entry. intros ((port & y) & -> & Hy%elem_of_map_to_list)%list_elem_of_fmap. exists port. cbn in *.
  destruct (n_listeners n !! peer) as [ports|]; cbn in *; [done|by rewrite lookup_empty in Hy].
Qed.

(** What a lookup finds is a listener of the peer. *)
Lemma lookup_peer network req pick n id :
  net_ok n -> (forall l, pick l ≡ₚ l) -> lookupListener network req (pick (portIds n (dr_peer req))) n = Some id ->
  exists l, n_heap n !! id = Some l /\ addr_peer (l_addr l) = dr_peer req.
Proof.
  intros Hok Hpick. assert (forall port, entry (n_listeners n) (dr_peer req) port = Some id ->
    exists l, n_heap n !! id = Some l /\ addr_peer (l_addr l) = dr_peer req) as Hentry.
  { intros port He. destruct (proj1 (proj1 (listeners_entries _ _) (ok_listeners _ Hok)) _ _ _ He) as (l & Hi & Ep & _). by exists l. }
  unfold lookupListener. destruct (dr_explicit req).
  - destruct (listenerAt n (dr_peer req) (dr_port req)) as [id'|] eqn:El; [|done]. destruct (matchesAt _ _ _ _); [|done].
    intros [= ->]. by eapply Hentry.
  - intros [|Hin]%soleMatch_in; [done|]. rewrite Hpick in Hin. apply portIds_entry in Hin as [port He]. by eapply Hentry.
Qed.

(** The connection a dial makes. *)
Lemma dialPair_named n l name peer network o ip :
  book_ok (n_book n) -> settled (n_book n) name -> 0 <= o < 2 ^ 64 -> ip_of_peer (n_book n) name (family_of l) ip ->
  peer_addr (n_book n) (family_of l) (l_addr l) -> addr_peer (l_addr l) = peer ->
  link_named (n_book n)
    (dialPair (mkAddr network name (ephemeralPort o) (Some ip)) (mkAddr network peer (addr_port (l_addr l)) (addr_ip (l_addr l)))
       o network (newPairKey name peer) n).
Proof.
  intros Hbk Hs Ho Hip (Hs' & Hp' & ip' & Eip' & Hip') Epeer. set (lk := dialPair _ _ _ _ _ _).
  assert (forall s, let e := end_of lk s in (c_pair e = newPairKey name peer /\ c_nw e = true) /\ c_ordinal e = o /\
    c_local e = (match s with sideDialer => mkAddr network name (ephemeralPort o) (Some ip)
                 | sideAcceptor => mkAddr network peer (addr_port (l_addr l)) (addr_ip (l_addr l)) end) /\
    c_remote e = (match s with sideDialer => mkAddr network peer (addr_port (l_addr l)) (addr_ip (l_addr l))
                  | sideAcceptor => mkAddr network name (ephemeralPort o) (Some ip) end)) as Hf.
  { intros s. destruct (dialPair_ends (mkAddr network name (ephemeralPort o) (Some ip))
      (mkAddr network peer (addr_port (l_addr l)) (addr_ip (l_addr l))) o network (newPairKey name peer) n s)
      as (_ & _ & F0 & F1 & F2 & _ & F3 & F4). exact (conj (conj F1 F0) (conj F2 (conj F3 F4))). }
  clearbody lk. destruct (Hf sideDialer) as (_ & D2 & D3 & D4). split.
  - intros s. destruct (Hf s) as (_ & _ & _ & ->), (Hf (other s)) as (_ & _ & -> & _). by destruct s.
  - intros s. destruct (Hf s) as ((-> & _) & _). by rewrite D3, D4.
  - by rewrite D2, D3.
  - exists (family_of l). rewrite D3, D4, Eip'. split.
    + split; [done|]. split; [|by exists ip]. cbn. pose proof (ephemeralPort_range o Ho). unfold ephemeralPortBase in *. lia.
    + split; [by rewrite <- Epeer|]. split; [done|]. exists ip'. split; [done|]. cbn. by rewrite <- Epeer.
  - intros s. by destruct (Hf s) as ((_ & ->) & _).
Qed.

(** A dial that moves on in the same Network, working with the same listener or
    none. *)
Lemma at_peer_keep heap pc pc' :
  (forall req id, pc_req pc' = Some req -> pc_listener pc' = Some id -> pc_req pc = Some req /\ pc_listener pc = Some id) ->
  at_peer heap pc -> at_peer heap pc'.
Proof. intros Hk Hp req id Hr Hl. destruct (Hk req id Hr Hl). by apply Hp. Qed.

(** The thread that stepped, in a Network that kept its entries, its listeners'
    addresses and what identifies its connections. *)
Lemma named_moved d rest n n2 d2 :
  named n (d :: rest) -> book_le (n_book n) (n_book n2) -> same_addrs (n_heap n) (n_heap n2) -> same_conns (n_conns n) (n_conns n2) ->
  at_peer (n_heap n2) (dt_pc d2) -> at_name n2 (dt_pc d2) -> named n2 (d2 :: rest).
Proof.
  intros Hnm H1 H2 H3 H4 H5. apply (named_step n n2 (d :: rest)); [done..| |done].
  intros d0 [->|Hd]%elem_of_cons; [by right|left; by right].
Qed.

(** The name of a dial that has its ordinal is settled. *)
Lemma thread_settled d rest n req o :
  sys_ok (n, d :: rest) -> n_nextOrdinal n + 1 < 2 ^ 64 -> pc_req (dt_pc d) = Some req -> pc_ordinal (dt_pc d) = Some o ->
  settled (n_book n) (dialName req o) /\ 0 <= o < 2 ^ 64.
Proof.
  intros [Hok Hth] Hlt Hr Ho. cbn in Hok, Hth. destruct (thread_ordinal n d rest o Hth Ho) as [Hle _].
  destruct (ok_ordinals _ Hok) as (Hn & _). split; [|lia].
  apply (dialName_settled _ _ _ n); [done| |lia]. exact (tk_req _ _ Hth d req ltac:(by left) Hr).
Qed.

Lemma named_addressing pref pick now d rest n d' n' req id o :
  sys_ok (n, d :: rest) -> named n (d :: rest) -> n_nextOrdinal n + 1 < 2 ^ 64 -> dt_pc d = Addressing req id o ->
  threadStep pref pick now d n = Ret (d', n') -> named n' (d' :: rest).
Proof.
  intros Hsys Hnm Hlt Ed E. destruct (Hsys) as [Hok _]. cbn in Hok. pose proof (ok_book _ Hok) as Hbk. pose proof (nm_peer _ _ Hnm d ltac:(by left)) as Hpeer.
  destruct (thread_settled d rest n req o Hsys Hlt) as [Hs _]; [by rewrite Ed..|].
  unfold threadStep in E. rewrite Ed in E, Hpeer.
  apply go_bind_ret in E as (l & Hl & E). destruct (n_heap n !! id) as [l0|] eqn:Hi; [injection Hl as ->|done].
  apply go_bind_ret in E as ([r book] & Er & E). pose proof (peerIPLocked_le _ _ _ _ _ Hbk Hs Er) as Hle.
  destruct r as [ip|err]; injection E as <- <-; (apply (named_moved d _ n); [done|exact Hle|apply same_addrs_refl|apply same_conns_refl| |]).
  - eapply at_peer_keep; [|exact Hpeer]. done.
  - intros req0 id0 o0 ip0 [= <- <- <- <-]. exists l. split; [exact Hi|]. exact (peerIPLocked_gives _ _ _ _ _ Hbk Hs Er).
  - intros req0 id0 [=].
  - done.
Qed.

Lemma named_publishing pref pick now d rest n d' n' req id o ip :
  sys_ok (n, d :: rest) -> named n (d :: rest) -> n_nextOrdinal n + 1 < 2 ^ 64 -> dt_pc d = Publishing req id o ip ->
  threadStep pref pick now d n = Ret (d', n') -> named n' (d' :: rest).
Proof.
  intros Hsys Hnm Hlt Ed E. destruct (Hsys) as [Hok _]. cbn in Hok.
  destruct (thread_settled d rest n req o Hsys Hlt) as [Hs Ho]; [by rewrite Ed..|].
  destruct (nm_peer _ _ Hnm d ltac:(by left) req id) as (l & Hi & Ep); [by rewrite Ed..|].
  destruct (nm_name _ _ Hnm d ltac:(by left) req id o ip Ed) as (l2 & Hi2 & Hip). assert (l2 = l) as -> by congruence.
  unfold threadStep in E. rewrite Ed, Hi in E. cbn [deref mbind go_bind] in E. injection E as <- <-.
  pose proof (dialPair_named n l (dialName req o) (dr_peer req) (dt_network d) o ip (ok_book _ Hok) Hs Ho Hip (ok_addrs _ Hok id l Hi) Ep) as Hlk.
  set (lk := dialPair _ _ _ _ _ _) in *. clearbody lk. split.
  - intros i lk0 [Hj|[_ Hj]]%lookup_app_Some; [by apply (nm_conns _ _ Hnm i)|]. by apply list_lookup_singleton_Some in Hj as [_ <-].
  - intros d0 [->|Hd]%elem_of_cons; [|apply (nm_peer _ _ Hnm); by right]. cbn. by destruct (n_traceEnabled n).
  - intros d0 [->|Hd]%elem_of_cons; [|apply (nm_name _ _ Hnm); by right]. cbn. by destruct (n_traceEnabled n).
Qed.

Lemma named_thread pref pick now d rest n d' n' :
  sys_ok (n, d :: rest) -> named n (d :: rest) -> (forall l, pick l ≡ₚ l) -> n_nextOrdinal n + 1 < 2 ^ 64 ->
  threadStep pref pick now d n = Ret (d', n') -> named n' (d' :: rest).
Proof.
  intros Hsys Hnm Hpick Hlt E. destruct (Hsys) as [Hok _]. cbn in Hok.
  pose proof (fun n2 d2 => named_moved d rest n n2 d2 Hnm) as Hgo.
  assert (forall pc, (forall req id, pc_req pc = Some req -> pc_listener pc = Some id -> pc_req (dt_pc d) = Some req /\ pc_listener (dt_pc d) = Some id) ->
    (forall req id o ip, pc <> Publishing req id o ip) -> named n (set_pc d pc :: rest)) as Hplace.
  { intros pc Hk Hnp. apply Hgo; [done|apply same_addrs_refl|apply same_conns_refl| |intros req id o ip Ep; by destruct (Hnp req id o ip)].
    eapply at_peer_keep; [exact Hk|]. apply (nm_peer _ _ Hnm). by left. }
  pose proof (nm_peer _ _ Hnm d ltac:(by left)) as Hpeer.
  pose proof (fun req id o => named_addressing pref pick now d rest n d' n' req id o Hsys Hnm Hlt) as Haddressing.
  pose proof (fun req id o ip => named_publishing pref pick now d rest n d' n' req id o ip Hsys Hnm Hlt) as Hpublishing.
  destruct (dt_pc d) as [|req|req ch|req|req id|req id|req id o|req id o ip|s id i o|id i|id i|i|i|err|id o err] eqn:Ed.
  - at_step E Ed. destruct (dialResolve now (dt_ctx d) (dt_network d) (dt_addr d) n) as [r n1] eqn:Er.
    destruct (dialResolve_ok _ _ _ _ _ _ _ Hok Er) as (_ & En & Hle & _).
    destruct r; injection E as <- <-; (apply Hgo; [done|rewrite En; apply same_addrs_refl|rewrite En; apply same_conns_refl|done|done]).
  - at_step E Ed. destruct (dr_local req); [destruct (checkPartition _ _) as [[|] ch]|]; injection E as <- <-; by apply Hplace.
  - at_step E Ed. destruct (waitSelect pref now (dt_ctx d) ch n); injection E as <- <-; [by apply Hplace..|]. rewrite <- (set_pc_self d), Ed. by apply Hplace.
  - at_step E Ed. destruct (lookupListener _ _ _ _) as [id|] eqn:El; injection E as <- <-; [|by apply Hplace].
    apply Hgo; [done|apply same_addrs_refl|apply same_conns_refl| |done]. intros req0 id0 [= <-] [= <-]. by eapply lookup_peer.
  - at_step E Ed. apply go_bind_ret in E as (l & Hl & E). destruct (n_heap n !! id) as [l0|] eqn:Hi; [injection Hl as ->|done].
    destruct (reserve l) as [[err|] l'] eqn:Er; injection E as <- <-; [by apply Hplace|].
    assert (l_addr l' = l_addr l) as Ea.
    { unfold reserve in Er. destruct (l_closed l); [done|]. destruct (_ <=? _); [done|]. by injection Er as <-. }
    pose proof (same_addrs_update _ _ _ _ Hi Ea) as Hsa.
    apply Hgo; [done|exact Hsa|apply same_conns_refl| |done]. eapply at_peer_le; [exact Hsa|]. eapply at_peer_keep; [|exact Hpeer]. done.
  - at_step E Ed. injection E as <- <-. apply Hgo; [done|apply same_addrs_refl|apply same_conns_refl| |done]. eapply at_peer_keep; [|exact Hpeer]. done.
  - by eapply Haddressing.
  - by eapply Hpublishing.
  - at_step E Ed. injection E as <- <-. apply Hgo; [done|apply same_addrs_refl|apply same_conns_refl|by destruct s|by destruct s].
  - at_step E Ed. apply go_bind_ret in E as (l & Hl & E). destruct (n_heap n !! id) as [l0|] eqn:Hi; [injection Hl as ->|done].
    destruct (fill (i, sideAcceptor) l) as [f l'] eqn:Ef. injection E as <- <-. destruct (fill_fields _ _ _ _ Ef) as [Ea _].
    apply Hgo; [done|by eapply same_addrs_update|apply same_conns_refl|by destruct f|by destruct f].
  - at_step E Ed. injection E as <- <-. done.
  - at_step E Ed. injection E as <- <-. pose proof (connClose_call (i, sideAcceptor) n) as Hf.
    apply Hgo; [apply Hf|by apply call_frame_addrs|apply Hf|done|done].
  - at_step E Ed. injection E as <- <-. done.
  - at_step E Ed. injection E as <- <-. done.
  - at_step E Ed. injection E as <- <-. done.
Qed.

(** ** Every interleaving *)

Lemma named_sys_step sys sys' : sys_ok sys -> named (fst sys) (snd sys) -> sys_step sys sys' -> named (fst sys') (snd sys').
Proof.
  intros [Hok Hth] Hnm Hst. destruct Hst as [n ts n' Hst|n ts ctx network a|n ts j d pref pick now d' n' Hj Hpick Hlt E]; cbn in *.
  - pose proof (call_step_frame n n' Hok Hst) as Hf. apply (named_step n n' ts); [apply Hf|by apply call_frame_addrs|apply Hf|by left|done].
  - apply (named_step n n ts); [done|apply same_addrs_refl|apply same_conns_refl| |done].
    intros d [Hd|Hd]%elem_of_app; [by left|]. apply list_elem_of_singleton in Hd as ->. by right.
  - destruct (update_perm ts j d d' Hj) as (rest & P1 & P2).
    assert (named n' (d' :: rest)) as [H1 H2 H3].
    { eapply named_thread; [|split|exact Hpick|exact Hlt|exact E].
      - split; [done|]. by eapply threads_perm.
      - apply Hnm.
      - intros d0 Hd. apply (nm_peer _ _ Hnm). by rewrite P1.
      - intros d0 Hd. apply (nm_name _ _ Hnm). by rewrite P1. }
    split; [done|intros d0 Hd; apply H2; by rewrite <- P2|intros d0 Hd; apply H3; by rewrite <- P2].
Qed.

Lemma reachable_named sys : reachable sys -> named (fst sys) (snd sys).
Proof.
  intros (vs & n & Hvs & E & Hrun). pose proof (new_system_ok vs n Hvs E) as Hok.
  assert (named n []) as Hnm.
  { destruct (NewNetwork_empty _ _ E) as (_ & Ec & _). split; [|by intros d Hd%elem_of_nil..]. intros i lk. by rewrite Ec. }
  revert Hok Hnm. assert (forall sys0, rtc sys_step sys0 sys -> sys_ok sys0 -> named (fst sys0) (snd sys0) -> named (fst sys) (snd sys)) as Hgen.
  { intros sys0 Hrun0. induction Hrun0 as [|s1 s2 s3 Hst _ IH]; [done|]. intros Hok Hnm.
    apply IH; [exact Hrun|by eapply sys_step_ok|by eapply named_sys_step]. }
  by apply (Hgen (n, [])).
Qed.

(** ** The addresses a program sees *)

(** [net.TCPAddr.String] of an address with an IP. *)
Definition tcpAddrString (a : list Z * Z) : string := ofBytes (JoinHostPort (ipString (fst a)) (itoa (snd a))).

(** An address in order: an IP of either family, a port, and a text that parses
    back to them and names [peer]. *)
Definition stands_for n (a : list Z * Z) (peer : string) : Prop :=
  (length (fst a) = 4 \/ length (fst a) = 16)%nat /\ Forall is_byte (fst a) /\ 0 <= snd a <= maxPort /\
  exists host, splitAddr (tcpAddrString a) = inl (host, snd a, negb (snd a =? 0)) /\
    parseLiteralIP host = Some (ofSlice (fst a)) /\ resolvePeer (tcpAddrString a) n = (peer, n).

Lemma peer_addr_stands n family a :
  book_ok (n_book n) -> peer_addr (n_book n) family a -> zoneless (addr_peer a) -> stands_for n (tcpAddr a) (addr_peer a).
Proof.
  intros Hbk (Hs & Hp & ip & Eip & Hip) Hz. destruct (address_owned _ _ _ _ Hbk Hs Hz Hip) as (Hok & _ & _).
  destruct (printed_resolves _ (addr_network a) _ _ (addr_port a) _ Hbk Hs Hz Hip Hp) as (host & H1 & H2 & H3 & H4).
  assert (tcpAddr a = (ip, addr_port a)) as -> by (unfold tcpAddr; by rewrite Eip). unfold stands_for. cbn [fst snd].
  assert (addr_String (mkAddr (addr_network a) (addr_peer a) (addr_port a) (Some ip)) = tcpAddrString (ip, addr_port a)) as E by done.
  rewrite E in H1, H2. unfold ofSlice in Hok.
  split; [destruct (Nat.eqb_spec (length ip) 4); [by left|right; apply Hok]|].
  split; [by destruct (Nat.eqb (length ip) 4); apply Hok|]. split; [done|]. exists host. split; [done|]. split; [done|].
  unfold resolvePeer. rewrite H2, H4. by destruct n.
Qed.

(** C25: the addresses a program sees. In every reachable state the Addr of a
    listener, and LocalAddr and RemoteAddr of either end of a connection, are IPs
    of 4 or 16 bytes with a port, whose text is split back into them and resolves
    to the peer they were given to; what one end calls local the other calls
    remote; the dialing end has the port of its ordinal; and the two texts together
    name the pair the connection is under: a Partition of the one from the other
    cuts it off, and it is the pair a Reset of the two goes to. (Peers that are
    literals with a zone excepted.) *)
Theorem visible_addresses n ts :
  reachable (n, ts) ->
  (forall id l, n_heap n !! id = Some l -> zoneless (addr_peer (l_addr l)) -> stands_for n (listener_Addr l) (addr_peer (l_addr l))) /\
  (forall i lk s, n_conns n !! i = Some lk ->
     let e := end_of lk s in
     LocalAddr (end_of lk (other s)) = RemoteAddr e /\
     snd (LocalAddr (end_of lk sideDialer)) = ephemeralPort (c_ordinal e) /\
     (zoneless (addr_peer (c_local e)) -> zoneless (addr_peer (c_remote e)) ->
        stands_for n (LocalAddr e) (addr_peer (c_local e)) /\ stands_for n (RemoteAddr e) (addr_peer (c_remote e)) /\
        resolvePair (tcpAddrString (LocalAddr e)) (tcpAddrString (RemoteAddr e)) n = (c_pair e, n) /\
        forall n', Partition (tcpAddrString (LocalAddr e)) (tcpAddrString (RemoteAddr e)) n = Ret n' ->
          isPartitioned (n_part n') (c_pair e) = true)).
Proof.
  intros Hreach. pose proof (reachable_named _ Hreach) as [Hnm _ _]. apply reachable_ok in Hreach as [Hok _]. cbn in Hok, Hnm.
  split; [intros id l Hi Hz; eapply peer_addr_stands; [apply Hok|by apply (ok_addrs _ Hok id)|done]|].
  intros i lk s Hi e. destruct (Hnm i lk Hi) as [M1 M2 M3 (fam & M4 & M5) _].
  split; [unfold LocalAddr, RemoteAddr; by rewrite M1|].
  split; [destruct (proj1 (proj2 (ok_ordinals _ Hok)) i lk s Hi) as [E _]; unfold e; rewrite E; exact M3|].
  assert (peer_addr (n_book n) fam (c_local e) /\ peer_addr (n_book n) fam (c_remote e) /\
    c_pair e = newPairKey (addr_peer (c_local e)) (addr_peer (c_remote e))) as (P1 & P2 & P3).
  { unfold e. rewrite (M2 s). specialize (M1 sideDialer) as D1. specialize (M1 sideAcceptor) as D2. cbn [other] in D1, D2.
    destruct s; [done|]. rewrite D1, <- D2. split; [done|]. split; [done|]. apply newPairKey_sym. }
  intros Z1 Z2. pose proof (peer_addr_stands n fam _ (ok_book _ Hok) P1 Z1) as S1. pose proof (peer_addr_stands n fam _ (ok_book _ Hok) P2 Z2) as S2.
  split; [exact S1|]. split; [exact S2|].
  assert (resolvePair (tcpAddrString (LocalAddr e)) (tcpAddrString (RemoteAddr e)) n = (c_pair e, n)) as Epair.
  { destruct S1 as (_ & _ & _ & h1 & _ & _ & R1), S2 as (_ & _ & _ & h2 & _ & _ & R2). unfold resolvePair, LocalAddr, RemoteAddr.
    by rewrite R1, R2, P3. }
  split; [exact Epair|]. intros n'. unfold Partition. rewrite Epair. intros (u & _ & [= <-])%go_bind_ret.
  cbn [n_part set_part]. unfold isPartitioned, partition_pair. apply bool_decide_eq_true_2.
  destruct (decide _); [done|]. cbn. set_solver.
Qed.
End ends.
