(* ===== verification/SystemProps.v ===== *)
(** * Properties of a Network under any number of concurrent dials *)
From S2P Require Import Prelude GoRuntime Errors Float64 Rand Partition Trace PipeState Faults FaultProps Pipe.
From S2P Require Import PipeInv Deadline Options Conn ConnProps ConnRace NetIP NetIPProps NetIP6 Addr Addressing.
From S2P Require Import Replay Directions Listener Network NetworkInv NetworkFrame NetworkListen NetworkDial DialThreads DialSystem.

Section props.
Context {Src : Type} `{!DrawSource Src} `{!RejectFuel} `{!Platform}.
Implicit Types (n : Network Src) (lk : link Src) (d : dialThread) (ts rest : list dialThread) (pc : dialPC).

(** The invariant of a whole system. From [NewNetwork] on, whatever calls are
    made and however the locked sections of any number of dials are interleaved
    with them and with one another: the listener table is exactly the open
    listeners; no backlog is exceeded; the Reset registry lists exactly the live
    ends of each pair; every connection has an ordinal of its own, and the trace
    registry holds directions of connections once each; the address book stays
    good; every pipe satisfies its own invariant, is under its Network's faults,
    and has its streams and its recorder where an evaluation of writes from the
    derived streams puts them; and slots, ordinals, connections and trace handles
    are accounted for by the dials in progress. *)
Theorem system_invariant (sys : Network Src * list dialThread) :
  reachable sys -> net_ok (fst sys) /\ threads_ok (fst sys) (snd sys).
Proof. by intros [Hok Hth]%reachable_ok. Qed.

(** ** Slots and ordinals *)

(** The ordinals of the connections. *)
Definition conn_ordinals n : list Z := map (fun lk => c_ordinal (lk_client lk)) (n_conns n).

Lemma conn_ordinals_spec n o : o ∈ conn_ordinals n <-> exists i lk, n_conns n !! i = Some lk /\ c_ordinal (lk_client lk) = o.
Proof.
  unfold conn_ordinals. rewrite list_elem_of_fmap. split.
  - intros (lk & -> & [i Hi]%list_elem_of_lookup). by exists i, lk.
  - intros (i & lk & Hi & <-). exists lk. split; [done|]. by eapply list_elem_of_lookup_2.
Qed.

Lemma conn_ordinals_nodup n : net_ok n -> NoDup (conn_ordinals n).
Proof.
  intros Hok. destruct (ok_ordinals _ Hok) as (_ & _ & Hinj). unfold conn_ordinals. apply NoDup_alt. intros i j o Hi Hj.
  rewrite list_lookup_fmap in Hi, Hj. apply fmap_Some in Hi as (lk & Hi & ->), Hj as (lk' & Hj & E). by eapply Hinj.
Qed.

(** Distinct numbers of a range, as many as it has, are the range. *)
Lemma nodup_range (l : list Z) m : NoDup l -> (forall x, x ∈ l -> 0 <= x < m) -> zlen l = m -> forall x, 0 <= x < m -> x ∈ l.
Proof.
  intros Hnd Hin Hlen x Hx.
  assert (l ≡ₚ seqZ 0 m) as ->.
  { apply submseteq_length_Permutation.
    - apply NoDup_submseteq; [done|]. intros y Hy. apply elem_of_seqZ. specialize (Hin y Hy). lia.
    - rewrite length_seqZ. unfold zlen in Hlen. lia. }
  apply elem_of_seqZ. lia.
Qed.

(** C16: slots and ordinals are spent on dials and on nothing else. In every
    reachable state the slots held at a listener are exactly those of the dials
    that stand between reserving and handing off, and of the ones that failed on
    their own name in between, and queue and slots fit in the backlog; and the
    ordinals given out are those of the connections and those of such dials, each
    of them one of the two, once. *)
Theorem slots_and_ordinals n ts :
  reachable (n, ts) ->
  (forall id l, n_heap n !! id = Some l -> l_reserved l = slots_at id ts /\ zlen (l_incoming l) + l_reserved l <= l_cap l) /\
  n_nextOrdinal n = zlen (n_conns n) + zlen (held_ordinals ts) /\
  NoDup (conn_ordinals n ++ held_ordinals ts) /\
  forall o, 0 <= o < n_nextOrdinal n <-> o ∈ conn_ordinals n ++ held_ordinals ts.
Proof.
  intros [Hok Hth]%reachable_ok. cbn in Hok, Hth. destruct (tk_ordinals _ _ Hth) as [Hnd Hheld].
  assert (NoDup (conn_ordinals n ++ held_ordinals ts)) as Hall.
  { apply NoDup_app. split; [by apply conn_ordinals_nodup|]. split; [|done].
    intros o (i & lk & Hi & Eo)%conn_ordinals_spec Ho. by destruct (proj2 (Hheld o Ho) i lk Hi). }
  assert (forall o, o ∈ conn_ordinals n ++ held_ordinals ts -> 0 <= o < n_nextOrdinal n) as Hin.
  { intros o [(i & lk & Hi & <-)%conn_ordinals_spec|Ho]%elem_of_app; [|by apply Hheld].
    by apply (proj1 (proj2 (ok_ordinals _ Hok)) i lk sideDialer). }
  split; [|split; [apply Hth|split; [done|]]].
  - intros id l Hi. split; [by apply Hth|]. by destruct (ok_heap _ Hok id l Hi) as [[_ ?] _].
  - intros o. split; [|apply Hin]. apply nodup_range; [done|done|].
    rewrite zlen_app. unfold conn_ordinals, zlen. rewrite length_map. symmetry. apply Hth.
Qed.

(** ** The trace *)

Lemma handles_elem (conns : list (link Src)) h :
  h ∈ concat (imap handlesAt conns) <-> exists i lk s, conns !! i = Some lk /\ h = handleOf i lk s.
Proof.
  induction conns as [|lk conns IH] using rev_ind.
  { cbn. split; [intros Hh; by apply elem_of_nil in Hh|]. by intros (i & lk & s & E & _). }
  rewrite imap_app, concat_app, elem_of_app, IH. cbn. rewrite Nat.add_0_r. split.
  - intros [(i & lk0 & s & Hi & ->)|Hh]; [exists i, lk0, s; split; [by apply lookup_app_l_Some|done]|].
    exists (length conns), lk. rewrite list_lookup_middle by done.
    apply elem_of_cons in Hh as [->|Hh]; [by exists sideDialer|]. apply list_elem_of_singleton in Hh as ->. by exists sideAcceptor.
  - intros (i & lk0 & s & [Hi|[Hge Hi]]%lookup_app_Some & ->); [left; eauto|right].
    apply list_lookup_singleton_Some in Hi as [Hz <-]. assert (i = length conns) as -> by lia. destruct s; set_solver.
Qed.

Lemma handles_nodup (conns : list (link Src)) next : ordinals_ok conns next -> NoDup (map handle_key (concat (imap handlesAt conns))).
Proof.
  induction conns as [|lk conns IH] using rev_ind; [constructor|]. intros (Hn & Hall & Hinj).
  rewrite imap_app, concat_app, map_app. cbn. rewrite Nat.add_0_r. apply NoDup_app. split_and!.
  - apply IH. split; [done|]. split.
    + intros i lk0 s Hi. apply (Hall i). by apply lookup_app_l_Some.
    + intros i j lk1 lk2 Hi Hj. apply Hinj; by apply lookup_app_l_Some.
  - intros k (h & -> & (i & lk0 & s & Hi & ->)%handles_elem)%list_elem_of_fmap Hk.
    assert (i = length conns) as ->.
    { apply (Hinj i (length conns) lk0 lk); [by apply lookup_app_l_Some|by apply list_lookup_middle|].
      apply elem_of_cons in Hk as [[= -> _]|Hk]; [done|]. by apply list_elem_of_singleton in Hk as [= -> _]. }
    apply lookup_lt_Some in Hi. lia.
  - apply NoDup_cons. split; [by intros [= ]%list_elem_of_singleton|apply NoDup_singleton].
Qed.

(** No dial is between making its connection and registering it for Trace. *)
Definition registered_all ts : Prop := forall d i s, d ∈ ts -> ~ owes i s (dt_pc d).

Lemma traces_perm n ts :
  sys_ok (n, ts) -> n_traceEnabled n = true -> registered_all ts -> n_traces n ≡ₚ concat (imap handlesAt (n_conns n)).
Proof.
  intros [Hok Hth] He Hall. cbn in Hok, Hth. destruct (ok_traces _ Hok) as (_ & Hnd & Hin).
  apply NoDup_Permutation.
  - by apply (NoDup_fmap_1 handle_key).
  - apply (NoDup_fmap_1 handle_key). eapply handles_nodup, ok_ordinals. exact Hok.
  - intros h. rewrite handles_elem. split.
    + intros Hh. destruct (Hin h Hh) as (i & lk & Hi & E). by exists i, lk, (th_side h).
    + intros (i & lk & s & Hi & ->). apply (tk_traces _ _ Hth He i lk s Hi). intros d Hd. by apply Hall.
Qed.

Lemma recorder_good n h : net_ok n -> h ∈ n_traces n -> recorder_ok (recorderOf n (th_rec h)).
Proof.
  intros Hok Hh. destruct (ok_traces _ Hok) as (_ & _ & Hin). destruct (Hin h Hh) as (i & lk & Hi & ->). cbn [handleOf th_rec th_side].
  pose proof (ok_pipes _ Hok i lk Hi (th_side h)) as Hd. pose proof (dir_trace _ _ _ _ _ Hd) as Ht.
  assert (recorderOf n (recorderId i (th_side h)) = default [] (p_trace (writePipe lk (th_side h)))) as ->.
  { unfold recorderOf, recorderId. destruct (th_side h).
    - by rewrite Nat.div2_double, Hi, Nat.even_even.
    - assert (Nat.div2 (2 * i + 1) = i) as -> by (rewrite Nat.add_1_r; apply Nat.div2_succ_double).
      rewrite Hi. by rewrite Nat.even_odd. }
  destruct (de_traced (envOf n)); [destruct Ht as (evs & -> & Hr); exact Hr|rewrite Ht; apply recorder_ok_nil].
Qed.

(** C17: Trace is the sorted list of all that happened, whatever raced. In every
    reachable state Trace is in strict (Ordinal, Side, Seq) order, an event for
    each one in the recorders registered; once no dial stands between making its
    connection and registering it, the result is what it would be if the
    connections had been registered whole and in the order they were made, so it
    misses no direction and owes nothing to the order of registration; and with
    tracing off it is empty. *)
Theorem trace_exact n ts :
  reachable (n, ts) ->
  StronglySorted event_lt (NetworkTrace n) /\
  (n_traceEnabled n = true -> registered_all ts ->
     NetworkTrace n = Trace true (recorderOf n) (concat (imap handlesAt (n_conns n))) /\
     NetworkTrace n ≡ₚ flat_map (fun h => map (exportEvent h) (recorderOf n (th_rec h))) (concat (imap handlesAt (n_conns n)))) /\
  (n_traceEnabled n = false -> NetworkTrace n = []).
Proof.
  intros Hsys%reachable_ok. destruct (Hsys) as [Hok Hth]. cbn in Hok, Hth. destruct (ok_traces _ Hok) as (_ & Hnd & _).
  destruct (Trace_order (recorderOf n) (n_traces n) Hnd (fun h => recorder_good n h Hok)) as (T1 & T2 & T3 & _).
  unfold NetworkTrace. split; [|split].
  - destruct (n_traceEnabled n); [exact T1|constructor].
  - intros He Hall. rewrite He. pose proof (traces_perm n ts Hsys He Hall) as Hp. split.
    + symmetry. apply T3. by rewrite Hp.
    + rewrite T2, Hp. done.
  - by intros ->.
Qed.

(** ** One dial among others *)

(** C13: a dial ends. Whatever the others do between its sections, each section of
    a dial that neither waits for a heal nor has returned runs, without panic, and
    brings it nearer to its end: after at most eleven sections of its own it has
    returned or waits; in particular the hand-off of the connection never blocks. *)
Theorem dial_progress pref pick now n ts (j : nat) d :
  reachable (n, ts) -> ts !! j = Some d -> n_nextOrdinal n + 1 < 2 ^ 64 -> halted (dt_pc d) = false ->
  (pc_rank (dt_pc d) <= 11)%nat /\
  exists pc n', threadStep pref pick now d n = Ret (set_pc d pc, n') /\ (pc_rank pc < pc_rank (dt_pc d))%nat /\
    (pc_rank pc = 0%nat -> halted pc = true) /\ (forall id i, pc <> Sending id i).
Proof.
  intros [Hok Hth]%reachable_ok Hj Hlt Hh. cbn in Hok, Hth.
  destruct (update_perm ts j d d Hj) as (rest & Hp & _).
  destruct (step_advances (P := no_pending) pref pick now d rest n Hlt) as (d' & n' & E & Hsys & Hrank & pc & ->).
  { split; [done|]. by eapply threads_perm. }
  split; [destruct (dt_pc d) as [| | | | | | | |[]| | | | | |]; cbn; lia|].
  exists pc, n'. split; [done|]. split; [by apply Hrank|]. split.
  - destruct pc as [| | | | | | | |[]| | | | | |]; done.
  - intros id i ->. by apply (tk_sending _ _ (so_threads _ Hsys) (set_pc d (Sending id i)) id i ltac:(by left)).
Qed.

Lemma threadRun_S k now d n :
  threadRun (S k) now d n =
  if halted (dt_pc d) then Ret (d, n) else r ← threadStep true id now d n; let '(d, n) := r in threadRun k now d n.
Proof. done. Qed.

Lemma threadRun_halted k now d n : halted (dt_pc d) = true -> threadRun k now d n = Ret (d, n).
Proof. intros Hh. destruct k; [done|]. by rewrite threadRun_S, Hh. Qed.

(** One section, from a thread given by its place. *)
Lemma threadRun_step k now d n d' n' :
  halted (dt_pc d) = false -> threadStep true id now d n = Ret (d', n') -> threadRun (S k) now d n = threadRun k now d' n'.
Proof. intros Hh E. by rewrite threadRun_S, Hh, E. Qed.

(** The end of a dial, section by section. *)
Lemma run_handing now d id i n l :
  dt_pc d = HandingOff id i -> n_heap n !! id = Some l -> backlog_ok l -> 0 < l_reserved l ->
  exists d', threadRun 2 now d n =
    Ret (d', let '(f, l) := fill (i, sideAcceptor) l in
             let n := set_heap n (<[id := l]> (n_heap n)) in
             match f with FillCloses => connClose (i, sideAcceptor) n | _ => n end) /\
    pcResult (dt_pc d') = Some (Dialed (i, sideDialer)).
Proof.
  intros Ed Hi Hb Hres. destruct (fill (i, sideAcceptor) l) as [f l'] eqn:Ef.
  destruct (fill_ok _ _ _ _ Hb Hres Ef) as (_ & Hf & _).
  assert (threadStep true (fun l => l) now d n = Ret (set_pc d (match f with Filled => Connected i | FillCloses => ClosingOff i | FillBlocks => Sending id i end),
    set_heap n (<[id := l']> (n_heap n)))) as E1.
  { unfold threadStep. rewrite Ed, Hi. cbn [deref mbind go_bind]. by rewrite Ef. }
  rewrite (threadRun_step 1 now d n _ _ ltac:(by rewrite Ed) E1). destruct f; [|cbn|done].
  - eexists. by rewrite threadRun_halted by done.
  - eexists. split; done.
Qed.

Lemma dialRegister_publish ordinal pair lk n :
  dialRegister ordinal pair lk n =
  if n_traceEnabled n then
    set_traces (publish pair lk n) (registerTrace ordinal sideAcceptor (recorderId (length (n_conns n)) sideAcceptor)
      (registerTrace ordinal sideDialer (recorderId (length (n_conns n)) sideDialer) (n_traces n)))
  else publish pair lk n.
Proof. done. Qed.

Lemma run_publishing now d req id o ip n l :
  dt_pc d = Publishing req id o ip -> n_heap n !! id = Some l ->
  exists d' k, (k <= 3)%nat /\ dt_pc d' = HandingOff id (length (n_conns n)) /\ set_pc d' (dt_pc d) = d /\
    forall j, threadRun (k + j) now d n = threadRun j now d'
      (let local := mkAddr (dt_network d) (dialName req o) (ephemeralPort o) (Some ip) in
       let remote := mkAddr (dt_network d) (dr_peer req) (addr_port (l_addr l)) (addr_ip (l_addr l)) in
       let pair := newPairKey (dialName req o) (dr_peer req) in
       dialRegister o pair (dialPair local remote o (dt_network d) pair n) n).
Proof.
  intros Ed Hi. cbn zeta. set (pair := newPairKey _ _). set (lk := dialPair _ _ _ _ pair n).
  set (i := length (n_conns n)).
  assert (threadStep true (fun l => l) now d n = Ret (set_pc d (if n_traceEnabled n then Tracing sideDialer id i o else HandingOff id i), publish pair lk n)) as E1.
  { unfold threadStep. rewrite Ed, Hi. done. }
  rewrite dialRegister_publish. destruct (n_traceEnabled n) eqn:Et.
  - exists (set_pc d (HandingOff id i)), 3%nat. split; [lia|]. split; [done|]. split; [by destruct d; cbn in *; subst|]. intros j.
    change (3 + j)%nat with (S (2 + j)). rewrite (threadRun_step (2 + j) now d n _ _ ltac:(by rewrite Ed) E1). done.
  - exists (set_pc d (HandingOff id i)), 1%nat. split; [lia|]. split; [done|]. split; [by destruct d; cbn in *; subst|]. intros j.
    change (1 + j)%nat with (S j). by rewrite (threadRun_step j now d n _ _ ltac:(by rewrite Ed) E1).
Qed.

Lemma threadRun_more k j now d n d' n' :
  threadRun k now d n = Ret (d', n') -> halted (dt_pc d') = true -> (k <= j)%nat -> threadRun j now d n = Ret (d', n').
Proof.
  revert j d n. induction k as [|k IH]; intros j d n E Hh Hle.
  { injection E as -> ->. by apply threadRun_halted. }
  destruct j as [|j]; [lia|]. rewrite threadRun_S in *. destruct (halted (dt_pc d)); [done|].
  apply go_bind_ret in E as ([d1 n1] & E1 & E). rewrite E1. cbn [mbind go_bind]. apply IH; [done|done|lia].
Qed.

Lemma pcResult_halted pc r : pcResult pc = Some r -> halted pc = true.
Proof. by destruct pc. Qed.

Lemma run_connect now d req id n l r n1 :
  dt_pc d = Numbering req id -> n_heap n !! id = Some l -> backlog_ok l -> 0 < l_reserved l ->
  dialConnect (dt_network d) req id l n = Ret (r, n1) ->
  exists d', threadRun 7 now d n = Ret (d', n1) /\
    pcResult (dt_pc d') = Some (match r with inl c => Dialed c | inr err => DialFails (dialOpError (dt_network d) (dt_addr d) err) end).
Proof.
  intros Ed Hi Hb Hres. unfold dialConnect. cbn zeta. set (o := n_nextOrdinal n).
  fold (dialName req o). intros ([q book] & Eq & E)%go_bind_ret.
  set (n0 := set_nextOrdinal n (u64 (o + 1))) in *.
  assert (threadStep true (fun l => l) now d n = Ret (set_pc d (Addressing req id o), n0)) as E1 by (unfold threadStep; by rewrite Ed).
  rewrite (threadRun_step 6 now d n _ _ ltac:(by rewrite Ed) E1).
  assert (threadStep true (fun l => l) now (set_pc d (Addressing req id o)) n0 =
    Ret (set_pc d (match q with inl ip => Publishing req id o ip | inr err => FailedHolding id o (dialOpError (dt_network d) (dt_addr d) err) end), set_book n0 book)) as E2.
  { unfold threadStep. cbn [dt_pc set_pc]. change (n_heap n0) with (n_heap n). rewrite Hi. cbn [deref mbind go_bind]. rewrite Eq. by destruct q. }
  rewrite (threadRun_step 5 now (set_pc d (Addressing req id o)) n0 _ _ eq_refl E2). destruct q as [ip|err].
  2: { injection E as <- <-. eexists. split; [by apply threadRun_halted|done]. }
  set (d1 := set_pc d (Publishing req id o ip)). set (n2 := set_book n0 book) in *.
  destruct (run_publishing now d1 req id o ip n2 l eq_refl Hi) as (d2 & k & Hk & E3 & _ & Hrun).
  cbn zeta in Hrun. change (dt_network d1) with (dt_network d) in Hrun.
  match type of Hrun with forall j, _ = threadRun j now d2 ?m => set (n3 := m) in * end.
  assert (n_heap n3 !! id = Some l) as Hi3 by (unfold n3; by rewrite (proj1 (dialRegister_frame _ _ _ _))).
  destruct (run_handing now d2 id (length (n_conns n2)) n3 l E3 Hi3 Hb Hres) as (d3 & R & P).
  exists d3. rewrite Hi3 in E. destruct (fill _ l) as [f l'] eqn:Ef. cbn zeta in E, R. injection E as <- <-. split; [|exact P].
  apply (threadRun_more (k + 2)); [rewrite Hrun; exact R|by eapply pcResult_halted|lia].
Qed.

End props.
