(* ===== verification/SystemExamples.v ===== *)
(** * Two dials at once: a concrete interleaving, and the witnesses of the
    properties of systems *)
From S2P Require Import Prelude GoRuntime Errors Float64 Rand Partition Trace PipeState Faults FaultProps Pipe.
From S2P Require Import PipeInv Deadline Options Conn ConnProps ConnRace NetIP NetIPProps NetIP6 Addr Addressing.
From S2P Require Import Replay Directions Listener Network NetworkInv NetworkFrame NetworkListen NetworkDial NetworkFaults.
From S2P Require Import NetworkExamples DialThreads DialSystem Ends SystemProps.

(** ** Executable schedules *)

Section schedules.
Context {Src : Type} `{!DrawSource Src} `{!RejectFuel} `{!Platform}.
Implicit Types (sys : Network Src * list dialThread).

(** Thread [j] runs one section. *)
Definition stepAt (j : nat) sys : Network Src * list dialThread :=
  match snd sys !! j with
  | Some d =>
      if n_nextOrdinal (fst sys) + 1 <? 2 ^ 64 then
        match threadStep true (fun l => l) 0 d (fst sys) with
        | Ret (d', n') => (n', <[j := d']> (snd sys))
        | _ => sys
        end
      else sys
  | None => sys
  end.

Definition runAt (js : list nat) sys : Network Src * list dialThread := fold_left (fun sys j => stepAt j sys) js sys.

Lemma stepAt_run j sys : rtc sys_step sys (stepAt j sys).
Proof.
  destruct sys as [n ts]. unfold stepAt. cbn [fst snd]. destruct (ts !! j) as [d|] eqn:Ej; [|apply rtc_refl].
  destruct (Z.ltb_spec (n_nextOrdinal n + 1) (2 ^ 64)) as [Hlt|]; [|apply rtc_refl].
  destruct (threadStep true (fun l => l) 0 d n) as [[d' n']| |] eqn:E; [|apply rtc_refl..].
  apply rtc_once. by apply (sy_thread n ts j d true (fun l => l) 0 d' n').
Qed.

Lemma runAt_run js sys : rtc sys_step sys (runAt js sys).
Proof.
  revert sys. induction js as [|j js IH]; intros sys; [apply rtc_refl|]. cbn [runAt fold_left].
  etransitivity; [apply stepAt_run|apply IH].
Qed.

Lemma reachable_run sys sys' : reachable sys -> rtc sys_step sys sys' -> reachable sys'.
Proof. intros (vs & n & Hvs & E & H1) H2. exists vs, n. split; [done|]. split; [done|]. by etransitivity. Qed.

Lemma reachable_pair sys : reachable sys -> reachable (fst sys, snd sys).
Proof. by destruct sys. Qed.
End schedules.

(** ** A race *)

#[local] Existing Instances example_platform example_fuel.

(** A server on port 80 with room for two; two unnamed dials to it. *)
Definition race_options : list optionValue := [OSeed 7; OBacklog 2].
Definition race_new : Network unit := netOf (NewNetwork (map (fun o => Some (optionOf o)) race_options)).
Definition race_listening : Network unit := stateOf (Listen "tcp" "server:80" race_new).
Definition race_dials : list dialThread := [startDial Background "tcp" "server:80"; startDial Background "tcp" "server:80"].

(** Both resolve, look up, reserve and take their ordinals, 0 and 1; the second
    makes its connection first. *)
Definition race_mid : Network unit * list dialThread :=
  runAt [0; 0; 0; 0; 0; 1; 1; 1; 1; 1; 1; 1]%nat (race_listening, race_dials).

(** Then the first makes its own and both go on in turn to the end. *)
Definition race_end : Network unit * list dialThread := runAt [0; 0; 1; 0; 1; 0; 1; 0; 1]%nat race_mid.

(** A write on either connection, in the order they were made. *)
Definition race_wrote1 : Network unit := stateOf (connWrite 0 (0%nat, sideDialer) [1; 2] (fst race_end)).
Definition race_wrote2 : Network unit := stateOf (connWrite 0 (1%nat, sideDialer) [3] race_wrote1).

Lemma race_typed : Forall option_typed race_options.
Proof. repeat constructor; cbn; unfold is_i64; lia. Qed.

Lemma race_listening_reachable : reachable (race_listening, []).
Proof.
  exists race_options, race_new. split; [exact race_typed|]. split; [vm_compute; reflexivity|].
  apply rtc_once, sy_call, st_section, (st_listen race_new "tcp" "server:80" (inl 0%nat)). vm_compute. reflexivity.
Qed.

Lemma race_started : reachable (race_listening, race_dials).
Proof.
  eapply reachable_run; [exact race_listening_reachable|].
  eapply rtc_l; [apply (sy_dial race_listening [] Background "tcp" "server:80")|].
  eapply rtc_l; [apply (sy_dial race_listening _ Background "tcp" "server:80")|]. apply rtc_refl.
Qed.

Lemma race_mid_reachable : reachable race_mid.
Proof. eapply reachable_run; [exact race_started|apply runAt_run]. Qed.

Lemma race_end_reachable : reachable race_end.
Proof. eapply reachable_run; [exact race_mid_reachable|apply runAt_run]. Qed.

(** In the middle: the first dial holds ordinal 0, the only connection there is
    has ordinal 1, and the second dial is still to register for Trace. *)
Lemma race_mid_shape :
  map dt_pc (snd race_mid) =
    [Addressing (mkDialRequest "server" 80 true None None) 0 0; Tracing sideDialer 0 0 1] /\
  conn_ordinals (fst race_mid) = [1] /\ n_traces (fst race_mid) = [].
Proof. vm_compute. repeat split. Qed.

Lemma race_end_shape :
  map dt_pc (snd race_end) = [Connected 1; Connected 0] /\ conn_ordinals (fst race_end) = [1; 0] /\
  map handle_key (n_traces (fst race_end)) = [(1, sideDialer); (0, sideDialer); (1, sideAcceptor); (0, sideAcceptor)].
Proof. vm_compute. repeat split. Qed.

Lemma wrote_step (n n' : Network unit) ts (i : nat) data r :
  zlen data < 2 ^ 63 -> (forall lk, n_conns n !! i = Some lk -> trace_room (writePipe lk sideDialer)) ->
  connWrite 0 (i, sideDialer) data n = Ret (r, n') -> sys_step (n, ts) (n', ts).
Proof. intros H1 H2 H3. apply sy_call, st_section. by eapply (st_write n 0 (i, sideDialer)). Qed.

(** A recorder whose length is known has room. *)
Lemma room_by_length (lk : link unit) k : (length <$> p_trace (writePipe lk sideDialer)) = Some k -> (k < 100)%nat -> trace_room (writePipe lk sideDialer).
Proof. intros E Hk evs Hevs. rewrite Hevs in E. injection E as <-. unfold zlen. lia. Qed.

Lemma race_wrote_reachable : reachable (race_wrote2, snd race_end).
Proof.
  eapply reachable_run; [exact (reachable_pair _ race_end_reachable)|].
  eapply rtc_l; [apply (wrote_step _ race_wrote1 _ 0 [1; 2] (Some (Return 2 None))); [reflexivity| |vm_compute; reflexivity]|].
  { intros lk Hlk. apply (room_by_length lk 0); [|lia].
    assert (length <$> (n_conns (fst race_end) !! 0%nat ≫= (fun lk => p_trace (writePipe lk sideDialer))) = Some 0%nat) as E by (vm_compute; reflexivity).
    by rewrite Hlk in E. }
  eapply rtc_l; [apply (wrote_step _ race_wrote2 _ 1 [3] (Some (Return 1 None))); [reflexivity| |vm_compute; reflexivity]|apply rtc_refl].
  intros lk Hlk. apply (room_by_length lk 0); [|lia].
  assert (length <$> (n_conns race_wrote1 !! 1%nat ≫= (fun lk => p_trace (writePipe lk sideDialer))) = Some 0%nat) as E by (vm_compute; reflexivity).
  by rewrite Hlk in E.
Qed.

(** ** Witnesses *)

Lemma system_invariant_witness : net_ok (fst race_mid) /\ threads_ok (fst race_mid) (snd race_mid).
Proof. exact (system_invariant race_mid race_mid_reachable). Defined.

(** Both slots are held in the middle, and both ordinals spent. *)
Lemma slots_and_ordinals_witness :
  n_nextOrdinal (fst race_mid) = 2 /\ slots_at 0 (snd race_mid) = 2 /\
  forall o, 0 <= o < 2 <-> o ∈ conn_ordinals (fst race_mid) ++ held_ordinals (snd race_mid).
Proof.
  split; [vm_compute; reflexivity|]. split; [vm_compute; reflexivity|].
  exact (proj2 (proj2 (proj2 (slots_and_ordinals (fst race_mid) (snd race_mid) (reachable_pair _ race_mid_reachable))))).
Defined.

(** The event of ordinal 0 comes first, although its connection was made and
    registered second. *)
Lemma trace_exact_witness :
  map (fun e => (Ordinal e, Size e)) (NetworkTrace race_wrote2) = [(0, 1); (1, 2)] /\
  NetworkTrace race_wrote2 = Trace true (recorderOf race_wrote2) (concat (imap handlesAt (n_conns race_wrote2))).
Proof.
  split; [vm_compute; reflexivity|].
  destruct (trace_exact race_wrote2 (snd race_end) race_wrote_reachable) as (_ & T & _).
  refine (proj1 (T eq_refl _)). intros d i s Hd.
  assert (snd race_end = map (fun pc => set_pc (startDial Background "tcp" "server:80") pc) [Connected 1; Connected 0]) as E by (vm_compute; reflexivity).
  rewrite E in Hd. cbn [map] in Hd. apply elem_of_cons in Hd as [->|Hd]; [exact (fun x => x)|].
  apply list_elem_of_singleton in Hd as ->. exact (fun x => x).
Defined.

Lemma dial_progress_witness :
  exists pc n', threadStep true (fun l => l) 5 (set_pc (startDial Background "tcp" "server:80") (Tracing sideDialer 0 0 1)) (fst race_mid) =
    Ret (set_pc (set_pc (startDial Background "tcp" "server:80") (Tracing sideDialer 0 0 1)) pc, n') /\ (pc_rank pc < 4)%nat.
Proof.
  destruct (dial_progress true (fun l => l) 5 (fst race_mid) (snd race_mid) 1
    (set_pc (startDial Background "tcp" "server:80") (Tracing sideDialer 0 0 1)) (reachable_pair _ race_mid_reachable)
    ltac:(vm_compute; reflexivity) ltac:(vm_compute; reflexivity) eq_refl) as (_ & pc & n' & E & Hr & _).
  exists pc, n'. exact (conj E Hr).
Defined.


(** Connection 0 is the second dial's, whose ordinal is 1. *)
Lemma visible_addresses_witness :
  exists lk, n_conns (fst race_end) !! 0%nat = Some lk /\
    tcpAddrString (LocalAddr (end_of lk sideAcceptor)) = "198.18.0.0:80"%string /\
    snd (LocalAddr (end_of lk sideDialer)) = ephemeralPort (c_ordinal (end_of lk sideAcceptor)).
Proof.
  assert ((fun lk => (tcpAddrString (LocalAddr (end_of lk sideAcceptor)))) <$> (n_conns (fst race_end) !! 0%nat) = Some "198.18.0.0:80"%string) as E
    by (vm_compute; reflexivity).
  destruct (n_conns (fst race_end) !! 0%nat) as [lk|] eqn:Hi; [|discriminate E].
  exists lk. split; [reflexivity|]. split; [injection E; exact (fun x => x)|].
  exact (proj1 (proj2 (proj2 (visible_addresses (fst race_end) (snd race_end) (reachable_pair _ race_end_reachable)) 0%nat lk sideAcceptor Hi))).
Defined.
