(* ===== verification/NetSpec.v ===== *)
(** * What a Network promises: an abstract machine

    A Network as its users see it: listeners with their queues, dials in
    progress, and connections, each two byte streams and the state of its two
    ends. There is no listener table, no reset registry, no ordinal and no seed,
    no timer and no wakeup, no draw and no trace here; what the faults do to a
    write is a choice within the settings. [spec_step] carries as its label what
    a caller sees. *)
From S2P Require Import Prelude GoRuntime Errors Float64 Rand Partition PipeState Faults Pipe PipeInv Options Conn NetIP Addr Addressing Listener.

(** An end of a connection: its connection and its side. *)
Abbreviation endRef := (nat * connSide)%type.

(** ** The state *)

Record specEnd : Type := mkSpecEnd {
  se_network : string;
  se_local : addr;
  se_remote : addr;
  se_closed : bool;
  se_reset : bool;
  se_readBy : Time;      (** the read deadline; zero for none *)
  se_writeBy : Time;
  se_out : byteStream    (** what it writes *)
}.

Record specConn : Type := mkSpecConn {
  sc_pair : pairKey;
  sc_dialer : specEnd;
  sc_acceptor : specEnd
}.

Record specListener : Type := mkSpecListener {
  sl_addr : addr;
  sl_cap : Z;
  sl_open : bool;
  sl_queue : list endRef
}.

(** How far a dial has come. *)
Inductive dialPhase : Type :=
| Dialing
| Kept (id : nat)             (** a place in the queue of listener [id] is kept for it *)
| Made (id i : nat)               (** and connection [i] is made *)
| TurnedAway (i : nat)            (** the listener closed before the connection was queued *)
| Joined (i : nat)
| GivenUp
| GivenUpHolding (id : nat).       (** failed, with the place kept for good *)

Record specDial : Type := mkSpecDial {
  sd_ctx : context;
  sd_network : string;
  sd_addr : string;
  sd_phase : dialPhase
}.

Record netSpec : Type := mkNetSpec {
  ns_listeners : list specListener;
  ns_dials : list specDial;
  ns_conns : list specConn;
  ns_cut : gset pairKey;
  ns_faults : faultConfig;
  ns_book : addrBook;        (** which peer a name stands for, and the peers' addresses *)
  ns_bound : Z
}.

Definition with_listeners (x : list specListener) (N : netSpec) : netSpec :=
  mkNetSpec x (ns_dials N) (ns_conns N) (ns_cut N) (ns_faults N) (ns_book N) (ns_bound N).
Definition with_dials (x : list specDial) (N : netSpec) : netSpec :=
  mkNetSpec (ns_listeners N) x (ns_conns N) (ns_cut N) (ns_faults N) (ns_book N) (ns_bound N).
Definition with_conns (x : list specConn) (N : netSpec) : netSpec :=
  mkNetSpec (ns_listeners N) (ns_dials N) x (ns_cut N) (ns_faults N) (ns_book N) (ns_bound N).
Definition with_cut (x : gset pairKey) (N : netSpec) : netSpec :=
  mkNetSpec (ns_listeners N) (ns_dials N) (ns_conns N) x (ns_faults N) (ns_book N) (ns_bound N).
Definition with_faults (x : faultConfig) (N : netSpec) : netSpec :=
  mkNetSpec (ns_listeners N) (ns_dials N) (ns_conns N) (ns_cut N) x (ns_book N) (ns_bound N).
Definition with_book (x : addrBook) (N : netSpec) : netSpec :=
  mkNetSpec (ns_listeners N) (ns_dials N) (ns_conns N) (ns_cut N) (ns_faults N) x (ns_bound N).

(** ** Connections *)

Definition sc_end (sc : specConn) (s : connSide) : specEnd :=
  match s with sideDialer => sc_dialer sc | sideAcceptor => sc_acceptor sc end.

Definition set_sc_end (s : connSide) (e : specEnd) (sc : specConn) : specConn :=
  match s with
  | sideDialer => mkSpecConn (sc_pair sc) e (sc_acceptor sc)
  | sideAcceptor => mkSpecConn (sc_pair sc) (sc_dialer sc) e
  end.

Definition se_set_out (b : byteStream) (e : specEnd) : specEnd :=
  mkSpecEnd (se_network e) (se_local e) (se_remote e) (se_closed e) (se_reset e) (se_readBy e) (se_writeBy e) b.
Definition se_set_closed (e : specEnd) : specEnd :=
  mkSpecEnd (se_network e) (se_local e) (se_remote e) true (se_reset e) (se_readBy e) (se_writeBy e) (se_out e).
Definition se_set_reset (b : bool) (e : specEnd) : specEnd :=
  mkSpecEnd (se_network e) (se_local e) (se_remote e) (se_closed e) b (se_readBy e) (se_writeBy e) (se_out e).
Definition se_set_deadlines (r w : Time) (e : specEnd) : specEnd :=
  mkSpecEnd (se_network e) (se_local e) (se_remote e) (se_closed e) (se_reset e) r w (se_out e).

Definition on_end (s : connSide) (f : specEnd -> specEnd) (sc : specConn) : specConn := set_sc_end s (f (sc_end sc s)) sc.

(** The stream out of end [w]. *)
Definition stream_out (sc : specConn) (w : connSide) : byteStream := se_out (sc_end sc w).
Definition set_stream (w : connSide) (b : byteStream) (sc : specConn) : specConn := on_end w (se_set_out b) sc.

Definition stream_close (b : byteStream) : byteStream :=
  mkByteStream (bs_ready b) (bs_delayed b) true (bs_aborted b) (bs_ended b).
Definition stream_abort (b : byteStream) : byteStream := mkByteStream [] [] true true (bs_ended b).

(** A Close of end [s]: the peer still gets what was written, and nothing more
    can reach this end. *)
Definition close_end (s : connSide) (sc : specConn) : specConn :=
  if se_closed (sc_end sc s) then sc
  else
    let sc := on_end s se_set_closed sc in
    let sc := set_stream s (stream_close (stream_out sc s)) sc in
    set_stream (other s) (stream_abort (stream_out sc (other s))) sc.

Definition live (e : specEnd) : bool := negb (se_closed e) && negb (se_reset e).

(** A Reset: the live ends are marked; both streams are cut. *)
Definition reset_conn (sc : specConn) : specConn :=
  if live (sc_dialer sc) || live (sc_acceptor sc) then
    let mark e := se_set_out (stream_abort (se_out e)) (se_set_reset (se_reset e || live e) e) in
    mkSpecConn (sc_pair sc) (mark (sc_dialer sc)) (mark (sc_acceptor sc))
  else sc.

Definition close_ref (c : endRef) (N : netSpec) : netSpec :=
  with_conns (alter (close_end (snd c)) (fst c) (ns_conns N)) N.

Definition reset_pair (k : pairKey) (N : netSpec) : netSpec :=
  with_conns (map (fun sc => if decide (sc_pair sc = k) then reset_conn sc else sc) (ns_conns N)) N.

(** What the streams of a connection depend on. *)
Definition spec_params (N : netSpec) (sc : specConn) : streamParams :=
  mkStreamParams (fun _ => ns_faults N) (fun _ => bool_decide (sc_pair sc ∈ ns_cut N)) (ns_bound N)
    (fun _ => bool_decide (sc_pair sc ∈ ns_cut N)).

(** ** Names *)

(** The host [host] stands for the peer [peer]. *)
Definition denotes (book : addrBook) (host peer : string) : Prop := canonicalPeerLocked host book = (peer, book).

Definition pair_named (book : addrBook) (a b : string) (k : pairKey) : Prop :=
  exists pa pb, denotes book (peerName a) pa /\ denotes book (peerName b) pb /\ k = newPairKey pa pb.

(** A listener a dial of [dialAddr] over [network] may be answered by. *)
Record reaches (book : addrBook) (network dialAddr : string) (a : addr) (explicit : bool) : Prop := {
  rc_host : exists host port, splitAddr dialAddr = inl (host, port, explicit) /\ host <> ""%string /\
    denotes book host (addr_peer a) /\ (explicit = true -> addr_port a = port) /\
    (forall ip, parseLiteralIP host = Some ip -> ipEqual (default [] (addr_ip a)) (AsSlice ip) = true);
  rc_family : network = "tcp"%string \/
    addressFamily network (addr_peer a) = addressFamily (addr_network a) (addr_peer a)
}.

(** The one open listener the dial finds: without a port, it has to be the only one. *)
Definition found (N : netSpec) (network dialAddr : string) (id : nat) : Prop :=
  exists l explicit, ns_listeners N !! id = Some l /\ sl_open l = true /\ reaches (ns_book N) network dialAddr (sl_addr l) explicit /\
    (explicit = false -> forall id' l', ns_listeners N !! id' = Some l' -> sl_open l' = true ->
       reaches (ns_book N) network dialAddr (sl_addr l') false -> id' = id).

(** The places kept at listener [id]. *)
Definition phase_holds (ph : dialPhase) : option nat :=
  match ph with Kept id | Made id _ | GivenUpHolding id => Some id | _ => None end.

Definition kept_at (id : nat) (ds : list specDial) : Z :=
  zlen (filter (fun d => phase_holds (sd_phase d) = Some id) ds).

Definition sd_set_phase (ph : dialPhase) (d : specDial) : specDial :=
  mkSpecDial (sd_ctx d) (sd_network d) (sd_addr d) ph.

Definition move_dial (j : nat) (ph : dialPhase) (N : netSpec) : netSpec :=
  with_dials (alter (sd_set_phase ph) j (ns_dials N)) N.

Definition new_stream : byteStream := mkByteStream [] [] false false false.

(** The connection a dial makes with a listener at [a]. *)
Record connects (book : addrBook) (d : specDial) (a : addr) (sc : specConn) : Prop := {
  cn_mirror : forall s, se_local (sc_end sc (other s)) = se_remote (sc_end sc s);
  cn_remote : se_remote (sc_dialer sc) = mkAddr (sd_network d) (addr_peer a) (addr_port a) (addr_ip a);
  cn_network : forall s, se_network (sc_end sc s) = sd_network d;
  cn_local : exists ip, addr_ip (se_local (sc_dialer sc)) = Some ip /\
    ip_of_peer book (addr_peer (se_local (sc_dialer sc))) (addressFamily (addr_network a) (addr_peer a)) ip;
  cn_name : forall name peer, peerNameFromContext (sd_ctx d) = Some name -> denotes book (peerName name) peer ->
    peer <> ""%string -> addr_peer (se_local (sc_dialer sc)) = peer;
  cn_pair : sc_pair sc = newPairKey (addr_peer (se_local (sc_dialer sc))) (addr_peer a);
  cn_fresh : forall s, let e := sc_end sc s in
    (se_closed e = false /\ se_reset e = false /\ se_readBy e = 0 /\ se_writeBy e = 0) /\ se_out e = new_stream
}.

(** The listener a Listen of [laddr] opens. *)
Record opens (N : netSpec) (book : addrBook) (network laddr : string) (l : specListener) : Prop := {
  op_state : sl_open l = true /\ sl_queue l = [];
  op_network : addr_network (sl_addr l) = network;
  op_name : exists host port explicit, splitAddr laddr = inl (host, port, explicit) /\
    (host <> ""%string -> denotes book host (addr_peer (sl_addr l))) /\ (explicit = true -> addr_port (sl_addr l) = port);
  op_addr : settled book (addr_peer (sl_addr l)) /\ 0 <= addr_port (sl_addr l) <= maxPort /\
    exists ip, addr_ip (sl_addr l) = Some ip /\
      ip_of_peer book (addr_peer (sl_addr l)) (addressFamily network (addr_peer (sl_addr l))) ip;
  op_free : forall id l', ns_listeners N !! id = Some l' -> sl_open l' = true ->
    ~ (addr_peer (sl_addr l') = addr_peer (sl_addr l) /\ addr_port (sl_addr l') = addr_port (sl_addr l))
}.

(** ** What callers see *)

(** A Read or Write returns, or blocks. *)
Inductive ioResult (A : Type) : Type :=
| Got (a : A) (err : option goerror)
| Blocks.
Arguments Got {A}.
Arguments Blocks {A}.

Inductive setting : Type :=
| LatencySetting (min max : Duration)
| LossSetting (rate : float64)
| DuplicationSetting (rate : float64)
| CorruptionSetting (rate : float64).

Definition apply_setting (s : setting) (cfg : faultConfig) : faultConfig :=
  match s with
  | LatencySetting min max => set_latencyCfg cfg min max
  | LossSetting rate => set_lossCfg cfg rate
  | DuplicationSetting rate => set_duplicateCfg cfg rate
  | CorruptionSetting rate => set_corruptCfg cfg rate
  end.

Inductive event : Type :=
| ETau                                                      (** nothing *)
| EListen (network laddr : string) (r : nat + goerror)
| ECloseListener (id : nat)
| EAccept (id : nat) (r : @acceptResult endRef)
| EDial (ctx : context) (network dialAddr : string)         (** a dial starts *)
| EDialed (j i : nat)                                       (** dial [j] returns connection [i] *)
| EDialFails (j : nat) (err : goerror)
| ERead (now : Time) (c : endRef) (size : nat) (r : ioResult (list Z))
| EWrite (now : Time) (c : endRef) (data : list Z) (r : ioResult Z)
| EClose (c : endRef)
| ESetDeadlines (c : endRef) (readBy writeBy : option Time) (err : option goerror)
| EPartition (a b : string)
| EHeal (a b : string)
| EReset (a b : string)
| ESetting (s : setting).

(** How a transition of the stream out of end [w] of connection [i] shows. *)
Inductive shows (i : nat) (w : connSide) : label -> event -> Prop :=
| sh_written v data k : shows i w (LWrite v data (Done k None)) (EWrite (nv_now v) (i, w) data (Got k None))
| sh_full v data g : shows i w (LWrite v data (Wait g)) (EWrite (nv_now v) (i, w) data Blocks)
| sh_read v n out : shows i w (LRead v n (Done out None)) (ERead (nv_now v) (i, other w) n (Got out None))
| sh_empty v n g : shows i w (LRead v n (Wait g)) (ERead (nv_now v) (i, other w) n Blocks)
| sh_end v n : shows i w (LRead v n (Done [] (Some EOF))) ETau
| sh_refused v data : shows i w (LWrite v data (Done 0 (Some ErrClosedPipe))) ETau
| sh_release now : shows i w (LRelease now) ETau.

Section steps.
Context `{!Platform}.

Definition end_error (e : specEnd) (op : string) (err : goerror) : goerror :=
  OpError op (se_network e) (Some (se_local e)) (Some (se_remote e)) err.

Definition passed (now by_ : Time) : Prop := by_ <> 0 /\ by_ <= now.

(** The errors a Read on end [s] may return, and when: EOF once the peer has
    closed and everything it wrote has been read. *)
Inductive read_error (sc : specConn) (s : connSide) (now : Time) : goerror -> Prop :=
| re_closed : se_closed (sc_end sc s) = true -> read_error sc s now (end_error (sc_end sc s) "read" ErrClosed)
| re_reset : se_reset (sc_end sc s) = true -> read_error sc s now (end_error (sc_end sc s) "read" errConnReset)
| re_late : passed now (se_readBy (sc_end sc s)) -> read_error sc s now (end_error (sc_end sc s) "read" ErrDeadlineExceeded)
| re_eof :
    se_closed (sc_end sc (other s)) = true -> bs_flight (stream_out sc (other s)) = [] -> se_reset (sc_end sc s) = false ->
    read_error sc s now EOF.

Inductive write_error (sc : specConn) (s : connSide) (now : Time) : goerror -> Prop :=
| we_closed : se_closed (sc_end sc s) = true -> write_error sc s now (end_error (sc_end sc s) "write" ErrClosed)
| we_reset : se_reset (sc_end sc s) = true -> write_error sc s now (end_error (sc_end sc s) "write" errConnReset)
| we_late : passed now (se_writeBy (sc_end sc s)) -> write_error sc s now (end_error (sc_end sc s) "write" ErrDeadlineExceeded)
| we_broken :
    se_closed (sc_end sc (other s)) = true -> se_reset (sc_end sc s) = false ->
    write_error sc s now (end_error (sc_end sc s) "write" errBrokenPipe).

(** Why a dial may fail that has kept no place. *)
Inductive refusal (N : netSpec) (d : specDial) : goerror -> Prop :=
| rf_context now err : ctx_Err now (sd_ctx d) = Some err -> refusal N d err
| rf_network err : validateNetwork (sd_network d) = Some err -> refusal N d err
| rf_address err : splitAddr (sd_addr d) = inr err -> refusal N d err
| rf_host port explicit : splitAddr (sd_addr d) = inl (""%string, port, explicit) -> refusal N d (AddrError "missing host" (sd_addr d))
| rf_nobody : (forall id, ~ found N (sd_network d) (sd_addr d) id) -> refusal N d ErrConnectionRefused
| rf_closed id l explicit :
    ns_listeners N !! id = Some l -> sl_open l = false -> reaches (ns_book N) (sd_network d) (sd_addr d) (sl_addr l) explicit ->
    refusal N d ErrConnectionRefused
| rf_full id l explicit :
    ns_listeners N !! id = Some l -> sl_open l = true -> reaches (ns_book N) (sd_network d) (sd_addr d) (sl_addr l) explicit ->
    zlen (sl_queue l) + kept_at id (ns_dials N) = sl_cap l -> refusal N d ErrBacklogFull.

(** ** The transitions *)

Inductive spec_step : netSpec -> event -> netSpec -> Prop :=
(** Names are settled as they come up. *)
| sp_settle N book : book_le (ns_book N) book -> spec_step N ETau (with_book book N)
(** Listeners. *)
| sp_listen N book network laddr l :
    book_le (ns_book N) book -> opens N book network laddr l ->
    spec_step N (EListen network laddr (inl (length (ns_listeners N)))) (with_listeners (ns_listeners N ++ [l]) (with_book book N))
| sp_listen_fails N book network laddr cause :
    book_le (ns_book N) book ->
    spec_step N (EListen network laddr (inr (OpError "listen" network None (errAddr network laddr) cause))) (with_book book N)
| sp_close_listener N id l :
    ns_listeners N !! id = Some l -> sl_open l = true ->
    spec_step N (ECloseListener id)
      (fold_left (fun N c => close_ref c N) (sl_queue l)
         (with_listeners (<[id := mkSpecListener (sl_addr l) (sl_cap l) false []]> (ns_listeners N)) N))
| sp_close_listener_again N id :
    (forall l, ns_listeners N !! id = Some l -> sl_open l = false) -> spec_step N (ECloseListener id) N
| sp_accept N id l c q :
    ns_listeners N !! id = Some l -> sl_open l = true -> sl_queue l = c :: q ->
    spec_step N (EAccept id (Accepted c))
      (with_listeners (<[id := mkSpecListener (sl_addr l) (sl_cap l) true q]> (ns_listeners N)) N)
| sp_accept_blocks N id l :
    ns_listeners N !! id = Some l -> sl_open l = true -> sl_queue l = [] -> spec_step N (EAccept id AcceptBlocks) N
| sp_accept_closed N id l :
    ns_listeners N !! id = Some l -> sl_open l = false ->
    spec_step N (EAccept id (AcceptErr (OpError "accept" (addr_network (sl_addr l)) None (Some (sl_addr l)) ErrClosed))) N
(** Dials. *)
| sp_dial N ctx network dialAddr :
    spec_step N (EDial ctx network dialAddr) (with_dials (ns_dials N ++ [mkSpecDial ctx network dialAddr Dialing]) N)
| sp_admit N j d id l explicit :
    ns_dials N !! j = Some d -> sd_phase d = Dialing ->
    ns_listeners N !! id = Some l -> sl_open l = true -> zlen (sl_queue l) + kept_at id (ns_dials N) < sl_cap l ->
    reaches (ns_book N) (sd_network d) (sd_addr d) (sl_addr l) explicit ->
    spec_step N ETau (move_dial j (Kept id) N)
| sp_connect N j d id l sc :
    ns_dials N !! j = Some d -> sd_phase d = Kept id -> ns_listeners N !! id = Some l ->
    connects (ns_book N) d (sl_addr l) sc ->
    spec_step N ETau (move_dial j (Made id (length (ns_conns N))) (with_conns (ns_conns N ++ [sc]) N))
| sp_hand_over N j d id i l :
    ns_dials N !! j = Some d -> sd_phase d = Made id i -> ns_listeners N !! id = Some l -> sl_open l = true ->
    spec_step N (EDialed j i)
      (move_dial j (Joined i)
         (with_listeners (<[id := mkSpecListener (sl_addr l) (sl_cap l) true (sl_queue l ++ [(i, sideAcceptor)])]> (ns_listeners N)) N))
| sp_turn_away N j d id i l :
    ns_dials N !! j = Some d -> sd_phase d = Made id i -> ns_listeners N !! id = Some l -> sl_open l = false ->
    spec_step N ETau (move_dial j (TurnedAway i) N)
| sp_dial_closes N j d i :
    ns_dials N !! j = Some d -> sd_phase d = TurnedAway i ->
    spec_step N (EDialed j i) (move_dial j (Joined i) (close_ref (i, sideAcceptor) N))
| sp_dial_fails N j d err :
    ns_dials N !! j = Some d -> sd_phase d = Dialing -> refusal N d err ->
    spec_step N (EDialFails j (OpError "dial" (sd_network d) None (errAddr (sd_network d) (sd_addr d)) err)) (move_dial j GivenUp N)
| sp_dial_fails_holding N book j d id text :
    ns_dials N !! j = Some d -> sd_phase d = Kept id -> book_le (ns_book N) book ->
    spec_step N (EDialFails j (OpError "dial" (sd_network d) None (errAddr (sd_network d) (sd_addr d)) (ErrorString text)))
      (move_dial j (GivenUpHolding id) (with_book book N))
(** Connections. *)
| sp_stream N i w sc l b ev :
    ns_conns N !! i = Some sc -> stream_step (spec_params N sc) (stream_out sc w) l b -> shows i w l ev ->
    spec_step N ev (with_conns (<[i := set_stream w b sc]> (ns_conns N)) N)
| sp_read_fails N now i s sc size err :
    ns_conns N !! i = Some sc -> read_error sc s now err -> spec_step N (ERead now (i, s) size (Got [] (Some err))) N
| sp_write_fails N now i s sc data err :
    ns_conns N !! i = Some sc -> write_error sc s now err -> spec_step N (EWrite now (i, s) data (Got 0 (Some err))) N
| sp_close N c : spec_step N (EClose c) (close_ref c N)
| sp_deadlines N i s sc r w :
    ns_conns N !! i = Some sc -> se_closed (sc_end sc s) = false ->
    spec_step N (ESetDeadlines (i, s) r w None)
      (with_conns (<[i := on_end s (fun e => se_set_deadlines (default (se_readBy e) r) (default (se_writeBy e) w) e) sc]> (ns_conns N)) N)
| sp_deadlines_closed N i s sc r w :
    ns_conns N !! i = Some sc -> se_closed (sc_end sc s) = true ->
    spec_step N (ESetDeadlines (i, s) r w (Some (end_error (sc_end sc s) "set" ErrClosed))) N
(** Faults. *)
| sp_partition N book a b k :
    book_le (ns_book N) book -> pair_named book a b k ->
    spec_step N (EPartition a b) (with_cut ({[k]} ∪ ns_cut N) (with_book book N))
| sp_heal N book a b k :
    book_le (ns_book N) book -> pair_named book a b k ->
    spec_step N (EHeal a b) (with_cut (ns_cut N ∖ {[k]}) (with_book book N))
| sp_reset N book a b k :
    book_le (ns_book N) book -> pair_named book a b k -> spec_step N (EReset a b) (reset_pair k (with_book book N))
| sp_setting N s : spec_step N (ESetting s) (with_faults (apply_setting s (ns_faults N)) N).

(** The runs of the machine, with what is seen of them. *)
Inductive spec_run : netSpec -> list event -> netSpec -> Prop :=
| srun_nil N : spec_run N [] N
| srun_snoc N evs N1 ev N2 : spec_run N evs N1 -> spec_step N1 ev N2 -> spec_run N (evs ++ [ev]) N2.

End steps.

(** Nothing listens, nothing is connected. *)
Definition empty_spec (cut : gset pairKey) (cfg : faultConfig) (book : addrBook) (bound : Z) : netSpec :=
  mkNetSpec [] [] [] cut cfg book bound.
