(* ===== verification/NetSpecProps.v ===== *)
(** * Properties of the abstract machine

    What its transitions do to connections, the invariant of a connection, and
    what a run says of the bytes of a stream and of the connections that dials
    return and listeners accept. *)
From S2P Require Import Prelude GoRuntime Errors Float64 Rand Partition PipeState Faults FaultProps Pipe PipeInv Options Conn ConnProps NetIP Addr Addressing.
From S2P Require Import Listener NetSpec.

(** ** Equations *)

Lemma sc_end_on_end s t f sc : sc_end (on_end s f sc) t = if decide (t = s) then f (sc_end sc s) else sc_end sc t.
Proof. by destruct s, t. Qed.

Lemma stream_out_set w u b sc : stream_out (set_stream w b sc) u = if decide (u = w) then b else stream_out sc u.
Proof. by destruct w, u. Qed.

Lemma other_ne s : other s <> s.
Proof. by destruct s. Qed.

Lemma sc_pair_on_end s f sc : sc_pair (on_end s f sc) = sc_pair sc.
Proof. by destruct s. Qed.

(** ** How a connection moves *)

Inductive conn_move (sc : specConn) : specConn -> Prop :=
| cm_stream P w l b :
    stream_step P (stream_out sc w) l b -> l <> LClose -> l <> LAbort -> conn_move sc (set_stream w b sc)
| cm_close s : conn_move sc (close_end s sc)
| cm_reset : conn_move sc (reset_conn sc)
| cm_deadlines s r w : conn_move sc (on_end s (fun e => se_set_deadlines r w e) sc).

Definition fresh_conn (sc : specConn) : Prop :=
  forall s, se_closed (sc_end sc s) = false /\ se_reset (sc_end sc s) = false /\ stream_out sc s = new_stream.

(** Every connection of the later state is a new one, or comes from an earlier
    one by moves; none goes away. *)
Record conns_move (cs cs' : list specConn) : Prop := {
  mv_back : forall i sc', cs' !! i = Some sc' ->
    (exists sc, cs !! i = Some sc /\ rtc conn_move sc sc') \/ (cs !! i = None /\ fresh_conn sc');
  mv_kept : (length cs <= length cs')%nat
}.

Lemma conns_move_refl cs : conns_move cs cs.
Proof. split; [|done]. intros i sc Hi. left. exists sc. split; [done|apply rtc_refl]. Qed.

Lemma conns_move_insert cs (i : nat) sc sc' : cs !! i = Some sc -> rtc conn_move sc sc' -> conns_move cs (<[i := sc']> cs).
Proof.
  intros Hi Hm. split; [|by rewrite length_insert]. intros j sc0 [(<- & <- & _)|[_ Hj]]%list_lookup_insert_Some; [by eauto|].
  left. exists sc0. split; [done|apply rtc_refl].
Qed.

Lemma conns_move_alter cs (i : nat) f : (forall sc, rtc conn_move sc (f sc)) -> conns_move cs (alter f i cs).
Proof.
  intros Hf. split; [|by rewrite length_alter]. intros j sc0. destruct (decide (i = j)) as [<-|Hne].
  - rewrite list_lookup_alter_eq. intros (sc & Hi & ->)%fmap_Some. eauto.
  - rewrite list_lookup_alter_ne by done. intros Hj. left. exists sc0. split; [done|apply rtc_refl].
Qed.

Lemma conns_move_map cs f : (forall sc, rtc conn_move sc (f sc)) -> conns_move cs (map f cs).
Proof.
  intros Hf. split; [|by rewrite length_map]. intros j sc0 (sc & -> & Hj)%list_lookup_fmap_Some. eauto.
Qed.

Lemma conns_move_app cs sc : fresh_conn sc -> conns_move cs (cs ++ [sc]).
Proof.
  intros Hf. split; [|rewrite length_app; lia]. intros i sc0 [Hi|[Hge Hi]]%lookup_app_Some.
  - left. exists sc0. split; [done|apply rtc_refl].
  - right. apply list_lookup_singleton_Some in Hi as [_ <-]. split; [by apply lookup_ge_None|done].
Qed.

(** A fresh connection that has moved need not look fresh. *)
Lemma conns_move_closes (cs : list endRef) N :
  conns_move (ns_conns N) (ns_conns (fold_left (fun N c => close_ref c N) cs N)) .
Proof.
  revert N. induction cs as [|c cs IH]; intros N; [apply conns_move_refl|]. cbn [fold_left].
  destruct (IH (close_ref c N)) as [Hb Hk]. cbn [close_ref with_conns ns_conns] in Hb, Hk. rewrite length_alter in Hk.
  split; [|done]. intros i sc' [(sc & Hi & Hm)|[Hi Hf]]%Hb.
  - left. destruct (decide (fst c = i)) as [<-|Hne].
    + rewrite list_lookup_alter_eq in Hi. apply fmap_Some in Hi as (sc0 & Hi & ->). exists sc0. split; [done|].
      eapply rtc_l; [apply (cm_close sc0 (snd c))|done].
    + rewrite list_lookup_alter_ne in Hi by done. eauto.
  - right. split; [|done]. apply lookup_ge_None. apply lookup_ge_None in Hi. by rewrite length_alter in Hi.
Qed.

Lemma closes_frame (cs : list endRef) N :
  let N' := fold_left (fun N c => close_ref c N) cs N in
  ns_listeners N' = ns_listeners N /\ ns_dials N' = ns_dials N /\ ns_cut N' = ns_cut N /\ ns_faults N' = ns_faults N /\
  ns_book N' = ns_book N /\ ns_bound N' = ns_bound N.
Proof. revert N. induction cs as [|c cs IH]; intros N; [done|]. cbn [fold_left]. by apply (IH (close_ref c N)). Qed.

Lemma shows_plain i w l ev : shows i w l ev -> l <> LClose /\ l <> LAbort.
Proof. by destruct 1. Qed.

(** ** What never goes back *)

(** What a transition of a stream leaves of its flags. *)
Lemma stream_step_flags P b l b' :
  stream_step P b l b' -> l <> LClose -> l <> LAbort ->
  bs_closed b' = bs_closed b /\ bs_aborted b' = bs_aborted b /\ (bs_ended b = true -> bs_ended b' = true).
Proof. intros Hst Hc Ha. by destruct Hst. Qed.

Record stream_le (b b' : byteStream) : Prop := {
  sle_closed : bs_closed b = true -> bs_closed b' = true;
  sle_aborted : bs_aborted b = true -> bs_aborted b' = true;
  sle_ended : bs_ended b = true -> bs_ended b' = true
}.

Record end_le (e e' : specEnd) : Prop := {
  ele_id : se_network e' = se_network e /\ se_local e' = se_local e /\ se_remote e' = se_remote e;
  ele_closed : se_closed e = true -> se_closed e' = true;
  ele_reset : se_reset e = true -> se_reset e' = true;
  ele_out : stream_le (se_out e) (se_out e')
}.

Record conn_le (sc sc' : specConn) : Prop := {
  cle_pair : sc_pair sc' = sc_pair sc;
  cle_ends : forall s, end_le (sc_end sc s) (sc_end sc' s)
}.

Lemma stream_le_refl b : stream_le b b.
Proof. by split. Qed.

Lemma end_le_refl e : end_le e e.
Proof. by split. Qed.

Lemma conn_le_refl sc : conn_le sc sc.
Proof. split; [done|]. intros s. apply end_le_refl. Qed.

Lemma conn_le_trans sc1 sc2 sc3 : conn_le sc1 sc2 -> conn_le sc2 sc3 -> conn_le sc1 sc3.
Proof.
  intros [P1 E1] [P2 E2]. split; [congruence|]. intros s. destruct (E1 s) as [(A1 & A2 & A3) A4 A5 [A6 A7 A8]], (E2 s) as [(B1 & B2 & B3) B4 B5 [B6 B7 B8]].
  split; [split_and!; congruence|auto|auto|split; auto].
Qed.

#[local] Hint Resolve stream_le_refl end_le_refl conn_le_refl : core.

Lemma conn_le_on_end s f sc : end_le (sc_end sc s) (f (sc_end sc s)) -> conn_le sc (on_end s f sc).
Proof.
  intros Hf. split; [apply sc_pair_on_end|]. intros t. rewrite sc_end_on_end. by destruct (decide (t = s)) as [->|].
Qed.

Lemma conn_le_stream w b sc : stream_le (stream_out sc w) b -> conn_le sc (set_stream w b sc).
Proof. intros Hb. apply conn_le_on_end. by split. Qed.

Lemma close_end_le s sc : conn_le sc (close_end s sc).
Proof.
  unfold close_end. destruct (se_closed _); [done|]. eapply conn_le_trans; [apply (conn_le_on_end s se_set_closed sc); by split|].
  eapply conn_le_trans; apply conn_le_stream; by split.
Qed.

Lemma reset_conn_le sc : conn_le sc (reset_conn sc).
Proof.
  unfold reset_conn. destruct (_ || _); [|done]. split; [done|].
  intros []; cbn; (split; [done|done| |by split]); cbn; by intros ->.
Qed.

Lemma conn_move_le sc sc' : conn_move sc sc' -> conn_le sc sc'.
Proof.
  intros Hm. destruct Hm as [P w l b Hst Hc Ha|s| |s r w].
  - apply conn_le_stream. destruct (stream_step_flags _ _ _ _ Hst Hc Ha) as (E1 & E2 & E3). split; [by rewrite E1|by rewrite E2|done].
  - apply close_end_le.
  - apply reset_conn_le.
  - apply (conn_le_on_end s (fun e => se_set_deadlines r w e)). by split.
Qed.

Lemma conn_moves_le sc sc' : rtc conn_move sc sc' -> conn_le sc sc'.
Proof. induction 1 as [|sc1 sc2 sc3 Hm _ IH]; [done|]. eapply conn_le_trans; [by apply conn_move_le|done]. Qed.

(** ** The invariant of a connection *)

Definition se_marked (e : specEnd) : Prop := se_closed e = true \/ se_reset e = true.

(** A stream is cut because its reader closed, or by a Reset, which leaves no
    end unmarked; otherwise it ends because its writer closed; and its reader is
    told so when there is nothing left to read. *)
Record conn_sane (sc : specConn) : Prop := {
  sane_aborted : forall w, bs_aborted (stream_out sc w) = true ->
    se_closed (sc_end sc (other w)) = true \/ (se_marked (sc_end sc w) /\ se_marked (sc_end sc (other w)));
  sane_closed : forall w, bs_closed (stream_out sc w) = true -> bs_aborted (stream_out sc w) = true \/ se_closed (sc_end sc w) = true;
  sane_ended : forall w, bs_ended (stream_out sc w) = true -> se_closed (sc_end sc w) = true /\ bs_flight (stream_out sc w) = [];
  sane_refuses : forall w, se_closed (sc_end sc w) = true -> bs_closed (stream_out sc w) = true
}.

Lemma fresh_sane sc : fresh_conn sc -> conn_sane sc.
Proof.
  intros Hf. split; intros w; destruct (Hf w) as (E1 & E2 & E3); rewrite ?E3, ?E1; done.
Qed.

(** A reader is told the end of a closed stream with nothing left in it, and it
    stays so. *)
Lemma stream_step_ended P b l b' :
  stream_step P b l b' -> bs_ended b' = true ->
  (bs_ended b = true /\ (bs_flight b = [] -> bs_closed b = true -> bs_flight b' = [])) \/
  (bs_closed b = true /\ bs_aborted b = false /\ bs_flight b' = []).
Proof.
  unfold bs_flight. intros Hst. destruct Hst; cbn; intros Hb; auto; left; (split; [done|]); try done.
  - rewrite <- app_assoc. by intros [_ ?]%app_eq_nil.
  - by rewrite concat_app, app_assoc.
Qed.

(** A transition of the stream that keeps it sane. *)
Lemma sane_stream P w l b sc :
  conn_sane sc -> stream_step P (stream_out sc w) l b -> l <> LClose -> l <> LAbort -> conn_sane (set_stream w b sc).
Proof.
  intros [H1 H2 H3 H4] Hst Hc Ha. destruct (stream_step_flags _ _ _ _ Hst Hc Ha) as (E1 & E2 & _).
  assert (forall t, se_closed (sc_end (set_stream w b sc) t) = se_closed (sc_end sc t) /\
    se_reset (sc_end (set_stream w b sc) t) = se_reset (sc_end sc t)) as He by (by intros []; destruct w).
  assert (bs_ended b = true -> se_closed (sc_end sc w) = true /\ bs_flight b = []) as H3'.
  { intros Hb. destruct (stream_step_ended _ _ _ _ Hst Hb) as [[Hb0 Hfl]|(Hc0 & Ha0 & Hfl)].
    - destruct (H3 w Hb0) as [Hcl Hf]. split; [done|]. apply Hfl; [done|by apply H4].
    - split; [|done]. destruct (H2 w Hc0); [congruence|done]. }
  split; intros t; unfold se_marked; rewrite stream_out_set; rewrite ?(proj1 (He _)), ?(proj2 (He _));
    destruct (decide (t = w)) as [->|]; rewrite ?E1, ?E2; auto.
Qed.

Lemma sane_close s sc : conn_sane sc -> conn_sane (close_end s sc).
Proof.
  intros [H1 H2 H3 H4]. unfold close_end. destruct (se_closed (sc_end sc s)) eqn:Ec; [done|].
  pose proof (H1 s) as A1. pose proof (H1 (other s)) as A2. pose proof (H3 s) as B1. pose proof (H3 (other s)) as B2.
  pose proof (H2 s) as D1. pose proof (H2 (other s)) as D2.
  split; intros w; destruct s, w; cbn in *; unfold se_marked in *; cbn in *; try tauto; try (by auto); try (intros Hx; by destruct (B1 Hx)); try (intros Hx; by destruct (B2 Hx)).
Qed.

Lemma sane_reset sc : conn_sane sc -> conn_sane (reset_conn sc).
Proof.
  intros Hs. unfold reset_conn. destruct (live (sc_dialer sc) || live (sc_acceptor sc)) eqn:El; [|done].
  assert (forall e, se_closed e = true \/ se_reset e || live e = true) as Hmark.
  { intros e. unfold live. destruct (se_closed e), (se_reset e); auto. }
  destruct Hs as [_ _ H3 _]. pose proof (H3 sideDialer) as B1. pose proof (H3 sideAcceptor) as B2.
  split; intros []; cbn in *; unfold se_marked; cbn; try (by auto); intros Hx; (split; [|done]).
  - by destruct (B1 Hx).
  - by destruct (B2 Hx).
Qed.

Lemma conn_move_sane sc sc' : conn_move sc sc' -> conn_sane sc -> conn_sane sc'.
Proof.
  intros Hm Hs. destruct Hm as [P w l b Hst Hc Ha|s| |s r w].
  - by eapply sane_stream.
  - by apply sane_close.
  - by apply sane_reset.
  - destruct Hs as [H1 H2 H3 H4]. pose proof (H1 sideDialer). pose proof (H1 sideAcceptor). pose proof (H3 sideDialer). pose proof (H3 sideAcceptor).
    pose proof (H2 sideDialer). pose proof (H2 sideAcceptor). pose proof (H4 sideDialer). pose proof (H4 sideAcceptor).
    split; intros t; by destruct s, t.
Qed.

Definition all_sane (cs : list specConn) : Prop := forall i sc, cs !! i = Some sc -> conn_sane sc.

Lemma conns_move_sane cs cs' : conns_move cs cs' -> all_sane cs -> all_sane cs'.
Proof.
  intros [Hb _] Hs i sc' Hi. destruct (Hb i sc' Hi) as [(sc & Hi0 & Hm)|[_ Hf]]; [|by apply fresh_sane].
  pose proof (Hs i sc Hi0) as Hsane. clear Hi Hi0. induction Hm as [|sc1 sc2 sc3 Hm _ IH]; [done|]. apply IH. by eapply conn_move_sane.
Qed.

Lemma conns_move_le cs cs' (i : nat) sc :
  conns_move cs cs' -> cs !! i = Some sc -> exists sc', cs' !! i = Some sc' /\ conn_le sc sc'.
Proof.
  intros [Hb Hk] Hi. destruct (lookup_lt_is_Some_2 cs' i) as [sc' Hi']; [apply lookup_lt_Some in Hi; lia|].
  exists sc'. split; [done|]. destruct (Hb i sc' Hi') as [(sc0 & Hi0 & Hm)|[Hn _]]; [|congruence].
  rewrite Hi in Hi0. injection Hi0 as <-. by apply conn_moves_le.
Qed.

Section props.
Context `{!Platform}.

Lemma spec_step_conns N ev N' : spec_step N ev N' -> conns_move (ns_conns N) (ns_conns N').
Proof.
  intros Hst. destruct Hst as [N book Hle|N book network laddr l Hle Ho|N book network laddr cause Hle|N id l Hi Ho|N id Hno
    |N id l c q Hi Ho Hq|N id l Hi Ho Hq|N id l Hi Ho|N ctx network a|N j d id l explicit Hj Hp Hi Ho Hroom Hr|N j d id l sc Hj Hp Hi Hc
    |N j d id i l Hj Hp Hi Ho|N j d id i l Hj Hp Hi Ho|N j d i Hj Hp|N j d err Hj Hp Hr|N book j d id text Hj Hp Hle
    |N i w sc l b ev Hi Hs Hsh|N now i s sc size err Hi He|N now i s sc data err Hi He|N c|N i s sc r w Hi Hc|N i s sc r w Hi Hc
    |N book a b k Hle Hk|N book a b k Hle Hk|N book a b k Hle Hk|N s]; try apply conns_move_refl.
  - apply (conns_move_closes (sl_queue l) (with_listeners _ N)).
  - apply conns_move_app. intros s. destruct (cn_fresh _ _ _ _ Hc s) as [(H1 & H2 & _) H3]. by split_and!.
  - apply conns_move_alter. intros sc. apply rtc_once, cm_close.
  - apply (conns_move_insert _ i sc); [done|]. destruct (shows_plain _ _ _ _ Hsh). by eapply rtc_once, cm_stream.
  - apply conns_move_alter. intros sc. apply rtc_once, cm_close.
  - apply (conns_move_insert _ i sc); [done|]. apply rtc_once.
    apply (cm_deadlines sc s (default (se_readBy (sc_end sc s)) r) (default (se_writeBy (sc_end sc s)) w)).
  - apply conns_move_map. intros sc. destruct (decide _); [apply rtc_once, cm_reset|apply rtc_refl].
Qed.

(** Names keep what they stand for, listeners their addresses. *)
Lemma spec_step_grows N ev N' :
  spec_step N ev N' ->
  book_le (ns_book N) (ns_book N') /\
  forall (id : nat) l, ns_listeners N !! id = Some l -> exists l', ns_listeners N' !! id = Some l' /\ sl_addr l' = sl_addr l.
Proof.
  assert (forall (id0 : nat) l0 l0' (ls : list specListener), ls !! id0 = Some l0 -> sl_addr l0' = sl_addr l0 ->
    forall (id : nat) l, ls !! id = Some l -> exists l', <[id0 := l0']> ls !! id = Some l' /\ sl_addr l' = sl_addr l) as Hins.
  { intros id0 l0 l0' ls H0 Ea id l Hi. destruct (decide (id0 = id)) as [<-|Hne].
    - exists l0'. rewrite list_lookup_insert_eq by (by eapply lookup_lt_Some). split; [done|congruence].
    - exists l. by rewrite list_lookup_insert_ne. }
  intros Hst. destruct Hst as [N book Hle|N book network laddr l0 Hle Ho|N book network laddr cause Hle|N id0 l0 Hi Ho|N id0 Hno
    |N id0 l0 c q Hi Ho Hq|N id0 l0 Hi Ho Hq|N id0 l0 Hi Ho|N ctx network a|N j d id0 l0 explicit Hj Hp Hi Ho Hroom Hr|N j d id0 l0 sc Hj Hp Hi Hc
    |N j d id0 i l0 Hj Hp Hi Ho|N j d id0 i l0 Hj Hp Hi Ho|N j d i Hj Hp|N j d err Hj Hp Hr|N book j d id0 text Hj Hp Hle
    |N i w sc lb b ev Hi Hs Hsh|N now i s sc size err Hi He|N now i s sc data err Hi He|N c|N i s sc r w Hi Hc|N i s sc r w Hi Hc
    |N book a b k Hle Hk|N book a b k Hle Hk|N book a b k Hle Hk|N s]; cbn; try (split; [done|]; intros id l Hl; by exists l).
  - split; [done|]. intros id l Hl. exists l. split; [by apply lookup_app_l_Some|done].
  - destruct (closes_frame (sl_queue l0) (with_listeners (<[id0 := mkSpecListener (sl_addr l0) (sl_cap l0) false []]> (ns_listeners N)) N)) as (-> & _ & _ & _ & -> & _).
    split; [done|]. cbn. by apply (Hins id0 l0).
  - split; [done|]. by apply (Hins id0 l0).
  - split; [done|]. by apply (Hins id0 l0).
Qed.

Lemma spec_run_sane N evs N' : spec_run N evs N' -> all_sane (ns_conns N) -> all_sane (ns_conns N').
Proof.
  induction 1 as [N|N evs N1 ev N2 _ IH Hst]; [done|]. intros Hs. eapply conns_move_sane; [by eapply spec_step_conns|by apply IH].
Qed.
End props.
