(* ===== verification/NetTrace.v ===== *)
(** * What a run of the abstract machine says of the bytes of a stream

    Every byte read comes from a write on the other end of the same connection,
    in order, through the faults in force when it was written; an end of stream
    means that nothing is missing. *)
From S2P Require Import Prelude GoRuntime Errors Float64 Rand Partition PipeState Faults FaultProps Pipe PipeInv Options Conn ConnProps.
From S2P Require Import NetIP Addr Addressing Listener NetSpec NetSpecProps.

(** ** What events say of the stream out of the end [c] *)

Definition sent_by (c : endRef) (ev : event) : option (list Z) :=
  match ev with
  | EWrite _ c' data (Got _ None) => if decide (c' = c) then Some data else None
  | _ => None
  end.

Definition got_by (c : endRef) (ev : event) : list Z :=
  match ev with
  | ERead _ c' _ (Got out None) => if decide (c' = (fst c, other (snd c))) then out else []
  | _ => []
  end.

(** The payloads accepted from writers, and the bytes handed to readers. *)
Definition sent (c : endRef) (evs : list event) : list (list Z) := omap (sent_by c) evs.
Definition received (c : endRef) (evs : list event) : list Z := concat (map (got_by c) evs).

(** The units one payload may have become. *)
Definition carried_as (data : list Z) (us : list (list Z)) : Prop :=
  us = [] \/ exists d, (d = data \/ exists bi ti, one_bit_flipped data d bi ti) /\ (us = [d] \/ us = [d; d]).

Lemma transmission_carried cfg gate data us : transmission cfg gate data us -> carried_as data us.
Proof.
  unfold transmission, carried_as. destruct gate; [by left|]. intros [[_ ->]|(d & Hd & Hus)]; [by left|right].
  exists d. split; [destruct Hd as [->|[_ ?]]; auto|]. by destruct Hus as [->|[_ ->]]; auto.
Qed.

(** Settings and events under which nothing is lost, doubled or damaged. *)
Definition faithful (cfg : faultConfig) : Prop :=
  lossEnabled cfg = false /\ duplicateEnabled cfg = false /\ corruptEnabled cfg = false.

Definition harmless (ev : event) : Prop :=
  match ev with
  | EPartition _ _ | ESetting (LossSetting _) | ESetting (DuplicationSetting _) | ESetting (CorruptionSetting _) => False
  | _ => True
  end.

Lemma transmission_faithful cfg data us : faithful cfg -> transmission cfg false data us -> us = [data].
Proof.
  intros (H1 & H2 & H3) [[Hl _]|(d & Hd & Hus)]; [congruence|].
  destruct Hd as [->|[Hc _]]; [|congruence]. by destruct Hus as [->|[Hdu _]]; [|congruence].
Qed.

(** ** One event *)

Inductive stream_change (R : list Z -> list (list Z) -> Prop) (c : endRef) (ev : event) (b b' : byteStream) : Prop :=
| sc_idle :
    sent_by c ev = None -> got_by c ev = [] ->
    (bs_flight b' = bs_flight b /\ bs_aborted b' = bs_aborted b) \/ bs_aborted b' = true -> stream_change R c ev b b'
| sc_sent data us :
    sent_by c ev = Some data -> got_by c ev = [] -> R data us ->
    bs_aborted b = false -> bs_flight b' = bs_flight b ++ concat us -> stream_change R c ev b b'
| sc_got :
    sent_by c ev = None -> bs_aborted b = false -> bs_flight b = got_by c ev ++ bs_flight b' -> stream_change R c ev b b'.

Definition silent (c : endRef) (ev : event) : Prop := sent_by c ev = None /\ got_by c ev = [].

Lemma shows_elsewhere i w l ev c : shows i w l ev -> c <> (i, w) -> silent c ev.
Proof.
  intros Hs Hne. unfold silent. destruct Hs; cbn; try done.
  - split; [|done]. by rewrite decide_False.
  - split; [done|]. rewrite decide_False; [done|]. intros [= -> E]. apply Hne. destruct c as [j u]. cbn in *. by destruct w, u.
Qed.

Lemma shows_here P i w l ev b b' :
  shows i w l ev -> stream_step P b l b' ->
  stream_change (fun data us => exists v, transmission (sp_config P v) (sp_gate P v) data us) (i, w) ev b b'.
Proof.
  intros Hs Hst. destruct Hs as [v data k|v data g|v n out|v n g|v n|v data|now]; unfold bs_flight; inversion Hst; subst; cbn in *.
  - apply sc_sent with (data := data) (us := us); unfold bs_flight; cbn; rewrite ?decide_True by done; try done; [by exists v|].
    by rewrite !app_nil_r.
  - apply sc_sent with (data := data) (us := us); unfold bs_flight; cbn; rewrite ?decide_True by done; try done; [by exists v|].
    by rewrite concat_app, app_assoc.
  - by apply sc_idle; auto.
  - apply sc_got; unfold bs_flight; cbn; rewrite ?decide_True by done; try done. by rewrite app_assoc.
  - by apply sc_idle; auto.
  - by apply sc_idle; auto.
  - by apply sc_idle; auto.
  - by apply sc_idle; auto.
  - apply sc_idle; [done|done|]. left. unfold bs_flight. cbn. by rewrite concat_app, app_assoc.
Qed.

(** A Close or a Reset puts nothing into a stream: it leaves what is in flight or
    drops it all. *)
Definition settles (sc sc' : specConn) : Prop :=
  forall w, (bs_flight (stream_out sc' w) = bs_flight (stream_out sc w) /\ bs_aborted (stream_out sc' w) = bs_aborted (stream_out sc w)) \/
    bs_aborted (stream_out sc' w) = true.

Lemma settles_refl sc : settles sc sc.
Proof. intros w. by left. Qed.

Lemma settles_trans sc1 sc2 sc3 : conn_le sc2 sc3 -> settles sc1 sc2 -> settles sc2 sc3 -> settles sc1 sc3.
Proof.
  intros [_ Hle] H12 H23 w. destruct (H23 w) as [[E1 E2]|?]; [|by right]. destruct (H12 w) as [[E3 E4]|Ha].
  - left. by rewrite E1, E2.
  - right. rewrite E2. done.
Qed.

Lemma close_settles s sc : settles sc (close_end s sc).
Proof. unfold close_end. destruct (se_closed _); [apply settles_refl|]. intros w. destruct s, w; cbn; auto. Qed.

Lemma reset_settles sc : settles sc (reset_conn sc).
Proof. unfold reset_conn. destruct (_ || _); [|apply settles_refl]. intros []; by right. Qed.

Lemma closes_settle (cs : list endRef) N (i : nat) sc :
  ns_conns N !! i = Some sc ->
  exists sc', ns_conns (fold_left (fun N c => close_ref c N) cs N) !! i = Some sc' /\ conn_le sc sc' /\ settles sc sc'.
Proof.
  revert N sc. induction cs as [|c cs IH]; intros N sc Hi; [exists sc; split; [done|]; split; [apply conn_le_refl|apply settles_refl]|].
  cbn [fold_left].
  assert (exists sc1, ns_conns (close_ref c N) !! i = Some sc1 /\ conn_le sc sc1 /\ settles sc sc1) as (sc1 & H1 & L1 & S1).
  { cbn. destruct (decide (fst c = i)) as [<-|Hne].
    - exists (close_end (snd c) sc). rewrite list_lookup_alter_eq, Hi. split; [done|]. split; [apply close_end_le|apply close_settles].
    - exists sc. rewrite list_lookup_alter_ne by done. split; [done|]. split; [apply conn_le_refl|apply settles_refl]. }
  destruct (IH _ _ H1) as (sc2 & H2 & L2 & S2). exists sc2. split; [done|]. split; [by eapply conn_le_trans|by eapply settles_trans].
Qed.

Section trace.
Context `{!Platform}.

Definition sends (N : netSpec) (sc : specConn) (data : list Z) (us : list (list Z)) : Prop :=
  transmission (ns_faults N) (bool_decide (sc_pair sc ∈ ns_cut N)) data us.

(** One transition, for one stream. *)
Lemma spec_step_stream N ev N' (i : nat) w sc :
  spec_step N ev N' -> ns_conns N !! i = Some sc ->
  exists sc', ns_conns N' !! i = Some sc' /\ stream_change (sends N sc) (i, w) ev (stream_out sc w) (stream_out sc' w).
Proof.
  intros Hst Hi.
  assert (forall sc', settles sc sc' -> silent (i, w) ev -> stream_change (sends N sc) (i, w) ev (stream_out sc w) (stream_out sc' w)) as Hset.
  { intros sc' Hs [H1 H2]. apply sc_idle; [done|done|]. by destruct (Hs w) as [[-> ->]|]; auto. }
  assert (silent (i, w) ev -> ns_conns N' = ns_conns N ->
    exists sc', ns_conns N' !! i = Some sc' /\ stream_change (sends N sc) (i, w) ev (stream_out sc w) (stream_out sc' w)) as Hsame.
  { intros Hs E. exists sc. rewrite E. split; [done|]. apply Hset; [apply settles_refl|done]. }
  destruct Hst as [N book Hle|N book network laddr l0 Hle Ho|N book network laddr cause Hle|N id0 l0 Hi0 Ho|N id0 Hno
    |N id0 l0 c q Hi0 Ho Hq|N id0 l0 Hi0 Ho Hq|N id0 l0 Hi0 Ho|N ctx network a|N j d id0 l0 explicit Hj Hp Hi0 Ho Hroom Hr|N j d id0 l0 sc0 Hj Hp Hi0 Hc
    |N j d id0 i0 l0 Hj Hp Hi0 Ho|N j d id0 i0 l0 Hj Hp Hi0 Ho|N j d i0 Hj Hp|N j d err Hj Hp Hr|N book j d id0 text Hj Hp Hle
    |N i0 w0 sc0 lb b ev Hi0 Hs Hsh|N now i0 s sc0 size err Hi0 He|N now i0 s sc0 data err Hi0 He|N c|N i0 s sc0 r t Hi0 Hc|N i0 s sc0 r t Hi0 Hc
    |N book a b k Hle Hk|N book a b k Hle Hk|N book a b k Hle Hk|N s]; try (by apply Hsame).
  - destruct (closes_settle (sl_queue l0) (with_listeners (<[id0 := mkSpecListener (sl_addr l0) (sl_cap l0) false []]> (ns_listeners N)) N) i sc Hi)
      as (sc' & Hi' & _ & Hs'). exists sc'. split; [done|]. by apply Hset.
  - exists sc. split; [by apply lookup_app_l_Some|]. apply Hset; [apply settles_refl|done].
  - destruct (closes_settle [(i0, sideAcceptor)] N i sc Hi) as (sc' & Hi' & _ & Hs'). exists sc'. split; [done|]. by apply Hset.
  - cbn. destruct (decide (i0 = i)) as [->|Hne].
    + assert (sc0 = sc) as -> by congruence. exists (set_stream w0 b sc). rewrite list_lookup_insert_eq by (by eapply lookup_lt_Some).
      split; [done|]. rewrite stream_out_set. destruct (decide (w = w0)) as [->|Hw].
      * pose proof (shows_here _ _ _ _ _ _ _ Hsh Hs) as Hch. destruct Hch as [? ? ?|data us ? ? (v & Ht) ? ?|? ? ?];
          [by apply sc_idle|by apply sc_sent with (data := data) (us := us)|by apply sc_got].
      * destruct (shows_elsewhere _ _ _ _ (i, w) Hsh) as [H1 H2]; [by intros [= ->]|]. apply sc_idle; auto.
    + exists sc. rewrite list_lookup_insert_ne by done. split; [done|]. apply Hset; [apply settles_refl|].
      eapply shows_elsewhere; [exact Hsh|]. by intros [= ->].
  - destruct (closes_settle [c] N i sc Hi) as (sc' & Hi' & _ & Hs'). exists sc'. split; [done|]. by apply Hset.
  - cbn. destruct (decide (i0 = i)) as [->|Hne].
    + assert (sc0 = sc) as -> by congruence. eexists. rewrite list_lookup_insert_eq by (by eapply lookup_lt_Some). split; [done|].
      apply Hset; [|done]. intros u. left. by destruct s, u.
    + exists sc. rewrite list_lookup_insert_ne by done. split; [done|]. apply Hset; [apply settles_refl|done].
  - eexists. split; [by apply list_lookup_fmap_Some; eexists|]. apply Hset; [|done]. destruct (decide _); [apply reset_settles|apply settles_refl].
Qed.

(** A connection that is not there yet is silent. *)
Lemma spec_step_absent N ev N' (i : nat) w : spec_step N ev N' -> ns_conns N !! i = None -> silent (i, w) ev.
Proof.
  intros Hst Hi. destruct Hst as [N book Hle|N book network laddr l0 Hle Ho|N book network laddr cause Hle|N id0 l0 Hi0 Ho|N id0 Hno
    |N id0 l0 c q Hi0 Ho Hq|N id0 l0 Hi0 Ho Hq|N id0 l0 Hi0 Ho|N ctx network a|N j d id0 l0 explicit Hj Hp Hi0 Ho Hroom Hr|N j d id0 l0 sc0 Hj Hp Hi0 Hc
    |N j d id0 i0 l0 Hj Hp Hi0 Ho|N j d id0 i0 l0 Hj Hp Hi0 Ho|N j d i0 Hj Hp|N j d err Hj Hp Hr|N book j d id0 text Hj Hp Hle
    |N i0 w0 sc0 lb b ev Hi0 Hs Hsh|N now i0 s sc0 size err Hi0 He|N now i0 s sc0 data err Hi0 He|N c|N i0 s sc0 r t Hi0 Hc|N i0 s sc0 r t Hi0 Hc
    |N book a b k Hle Hk|N book a b k Hle Hk|N book a b k Hle Hk|N s]; try done.
  eapply shows_elsewhere; [exact Hsh|]. intros [= -> _]. congruence.
Qed.

(** ** Runs *)

(** The states of a run. *)
Inductive within (N0 : netSpec) (Q : netSpec -> Prop) : list event -> netSpec -> Prop :=
| wi_nil : Q N0 -> within N0 Q [] N0
| wi_snoc evs N1 ev N2 : within N0 Q evs N1 -> spec_step N1 ev N2 -> Q N2 -> within N0 Q (evs ++ [ev]) N2.

Lemma sent_snoc c evs ev : sent c (evs ++ [ev]) = sent c evs ++ option_list (sent_by c ev).
Proof. unfold sent. rewrite omap_app. cbn. by destruct (sent_by c ev). Qed.

Lemma received_snoc c evs ev : received c (evs ++ [ev]) = received c evs ++ got_by c ev.
Proof. unfold received. rewrite map_app, concat_app. cbn. by rewrite app_nil_r. Qed.

(** The account of one stream: what was sent became [uss], of which what was
    received is the beginning; and unless the stream is cut, what is in flight is
    the rest. *)
Definition accounted (R : list Z -> list (list Z) -> Prop) (c : endRef) (evs : list event) (b : byteStream) : Prop :=
  exists uss, Forall2 R (sent c evs) uss /\ received c evs `prefix_of` concat (concat uss) /\
    (bs_aborted b = false -> received c evs ++ bs_flight b = concat (concat uss)).

Lemma accounted_step (R : list Z -> list (list Z) -> Prop) c evs ev b b' :
  (bs_aborted b = true -> bs_aborted b' = true) -> stream_change R c ev b b' -> accounted R c evs b -> accounted R c (evs ++ [ev]) b'.
Proof.
  intros Hmono Hch (uss & HR & Hp & Heq). unfold accounted. rewrite sent_snoc, received_snoc.
  destruct Hch as [Hs Hg Hb|data us Hs Hg Hr Ha Hf|Hs Ha Hf]; rewrite Hs.
  - exists uss. cbn. rewrite Hg, !app_nil_r. split; [done|]. split; [done|]. intros Ha'.
    destruct Hb as [[-> Ea]|?]; [|congruence]. apply Heq. congruence.
  - exists (uss ++ [us]). cbn. rewrite Hg, app_nil_r, !concat_app. cbn. rewrite app_nil_r.
    split; [apply Forall2_app; [done|by repeat constructor]|]. split; [by apply prefix_app_r|].
    intros _. rewrite Hf, app_assoc, Heq by done. done.
  - exists uss. cbn. rewrite app_nil_r. specialize (Heq Ha). rewrite Hf in Heq. split; [done|]. split.
    + exists (bs_flight b'). by rewrite <- app_assoc.
    + intros _. by rewrite <- app_assoc.
Qed.

Lemma accounted_fresh R c evs : sent c evs = [] -> received c evs = [] -> accounted R c evs new_stream.
Proof. intros E1 E2. exists []. rewrite E1, E2. split; [constructor|]. split; [apply prefix_nil|done]. Qed.

Lemma within_accounted (R : list Z -> list (list Z) -> Prop) (Q : netSpec -> Prop) N0 evs N :
  (forall N sc data us, Q N -> sends N sc data us -> R data us) -> ns_conns N0 = [] -> within N0 Q evs N ->
  forall i w, match ns_conns N !! i with
              | Some sc => accounted R (i, w) evs (stream_out sc w)
              | None => sent (i, w) evs = [] /\ received (i, w) evs = []
              end.
Proof.
  intros HR Hempty Hrun i w. induction Hrun as [Hq|evs N1 ev N2 Hrun IH Hst Hq]; [by rewrite Hempty|].
  assert (Q N1) as Hq1 by (by destruct Hrun).
  destruct (ns_conns N1 !! i) as [sc|] eqn:Hi.
  - destruct (spec_step_stream _ _ _ i w sc Hst Hi) as (sc' & Hi' & Hch). rewrite Hi'.
    destruct (conns_move_le _ _ _ _ (spec_step_conns _ _ _ Hst) Hi) as (sc2 & Hi2 & Hle).
    assert (sc2 = sc') as -> by congruence. destruct Hle as [_ Hends]. destruct (Hends w) as [_ _ _ [_ Hmono _]].
    eapply accounted_step; [exact Hmono| |exact IH].
    destruct Hch as [? ? ?|data us ? ? Hr ? ?|? ? ?]; [by apply sc_idle| |by apply sc_got].
    apply sc_sent with (data := data) (us := us); try done. by eapply HR.
  - destruct IH as [I1 I2]. destruct (spec_step_absent _ _ _ i w Hst Hi) as [A1 A2].
    assert (sent (i, w) (evs ++ [ev]) = [] /\ received (i, w) (evs ++ [ev]) = []) as [E1 E2]
      by (rewrite sent_snoc, received_snoc, I1, I2, A1, A2; done).
    destruct (ns_conns N2 !! i) as [sc'|] eqn:Hi'; [|done].
    destruct (mv_back _ _ (spec_step_conns _ _ _ Hst) i sc' Hi') as [(sc & Hsc & _)|[_ Hf]]; [congruence|].
    destruct (Hf w) as (_ & _ & ->). by apply accounted_fresh.
Qed.

Lemma run_within N0 evs N : spec_run N0 evs N -> within N0 (fun _ => True) evs N.
Proof. induction 1 as [|N0 evs N1 ev N2 _ IH Hst]; [by apply wi_nil|by eapply wi_snoc]. Qed.

(** Harmless events leave faithful settings faithful. *)
Definition untouched (N : netSpec) : Prop := faithful (ns_faults N) /\ ns_cut N = ∅.

Lemma harmless_untouched N ev N' : spec_step N ev N' -> harmless ev -> untouched N -> untouched N'.
Proof.
  intros Hst Hc [Hf Hk]. destruct Hst as [N book Hle|N book network laddr l0 Hle Ho|N book network laddr cause Hle|N id0 l0 Hi0 Ho|N id0 Hno
    |N id0 l0 c q Hi0 Ho Hq|N id0 l0 Hi0 Ho Hq|N id0 l0 Hi0 Ho|N ctx network a|N j d id0 l0 explicit Hj Hp Hi0 Ho Hroom Hr|N j d id0 l0 sc0 Hj Hp Hi0 Hcn
    |N j d id0 i0 l0 Hj Hp Hi0 Ho|N j d id0 i0 l0 Hj Hp Hi0 Ho|N j d i0 Hj Hp|N j d err Hj Hp Hr|N book j d id0 text Hj Hp Hle
    |N i0 w0 sc0 lb b ev Hi0 Hs Hsh|N now i0 s sc0 size err Hi0 He|N now i0 s sc0 data err Hi0 He|N c|N i0 s sc0 r t Hi0 Hcl|N i0 s sc0 r t Hi0 Hcl
    |N book a b k Hle Hkk|N book a b k Hle Hkk|N book a b k Hle Hkk|N s]; try done.
  - destruct (closes_frame (sl_queue l0) (with_listeners (<[id0 := mkSpecListener (sl_addr l0) (sl_cap l0) false []]> (ns_listeners N)) N)) as (_ & _ & E1 & E2 & _).
    split; [by rewrite E2|by rewrite E1].
  - split; [done|]. cbn. rewrite Hk. set_solver.
  - destruct s; try done.
Qed.

Lemma run_untouched N0 evs N : spec_run N0 evs N -> Forall harmless evs -> untouched N0 -> within N0 untouched evs N.
Proof.
  intros Hrun Hc Hu. induction Hrun as [N|N0 evs N1 ev N2 _ IH Hst]; [by apply wi_nil|].
  apply Forall_app in Hc as [Hc1 Hc2]. inversion Hc2; subst. specialize (IH Hc1 Hu). eapply wi_snoc; [exact IH|done|].
  eapply harmless_untouched; [done|done|]. by destruct IH.
Qed.

Lemma carried_all N sc data us : sends N sc data us -> carried_as data us.
Proof. apply transmission_carried. Qed.

Lemma untouched_plain N sc data us : untouched N -> sends N sc data us -> us = [data].
Proof. unfold sends. intros [Hf ->] Ht. by eapply transmission_faithful. Qed.

Lemma plain_units (ds : list (list Z)) (uss : list (list (list Z))) : Forall2 (fun data us => us = [data]) ds uss -> concat (concat uss) = concat ds.
Proof. induction 1 as [|d us ds uss -> _ IH]; [done|]. cbn. by rewrite IH. Qed.
End trace.
