(* ===== verification/NetLedger.v ===== *)
(** * What a run of the abstract machine says of who gets which connection

    A connection that a dial returns is handed to one listener, whose Accepts give
    each of them to one caller, in the order the dials returned. *)
From S2P Require Import Prelude GoRuntime Errors Float64 Rand Partition PipeState Faults FaultProps Pipe PipeInv Options Conn ConnProps.
From S2P Require Import NetIP Addr Addressing Listener NetSpec NetSpecProps.

(** ** What events say of connections *)

Definition accepted_by (ev : event) : option (nat * endRef) :=
  match ev with EAccept id (Accepted c) => Some (id, c) | _ => None end.

Definition dialed_by (ev : event) : option nat :=
  match ev with EDialed _ i => Some i | _ => None end.

(** The connections dials have returned, in that order. *)
Definition dialed (evs : list event) : list nat := omap dialed_by evs.

(** The ends that Accepts have returned, and from which listener. *)
Definition accepted (evs : list event) : list (nat * endRef) := omap accepted_by evs.
Definition accepted_at (id : nat) (evs : list event) : list endRef :=
  omap (fun x => if decide (fst x = id) then Some (snd x) else None) (accepted evs).

(** The listener's end of a connection. *)
Definition far (i : nat) : endRef := (i, sideAcceptor).

Lemma dialed_snoc evs ev : dialed (evs ++ [ev]) = dialed evs ++ option_list (dialed_by ev).
Proof. unfold dialed. rewrite omap_app. cbn. by destruct (dialed_by ev). Qed.

Lemma accepted_snoc evs ev : accepted (evs ++ [ev]) = accepted evs ++ option_list (accepted_by ev).
Proof. unfold accepted. rewrite omap_app. cbn. by destruct (accepted_by ev). Qed.

Lemma accepted_at_same id evs ev : accepted_by ev = None -> accepted_at id (evs ++ [ev]) = accepted_at id evs.
Proof. intros E. unfold accepted_at. rewrite accepted_snoc, E. cbn. by rewrite app_nil_r. Qed.

Lemma accepted_at_snoc id evs id' c :
  accepted_at id (evs ++ [EAccept id' (Accepted c)]) = accepted_at id evs ++ (if decide (id' = id) then [c] else []).
Proof. unfold accepted_at. rewrite accepted_snoc, omap_app. cbn. by destruct (decide (id' = id)). Qed.

Lemma elem_of_accepted_at id c evs : c ∈ accepted_at id evs <-> (id, c) ∈ accepted evs.
Proof.
  unfold accepted_at. rewrite list_elem_of_omap. split.
  - intros ([id' c'] & Hin & E). cbn in E. case_decide; [|done]. injection E as <-. by subst.
  - intros Hin. exists (id, c). split; [done|]. cbn. by rewrite decide_True.
Qed.

(** ** Dials *)

Definition phase_conn (ph : dialPhase) : option nat :=
  match ph with Made _ i | TurnedAway i | Joined i => Some i | _ => None end.

(** [owner] gives the listener each connection was made for, [dl] the connections returned. *)
Record dials_ok (owner dl : list nat) (ds : list specDial) : Prop := {
  do_known : forall j d i, ds !! j = Some d -> phase_conn (sd_phase d) = Some i -> (i < length owner)%nat;
  do_inj : forall j j' d d' i, ds !! j = Some d -> ds !! j' = Some d' ->
    phase_conn (sd_phase d) = Some i -> phase_conn (sd_phase d') = Some i -> j = j';
  do_owner : forall j d id i, ds !! j = Some d -> sd_phase d = Made id i -> owner !! i = Some id;
  do_joined : forall i, i ∈ dl -> exists j d, ds !! j = Some d /\ sd_phase d = Joined i;
  do_once : NoDup dl
}.

(** The phases of the dials after one has moved. *)
Lemma moved_lookup (ds : list specDial) (j k : nat) d0 ph :
  alter (sd_set_phase ph) j ds !! k = Some d0 ->
  (k = j /\ sd_phase d0 = ph) \/ (k <> j /\ ds !! k = Some d0).
Proof.
  destruct (decide (k = j)) as [->|Hne].
  - rewrite list_lookup_alter_eq. intros (d & _ & ->)%fmap_Some. by left.
  - rewrite list_lookup_alter_ne by done. by right.
Qed.

(** A dial may move on with the connection it has, or with none. *)
Lemma dials_move owner dl ds (j : nat) d ph :
  dials_ok owner dl ds -> ds !! j = Some d -> (forall i, sd_phase d <> Joined i) -> (forall id i, ph <> Made id i) ->
  phase_conn ph = None \/ phase_conn ph = phase_conn (sd_phase d) ->
  dials_ok owner (dl ++ match ph with Joined i => [i] | _ => [] end) (alter (sd_set_phase ph) j ds).
Proof.
  intros [H1 H2 H3 H4 H5] Hj Hnj Hnm Hph.
  assert (forall i, phase_conn ph = Some i -> phase_conn (sd_phase d) = Some i) as Hsame by (intros i E; destruct Hph; congruence).
  assert (forall k d0 i, alter (sd_set_phase ph) j ds !! k = Some d0 -> phase_conn (sd_phase d0) = Some i ->
    exists d1, ds !! k = Some d1 /\ phase_conn (sd_phase d1) = Some i) as Hback.
  { intros k d0 i [[-> E]|[_ Hk]]%moved_lookup Hc; [|by eauto]. rewrite E in Hc. eauto. }
  split.
  - intros k d0 i Hk Hc. destruct (Hback _ _ _ Hk Hc) as (d1 & Hk1 & Hc1). by eapply H1.
  - intros k k' d0 d0' i Hk Hk' Hc Hc'. destruct (Hback _ _ _ Hk Hc) as (d1 & Hk1 & Hc1), (Hback _ _ _ Hk' Hc') as (d2 & Hk2 & Hc2).
    by eapply (H2 k k' d1 d2 i).
  - intros k d0 id i [[-> E]|[_ Hk]]%moved_lookup Hc; [congruence|by eapply H3].
  - intros i [Hi|Hi]%elem_of_app.
    + destruct (H4 i Hi) as (k & d0 & Hk & E). exists k, d0. split; [|done]. rewrite list_lookup_alter_ne; [done|]. intros ->.
      apply (Hnj i). congruence.
    + destruct ph; try (by apply elem_of_nil in Hi). apply list_elem_of_singleton in Hi as ->.
      exists j. eexists. rewrite list_lookup_alter_eq, Hj. done.
  - apply NoDup_app. split; [done|]. split; [|destruct ph; apply NoDup_nil_2 || apply NoDup_singleton].
    intros i Hi Hin. destruct ph; try (by apply elem_of_nil in Hin). apply list_elem_of_singleton in Hin as ->.
    destruct (H4 _ Hi) as (k & d0 & Hk & E). assert (k = j) as ->.
    { apply (H2 k j d0 d i0); [done|done|by rewrite E|by apply Hsame]. }
    apply (Hnj i0). congruence.
Qed.

Lemma dials_made owner dl ds (j : nat) d id :
  dials_ok owner dl ds -> ds !! j = Some d -> (forall i, sd_phase d <> Joined i) ->
  dials_ok (owner ++ [id]) dl (alter (sd_set_phase (Made id (length owner))) j ds).
Proof.
  intros [H1 H2 H3 H4 H5] Hj Hnj.
  assert (forall k d0, ds !! k = Some d0 -> phase_conn (sd_phase d0) <> Some (length owner)) as Hfresh.
  { intros k d0 Hk Hc. pose proof (H1 _ _ _ Hk Hc). lia. }
  split; [| | | |done].
  - intros k d0 i [[-> E]|[_ Hk]]%moved_lookup Hc; rewrite length_app; cbn.
    + rewrite E in Hc. injection Hc as <-. lia.
    + pose proof (H1 _ _ _ Hk Hc). lia.
  - intros k k' d0 d0' i [[-> E]|[Hne Hk]]%moved_lookup [[-> E']|[Hne' Hk']]%moved_lookup Hc Hc'; [done| | |by eapply H2].
    + rewrite E in Hc. injection Hc as <-. by destruct (Hfresh _ _ Hk').
    + rewrite E' in Hc'. injection Hc' as <-. by destruct (Hfresh _ _ Hk).
  - intros k d0 id0 i [[-> E]|[_ Hk]]%moved_lookup Hc.
    + rewrite E in Hc. injection Hc as <- <-. by apply list_lookup_middle.
    + apply lookup_app_l_Some. by eapply H3.
  - intros i Hi. destruct (H4 i Hi) as (k & d0 & Hk & E). exists k, d0. split; [|done]. rewrite list_lookup_alter_ne; [done|]. intros ->.
    apply (Hnj i). congruence.
Qed.

Lemma dials_start owner dl ds d : dials_ok owner dl ds -> phase_conn (sd_phase d) = None -> dials_ok owner dl (ds ++ [d]).
Proof.
  intros [H1 H2 H3 H4 H5] Hd.
  assert (forall k d0, (ds ++ [d]) !! k = Some d0 -> phase_conn (sd_phase d0) <> None -> ds !! k = Some d0) as Hback.
  { intros k d0 [Hk|[_ Hk]]%lookup_app_Some Hc; [done|]. apply list_lookup_singleton_Some in Hk as [_ <-]. done. }
  split; [| | | |done].
  - intros k d0 i Hk Hc. apply (H1 k d0 i); [|done]. apply Hback; congruence.
  - intros k k' d0 d0' i Hk Hk' Hc Hc'. apply (H2 k k' d0 d0' i); try done; apply Hback; congruence.
  - intros k d0 id i Hk Hc. apply (H3 k d0 id i); [|done]. apply Hback; [done|]. by rewrite Hc.
  - intros i Hi. destruct (H4 i Hi) as (k & d0 & Hk & E). exists k, d0. split; [by apply lookup_app_l_Some|done].
Qed.

(** ** Queues *)

Record queues_ok (owner : list nat) (evs : list event) (ls : list specListener) : Prop := {
  qo_fifo : forall id l, ls !! id = Some l -> accepted_at id evs ++ sl_queue l `sublist_of` map far (dialed evs);
  qo_none : forall id, ls !! id = None -> accepted_at id evs = [];
  qo_owner : forall id l c, ls !! id = Some l -> c ∈ accepted_at id evs ++ sl_queue l -> owner !! fst c = Some id;
  qo_once : NoDup (map snd (accepted evs))
}.

Lemma NoDup_far (cs : list nat) : NoDup cs -> NoDup (map far cs).
Proof. intros H. apply NoDup_fmap_2; [|done]. by intros i j [= ->]. Qed.

(** A step that accepts nothing and puts nothing into a queue. *)
Lemma queues_step owner owner' evs ev ls ls' :
  queues_ok owner evs ls -> accepted_by ev = None -> (forall (i id : nat), owner !! i = Some id -> owner' !! i = Some id) ->
  (forall (id : nat) l', ls' !! id = Some l' ->
     (sl_queue l' = [] /\ ls !! id = None) \/ exists l, ls !! id = Some l /\ sl_queue l' `sublist_of` sl_queue l) ->
  (forall id : nat, ls' !! id = None -> ls !! id = None) ->
  queues_ok owner' (evs ++ [ev]) ls'.
Proof.
  intros [H1 H2 H3 H4] Ha Ho Hl Hn. split.
  - intros id l' Hi. rewrite accepted_at_same, dialed_snoc, map_app by done. apply sublist_inserts_r. destruct (Hl _ _ Hi) as [[-> Hno]|(l & Hi0 & Hs)].
    + rewrite (H2 _ Hno). apply sublist_nil_l.
    + etransitivity; [|by apply (H1 id l)]. by apply sublist_app.
  - intros id Hi. rewrite accepted_at_same by done. by apply H2, Hn.
  - intros id l' c Hi. rewrite accepted_at_same by done. intros Hc. apply Ho. destruct (Hl _ _ Hi) as [[Eq Hno]|(l & Hi0 & Hs)].
    + rewrite Eq, (H2 _ Hno) in Hc. by apply elem_of_nil in Hc.
    + apply (H3 id l c Hi0). apply elem_of_app in Hc as [Hc|Hc]; apply elem_of_app; [by left|right]. by eapply elem_of_sublist.
  - rewrite accepted_snoc, Ha. cbn. by rewrite app_nil_r.
Qed.

Lemma queues_same owner evs ev ls : queues_ok owner evs ls -> accepted_by ev = None -> queues_ok owner (evs ++ [ev]) ls.
Proof. intros Hq Ha. eapply queues_step; [done|done|done| |done]. intros id l Hl. right. by exists l. Qed.

Lemma queues_accept owner evs ls (id : nat) l l' c q :
  queues_ok owner evs ls -> NoDup (dialed evs) -> ls !! id = Some l -> sl_queue l = c :: q -> sl_queue l' = q ->
  queues_ok owner (evs ++ [EAccept id (Accepted c)]) (<[id := l']> ls).
Proof.
  intros [H1 H2 H3 H4] Hnd Hi Hq Hq'.
  assert (accepted_at id (evs ++ [EAccept id (Accepted c)]) ++ sl_queue l' = accepted_at id evs ++ sl_queue l) as Esame.
  { rewrite accepted_at_snoc, decide_True, Hq, Hq' by done. by rewrite <- app_assoc. }
  assert (forall id', id' <> id -> accepted_at id' (evs ++ [EAccept id (Accepted c)]) = accepted_at id' evs) as Eother.
  { intros id' Hne. rewrite accepted_at_snoc, decide_False by done. apply app_nil_r. }
  split.
  - intros id' l0 [(<- & <- & _)|[Hne Hi']]%list_lookup_insert_Some; rewrite dialed_snoc; cbn; rewrite app_nil_r.
    + rewrite Esame. by apply H1.
    + rewrite Eother by done. by apply H1.
  - intros id' Hno. destruct (decide (id = id')) as [<-|Hne].
    + rewrite list_lookup_insert_eq in Hno; [done|]. by eapply lookup_lt_Some.
    + rewrite list_lookup_insert_ne in Hno by done. rewrite Eother by done. by apply H2.
  - intros id' l0 c0 [(<- & <- & _)|[Hne Hi']]%list_lookup_insert_Some.
    + rewrite Esame. by apply H3.
    + rewrite Eother by done. by apply H3.
  - rewrite accepted_snoc, map_app. cbn. apply NoDup_app. split; [done|]. split; [|apply NoDup_singleton].
    intros c0 Hc0 ->%list_elem_of_singleton. apply list_elem_of_fmap in Hc0 as ([id' c'] & -> & Hin). cbn in *.
    apply elem_of_accepted_at in Hin. destruct (ls !! id') as [lx|] eqn:Hx; [|rewrite (H2 _ Hx) in Hin; by apply elem_of_nil in Hin].
    assert (owner !! fst c' = Some id') as O1 by (eapply H3; [exact Hx|]; apply elem_of_app; by left).
    assert (owner !! fst c' = Some id) as O2 by (eapply H3; [exact Hi|]; apply elem_of_app; right; rewrite Hq; apply list_elem_of_here).
    assert (id' = id) as -> by congruence. assert (NoDup (accepted_at id evs ++ sl_queue l)) as Hnd' by (eapply sublist_NoDup; [by apply NoDup_far|by apply H1]).
    apply NoDup_app in Hnd' as (_ & Hd & _). apply (Hd c' Hin). rewrite Hq. apply list_elem_of_here.
Qed.

Lemma queues_hand_over owner evs ls (id : nat) l l' j i :
  queues_ok owner evs ls -> owner !! i = Some id -> ls !! id = Some l -> sl_queue l' = sl_queue l ++ [far i] ->
  queues_ok owner (evs ++ [EDialed j i]) (<[id := l']> ls).
Proof.
  intros [H1 H2 H3 H4] Ho Hi Hq. split.
  - intros id' l0 Hi'. rewrite accepted_at_same, dialed_snoc, map_app by done. cbn.
    apply list_lookup_insert_Some in Hi' as [(<- & <- & _)|[Hne Hi']].
    + rewrite Hq, app_assoc. apply sublist_app; [by apply H1|done].
    + apply sublist_inserts_r. by apply H1.
  - intros id' Hno. rewrite accepted_at_same by done. apply H2. destruct (decide (id = id')) as [<-|Hne].
    + rewrite list_lookup_insert_eq in Hno; [done|]. by eapply lookup_lt_Some.
    + by rewrite list_lookup_insert_ne in Hno by done.
  - intros id' l0 c Hi'. rewrite accepted_at_same by done.
    apply list_lookup_insert_Some in Hi' as [(<- & <- & _)|[Hne Hi']]; [|by apply H3].
    rewrite Hq, app_assoc. intros [Hc|Hc]%elem_of_app; [by apply (H3 id l)|]. by apply list_elem_of_singleton in Hc as ->.
  - rewrite accepted_snoc. cbn. by rewrite app_nil_r.
Qed.

(** ** Connections *)

(** The connection is to the listener at [a]. *)
Definition answers (sc : specConn) (a : addr) : Prop :=
  let e := se_local (sc_acceptor sc) in addr_peer e = addr_peer a /\ addr_port e = addr_port a /\ addr_ip e = addr_ip a.

Definition places_ok (owner : list nat) (cs : list specConn) (ls : list specListener) : Prop :=
  length owner = length cs /\
  forall i id : nat, owner !! i = Some id -> exists sc l, cs !! i = Some sc /\ ls !! id = Some l /\ answers sc (sl_addr l).

Definition waiting (id i : nat) (evs : list event) (ls : list specListener) : Prop :=
  exists l, ls !! id = Some l /\ far i ∈ accepted_at id evs ++ sl_queue l.
Definition hung_up (i : nat) (cs : list specConn) : Prop := exists sc, cs !! i = Some sc /\ se_closed (sc_acceptor sc) = true.

(** No connection is lost. *)
Definition ends_ok (owner : list nat) (evs : list event) (cs : list specConn) (ls : list specListener) : Prop :=
  forall i, i ∈ dialed evs -> exists id, owner !! i = Some id /\ (waiting id i evs ls \/ hung_up i cs).

Record ledger (owner : list nat) (evs : list event) (N : netSpec) : Prop := {
  lg_dials : dials_ok owner (dialed evs) (ns_dials N);
  lg_queues : queues_ok owner evs (ns_listeners N);
  lg_places : places_ok owner (ns_conns N) (ns_listeners N);
  lg_ends : ends_ok owner evs (ns_conns N) (ns_listeners N)
}.

Lemma answers_le sc sc' a : conn_le sc sc' -> answers sc a -> answers sc' a.
Proof. intros [_ Hle]. destruct (Hle sideAcceptor) as [(_ & E & _) _ _ _]. unfold answers. cbn in E. by rewrite E. Qed.

Lemma hung_up_later i cs cs' : conns_move cs cs' -> hung_up i cs -> hung_up i cs'.
Proof.
  intros Hm (sc & Hi & Hc). destruct (conns_move_le _ _ _ _ Hm Hi) as (sc' & Hi' & [_ Hle]). exists sc'. split; [done|].
  by apply (ele_closed _ _ (Hle sideAcceptor)).
Qed.

Lemma hung_up_close_ref i N : (i < length (ns_conns N))%nat -> hung_up i (ns_conns (close_ref (far i) N)).
Proof.
  intros [sc Hi]%lookup_lt_is_Some_2. exists (close_end sideAcceptor sc). cbn. rewrite list_lookup_alter_eq, Hi. split; [done|].
  unfold close_end. by destruct (se_closed (sc_end sc sideAcceptor)) eqn:E.
Qed.

Lemma closes_length (cs : list endRef) N : length (ns_conns (fold_left (fun N c => close_ref c N) cs N)) = length (ns_conns N).
Proof. revert N. induction cs as [|c cs IH]; intros N; [done|]. cbn [fold_left]. rewrite IH. cbn. by rewrite length_alter. Qed.

Lemma hung_up_closes (cs : list endRef) N (i : nat) :
  far i ∈ cs -> (i < length (ns_conns N))%nat -> hung_up i (ns_conns (fold_left (fun N c => close_ref c N) cs N)).
Proof.
  revert N. induction cs as [|c cs IH]; intros N; [by intros ?%elem_of_nil|]. intros [<-|Hin]%elem_of_cons Hlt; cbn [fold_left].
  - eapply hung_up_later; [apply conns_move_closes|]. by apply hung_up_close_ref.
  - apply IH; [done|]. cbn. by rewrite length_alter.
Qed.

Section ledgers.
Context `{!Platform}.

Lemma places_step owner N ev N' :
  spec_step N ev N' -> length (ns_conns N') = length (ns_conns N) -> places_ok owner (ns_conns N) (ns_listeners N) ->
  places_ok owner (ns_conns N') (ns_listeners N').
Proof.
  intros Hst El [Hlen Hp]. split; [congruence|]. intros i id Ho. destruct (Hp i id Ho) as (sc & l & Hi & Hl & Ha).
  destruct (conns_move_le _ _ _ _ (spec_step_conns _ _ _ Hst) Hi) as (sc' & Hi' & Hle).
  destruct (proj2 (spec_step_grows _ _ _ Hst) _ _ Hl) as (l' & Hl' & Ea). exists sc', l'. rewrite Ea.
  split; [done|]. split; [done|]. by eapply answers_le.
Qed.

Lemma ends_step owner owner' evs N ev N' :
  ends_ok owner evs (ns_conns N) (ns_listeners N) -> conns_move (ns_conns N) (ns_conns N') ->
  (forall i id : nat, owner !! i = Some id -> owner' !! i = Some id) ->
  (forall id i, waiting id i evs (ns_listeners N) -> owner !! i = Some id ->
     waiting id i (evs ++ [ev]) (ns_listeners N') \/ hung_up i (ns_conns N')) ->
  (forall i, dialed_by ev = Some i -> exists id, owner' !! i = Some id /\
     (waiting id i (evs ++ [ev]) (ns_listeners N') \/ hung_up i (ns_conns N'))) ->
  ends_ok owner' (evs ++ [ev]) (ns_conns N') (ns_listeners N').
Proof.
  intros He Hm Ho Hw Hnew i. rewrite dialed_snoc. intros [Hi|Hi]%elem_of_app.
  - destruct (He i Hi) as (id & Hid & [Hy|Hy]); exists id; (split; [by apply Ho|]); [by apply Hw|right; by eapply hung_up_later].
  - apply Hnew. destruct (dialed_by ev); [|by apply elem_of_nil in Hi]. by apply list_elem_of_singleton in Hi as ->.
Qed.

(** Whoever waits still waits when queues only grow and nothing is accepted. *)
Lemma waiting_keep id i evs ev ls ls' :
  accepted_by ev = None ->
  (forall (id : nat) l, ls !! id = Some l -> exists l', ls' !! id = Some l' /\ sl_queue l `prefix_of` sl_queue l') ->
  waiting id i evs ls -> waiting id i (evs ++ [ev]) ls'.
Proof.
  intros Ha Hl (l & Hi & Hc). destruct (Hl _ _ Hi) as (l' & Hi' & Hs). exists l'. split; [done|]. rewrite accepted_at_same by done.
  apply elem_of_app in Hc as [Hc|Hc]; apply elem_of_app; [by left|right]. destruct Hs as [rest ->]. apply elem_of_app. by left.
Qed.

(** Most transitions leave dials and listeners as they are. *)
Lemma ledger_frame owner evs ev N N' :
  ledger owner evs N -> spec_step N ev N' -> accepted_by ev = None -> dialed_by ev = None ->
  ns_listeners N' = ns_listeners N -> ns_dials N' = ns_dials N -> length (ns_conns N') = length (ns_conns N) ->
  ledger owner (evs ++ [ev]) N'.
Proof.
  intros [H1 H2 H3 H4] Hst Ha Hd El Ed Ec. split.
  - rewrite Ed, dialed_snoc, Hd. cbn. by rewrite app_nil_r.
  - rewrite El. by apply queues_same.
  - by apply (places_step _ _ _ _ Hst).
  - eapply ends_step; [exact H4|by eapply spec_step_conns|done| |congruence].
    intros id i Hw _. left. rewrite El. eapply waiting_keep; [done| |exact Hw]. intros id0 l0 H0. exists l0. by split.
Qed.

(** A dial that moves on without a new connection and hands nothing over. *)
Lemma ledger_dial owner evs ev N N' (j : nat) d ph :
  ledger owner evs N -> spec_step N ev N' -> accepted_by ev = None ->
  ns_listeners N' = ns_listeners N -> length (ns_conns N') = length (ns_conns N) ->
  ns_dials N !! j = Some d -> ns_dials N' = alter (sd_set_phase ph) j (ns_dials N) -> (forall i, sd_phase d <> Joined i) ->
  (forall id i, ph <> Made id i) -> phase_conn ph = None \/ phase_conn ph = phase_conn (sd_phase d) ->
  option_list (dialed_by ev) = (match ph with Joined i => [i] | _ => [] end) ->
  (forall i, dialed_by ev = Some i -> exists id, owner !! i = Some id /\ hung_up i (ns_conns N')) ->
  ledger owner (evs ++ [ev]) N'.
Proof.
  intros [H1 H2 H3 H4] Hst Ha El Ec Hj Ed Hnj Hnm Hph Hev Hend. split.
  - rewrite Ed, dialed_snoc, Hev. by eapply dials_move.
  - rewrite El. by apply queues_same.
  - by apply (places_step _ _ _ _ Hst).
  - eapply ends_step; [exact H4|by eapply spec_step_conns|done| |].
    + intros id i Hw _. left. rewrite El. eapply waiting_keep; [done| |exact Hw]. intros id0 l0 H0. exists l0. by split.
    + intros i Hi. destruct (Hend i Hi) as (id & Ho & Hh). exists id. auto.
Qed.

Lemma ledger_listen owner evs N book network laddr l :
  ledger owner evs N -> spec_step N (EListen network laddr (inl (length (ns_listeners N)))) (with_listeners (ns_listeners N ++ [l]) (with_book book N)) ->
  sl_queue l = [] ->
  ledger owner (evs ++ [EListen network laddr (inl (length (ns_listeners N)))]) (with_listeners (ns_listeners N ++ [l]) (with_book book N)).
Proof.
  intros [H1 H2 H3 H4] Hst Hq. split.
  - rewrite dialed_snoc. cbn. by rewrite app_nil_r.
  - eapply queues_step; [exact H2|done|done| |].
    + intros id l' [Hi|[Hge Hi]]%lookup_app_Some; [right; by exists l'|left]. apply list_lookup_singleton_Some in Hi as [_ <-].
      split; [done|by apply lookup_ge_None].
    + intros id Hno. apply lookup_ge_None in Hno. cbn in Hno. rewrite length_app in Hno. apply lookup_ge_None. lia.
  - by apply (places_step _ _ _ _ Hst).
  - eapply ends_step; [exact H4|by eapply spec_step_conns|done| |done].
    intros id i Hw _. left. eapply waiting_keep; [done| |exact Hw]. intros id0 l0 H0. exists l0. split; [by apply lookup_app_l_Some|done].
Qed.

Lemma ledger_close owner evs N (id0 : nat) l0 :
  let N' := fold_left (fun N c => close_ref c N) (sl_queue l0)
    (with_listeners (<[id0 := mkSpecListener (sl_addr l0) (sl_cap l0) false []]> (ns_listeners N)) N) in
  ledger owner evs N -> spec_step N (ECloseListener id0) N' -> ns_listeners N !! id0 = Some l0 ->
  ledger owner (evs ++ [ECloseListener id0]) N'.
Proof.
  intros N' [H1 H2 H3 H4] Hst Hi.
  destruct (closes_frame (sl_queue l0) (with_listeners (<[id0 := mkSpecListener (sl_addr l0) (sl_cap l0) false []]> (ns_listeners N)) N)) as (El & Ed & _).
  fold N' in El, Ed. cbn in El, Ed.
  assert (length (ns_conns N') = length (ns_conns N)) as Ec by (unfold N'; by rewrite closes_length).
  split.
  - rewrite Ed, dialed_snoc. cbn. by rewrite app_nil_r.
  - rewrite El. eapply queues_step; [exact H2|done|done| |].
    + intros id l' [(<- & <- & _)|[_ Hi']]%list_lookup_insert_Some; right; [exists l0|exists l']; (split; [done|]); [apply sublist_nil_l|done].
    + intros id Hno. apply lookup_ge_None in Hno. rewrite length_insert in Hno. by apply lookup_ge_None.
  - by apply (places_step _ _ _ _ Hst).
  - eapply ends_step; [exact H4|by eapply spec_step_conns|done| |done].
    intros id i (l & Hl & Hc) Ho. apply elem_of_app in Hc as [Hc|Hc].
    + left. destruct (lookup_lt_is_Some_2 (ns_listeners N') id) as [l' Hl']; [rewrite El, length_insert; by eapply lookup_lt_Some|].
      exists l'. split; [done|]. rewrite accepted_at_same by done. apply elem_of_app. by left.
    + rewrite El. destruct (decide (id = id0)) as [->|Hne].
      * right. apply hung_up_closes; [congruence|]. cbn. destruct H3 as [<- _]. by eapply lookup_lt_Some.
      * left. exists l. rewrite list_lookup_insert_ne by done. split; [done|]. rewrite accepted_at_same by done. apply elem_of_app. by right.
Qed.

Lemma ledger_accept owner evs N (id0 : nat) l0 c q :
  let N' := with_listeners (<[id0 := mkSpecListener (sl_addr l0) (sl_cap l0) true q]> (ns_listeners N)) N in
  ledger owner evs N -> spec_step N (EAccept id0 (Accepted c)) N' -> ns_listeners N !! id0 = Some l0 -> sl_queue l0 = c :: q ->
  ledger owner (evs ++ [EAccept id0 (Accepted c)]) N'.
Proof.
  intros N' [H1 H2 H3 H4] Hst Hi Hq. split.
  - rewrite dialed_snoc. cbn. by rewrite app_nil_r.
  - eapply queues_accept; [done|by apply H1|done|done|done].
  - by apply (places_step _ _ _ _ Hst).
  - eapply ends_step; [exact H4|by eapply spec_step_conns|done| |done].
    intros id i (l & Hl & Hc) Ho. left. destruct (decide (id = id0)) as [->|Hne].
    + exists (mkSpecListener (sl_addr l0) (sl_cap l0) true q). cbn. rewrite list_lookup_insert_eq by (by eapply lookup_lt_Some).
      split; [done|]. rewrite accepted_at_snoc, decide_True by done. assert (l = l0) as -> by congruence. rewrite Hq in Hc.
      by rewrite <- app_assoc.
    + exists l. cbn. rewrite list_lookup_insert_ne by done. split; [done|].
      by rewrite accepted_at_snoc, decide_False, app_nil_r by done.
Qed.

Lemma ledger_connect owner evs N (j : nat) d id l sc :
  let N' := move_dial j (Made id (length (ns_conns N))) (with_conns (ns_conns N ++ [sc]) N) in
  ledger owner evs N -> spec_step N ETau N' -> ns_dials N !! j = Some d -> sd_phase d = Kept id ->
  ns_listeners N !! id = Some l -> connects (ns_book N) d (sl_addr l) sc -> ledger (owner ++ [id]) (evs ++ [ETau]) N'.
Proof.
  intros N' [H1 H2 [H3 H3'] H4] Hst Hj Hp Hi Hc. split.
  - rewrite dialed_snoc. cbn. rewrite app_nil_r, <- H3. eapply dials_made; [done|done|intros ?; congruence].
  - eapply queues_step; [exact H2|done| | |done]; [intros i0 id0; by apply lookup_app_l_Some|]. intros id0 l' Hl. right. by exists l'.
  - split; [cbn; rewrite !length_app; cbn; by rewrite H3|]. intros i id0 [Ho|[Hge Ho]]%lookup_app_Some.
    + destruct (H3' i id0 Ho) as (sc0 & l0 & A1 & A2 & A3). exists sc0, l0. cbn. split; [by apply lookup_app_l_Some|done].
    + apply list_lookup_singleton_Some in Ho as [E <-]. exists sc, l. cbn. rewrite lookup_app_r by lia.
      replace (i - length (ns_conns N))%nat with 0%nat by lia. split; [done|]. split; [done|].
      pose proof (cn_mirror _ _ _ _ Hc sideDialer) as E1. cbn in E1. unfold answers. by rewrite E1, (cn_remote _ _ _ _ Hc).
  - eapply ends_step; [exact H4|by eapply spec_step_conns|intros i0 id0; by apply lookup_app_l_Some| |done].
    intros id0 i Hw _. left. eapply waiting_keep; [done| |exact Hw]. intros id1 l1 Hl1. by exists l1.
Qed.

Lemma ledger_hand_over owner evs N (j : nat) d id i l :
  let N' := move_dial j (Joined i)
    (with_listeners (<[id := mkSpecListener (sl_addr l) (sl_cap l) true (sl_queue l ++ [far i])]> (ns_listeners N)) N) in
  ledger owner evs N -> spec_step N (EDialed j i) N' -> ns_dials N !! j = Some d -> sd_phase d = Made id i ->
  ns_listeners N !! id = Some l -> ledger owner (evs ++ [EDialed j i]) N'.
Proof.
  intros N' [H1 H2 H3 H4] Hst Hj Hp Hi. pose proof (do_owner _ _ _ H1 _ _ _ _ Hj Hp) as Ho. split.
  - rewrite dialed_snoc. cbn. eapply (dials_move _ _ _ _ d (Joined i)); [done|done|intros ?; congruence|done|right; by rewrite Hp].
  - by eapply queues_hand_over.
  - by apply (places_step _ _ _ _ Hst).
  - eapply ends_step; [exact H4|by eapply spec_step_conns|done| |].
    + intros id0 i0 Hw _. left. eapply waiting_keep; [done| |exact Hw]. intros id1 l1 Hl1. cbn. destruct (decide (id = id1)) as [<-|Hne].
      * rewrite list_lookup_insert_eq by (by eapply lookup_lt_Some). eexists. split; [done|]. cbn. assert (l1 = l) as -> by congruence. by eexists.
      * rewrite list_lookup_insert_ne by done. by exists l1.
    + intros i0 [= <-]. exists id. split; [done|]. left. eexists. cbn. rewrite list_lookup_insert_eq by (by eapply lookup_lt_Some). split; [done|].
      cbn. rewrite app_assoc. apply elem_of_app. right. apply list_elem_of_here.
Qed.

(** Every transition keeps the account. *)
Lemma ledger_step owner evs ev N N' : ledger owner evs N -> spec_step N ev N' -> exists owner', ledger owner' (evs ++ [ev]) N'.
Proof.
  intros Hlg Hst. pose proof Hst as Hst0. destruct Hst as [N book Hle|N book network laddr l0 Hle Ho|N book network laddr cause Hle|N id0 l0 Hi0 Ho|N id0 Hno
    |N id0 l0 c q Hi0 Ho Hq|N id0 l0 Hi0 Ho Hq|N id0 l0 Hi0 Ho|N ctx network a|N j d id0 l0 explicit Hj Hp Hi0 Ho Hroom Hr|N j d id0 l0 sc0 Hj Hp Hi0 Hc
    |N j d id0 i0 l0 Hj Hp Hi0 Ho|N j d id0 i0 l0 Hj Hp Hi0 Ho|N j d i0 Hj Hp|N j d err Hj Hp Hr|N book j d id0 text Hj Hp Hle
    |N i0 w0 sc0 lb b ev Hi0 Hs Hsh|N now i0 s sc0 size err Hi0 He|N now i0 s sc0 data err Hi0 He|N c|N i0 s sc0 r t Hi0 Hc|N i0 s sc0 r t Hi0 Hc
    |N book a b k Hle Hk|N book a b k Hle Hk|N book a b k Hle Hk|N s];
    try (exists owner; by eapply ledger_frame; try exact Hst0).
  - exists owner. apply ledger_listen; [done|done|]. by apply Ho.
  - exists owner. by apply ledger_close.
  - exists owner. by apply ledger_accept.
  - exists owner. destruct Hlg as [H1 H2 H3 H4]. split; [|by apply queues_same|by apply (places_step _ _ _ _ Hst0)|].
    + rewrite dialed_snoc. cbn. rewrite app_nil_r. by apply dials_start.
    + eapply ends_step; [exact H4|by eapply spec_step_conns|done| |done].
      intros id i Hw _. left. eapply waiting_keep; [done| |exact Hw]. intros id1 l1 H0. exists l1. by split.
  - exists owner. eapply (ledger_dial _ _ _ _ _ j d (Kept id0)); try done; [intros ?; congruence|by left].
  - eexists. by eapply ledger_connect.
  - exists owner. by eapply ledger_hand_over.
  - exists owner. eapply (ledger_dial _ _ _ _ _ j d (TurnedAway i0)); try done; [intros ?; congruence|right; by rewrite Hp].
  - exists owner. assert (i0 < length owner)%nat as Hlt by (eapply (do_known _ _ _ (lg_dials _ _ _ Hlg) j d); [done|by rewrite Hp]).
    destruct (lookup_lt_is_Some_2 _ _ Hlt) as [id Hid]. rewrite (proj1 (lg_places _ _ _ Hlg)) in Hlt.
    eapply (ledger_dial _ _ _ _ _ j d (Joined i0)); try done.
    + cbn. by rewrite length_alter.
    + intros ?; congruence.
    + right. by rewrite Hp.
    + intros i [= <-]. exists id. split; [done|]. by apply hung_up_close_ref.
  - exists owner. eapply (ledger_dial _ _ _ _ _ j d GivenUp); try done; [intros ?; congruence|by left].
  - exists owner. eapply (ledger_dial _ _ _ _ _ j d (GivenUpHolding id0)); try done; [intros ?; congruence|by left].
  - exists owner. eapply ledger_frame; try done; [by destruct Hsh|by destruct Hsh|]. cbn. by rewrite length_insert.
  - exists owner. eapply ledger_frame; try done. cbn. by rewrite length_alter.
  - exists owner. eapply ledger_frame; try done. cbn. by rewrite length_insert.
  - exists owner. eapply ledger_frame; try done. cbn. by rewrite length_map.
Qed.

Lemma ledger_run N0 evs N :
  spec_run N0 evs N -> ns_conns N0 = [] -> ns_listeners N0 = [] -> ns_dials N0 = [] -> exists owner, ledger owner evs N.
Proof.
  intros Hrun E1 E2 E3. induction Hrun as [N|N0 evs N1 ev N2 _ IH Hst].
  - exists []. split; rewrite ?E1, ?E2, ?E3.
    + split; [by intros|by intros|by intros|by intros ? ?%elem_of_nil|constructor].
    + split; [by intros|done|by intros|constructor].
    + split; [done|]. by intros.
    + by intros ? ?%elem_of_nil.
  - destruct (IH E1 E2 E3) as [owner Hlg]. by eapply ledger_step.
Qed.
End ledgers.
