(* ===== verification/NetSystem.v ===== *)
(** * A whole program against a Network

    Every goroutine of a program: dials section by section ([DialThreads]), Read
    and Write calls step by step, and the calls that are one locked section. A
    step carries as its label what the program sees of it. *)
From S2P Require Import Prelude GoRuntime Errors Float64 Rand Partition Trace PipeState Faults FaultProps Pipe PipeInv.
From S2P Require Import Deadline Options Conn ConnProps ConnRace NetIP NetIPProps NetIP6 Addr Addressing.
From S2P Require Import Replay Directions Listener Network NetworkInv NetworkFrame DialThreads DialSystem NetSpec.

(** ** Read and Write calls as threads *)

Inductive ioCall : Type :=
| ReadCall (size : nat) (pc : callPC (list Z))
| WriteCall (data : list Z) (pc : callPC Z).

Record ioThread : Type := mkIoThread { io_ref : connRef; io_call : ioCall }.

Definition startRead (c : connRef) (size : nat) : ioThread := mkIoThread c (ReadCall size CheckClosed).
Definition startWrite (c : connRef) (data : list Z) : ioThread := mkIoThread c (WriteCall data CheckClosed).

(** What is seen of one step of a call, and of one section of a dial. *)
Definition io_event (now : Time) (t t' : ioThread) : event :=
  match io_call t, io_call t' with
  | ReadCall _ (Return _ _), _ => ETau
  | ReadCall size _, ReadCall _ (Return out err) => ERead now (io_ref t) size (Got out err)
  | ReadCall size (Try _), ReadCall _ (Select _ _) => ERead now (io_ref t) size Blocks
  | WriteCall _ (Return _ _), _ => ETau
  | WriteCall data _, WriteCall _ (Return k err) => EWrite now (io_ref t) data (Got k err)
  | WriteCall data (Try _), WriteCall _ (ExpiredAgain _ _) => EWrite now (io_ref t) data Blocks
  | _, _ => ETau
  end.

Definition dial_event (j : nat) (pc pc' : dialPC) : event :=
  match pc with
  | Connected _ | Failed _ | FailedHolding _ _ _ => ETau
  | _ =>
      match pc' with
      | Connected i => EDialed j i
      | Failed err | FailedHolding _ _ err => EDialFails j err
      | _ => ETau
      end
  end.

Section system.
Context {Src : Type} `{!DrawSource Src} `{!RejectFuel} `{!Platform}.
Implicit Types (n : Network Src) (lk : link Src) (ds : list dialThread) (ios : list ioThread).

Definition ioStep (now : Time) (t : ioThread) n : go (ioThread * Network Src) :=
  let '(i, s) := io_ref t in
  lk ← deref (n_conns n !! i);
  match io_call t with
  | ReadCall size pc =>
      let '(pc, lk) := readStep (viewAt now n) size s pc lk in
      Ret (mkIoThread (i, s) (ReadCall size pc), set_conns n (<[i := lk]> (n_conns n)))
  | WriteCall data pc =>
      r ← writeStep (viewAt now n) data s pc lk;
      let '(pc, lk) := r in
      Ret (mkIoThread (i, s) (WriteCall data pc), set_conns n (<[i := lk]> (n_conns n)))
  end.

(** A write finds memory for its payload and, if it is traced, a sequence number. *)
Definition io_room (t : ioThread) n : Prop :=
  match io_call t with
  | ReadCall _ _ => True
  | WriteCall data _ =>
      zlen data < 2 ^ 63 /\ forall lk, n_conns n !! fst (io_ref t) = Some lk -> trace_room (writePipe lk (snd (io_ref t)))
  end.

(** The setters of the deadlines of one end. *)
Definition setDeadlines (now : Time) (r w : option Time) (s : connSide) lk : option (option goerror * link Src) :=
  match r, w with
  | Some t, None => Some (SetReadDeadline now t s lk)
  | None, Some t => Some (SetWriteDeadline now t s lk)
  | Some t, Some t' => if decide (t = t') then Some (SetDeadline now t s lk) else None
  | None, None => None
  end.

(** The runtime setters. *)
Definition applySetting (s : setting) n : go (Network Src) :=
  match s with
  | LatencySetting min max => SetLatency min max n
  | LossSetting rate => SetPacketLoss rate n
  | DuplicationSetting rate => SetDuplication rate n
  | CorruptionSetting rate => SetCorruption rate n
  end.

Definition setting_typed (s : setting) : Prop :=
  match s with
  | LatencySetting _ max => is_i64 max
  | LossSetting rate | DuplicationSetting rate | CorruptionSetting rate => f64_valid rate = true
  end.

Record system : Type := mkSystem {
  sy_net : Network Src;
  sy_dials : list dialThread;
  sy_ios : list ioThread
}.

Inductive prog_step : system -> event -> system -> Prop :=
| pg_listen n ds ios network laddr r n' :
    Listen network laddr n = Ret (r, n') -> prog_step (mkSystem n ds ios) (EListen network laddr r) (mkSystem n' ds ios)
| pg_close_listener n ds ios id : prog_step (mkSystem n ds ios) (ECloseListener id) (mkSystem (listenerClose id n) ds ios)
| pg_accept n ds ios pref id r n' :
    listenerAccept pref id n = (Some r, n') -> prog_step (mkSystem n ds ios) (EAccept id r) (mkSystem n' ds ios)
| pg_dial n ds ios ctx network a :
    prog_step (mkSystem n ds ios) (EDial ctx network a) (mkSystem n (ds ++ [startDial ctx network a]) ios)
| pg_thread n ds ios j d pref pick now d' n' :
    ds !! j = Some d -> (forall l, pick l ≡ₚ l) -> n_nextOrdinal n + 1 < 2 ^ 64 ->
    threadStep pref pick now d n = Ret (d', n') ->
    prog_step (mkSystem n ds ios) (dial_event j (dt_pc d) (dt_pc d')) (mkSystem n' (<[j := d']> ds) ios)
| pg_call_read n ds ios c size :
    is_Some (n_conns n !! fst c) -> prog_step (mkSystem n ds ios) ETau (mkSystem n ds (ios ++ [startRead c size]))
| pg_call_write n ds ios c data :
    is_Some (n_conns n !! fst c) -> prog_step (mkSystem n ds ios) ETau (mkSystem n ds (ios ++ [startWrite c data]))
| pg_io n ds ios j t now t' n' :
    ios !! j = Some t -> io_room t n -> ioStep now t n = Ret (t', n') ->
    prog_step (mkSystem n ds ios) (io_event now t t') (mkSystem n' ds (<[j := t']> ios))
| pg_release n ds ios now i lk w :
    n_conns n !! i = Some lk ->
    prog_step (mkSystem n ds ios) ETau (mkSystem (upd_pipe i w (releaseDueLatency now (writePipe lk w)) n) ds ios)
| pg_close n ds ios c : prog_step (mkSystem n ds ios) (EClose c) (mkSystem (connClose c n) ds ios)
| pg_deadlines n ds ios now i s lk r w err lk' :
    n_conns n !! i = Some lk -> setDeadlines now r w s lk = Some (err, lk') ->
    prog_step (mkSystem n ds ios) (ESetDeadlines (i, s) r w err) (mkSystem (set_conns n (<[i := lk']> (n_conns n))) ds ios)
| pg_read_timer n ds ios i s lk :
    n_conns n !! i = Some lk ->
    prog_step (mkSystem n ds ios) ETau
      (mkSystem (set_conns n (<[i := upd_end s (fun c => set_c_rd c (timerFired (c_rd c))) lk]> (n_conns n))) ds ios)
| pg_write_timer n ds ios i s lk :
    n_conns n !! i = Some lk ->
    prog_step (mkSystem n ds ios) ETau
      (mkSystem (set_conns n (<[i := upd_end s (fun c => set_c_wd c (timerFired (c_wd c))) lk]> (n_conns n))) ds ios)
| pg_partition n ds ios a b n' :
    Partition a b n = Ret n' -> prog_step (mkSystem n ds ios) (EPartition a b) (mkSystem n' ds ios)
| pg_heal n ds ios a b n' : Heal a b n = Ret n' -> prog_step (mkSystem n ds ios) (EHeal a b) (mkSystem n' ds ios)
| pg_reset n ds ios a b n' : Reset a b n = Ret n' -> prog_step (mkSystem n ds ios) (EReset a b) (mkSystem n' ds ios)
| pg_setting n ds ios s n' :
    setting_typed s -> applySetting s n = Ret n' -> prog_step (mkSystem n ds ios) (ESetting s) (mkSystem n' ds ios).

Inductive prog_run : system -> list event -> system -> Prop :=
| prun_nil s : prog_run s [] s
| prun_snoc s evs s1 ev s2 : prog_run s evs s1 -> prog_step s1 ev s2 -> prog_run s (evs ++ [ev]) s2.

(** A program: a new Network, and any run from there. *)
Definition program (vs : list optionValue) (n : Network Src) (evs : list event) (s : system) : Prop :=
  Forall option_typed vs /\ NewNetwork (map (fun o => Some (optionOf o)) vs) = Ret n /\ prog_run (mkSystem n [] []) evs s.

(** ** The Network and the dials of a program are a system of [DialThreads] *)

Definition base (s : system) : Network Src * list dialThread := (sy_net s, sy_dials s).

Lemma set_conns_same n (i : nat) lk : n_conns n !! i = Some lk -> set_conns n (<[i := lk]> (n_conns n)) = n.
Proof. intros Hi. rewrite list_insert_id by done. by destruct n. Qed.

Lemma set_conns_pipe n (i : nat) lk w p :
  n_conns n !! i = Some lk -> set_conns n (<[i := set_writePipe lk w p]> (n_conns n)) = upd_pipe i w p n.
Proof. intros Hi. unfold upd_pipe, upd_conn. by rewrite (alter_insert _ _ _ lk). Qed.

(** One step of a call: nothing moves, or its pipe is tried. *)
Inductive io_effect (now : Time) (i : nat) (s : connSide) lk n : ioCall -> ioCall -> Network Src -> Prop :=
| ie_read_try size dch r p :
    tryRead (viewAt now n) (readPipe lk s) size = (r, p) ->
    io_effect now i s lk n (ReadCall size (Try dch))
      (ReadCall size (match r with Wait ch => Select ch dch | Done out (Some err) => ErrCheckClosed out err | Done out None => Return out None end))
      (upd_pipe i (other s) p n)
| ie_read_stay size pc pc' :
    (forall dch, pc <> Try dch) -> readStep (viewAt now n) size s pc lk = (pc', lk) ->
    io_effect now i s lk n (ReadCall size pc) (ReadCall size pc') n
| ie_write_try data dch r p :
    tryWrite (viewAt now n) (writePipe lk s) data = Ret (r, p) ->
    io_effect now i s lk n (WriteCall data (Try dch))
      (WriteCall data (match r with Wait ch => ExpiredAgain ch dch | Done k (Some err) => ErrCheckClosed k err | Done k None => Return k None end))
      (upd_pipe i s p n)
| ie_write_stay data pc pc' :
    (forall dch, pc <> Try dch) -> writeStep (viewAt now n) data s pc lk = Ret (pc', lk) ->
    io_effect now i s lk n (WriteCall data pc) (WriteCall data pc') n.

Lemma ioStep_effect now t n t' n' :
  ioStep now t n = Ret (t', n') ->
  exists lk, n_conns n !! fst (io_ref t) = Some lk /\ io_ref t' = io_ref t /\
    io_effect now (fst (io_ref t)) (snd (io_ref t)) lk n (io_call t) (io_call t') n'.
Proof.
  unfold ioStep. destruct t as [[i s] call]. cbn [io_ref io_call fst snd].
  destruct (n_conns n !! i) as [lk|] eqn:Hi; [|done]. cbn [deref mbind go_bind].
  destruct call as [size pc|data pc].
  - destruct (readStep (viewAt now n) size s pc lk) as [pc' lk'] eqn:Es. intros [= <- <-]. exists lk. split; [done|]. split; [done|].
    cbn [io_call]. destruct pc as [| | |dch|dch|out err|out err|ch dch|ch dch|out err];
      try (cbn [readStep] in Es; assert (lk' = lk) as -> by (by injection Es); rewrite set_conns_same by done; by apply ie_read_stay).
    cbn [readStep] in Es. destruct (tryRead _ _ size) as [r p] eqn:Et. injection Es as <- <-. unfold set_readPipe.
    rewrite set_conns_pipe by done. by apply ie_read_try.
  - intros ([pc' lk'] & Es & [= <- <-])%go_bind_ret. exists lk. split; [done|]. split; [done|].
    cbn [io_call]. destruct pc as [| | |dch|dch|out err|out err|ch dch|ch dch|out err];
      try (cbn [writeStep] in Es; assert (lk' = lk) as -> by (by injection Es); rewrite set_conns_same by done; by apply ie_write_stay).
    cbn [writeStep] in Es. apply go_bind_ret in Es as ([r p] & Et & Es). injection Es as <- <-.
    rewrite set_conns_pipe by done. by apply ie_write_try.
Qed.

Lemma setDeadlines_io now r w s lk err lk' : setDeadlines now r w s lk = Some (err, lk') -> io_step lk lk'.
Proof.
  unfold setDeadlines. destruct r as [t|], w as [t'|]; try done.
  - destruct (decide _) as [<-|]; [|done]. intros [= E]. change lk' with (snd (err, lk')). rewrite <- E. apply io_setDeadline.
  - intros [= E]. change lk' with (snd (err, lk')). rewrite <- E. apply io_setReadDeadline.
  - intros [= E]. change lk' with (snd (err, lk')). rewrite <- E. apply io_setWriteDeadline.
Qed.

Lemma setDeadlines_pipes now r w s lk err lk' u : setDeadlines now r w s lk = Some (err, lk') -> writePipe lk' u = writePipe lk u.
Proof.
  unfold setDeadlines, SetDeadline, SetReadDeadline, SetWriteDeadline, upd_end.
  destruct r as [t|], w as [t'|]; [destruct (decide _)| | |]; try done; destruct (c_closed _); intros [= _ <-]; by rewrite ?writePipe_set_end.
Qed.

Lemma prog_step_base s ev s' : prog_step s ev s' -> rtc sys_step (base s) (base s').
Proof.
  intros Hst. destruct Hst as [n ds ios network laddr r n' E|n ds ios id|n ds ios pref id r n' E|n ds ios ctx network a
    |n ds ios j d pref pick now d' n' Hj Hpick Hlt E|n ds ios c size Hc|n ds ios c data Hc|n ds ios j t now t' n' Hj Hroom E
    |n ds ios now i lk w Hi|n ds ios c|n ds ios now i s lk r w err lk' Hi E|n ds ios i s lk Hi|n ds ios i s lk Hi
    |n ds ios a b n' E|n ds ios a b n' E|n ds ios a b n' E|n ds ios s n' Ht E]; unfold base; cbn [sy_net sy_dials]; try apply rtc_refl.
  - apply rtc_once, sy_call, st_section. by eapply st_listen.
  - apply rtc_once, sy_call, st_closeListener.
  - apply rtc_once, sy_call, st_section. change n' with (snd (Some r, n')). rewrite <- E. apply st_accept.
  - apply rtc_once, sy_dial.
  - apply rtc_once. by eapply sy_thread.
  - destruct (ioStep_effect _ _ _ _ _ E) as (lk & Hi & _ & He). destruct t as [[i s] call], t' as [r' call'].
    cbn [io_ref io_call fst snd] in *. destruct He as [size dch r p Et|size pc pc' _ _|data dch r p Et|data pc pc' _ _]; try apply rtc_refl.
    + apply rtc_once, sy_call, st_section. change p with (snd (r, p)). unfold readPipe in Et. rewrite <- Et. by apply st_tryRead.
    + destruct Hroom as [Hlen Hroom]. apply rtc_once, sy_call, st_section. eapply st_tryWrite; [exact Hi|exact Hlen| |exact Et]. by apply Hroom.
  - by apply rtc_once, sy_call, st_section, st_release.
  - apply rtc_once, sy_call, st_close.
  - apply rtc_once, sy_call, st_section, (st_deadline n i lk lk' Hi); [by eapply setDeadlines_io|]. intros u. by eapply setDeadlines_pipes.
  - apply rtc_once, sy_call, st_section, (st_deadline n i lk); [done|apply io_readTimer|]. intros u. apply writePipe_set_end.
  - apply rtc_once, sy_call, st_section, (st_deadline n i lk); [done|apply io_writeTimer|]. intros u. apply writePipe_set_end.
  - apply rtc_once, sy_call. by eapply st_partition.
  - apply rtc_once, sy_call. by eapply st_heal.
  - apply rtc_once, sy_call. by eapply st_reset.
  - apply rtc_once, sy_call, st_section. destruct s; cbn in Ht, E; [by eapply st_latency|by eapply st_loss|by eapply st_duplication|by eapply st_corruption].
Qed.

Lemma program_reachable vs n evs s : program vs n evs s -> reachable (base s).
Proof.
  intros (Hvs & E & Hrun). exists vs, n. split; [done|]. split; [done|]. remember (mkSystem n [] []) as s0.
  change (n, []) with (base (mkSystem n [] [])). rewrite <- Heqs0. clear Heqs0.
  induction Hrun as [|s0 evs s1 ev s2 _ IH Hst]; [apply rtc_refl|]. etransitivity; [by apply IH|]. by eapply prog_step_base.
Qed.
End system.

Arguments system Src : clear implicits.
