(* ===== verification/NetAbstract.v ===== *)
(** * A Network seen as the abstract machine

    [absNet] forgets the tables, counters, timers, generations and streams of
    random numbers of a Network and the local variables of its dials. Each
    operation, seen through it, is what the abstract machine does. *)
From S2P Require Import Prelude GoRuntime Errors Float64 Rand Partition Trace PipeState Faults FaultProps Pipe PipeInv PipeProps.
From S2P Require Import Deadline Options Conn ConnProps ConnRace NetIP NetIPProps NetIP6 Addr Addressing.
From S2P Require Import Replay Directions Listener Network NetworkInv NetworkFrame NetworkListen NetworkDial NetworkFaults.
From S2P Require Import DialThreads DialSystem Ends NetSpec NetSpecProps.

Section abs.
Context {Src : Type} `{!DrawSource Src} `{!RejectFuel} `{!Platform}.
Implicit Types (n : Network Src) (lk : link Src) (p : pipe Src).

Definition absEnd lk (s : connSide) : specEnd :=
  let e := end_of lk s in
  mkSpecEnd (c_network e) (c_local e) (c_remote e) (c_closed e) (c_reset e) (dl_t (c_rd e)) (dl_t (c_wd e))
    (stream_of (writePipe lk s)).

Definition absConn lk : specConn := mkSpecConn (c_pair (lk_client lk)) (absEnd lk sideDialer) (absEnd lk sideAcceptor).

Definition absListener (l : listener connRef) : specListener :=
  mkSpecListener (l_addr l) (l_cap l) (negb (l_closed l)) (l_incoming l).

Definition absPhase (pc : dialPC) : dialPhase :=
  match pc with
  | Resolving | Checking _ | Waiting _ _ | Looking _ | Reserving _ _ => Dialing
  | Numbering _ id | Addressing _ id _ | Publishing _ id _ _ => Kept id
  | Tracing _ id i _ | HandingOff id i | Sending id i => Made id i
  | ClosingOff i => TurnedAway i
  | Connected i => Joined i
  | Failed _ => GivenUp
  | FailedHolding id _ _ => GivenUpHolding id
  end.

Definition absDial (d : dialThread) : specDial := mkSpecDial (dt_ctx d) (dt_network d) (dt_addr d) (absPhase (dt_pc d)).

Definition absNet n (ds : list dialThread) : netSpec :=
  mkNetSpec (map absListener (n_heap n)) (map absDial ds) (map absConn (n_conns n)) (partitions (n_part n)) (n_faults n)
    (n_book n) (n_pipeBound n).

(** ** Equations *)

Lemma sc_end_abs lk s : sc_end (absConn lk) s = absEnd lk s.
Proof. by destruct s. Qed.

Lemma stream_out_abs lk s : stream_out (absConn lk) s = stream_of (writePipe lk s).
Proof. unfold stream_out. by rewrite sc_end_abs. Qed.

Lemma absConn_set_writePipe lk w p : absConn (set_writePipe lk w p) = set_stream w (stream_of p) (absConn lk).
Proof. by destruct w. Qed.

Lemma abs_lookup {A B} (f : A -> B) (l : list A) (i : nat) x : l !! i = Some x -> map f l !! i = Some (f x).
Proof. intros Hi. apply list_lookup_fmap_Some. by exists x. Qed.

Lemma abs_insert {A B} (f : A -> B) (l : list A) (i : nat) x : map f (<[i := x]> l) = <[i := f x]> (map f l).
Proof. apply list_fmap_insert. Qed.

Lemma abs_insert_same {A B} (f : A -> B) (l : list A) (i : nat) x y :
  l !! i = Some x -> f y = f x -> map f (<[i := y]> l) = map f l.
Proof. intros Hi E. rewrite abs_insert, E. apply list_insert_id. by apply abs_lookup. Qed.

Lemma stream_close_abs p : stream_of (close p) = stream_close (stream_of p).
Proof. unfold close, stream_of, stream_close. destruct (p_closed p) eqn:E; cbn; [by rewrite E|done]. Qed.

Lemma stream_abort_abs p : pipe_ok p -> stream_of (abort p) = stream_abort (stream_of p).
Proof.
  intros Hok. unfold abort, stream_of, stream_abort. destruct (p_readClosed p) eqn:E; [|done].
  destruct (ok_aborted _ Hok E) as (-> & -> & ->). by rewrite E.
Qed.

Lemma absEnd_deadline lk s f :
  (forall e, c_network (f e) = c_network e /\ c_local (f e) = c_local e /\ c_remote (f e) = c_remote e /\ c_closed (f e) = c_closed e /\
     c_reset (f e) = c_reset e /\ c_pair (f e) = c_pair e) ->
  absConn (upd_end s f lk) =
  on_end s (fun e => se_set_deadlines (dl_t (c_rd (f (end_of lk s)))) (dl_t (c_wd (f (end_of lk s)))) e) (absConn lk).
Proof.
  intros Hf. destruct (Hf (end_of lk s)) as (E1 & E2 & E3 & E4 & E5 & E6).
  destruct s; cbn in *; unfold absConn, absEnd, upd_end; cbn; by rewrite E1, E2, E3, E4, E5, ?E6.
Qed.

Lemma on_end_self s sc : on_end s (fun e => se_set_deadlines (se_readBy e) (se_writeBy e) e) sc = sc.
Proof. by destruct s, sc as [? [] []]. Qed.

Lemma absEnd_same_deadline lk s f :
  (forall e, c_network (f e) = c_network e /\ c_local (f e) = c_local e /\ c_remote (f e) = c_remote e /\ c_closed (f e) = c_closed e /\
     c_reset (f e) = c_reset e /\ c_pair (f e) = c_pair e) ->
  (forall e, dl_t (c_rd (f e)) = dl_t (c_rd e) /\ dl_t (c_wd (f e)) = dl_t (c_wd e)) ->
  absConn (upd_end s f lk) = absConn lk.
Proof.
  intros Hf Hd. rewrite absEnd_deadline by done. destruct (Hd (end_of lk s)) as [-> ->].
  rewrite <- (on_end_self s (absConn lk)) at 2. unfold on_end. by rewrite sc_end_abs.
Qed.

(** ** Close *)

Lemma absConn_Close s lk : (forall w, pipe_ok (writePipe lk w)) -> absConn (Close s lk) = close_end s (absConn lk).
Proof.
  intros Hok. unfold Close, close_end. rewrite sc_end_abs. cbn [absEnd se_closed]. destruct (c_closed (end_of lk s)); [done|].
  rewrite !absEnd_same_deadline by done. destruct s; unfold absConn, absEnd, set_stream, on_end, stream_out; cbn;
    by rewrite stream_close_abs, stream_abort_abs by apply (Hok sideDialer) || apply (Hok sideAcceptor).
Qed.

Lemma link_pipes n (i : nat) lk : net_ok n -> n_conns n !! i = Some lk -> forall w, pipe_ok (writePipe lk w).
Proof. intros Hok Hi w. eapply dir_pipe. by eapply (ok_pipes _ Hok). Qed.

Lemma abs_alter (cs : list (link Src)) (i : nat) f g :
  (forall lk, cs !! i = Some lk -> absConn (f lk) = g (absConn lk)) -> map absConn (alter f i cs) = alter g i (map absConn cs).
Proof.
  intros Hfg. apply list_eq. intros j. rewrite list_lookup_fmap. destruct (decide (i = j)) as [<-|Hne].
  - rewrite !list_lookup_alter_eq, list_lookup_fmap. destruct (cs !! i) as [lk|] eqn:Hi; [|done]. cbn. by rewrite Hfg.
  - by rewrite !list_lookup_alter_ne, list_lookup_fmap.
Qed.

Lemma absNet_connClose c n ds : net_ok n -> absNet (connClose c n) ds = close_ref c (absNet n ds).
Proof.
  intros Hok. destruct c as [i s]. unfold connClose, close_ref. cbn [fst snd].
  assert (forall m, n_heap m = n_heap n -> n_part m = n_part n -> n_faults m = n_faults n -> n_book m = n_book n ->
    n_pipeBound m = n_pipeBound n -> map absConn (n_conns m) = alter (close_end s) i (map absConn (n_conns n)) ->
    absNet m ds = with_conns (alter (close_end s) i (ns_conns (absNet n ds))) (absNet n ds)) as Hgo.
  { intros m E1 E2 E3 E4 E5 E6. unfold absNet, with_conns. cbn. by rewrite E1, E2, E3, E4, E5, E6. }
  destruct (n_conns n !! i) as [lk|] eqn:Hi.
  2: { apply Hgo; try done. apply list_eq. intros j. destruct (decide (i = j)) as [<-|Hne].
       - by rewrite list_lookup_alter_eq, list_lookup_fmap, Hi.
       - by rewrite list_lookup_alter_ne. }
  cbn zeta. destruct (c_closed (end_of lk s)) eqn:Ec.
  { apply Hgo; try done. apply list_eq. intros j. destruct (decide (i = j)) as [<-|Hne]; [|by rewrite list_lookup_alter_ne].
    rewrite list_lookup_alter_eq, (abs_lookup _ _ _ _ Hi). cbn. unfold close_end. rewrite sc_end_abs. cbn [absEnd se_closed]. by rewrite Ec. }
  set (m := if c_nw (end_of lk s) then _ else n).
  assert (n_heap m = n_heap n /\ n_part m = n_part n /\ n_faults m = n_faults n /\ n_book m = n_book n /\
    n_pipeBound m = n_pipeBound n /\ n_conns m = n_conns n) as (E1 & E2 & E3 & E4 & E5 & E6).
  { unfold m, deregisterReset. cbn zeta. by destruct (c_nw _); [destruct (decide _)|]. }
  apply Hgo; cbn [upd_conn set_conns n_heap n_part n_faults n_book n_pipeBound n_conns]; try done. rewrite E6.
  apply abs_alter. intros lk0 Hi0. apply absConn_Close. by eapply link_pipes.
Qed.

Lemma absNet_closeAll cs n ds :
  net_ok n -> absNet (fold_left (fun n c => connClose c n) cs n) ds = fold_left (fun N c => close_ref c N) cs (absNet n ds).
Proof.
  revert n. induction cs as [|c cs IH]; intros n Hok; [done|]. cbn [fold_left]. rewrite IH by (by apply connClose_ok).
  by rewrite absNet_connClose.
Qed.

(** ** Reset *)

(** What a pass over the ends [ts] does to connection [i]. *)
Definition pass (f : connSide -> link Src -> link Src) (ts : list connRef) (i : nat) lk : link Src :=
  fold_left (fun lk c => if decide (fst c = i) then f (snd c) lk else lk) ts lk.

Lemma fold_pass f ts n (i : nat) :
  n_conns (fold_left (fun n c => upd_conn (fst c) (f (snd c)) n) ts n) !! i = pass f ts i <$> n_conns n !! i.
Proof.
  unfold pass. revert n. induction ts as [|[j s] ts IH]; intros n; cbn [fold_left fst snd]; [by destruct (n_conns n !! i)|].
  rewrite IH. cbn [upd_conn set_conns n_conns]. destruct (decide (j = i)) as [->|Hne].
  - rewrite list_lookup_alter_eq. by destruct (n_conns n !! i).
  - by rewrite list_lookup_alter_ne.
Qed.

Definition mark_ends (d a : bool) (sc : specConn) : specConn :=
  mkSpecConn (sc_pair sc) (se_set_reset (se_reset (sc_dialer sc) || d) (sc_dialer sc))
    (se_set_reset (se_reset (sc_acceptor sc) || a) (sc_acceptor sc)).

Definition cut_streams (sc : specConn) : specConn :=
  mkSpecConn (sc_pair sc) (se_set_out (stream_abort (se_out (sc_dialer sc))) (sc_dialer sc))
    (se_set_out (stream_abort (se_out (sc_acceptor sc))) (sc_acceptor sc)).

Lemma in_ref_cons (i j : nat) (s e : connSide) (ts : list connRef) :
  bool_decide ((i, e) ∈ (j, s) :: ts) = bool_decide (j = i /\ s = e) || bool_decide ((i, e) ∈ ts).
Proof.
  destruct (decide (j = i /\ s = e)) as [[-> ->]|Hne].
  - rewrite (bool_decide_eq_true_2 (i = i /\ e = e)) by done. by rewrite bool_decide_eq_true_2 by (by left).
  - rewrite (bool_decide_eq_false_2 (j = i /\ s = e)) by done. cbn. apply bool_decide_ext. rewrite elem_of_cons.
    split; [|by right]. intros [[= -> ->]|?]; [by destruct Hne|done].
Qed.

Lemma pass_signal ts (i : nat) lk :
  absConn (pass signalReset ts i lk) = mark_ends (bool_decide ((i, sideDialer) ∈ ts)) (bool_decide ((i, sideAcceptor) ∈ ts)) (absConn lk) /\
  forall w, writePipe (pass signalReset ts i lk) w = writePipe lk w.
Proof.
  revert lk. induction ts as [|[j s] ts IH]; intros lk; cbn [pass fold_left fst snd].
  { rewrite !bool_decide_eq_false_2 by apply not_elem_of_nil. unfold mark_ends. rewrite !orb_false_r.
    split; [|done]. by destruct lk. }
  rewrite !in_ref_cons. destruct (decide (j = i)) as [->|Hne].
  - destruct (IH (signalReset s lk)) as [E1 E2]. split; [|intros w; rewrite E2; apply writePipe_set_end].
    unfold pass in E1. rewrite E1. destruct s.
    + rewrite (bool_decide_eq_true_2 (i = i /\ sideDialer = sideDialer)) by done; rewrite (bool_decide_eq_false_2 (i = i /\ sideDialer = sideAcceptor)) by (intros []; congruence).
      unfold mark_ends. cbn. by rewrite orb_true_r.
    + rewrite (bool_decide_eq_true_2 (i = i /\ sideAcceptor = sideAcceptor)) by done; rewrite (bool_decide_eq_false_2 (i = i /\ sideAcceptor = sideDialer)) by (intros []; congruence).
      unfold mark_ends. cbn. by rewrite orb_true_r.
  - destruct (IH lk) as [E1 E2]. split; [|done]. unfold pass in E1. rewrite E1.
    by rewrite (bool_decide_eq_false_2 (j = i /\ s = sideDialer)), (bool_decide_eq_false_2 (j = i /\ s = sideAcceptor)) by (intros []; congruence).
Qed.

Lemma abortReset_abs s lk :
  (forall w, pipe_ok (writePipe lk w)) ->
  absConn (abortReset s lk) = cut_streams (absConn lk) /\ forall w, pipe_ok (writePipe (abortReset s lk) w).
Proof.
  intros Hok. pose proof (Hok sideDialer) as H1. pose proof (Hok sideAcceptor) as H2. split.
  - destruct s; unfold absConn, absEnd, cut_streams; cbn; rewrite !stream_abort_abs; done.
  - pose proof (proj1 (abort_sound _ H1)). pose proof (proj1 (abort_sound _ H2)). by destruct s; intros [].
Qed.

Lemma pass_abort ts (i : nat) lk :
  (forall w, pipe_ok (writePipe lk w)) ->
  absConn (pass abortReset ts i lk) =
  if bool_decide ((i, sideDialer) ∈ ts) || bool_decide ((i, sideAcceptor) ∈ ts) then cut_streams (absConn lk) else absConn lk.
Proof.
  revert lk. induction ts as [|[j s] ts IH]; intros lk Hok; cbn [pass fold_left fst snd].
  { by rewrite !bool_decide_eq_false_2 by apply not_elem_of_nil. }
  rewrite !in_ref_cons. unfold pass in IH. destruct (decide (j = i)) as [->|Hne].
  - destruct (abortReset_abs s lk Hok) as [E1 Hok1]. rewrite (IH _ Hok1), E1.
    assert (cut_streams (cut_streams (absConn lk)) = cut_streams (absConn lk)) as -> by done.
    destruct s; [rewrite (bool_decide_eq_true_2 (i = i /\ sideDialer = sideDialer)) by done
                |rewrite (bool_decide_eq_true_2 (i = i /\ sideAcceptor = sideAcceptor)) by done];
      cbn; rewrite ?orb_true_r; by destruct (_ || _).
  - rewrite (IH _ Hok). by rewrite (bool_decide_eq_false_2 (j = i /\ s = sideDialer)), (bool_decide_eq_false_2 (j = i /\ s = sideAcceptor)) by (intros []; congruence).
Qed.

(** The ends a Reset takes from the registry are the live ones of the pair. *)
Lemma target_live k n (i : nat) lk s :
  net_ok n -> n_conns n !! i = Some lk -> link_named (n_book n) lk ->
  bool_decide ((i, s) ∈ targets (n_resetTargets n) k) = bool_decide (sc_pair (absConn lk) = k) && live (sc_end (absConn lk) s).
Proof.
  intros Hok Hi Hnm. destruct (registry_live n k Hok) as [_ Hin]. rewrite sc_end_abs. unfold live. cbn [absEnd se_closed se_reset absConn sc_pair].
  assert (c_pair (end_of lk s) = c_pair (lk_client lk)) as Ep by (rewrite (ln_pair _ _ Hnm s); symmetry; apply (ln_pair _ _ Hnm sideDialer)).
  assert ((i, s) ∈ targets (n_resetTargets n) k <->
    c_pair (lk_client lk) = k /\ c_closed (end_of lk s) = false /\ c_reset (end_of lk s) = false) as Hiff.
  { rewrite Hin. unfold live_end. cbn [fst snd]. rewrite Hi, <- Ep. split.
    - by intros (lk0 & [= <-] & _ & ?).
    - intros Hl. exists lk. split; [done|]. split; [apply (ln_nw _ _ Hnm)|done]. }
  destruct (decide ((i, s) ∈ targets (n_resetTargets n) k)) as [Ht|Ht].
  - rewrite bool_decide_eq_true_2 by done. apply Hiff in Ht as (-> & -> & ->). by rewrite bool_decide_eq_true_2.
  - rewrite bool_decide_eq_false_2 by done. symmetry. destruct (decide (c_pair (lk_client lk) = k)) as [E|E]; [|by rewrite bool_decide_eq_false_2].
    rewrite bool_decide_eq_true_2 by done. cbn. destruct (c_closed (end_of lk s)) eqn:Ec, (c_reset (end_of lk s)) eqn:Er; try done.
    destruct Ht. by apply Hiff.
Qed.

Lemma absNet_resetPair k n ds :
  net_ok n -> conns_named (n_book n) (n_conns n) -> absNet (resetPair k n) ds = reset_pair k (absNet n ds).
Proof.
  intros Hok Hnm.
  assert (map absConn (n_conns (resetPair k n)) = map (fun sc => if decide (sc_pair sc = k) then reset_conn sc else sc) (map absConn (n_conns n))) as Ec.
  { apply list_eq. intros i. rewrite !list_lookup_fmap. unfold resetPair. rewrite !fold_pass. cbn [set_resetTargets n_conns].
    destruct (n_conns n !! i) as [lk|] eqn:Hi; [|done]. cbn [fmap option_fmap option_map]. f_equal.
    destruct (pass_signal (targets (n_resetTargets n) k) i lk) as [E1 E2].
    rewrite pass_abort by (intros w; rewrite E2; by eapply link_pipes). rewrite E1.
    rewrite !(target_live k n i lk) by (done || by apply (Hnm i)). destruct (decide (sc_pair (absConn lk) = k)) as [E|E].
    - rewrite bool_decide_eq_true_2 by done. unfold reset_conn. cbn [andb sc_end]. destruct (live (sc_dialer (absConn lk)) || live (sc_acceptor (absConn lk))) eqn:El; [done|].
      apply orb_false_iff in El as [-> ->]. unfold mark_ends. rewrite !orb_false_r. by destruct lk.
    - rewrite bool_decide_eq_false_2 by done. cbn. unfold mark_ends. rewrite !orb_false_r. by destruct lk. }
  destruct (resetPair_shape k n) as (conns & Esh & _). rewrite Esh in Ec |- *. unfold absNet, reset_pair, with_conns. cbn in Ec |- *. by rewrite Ec.
Qed.
End abs.
