(* ===== verification/NetRefine.v ===== *)
(** * The Network implements the abstract machine *)
From S2P Require Import Prelude GoRuntime Errors Float64 Rand Partition Trace PipeState Faults FaultProps Pipe PipeInv PipeProps.
From S2P Require Import Deadline Options Conn ConnProps ConnRace NetIP NetIPProps NetIP6 Addr Addressing.
From S2P Require Import Replay Directions Listener Network NetworkInv NetworkFrame NetworkListen NetworkDial NetworkFaults.
From S2P Require Import DialThreads DialSystem Ends NetSpec NetSpecProps NetSystem NetAbstract.

(** ** Names *)

Lemma denotes_le book book' host peer : owners_le book book' -> denotes book host peer -> denotes book' host peer.
Proof.
  unfold denotes, canonicalPeerLocked. intros Hle. destruct (parseLiteralIP host) as [ip|]; [|by intros [= <-]].
  destruct (ipOwners book !! keyOf ip) as [owner|] eqn:Eo.
  - intros [= <-]. by rewrite (lookup_weaken _ _ _ _ Eo Hle).
  - intros [= _ E]. rewrite <- E in Eo at 1. cbn in Eo. by rewrite lookup_insert_eq in Eo.
Qed.

Lemma denotes_fun book host peer peer' : denotes book host peer -> denotes book host peer' -> peer' = peer.
Proof. unfold denotes. congruence. Qed.

Lemma canonical_denotes host book peer book' : book_ok book -> canonicalPeerLocked host book = (peer, book') -> denotes book' host peer.
Proof. intros Hok E. pose proof (canonicalPeerLocked_ok host book Hok) as H. rewrite E in H. by destruct H as (_ & _ & _ & _ & ? & _). Qed.

Lemma reaches_le book book' network a l explicit : owners_le book book' -> reaches book network a l explicit -> reaches book' network a l explicit.
Proof.
  intros Hle [(host & port & E & Hne & Hd & Hp & Hip) Hf]. split; [|done]. exists host, port. split_and!; try done. by eapply denotes_le.
Qed.

Section names.
Context {Src : Type} `{!DrawSource Src} `{!RejectFuel} `{!Platform}.
Implicit Types (n : Network Src).

Lemma resolvePeer_denotes name n peer n' : net_ok n -> resolvePeer name n = (peer, n') -> denotes (n_book n') (peerName name) peer.
Proof.
  intros Hok. unfold resolvePeer, canonicalPeer. destruct (canonicalPeerLocked (peerName name) (n_book n)) as [q book] eqn:E.
  intros [= <- <-]. cbn. by eapply canonical_denotes; [apply Hok|].
Qed.

Lemma resolvePair_named a b n k n' : net_ok n -> resolvePair a b n = (k, n') -> pair_named (n_book n') a b k.
Proof.
  intros Hok. unfold resolvePair. destruct (resolvePeer a n) as [pa n1] eqn:Ea. destruct (resolvePeer b n1) as [pb n2] eqn:Eb.
  destruct (resolvePeer_ok _ _ _ _ Hok Ea) as (Hok1 & _ & _ & _). destruct (resolvePeer_ok _ _ _ _ Hok1 Eb) as (_ & _ & [Hle _] & _).
  intros [= <- <-]. exists pa, pb. split_and!; [|exact (resolvePeer_denotes _ _ _ _ Hok1 Eb)|done].
  eapply denotes_le; [exact Hle|]. exact (resolvePeer_denotes _ _ _ _ Hok Ea).
Qed.

(** What a Listen that succeeds has made of its address. *)
Lemma Listen_names network laddr n id n' l :
  net_ok n -> Listen network laddr n = Ret (inl id, n') -> n_heap n' !! id = Some l ->
  addr_network (l_addr l) = network /\
  exists host port explicit, splitAddr laddr = inl (host, port, explicit) /\
    (host <> ""%string -> denotes (n_book n') host (addr_peer (l_addr l))) /\ (explicit = true -> addr_port (l_addr l) = port).
Proof.
  intros Hok. unfold Listen. destruct (validateNetwork network); [done|].
  destruct (splitAddr laddr) as [[[peer port] explicit]|err] eqn:Esplit; [|done].
  set (pn := if String.eqb peer "" then _ else _).
  assert (exists peer1 w, pn = (peer1, set_nextWildcard n w) /\ (peer <> ""%string -> peer1 = peer)) as (peer1 & w & -> & Hp1).
  { unfold pn. destruct (String.eqb_spec peer ""); [by eexists _, _|]. exists peer, (n_nextWildcard n). split; [by destruct n|done]. }
  cbv beta iota zeta. destruct (match parseLiteralIP peer1 with Some _ => _ | None => _ end); [done|].
  cbn [n_book set_nextWildcard]. destruct (canonicalPeerLocked peer1 (n_book n)) as [peer2 book] eqn:Ecp.
  pose proof (canonicalPeerLocked_ok peer1 _ (ok_book _ Hok)) as Hc. rewrite Ecp in Hc. destruct Hc as (C1 & _ & _ & C4 & C5 & _).
  pose proof (canonicalPeerLocked_le _ _ _ _ (ok_book _ Hok) Ecp) as C2.
  set (n1 := set_book _ book). assert (net_ok n1) as Hok1 by (by apply net_ok_book, net_ok_wild).
  destruct (listenPort peer2 port explicit n1) as [port2 n2] eqn:Ep.
  destruct (listenPort_spec _ _ _ _ _ _ Hok1 Ep) as (Hok2 & En2 & Hgiven & Hpicked).
  assert (0 <= port2 <= maxPort) as Hport.
  { destruct explicit; [rewrite Hgiven by done; by apply (splitAddr_range _ _ _ _ Esplit)|].
    specialize (Hpicked eq_refl). unfold listenPortBase in Hpicked. lia. }
  assert (n_book n2 = book) as Eb by (by rewrite En2). intros E Hi.
  destruct (listenRegister_spec network laddr peer2 port2 n2 Hok2 ltac:(by rewrite Eb) Hport) as (r & n3 & E3 & _ & [Hle _] & _ & _ & Hr).
  rewrite E in E3. injection E3 as <- <-. destruct Hr as (l0 & [F1 _ _] & (R1 & R2 & _)).
  assert (l0 = l) as ->. { rewrite R2, R1, list_lookup_middle in Hi by done. by injection Hi. }
  rewrite F1. cbn. split; [done|]. exists peer, port, explicit. split; [done|]. split; [|done].
  intros Hne. rewrite (Hp1 Hne) in C5. rewrite Eb in Hle. by eapply denotes_le.
Qed.

(** ** What a dial makes of its address *)

Record req_for (book : addrBook) (d : dialThread) (req : dialRequest) : Prop := {
  rq_host : exists host, splitAddr (dt_addr d) = inl (host, dr_port req, dr_explicit req) /\ host <> ""%string /\
    denotes book host (dr_peer req) /\ dr_target req = parseLiteralIP host;
  rq_name : match peerNameFromContext (dt_ctx d) with
            | Some name => exists peer, denotes book (peerName name) peer /\
                dr_local req = (if String.eqb peer "" then None else Some peer)
            | None => True
            end
}.

Lemma req_for_le book book' d req : owners_le book book' -> req_for book d req -> req_for book' d req.
Proof.
  intros Hle [(host & E & Hne & Hd & Ht) Hn]. split.
  - exists host. split_and!; try done. by eapply denotes_le.
  - destruct (peerNameFromContext (dt_ctx d)) as [name|]; [|done]. destruct Hn as (peer & Hp & El). exists peer. split; [by eapply denotes_le|done].
Qed.

Lemma dialResolve_for now d n req n' :
  net_ok n -> dialResolve now (dt_ctx d) (dt_network d) (dt_addr d) n = (inl req, n') -> req_for (n_book n') d req.
Proof.
  intros Hok. unfold dialResolve. destruct (ctx_Err now (dt_ctx d)); [done|]. destruct (validateNetwork (dt_network d)); [done|].
  destruct (splitAddr (dt_addr d)) as [[[peer port] explicit]|err] eqn:Es; [|done].
  destruct (String.eqb_spec peer "") as [|Hne]; [done|]. cbn zeta. unfold canonicalPeer.
  destruct (canonicalPeerLocked peer (n_book n)) as [peer1 book] eqn:Ecp.
  pose proof (canonical_denotes _ _ _ _ (ok_book _ Hok) Ecp) as Hd.
  pose proof (canonicalPeerLocked_ok peer _ (ok_book _ Hok)) as Hc. rewrite Ecp in Hc. destruct Hc as (C1 & _).
  pose proof (canonicalPeerLocked_le _ _ _ _ (ok_book _ Hok) Ecp) as C2.
  assert (net_ok (set_book n book)) as Hok1 by (by apply net_ok_book).
  destruct (peerNameFromContext (dt_ctx d)) as [name|] eqn:En.
  - destruct (resolvePeer name (set_book n book)) as [localName n2] eqn:Er.
    destruct (resolvePeer_ok _ _ _ _ Hok1 Er) as (_ & _ & [Hle _] & _). pose proof (resolvePeer_denotes _ _ _ _ Hok1 Er) as Hl.
    intros [= <- <-]. split; [|rewrite En; by exists localName].
    exists peer. cbn. split_and!; try done. by eapply denotes_le.
  - intros [= <- <-]. split; [|by rewrite En]. by exists peer.
Qed.

(** A listener that matches the request is one the dial's address reaches. *)
Lemma matches_reaches book d req (l : listener connRef) :
  req_for book d req -> addr_peer (l_addr l) = dr_peer req -> (dr_explicit req = true -> addr_port (l_addr l) = dr_port req) ->
  matches (dt_network d) (dr_peer req) (dr_target req) l = true ->
  reaches book (dt_network d) (dt_addr d) (l_addr l) (dr_explicit req).
Proof.
  intros [(host & E & Hne & Hd & Ht) _] Ep Hpt. unfold matches. cbn zeta. rewrite <- Ep.
  destruct (negb (String.eqb (dt_network d) "tcp") && _) eqn:Ef; [done|]. intros Hm. split.
  - exists host, (dr_port req). split_and!; try done; [by rewrite Ep|]. intros ip Hip. rewrite Ht, Hip in Hm. done.
  - apply andb_false_iff in Ef as [Ef|Ef]; apply negb_false_iff in Ef; [left; by apply String.eqb_eq|right; by apply Z.eqb_eq].
Qed.

Lemma reaches_matches book d req (l : listener connRef) explicit :
  req_for book d req -> reaches book (dt_network d) (dt_addr d) (l_addr l) explicit ->
  explicit = dr_explicit req /\ addr_peer (l_addr l) = dr_peer req /\
  (dr_explicit req = true -> addr_port (l_addr l) = dr_port req) /\
  matches (dt_network d) (dr_peer req) (dr_target req) l = true.
Proof.
  intros [(host & E & Hne & Hd & Ht) _] [(host' & port & E' & _ & Hd' & Hp & Hip) Hf].
  rewrite E in E'. injection E' as <- <- <-. pose proof (denotes_fun _ _ _ _ Hd Hd') as Ep. split_and!; try done.
  unfold matches. cbn zeta. rewrite <- Ep, Ht.
  assert (negb (String.eqb (dt_network d) "tcp") &&
    negb (addressFamily (dt_network d) (addr_peer (l_addr l)) =? addressFamily (addr_network (l_addr l)) (addr_peer (l_addr l))) = false) as ->.
  { destruct Hf as [->| ->]; [done|]. by rewrite Z.eqb_refl, andb_false_r. }
  destruct (parseLiteralIP host) as [ip|]; [by apply Hip|done].
Qed.
End names.

Section refine.
Context {Src : Type} `{!DrawSource Src} `{!RejectFuel} `{!Platform}.
Implicit Types (n : Network Src) (lk : link Src) (d : dialThread) (ds : list dialThread).

(** ** Lookups *)

Lemma abs_listener n ds (id : nat) l : n_heap n !! id = Some l -> ns_listeners (absNet n ds) !! id = Some (absListener l).
Proof. apply abs_lookup. Qed.

Lemma abs_listener_inv n ds (id : nat) sl :
  ns_listeners (absNet n ds) !! id = Some sl -> exists l, n_heap n !! id = Some l /\ sl = absListener l.
Proof. intros (l & -> & Hi)%list_lookup_fmap_Some. by exists l. Qed.

Lemma lookup_reaches n d req order id :
  net_ok n -> req_for (n_book n) d req -> order ≡ₚ portIds n (dr_peer req) ->
  lookupListener (dt_network d) req order n = Some id ->
  exists l, n_heap n !! id = Some l /\ reaches (n_book n) (dt_network d) (dt_addr d) (l_addr l) (dr_explicit req).
Proof.
  intros Hok Hreq Hord E. apply lookup_found in E as ((pt & He & Hpt) & Hm & _); [|done|done].
  destruct (table_open n Hok) as (A1 & _). destruct (A1 _ _ _ He) as (l & Hi & Ep & Epo & _).
  exists l. split; [done|]. unfold matchesAt in Hm. rewrite Hi in Hm. apply (matches_reaches _ _ _ _ Hreq); [done| |done].
  intros Hexp. by rewrite Epo, Hpt.
Qed.

Lemma lookup_none n ds d req order :
  net_ok n -> req_for (n_book n) d req -> order ≡ₚ portIds n (dr_peer req) ->
  lookupListener (dt_network d) req order n = None -> forall id, ~ found (absNet n ds) (dt_network d) (dt_addr d) id.
Proof.
  intros Hok Hreq Hord E id (sl & explicit & Hi & Hopen & Hr & Hu). destruct (abs_listener_inv _ _ _ _ Hi) as (l & Hi' & ->).
  cbn in Hopen, Hr. apply negb_true_iff in Hopen. destruct (reaches_matches _ _ _ _ _ Hreq Hr) as (-> & Ep & Hpt & Hm).
  destruct (table_open n Hok) as (A1 & A2).
  assert (lookupListener (dt_network d) req order n = Some id) as E2; [|congruence].
  apply lookup_found; [done|done|]. split; [|split].
  - exists (addr_port (l_addr l)). rewrite <- Ep. split; [by apply A2|done].
  - unfold matchesAt. by rewrite Hi'.
  - intros Hexp id' pt He Hm'. destruct (A1 _ _ _ He) as (l' & Hi2 & Ep' & _ & Hcl'). unfold matchesAt in Hm'. rewrite Hi2 in Hm'.
    apply (Hu Hexp id' (absListener l')); [by apply abs_listener|cbn; by rewrite Hcl'|]. cbn. rewrite <- Hexp.
    apply (matches_reaches _ _ _ _ Hreq Ep'); [by rewrite Hexp|done].
Qed.

(** ** What is known of a dial *)

Record dial_known n d : Prop := {
  dk_req : forall req, pc_req (dt_pc d) = Some req -> req_for (n_book n) d req;
  dk_listener : forall req id, pc_req (dt_pc d) = Some req -> pc_listener (dt_pc d) = Some id ->
    exists l, n_heap n !! id = Some l /\ reaches (n_book n) (dt_network d) (dt_addr d) (l_addr l) (dr_explicit req)
}.

Lemma dial_known_le n n' d :
  book_le (n_book n) (n_book n') -> same_addrs (n_heap n) (n_heap n') -> dial_known n d -> dial_known n' d.
Proof.
  intros [Hle _] Hs [H1 H2]. split.
  - intros req Hr. by eapply req_for_le, H1.
  - intros req id Hr Hl. destruct (H2 req id Hr Hl) as (l & Hi & Hre). destruct (Hs id l Hi) as (l' & Hi' & Ea).
    exists l'. split; [done|]. rewrite Ea. by eapply reaches_le.
Qed.

(** A dial that moves on with the same request, and the same listener or none. *)
Lemma dial_known_move n d pc :
  (forall req, pc_req pc = Some req -> pc_req (dt_pc d) = Some req) ->
  (forall id, pc_listener pc = Some id -> pc_req pc <> None -> pc_listener (dt_pc d) = Some id) ->
  dial_known n d -> dial_known n (set_pc d pc).
Proof.
  intros Hr Hl [H1 H2]. split; cbn [set_pc dt_pc dt_network dt_addr].
  - intros req E. by destruct (H1 req (Hr req E)).
  - intros req id E El. apply H2; [by apply Hr|]. apply Hl; [done|]. congruence.
Qed.

Lemma dial_known_none n d pc : pc_req pc = None -> dial_known n (set_pc d pc).
Proof. intros E. split; cbn; intros *; by rewrite E. Qed.

Lemma thread_known pref pick now d rest n d' n' :
  sys_ok (n, d :: rest) -> (forall l, pick l ≡ₚ l) -> n_nextOrdinal n + 1 < 2 ^ 64 ->
  threadStep pref pick now d n = Ret (d', n') -> dial_known n d -> dial_known n' d'.
Proof.
  intros [Hok Hth] Hpick Hlt E Hk. cbn in Hok, Hth. unfold threadStep in E.
  destruct (dt_pc d) as [|req|req ch|req|req id|req id|req id o|req id o ip|s id i o|id i|id i|i|i|err|id o err] eqn:Ed.
  - destruct (dialResolve now (dt_ctx d) (dt_network d) (dt_addr d) n) as [[req|err] n1] eqn:Er; injection E as <- <-;
      [|by apply dial_known_none].
    pose proof (dialResolve_for _ _ _ _ _ Hok Er) as [H1 H2]. split; cbn; [|done]. intros req0 [= <-]. by split.
  - assert (dial_known n (set_pc d (Looking req)) /\ forall ch, dial_known n (set_pc d (Waiting req ch))) as [H1 H2].
    { split; [|intros ch]; (apply dial_known_move; [rewrite Ed|rewrite Ed|done]); done. }
    destruct (dr_local req); [|by injection E as <- <-]. destruct (checkPartition _ _) as [[] ch]; by injection E as <- <-.
  - destruct (waitSelect _ _ _ _ _); injection E as <- <-; [by apply dial_known_none| |done].
    apply dial_known_move; rewrite ?Ed; done.
  - destruct (lookupListener _ _ _ _) as [id|] eqn:El; injection E as <- <-; [|by apply dial_known_none].
    pose proof (dk_req _ _ Hk req ltac:(by rewrite Ed)) as Hreq.
    split; cbn; [intros req0 [= <-]; by destruct Hreq|]. intros req0 id0 [= <-] [= <-].
    by apply (lookup_reaches _ _ _ (pick (portIds n (dr_peer req)))).
  - destruct (n_heap n !! id) as [l|] eqn:Hi; [|done]. cbn [deref mbind go_bind] in E. destruct (reserve l) as [[err|] l'] eqn:Er.
    + injection E as <- <-. by apply dial_known_none.
    + injection E as <- <-. apply (dial_known_le n); [done| |].
      * apply (same_addrs_update _ _ l); [done|]. unfold reserve in Er. destruct (l_closed l); [done|]. destruct (_ <=? _); [done|]. by injection Er as <-.
      * apply dial_known_move; rewrite ?Ed; done.
  - injection E as <- <-. apply (dial_known_le n); [done|apply same_addrs_refl|]. apply dial_known_move; rewrite ?Ed; done.
  - destruct (n_heap n !! id) as [l|] eqn:Hi; [|done]. cbn [deref mbind go_bind] in E.
    pose proof (tk_req _ _ Hth d req ltac:(by left) ltac:(by rewrite Ed)) as Hreq.
    destruct (thread_ordinal n d rest o Hth) as [Ho _]; [by rewrite Ed|]. destruct (ok_ordinals _ Hok) as (Hn & _).
    assert (Addressing.settled (n_book n) (dialName req o)) as Hs by (apply (dialName_settled _ _ _ n); [done|done|lia]).
    apply go_bind_ret in E as ([r book] & Er & E). pose proof (peerIPLocked_le _ _ _ _ _ (ok_book _ Hok) Hs Er) as Hle.
    destruct r; injection E as <- <-; [|by apply dial_known_none].
    apply (dial_known_le n); [done|apply same_addrs_refl|]. apply dial_known_move; rewrite ?Ed; done.
  - destruct (n_heap n !! id); [|done]. cbn [deref mbind go_bind] in E. injection E as <- <-. by destruct (n_traceEnabled n); apply dial_known_none.
  - injection E as <- <-. by destruct s; apply dial_known_none.
  - destruct (n_heap n !! id); [|done]. cbn [deref mbind go_bind] in E. destruct (fill _ _) as [[] l']; injection E as <- <-; by apply dial_known_none.
  - injection E as <- <-. done.
  - injection E as <- <-. by apply dial_known_none.
  - injection E as <- <-. done.
  - injection E as <- <-. done.
  - injection E as <- <-. done.
Qed.

(** ** One section of a dial *)

Lemma kept_slots (id : nat) ds :
  (forall d id i, d ∈ ds -> dt_pc d <> Sending id i) -> kept_at id (map absDial ds) = slots_at id ds.
Proof.
  intros Hns. unfold kept_at, slots_at, slots, zlen. f_equal. induction ds as [|d ds IH]; [done|]. cbn [map omap list_omap].
  rewrite filter_cons. specialize (IH ltac:(intros d0 id0 i Hd; apply Hns; by right)).
  assert (phase_holds (sd_phase (absDial d)) = pc_slot (dt_pc d)) as ->.
  { specialize (Hns d). cbn. destruct (dt_pc d) as [| | | | | | | | | |id0 i| | | |]; try done. by destruct (Hns id0 i ltac:(by left)). }
  destruct (pc_slot (dt_pc d)) as [j|]; [|by rewrite decide_False].
  rewrite filter_cons. destruct (decide (j = id)) as [->|Hne].
  - rewrite decide_True by done. cbn. by rewrite IH.
  - rewrite decide_False; [done|]. by intros [= ->].
Qed.

Lemma abs_move n ds (j : nat) d pc :
  ds !! j = Some d -> absNet n (<[j := set_pc d pc]> ds) = move_dial j (absPhase pc) (absNet n ds).
Proof.
  intros Hj. unfold absNet, move_dial, with_dials. cbn. f_equal. apply list_eq. intros k. rewrite list_lookup_fmap.
  destruct (decide (j = k)) as [<-|Hne].
  - rewrite list_lookup_insert_eq by (by eapply lookup_lt_Some). rewrite list_lookup_alter_eq, (abs_lookup _ _ _ _ Hj). done.
  - by rewrite list_lookup_insert_ne, list_lookup_alter_ne, list_lookup_fmap.
Qed.

(** A dial that stays in its phase. *)
Lemma abs_stay n ds (j : nat) d pc :
  ds !! j = Some d -> absPhase pc = absPhase (dt_pc d) -> absNet n (<[j := set_pc d pc]> ds) = absNet n ds.
Proof.
  intros Hj E. unfold absNet. f_equal. apply (abs_insert_same _ _ _ d); [done|]. unfold absDial. cbn. by rewrite E.
Qed.

Lemma step_stutter N : spec_step N ETau N.
Proof. assert (with_book (ns_book N) N = N) as E by (by destruct N). rewrite <- E at 2. by apply sp_settle. Qed.

Lemma dialResolve_refusal now d n err n' N sd :
  sd_ctx sd = dt_ctx d -> sd_network sd = dt_network d -> sd_addr sd = dt_addr d ->
  dialResolve now (dt_ctx d) (dt_network d) (dt_addr d) n = (inr err, n') -> refusal N sd err.
Proof.
  intros E1 E2 E3. unfold dialResolve. destruct (ctx_Err now (dt_ctx d)) as [e|] eqn:Ec.
  { intros [= <- _]. apply (rf_context _ _ now). by rewrite E1. }
  destruct (validateNetwork (dt_network d)) as [e|] eqn:Ev; [intros [= <- _]; apply rf_network; by rewrite E2|].
  destruct (splitAddr (dt_addr d)) as [[[peer port] explicit]|e] eqn:Es; [|intros [= <- _]; apply rf_address; by rewrite E3].
  destruct (String.eqb_spec peer "") as [->|]; [intros [= <- _]; rewrite <- E3; eapply rf_host; by rewrite E3|].
  cbn zeta. destruct (canonicalPeer peer (n_book n)) as [peer1 book]. destruct (peerNameFromContext (dt_ctx d)); [|done].
  by destruct (resolvePeer _ _).
Qed.

Lemma reserve_abs (l : listener connRef) l' : reserve l = (None, l') -> l' = set_reserved l (l_reserved l + 1) /\ l_closed l = false /\ zlen (l_incoming l) + l_reserved l < l_cap l.
Proof.
  unfold reserve. destruct (l_closed l); [done|]. destruct (Z.leb_spec (l_cap l) (zlen (l_incoming l) + l_reserved l)); [done|]. by intros [= <-].
Qed.

Lemma reserve_refuses (l : listener connRef) err l' : reserve l = (Some err, l') ->
  l' = l /\ (err = ErrConnectionRefused /\ l_closed l = true \/
              err = ErrBacklogFull /\ l_closed l = false /\ l_cap l <= zlen (l_incoming l) + l_reserved l).
Proof.
  unfold reserve. destruct (l_closed l); [intros [= <- <-]; auto|].
  destruct (Z.leb_spec (l_cap l) (zlen (l_incoming l) + l_reserved l)); [|done]. intros [= <- <-]. auto.
Qed.

Lemma reserving_sim n ds (j : nat) d req id pref pick now d' n' :
  sys_ok (n, ds) -> dial_known n d -> ds !! j = Some d -> dt_pc d = Reserving req id ->
  threadStep pref pick now d n = Ret (d', n') ->
  spec_step (absNet n ds) (dial_event j (dt_pc d) (dt_pc d')) (absNet n' (<[j := d']> ds)).
Proof.
  intros [Hok Hth] Hk Hj Ed E. cbn in Hok, Hth. at_step E Ed. rewrite Ed.
  destruct (dk_listener _ _ Hk req id ltac:(by rewrite Ed) ltac:(by rewrite Ed)) as (l & Hi & Hre). rewrite Hi in E. cbn [deref mbind go_bind] in E.
  pose proof (abs_listener n ds id l Hi) as Hai. pose proof (abs_lookup absDial ds j d Hj) as Haj.
  assert (kept_at id (ns_dials (absNet n ds)) = l_reserved l) as Hkept by (rewrite (tk_slots _ _ Hth id l Hi); apply kept_slots, Hth).
  destruct (reserve l) as [[err|] l'] eqn:Er; injection E as <- <-; cbn [set_pc dt_pc dial_event].
  - rewrite (abs_move _ _ _ d) by done. apply (sp_dial_fails (absNet n ds) j (absDial d) err Haj); [cbn; by rewrite Ed|].
    apply reserve_refuses in Er as (_ & [(-> & Hc)|(-> & Hc & Hfull)]).
    + apply (rf_closed _ _ id (absListener l) (dr_explicit req)); [done|cbn; by rewrite Hc|done].
    + apply (rf_full _ _ id (absListener l) (dr_explicit req)); [done|cbn; by rewrite Hc|done|]. rewrite Hkept.
      destruct (ok_heap _ Hok id l Hi) as [[_ Hb] _]. cbn. lia.
  - apply reserve_abs in Er as (-> & Hc & Hroom). rewrite (abs_move _ _ _ d) by done.
    assert (absNet (set_heap n (<[id := set_reserved l (l_reserved l + 1)]> (n_heap n))) ds = absNet n ds) as ->.
    { unfold absNet. cbn. f_equal. by apply (abs_insert_same _ _ _ l). }
    eapply (sp_admit (absNet n ds) j (absDial d) id (absListener l)); [exact Haj|cbn; by rewrite Ed|done|cbn; by rewrite Hc| |exact Hre].
    rewrite Hkept. exact Hroom.
Qed.

(** The connection a dial publishes. *)
Lemma publishing_connects n ds d req id o ip l :
  net_ok n -> named n ds -> d ∈ ds -> dial_known n d -> dt_pc d = Publishing req id o ip -> n_heap n !! id = Some l ->
  connects (n_book n) (absDial d) (l_addr l)
    (absConn (dialPair (mkAddr (dt_network d) (dialName req o) (ephemeralPort o) (Some ip))
      (mkAddr (dt_network d) (dr_peer req) (addr_port (l_addr l)) (addr_ip (l_addr l))) o (dt_network d)
      (newPairKey (dialName req o) (dr_peer req)) n)).
Proof.
  intros Hok Hnm Hd Hk Ed Hi.
  assert (addr_peer (l_addr l) = dr_peer req) as Ep.
  { destruct (nm_peer _ _ Hnm d Hd req id) as (l0 & Hi0 & E0); [by rewrite Ed..|]. congruence. }
  set (local := mkAddr (dt_network d) (dialName req o) (ephemeralPort o) (Some ip)).
  set (remote := mkAddr (dt_network d) (dr_peer req) (addr_port (l_addr l)) (addr_ip (l_addr l))).
  set (pair := newPairKey _ _).
  pose proof (fun s => dialPair_ends local remote o (dt_network d) pair n s) as Hends.
  assert (forall s, let e := end_of (dialPair local remote o (dt_network d) pair n) s in
    dl_t (c_rd e) = 0 /\ dl_t (c_wd e) = 0 /\ stream_of (writePipe (dialPair local remote o (dt_network d) pair n) s) = new_stream) as Hfresh.
  { intros s. unfold dialPair, newConnPairWithSeedAndTrace, wirePipe. destruct s; cbn; by destruct (n_traceEnabled n). }
  set (lk := dialPair _ _ _ _ _ n) in *. clearbody lk. cbn zeta in Hends, Hfresh.
  destruct (Hends sideDialer) as (_ & _ & _ & D4 & _ & D6 & D7 & D8).
  split.
  - intros s. rewrite !sc_end_abs. cbn. destruct (Hends s) as (_ & _ & _ & _ & _ & _ & _ & ->), (Hends (other s)) as (_ & _ & _ & _ & _ & _ & -> & _).
    by destruct s.
  - cbn in *. rewrite D8. unfold remote. by rewrite Ep.
  - intros s. rewrite sc_end_abs. cbn. by destruct (Hends s) as (_ & _ & _ & _ & _ & -> & _).
  - cbn in *. rewrite D7. exists ip. split; [done|]. cbn.
    destruct (nm_name _ _ Hnm d Hd req id o ip Ed) as (l0 & Hi0 & Hip). rewrite Hi in Hi0. by injection Hi0 as <-.
  - intros name peer Hname Hden Hne. cbn in *. rewrite D7. cbn.
    destruct (dk_req _ _ Hk req ltac:(by rewrite Ed)) as [_ Hn]. rewrite Hname in Hn. destruct Hn as (q & Hq & El).
    pose proof (denotes_fun _ _ _ _ Hq Hden) as ->. unfold dialName. rewrite El. by destruct (String.eqb_spec q "").
  - cbn in *. rewrite D4, D7. cbn. by rewrite Ep.
  - intros s. rewrite sc_end_abs. cbn. destruct (Hends s) as (-> & -> & _), (Hfresh s) as (-> & -> & ->). done.
Qed.

Lemma addressing_sim n ds (j : nat) d req id o pref pick now d' n' :
  sys_ok (n, ds) -> ds !! j = Some d -> dt_pc d = Addressing req id o ->
  threadStep pref pick now d n = Ret (d', n') ->
  spec_step (absNet n ds) (dial_event j (dt_pc d) (dt_pc d')) (absNet n' (<[j := d']> ds)).
Proof.
  intros [Hok Hth] Hj Ed E. cbn in Hok, Hth. at_step E Ed. rewrite Ed.
  pose proof (abs_lookup absDial ds j d Hj) as Haj. assert (d ∈ ds) as Hd by (by eapply list_elem_of_lookup_2).
  destruct (tk_listener _ _ Hth d id Hd ltac:(by rewrite Ed)) as [l Hi]. rewrite Hi in E. cbn [deref mbind go_bind] in E.
  pose proof (tk_req _ _ Hth d req Hd ltac:(by rewrite Ed)) as Hreq.
  assert (o ∈ held_ordinals ds) as Hin.
  { unfold held_ordinals. apply list_elem_of_omap. exists d. split; [done|]. by rewrite Ed. }
  destruct (proj2 (tk_ordinals _ _ Hth) o Hin) as [Ho _]. destruct (ok_ordinals _ Hok) as (Hn & _).
  assert (Addressing.settled (n_book n) (dialName req o)) as Hs by (apply (dialName_settled _ _ _ n); [done|done|lia]).
  apply go_bind_ret in E as ([r book] & Er & E). pose proof (peerIPLocked_le _ _ _ _ _ (ok_book _ Hok) Hs Er) as Hle.
  destruct r as [ip|err]; injection E as <- <-; cbn [set_pc dt_pc dial_event].
  - rewrite (abs_stay _ _ _ d) by (done || by rewrite Ed). by apply (sp_settle (absNet n ds)).
  - destruct (peerIPLocked_err _ _ _ _ _ Er) as [text ->]. rewrite (abs_move _ _ _ d) by done.
    apply (sp_dial_fails_holding (absNet n ds) book j (absDial d) id text Haj); [cbn; by rewrite Ed|done].
Qed.

Lemma publishing_sim n ds (j : nat) d req id o ip pref pick now d' n' :
  sys_ok (n, ds) -> named n ds -> dial_known n d -> ds !! j = Some d -> dt_pc d = Publishing req id o ip ->
  threadStep pref pick now d n = Ret (d', n') ->
  spec_step (absNet n ds) (dial_event j (dt_pc d) (dt_pc d')) (absNet n' (<[j := d']> ds)).
Proof.
  intros [Hok Hth] Hnm Hk Hj Ed E. cbn in Hok, Hth. at_step E Ed. rewrite Ed.
  pose proof (abs_lookup absDial ds j d Hj) as Haj. assert (d ∈ ds) as Hd by (by eapply list_elem_of_lookup_2).
  destruct (tk_listener _ _ Hth d id Hd ltac:(by rewrite Ed)) as [l Hi]. rewrite Hi in E. cbn [deref mbind go_bind] in E.
  pose proof (publishing_connects n ds d req id o ip l Hok Hnm Hd Hk Ed Hi) as Hcon. revert E Hcon.
  generalize (dialPair (mkAddr (dt_network d) (dialName req o) (ephemeralPort o) (Some ip))
      (mkAddr (dt_network d) (dr_peer req) (addr_port (l_addr l)) (addr_ip (l_addr l))) o (dt_network d)
      (newPairKey (dialName req o) (dr_peer req)) n). intros lk E Hcon.
  set (i := length (n_conns n)) in *. assert (length (ns_conns (absNet n ds)) = i) as Ei by apply length_map.
  assert (dial_event j (Publishing req id o ip) (dt_pc d') = ETau /\
    absNet n' (<[j := d']> ds) = move_dial j (Made id i) (with_conns (ns_conns (absNet n ds) ++ [absConn lk]) (absNet n ds))) as [-> ->].
  { injection E as <- <-. split; [by destruct (n_traceEnabled n)|]. rewrite (abs_move _ _ _ d) by done.
    assert (absPhase (if n_traceEnabled n then Tracing sideDialer id i o else HandingOff id i) = Made id i) as -> by (by destruct (n_traceEnabled n)).
    f_equal. unfold absNet, with_conns. cbn. by rewrite map_app. }
  rewrite <- Ei. by apply (sp_connect (absNet n ds) j (absDial d) id (absListener l)); [exact Haj|cbn; by rewrite Ed|apply abs_listener|].
Qed.

Lemma handing_sim n ds (j : nat) d id i pref pick now d' n' :
  sys_ok (n, ds) -> ds !! j = Some d -> dt_pc d = HandingOff id i ->
  threadStep pref pick now d n = Ret (d', n') ->
  spec_step (absNet n ds) (dial_event j (dt_pc d) (dt_pc d')) (absNet n' (<[j := d']> ds)).
Proof.
  intros [Hok Hth] Hj Ed E. cbn in Hok, Hth. at_step E Ed. rewrite Ed.
  pose proof (abs_lookup absDial ds j d Hj) as Haj. assert (d ∈ ds) as Hd by (by eapply list_elem_of_lookup_2).
  destruct (tk_listener _ _ Hth d id Hd ltac:(by rewrite Ed)) as [l Hi]. rewrite Hi in E. cbn [deref mbind go_bind] in E.
  assert (0 < l_reserved l) as Hres.
  { rewrite (tk_slots _ _ Hth id l Hi). destruct (update_perm ds j d d Hj) as (rest & P & _).
    assert (slots_at id ds = slots_at id (d :: rest)) as ->.
    { unfold slots_at, slots, zlen. f_equal. apply Permutation_length. by rewrite P. }
    rewrite slots_at_cons, Ed. cbn. rewrite decide_True by done. pose proof (slots_nonneg id rest). lia. }
  destruct (fill (i, sideAcceptor) l) as [f l'] eqn:Ef. destruct (ok_heap _ Hok id l Hi) as [Hb Hq].
  destruct (fill_ok _ _ _ _ Hb Hres Ef) as (_ & F2 & F3 & F4 & F5 & F6). destruct (fill_fields _ _ _ _ Ef) as [F1 _].
  pose proof (abs_listener n ds id l Hi) as Hai. injection E as <- <-.
  assert (absListener l' = mkSpecListener (l_addr l) (l_cap l) (negb (l_closed l)) (l_incoming l')) as Eal
    by (unfold absListener; by rewrite F1, F3, F4).
  destruct f; [| |done]; cbn [set_pc dt_pc dial_event]; rewrite (abs_move _ _ _ d) by done.
  - assert (l_closed l = false) as Hc by (destruct (l_closed l); [by destruct F5 as [_ F5]; discriminate (F5 eq_refl)|done]).
    rewrite Hc in F6, Eal. cbn [negb] in Eal. rewrite F6 in Eal.
    assert (absNet (set_heap n (<[id := l']> (n_heap n))) ds =
      with_listeners (<[id := absListener l']> (ns_listeners (absNet n ds))) (absNet n ds)) as ->.
    { unfold absNet, with_listeners. cbn. by rewrite abs_insert. }
    rewrite Eal. apply (sp_hand_over (absNet n ds) j (absDial d) id i (absListener l) Haj); [cbn; by rewrite Ed|done|cbn; by rewrite Hc].
  - assert (l_closed l = true) as Hc by (by apply F5). rewrite Hc in F6.
    assert (absNet (set_heap n (<[id := l']> (n_heap n))) ds = absNet n ds) as ->.
    { unfold absNet. cbn. f_equal. apply (abs_insert_same _ _ _ l); [done|]. by rewrite Eal, F6. }
    apply (sp_turn_away (absNet n ds) j (absDial d) id i (absListener l) Haj); [cbn; by rewrite Ed|done|cbn; by rewrite Hc].
Qed.

(** A step of a dial that the specification does not see, and one it sees refused. *)
Lemma thread_stays n ds (j : nat) d pc :
  ds !! j = Some d -> absPhase pc = absPhase (dt_pc d) -> dial_event j (dt_pc d) pc = ETau ->
  spec_step (absNet n ds) (dial_event j (dt_pc d) pc) (absNet n (<[j := set_pc d pc]> ds)).
Proof. intros Hj Ep ->. rewrite (abs_stay _ _ _ d) by done. apply step_stutter. Qed.

Lemma thread_idles n ds (j : nat) d :
  ds !! j = Some d -> dial_event j (dt_pc d) (dt_pc d) = ETau -> spec_step (absNet n ds) (dial_event j (dt_pc d) (dt_pc d)) (absNet n (<[j := d]> ds)).
Proof. intros Hj ->. rewrite list_insert_id by done. apply step_stutter. Qed.

Lemma thread_refused n ds (j : nat) d err :
  ds !! j = Some d -> absPhase (dt_pc d) = Dialing -> refusal (absNet n ds) (absDial d) err ->
  spec_step (absNet n ds) (EDialFails j (dialOpError (dt_network d) (dt_addr d) err))
    (absNet n (<[j := set_pc d (Failed (dialOpError (dt_network d) (dt_addr d) err))]> ds)).
Proof.
  intros Hj Ep Hr. rewrite (abs_move _ _ _ d) by done.
  apply (sp_dial_fails (absNet n ds) j (absDial d) err); [by apply (abs_lookup absDial)|exact Ep|done].
Qed.

Lemma thread_sim n ds (j : nat) d pref pick now d' n' :
  sys_ok (n, ds) -> named n ds -> dial_known n d -> ds !! j = Some d -> (forall l, pick l ≡ₚ l) ->
  threadStep pref pick now d n = Ret (d', n') ->
  spec_step (absNet n ds) (dial_event j (dt_pc d) (dt_pc d')) (absNet n' (<[j := d']> ds)).
Proof.
  intros Hsys Hnm Hk Hj Hpick E. destruct (Hsys) as [Hok Hth]. cbn in Hok, Hth.
  pose proof (abs_lookup absDial ds j d Hj) as Haj. pose proof (dk_req _ _ Hk) as Hreq.
  pose proof (fun pc => thread_stays n ds j d pc Hj) as Hstay. pose proof (thread_idles n ds j d Hj) as Hidle.
  pose proof (fun err => thread_refused n ds j d err Hj) as Hfail. revert Hstay Hidle Hfail Hreq.
  destruct (dt_pc d) as [|req|req ch|req|req id|req id|req id o|req id o ip|s id i o|id i|id i|i|i|err|id o err] eqn:Ed;
    intros Hstay Hidle Hfail Hreq.
  - at_step E Ed. destruct (dialResolve now (dt_ctx d) (dt_network d) (dt_addr d) n) as [[req|err] n1] eqn:Er; injection E as <- <-;
      destruct (dialResolve_ok _ _ _ _ _ _ _ Hok Er) as (_ & En & Hle & Hn).
    + cbn [set_pc dt_pc dial_event]. rewrite (abs_stay _ _ _ d) by (done || by rewrite Ed). rewrite En. by apply (sp_settle (absNet n ds)).
    + rewrite Hn. apply Hfail; [done|]. by eapply dialResolve_refusal.
  - at_step E Ed. destruct (dr_local req) as [name|]; [destruct (checkPartition _ _) as [[] ch]|]; injection E as <- <-; by apply Hstay.
  - at_step E Ed. destruct (waitSelect pref now (dt_ctx d) ch n) as [err| |] eqn:Ew; injection E as <- <-.
    + apply Hfail; [done|]. apply (rf_context _ _ now). unfold waitSelect in Ew.
      destruct (ctx_Err now (dt_ctx d)) as [e|] eqn:Ec; [|by destruct (woken _ _)]. cbn. rewrite Ec. destruct (_ && _); [done|]. by injection Ew as ->.
    + by apply Hstay.
    + rewrite Ed. by apply Hidle.
  - at_step E Ed. destruct (lookupListener _ _ _ _) as [id|] eqn:El; injection E as <- <-; [by apply Hstay|].
    apply Hfail; [done|]. apply rf_nobody. eapply lookup_none; [done|by apply Hreq| |exact El]. apply Hpick.
  - rewrite <- Ed. by eapply reserving_sim.
  - at_step E Ed. injection E as <- <-. cbn [set_pc dt_pc dial_event]. rewrite (abs_stay _ _ _ d) by (done || by rewrite Ed). apply step_stutter.
  - rewrite <- Ed. by eapply addressing_sim.
  - rewrite <- Ed. by eapply publishing_sim.
  - at_step E Ed. injection E as <- <-. apply Hstay; by destruct s.
  - rewrite <- Ed. by eapply handing_sim.
  - destruct (tk_sending _ _ Hth d id i); [by eapply list_elem_of_lookup_2|done].
  - at_step E Ed. injection E as <- <-. cbn [set_pc dt_pc dial_event].
    rewrite (abs_move _ _ _ d) by done. rewrite absNet_connClose by done.
    apply (sp_dial_closes (absNet n ds) j (absDial d) i Haj). cbn. by rewrite Ed.
  - at_step E Ed. injection E as <- <-. rewrite Ed. by apply Hidle.
  - at_step E Ed. injection E as <- <-. rewrite Ed. by apply Hidle.
  - at_step E Ed. injection E as <- <-. rewrite Ed. by apply Hidle.
Qed.

(** ** One step of a Read or a Write *)

Definition label_view (l : label) : option netView :=
  match l with LWrite v _ _ | LRead v _ _ => Some v | _ => None end.

(** Only what the parameters say under the view of a call matters to it. *)
Lemma stream_step_params sp sp' b l b' :
  sp_bound sp' = sp_bound sp ->
  (forall v, label_view l = Some v -> sp_config sp' v = sp_config sp v /\ sp_gate sp' v = sp_gate sp v /\ sp_holdEOF sp' v = sp_holdEOF sp v) ->
  stream_step sp b l b' -> stream_step sp' b l b'.
Proof.
  intros Eb Hv Hst. destruct Hst; cbn [label_view] in Hv; try (by constructor);
    try (destruct (Hv v eq_refl) as (E1 & E2 & E3)).
  - by constructor; rewrite ?Eb.
  - constructor; by rewrite ?Eb, ?E1, ?E2.
  - constructor; by rewrite ?Eb, ?E1, ?E2.
  - constructor. by rewrite E3.
  - constructor. by rewrite E3.
Qed.

Lemma pipe_sim n ds (i : nat) lk w l p' now :
  net_ok n -> conns_named (n_book n) (n_conns n) -> n_conns n !! i = Some lk -> pipe_step (writePipe lk w) l p' ->
  (forall v, label_view l = Some v -> v = viewAt now n) ->
  stream_step (spec_params (absNet n ds) (absConn lk)) (stream_out (absConn lk) w) l (stream_of p').
Proof.
  intros Hok Hnm Hi Hst Hv. pose proof (ok_pipes _ Hok i lk Hi w) as Hd.
  destruct (pipe_step_sound _ _ _ (dir_pipe _ _ _ _ _ Hd) Hst) as (_ & _ & Hs). rewrite stream_out_abs.
  assert (c_pair (end_of lk w) = sc_pair (absConn lk)) as Ep.
  { pose proof (Hnm i lk Hi) as Hn. rewrite (ln_pair _ _ Hn w). symmetry. apply (ln_pair _ _ Hn sideDialer). }
  rewrite Ep in Hd. eapply stream_step_params; [| |exact Hs]; [symmetry; apply (dir_bound _ _ _ _ _ Hd)|].
  intros v ->%Hv. destruct (dir_partition _ _ _ _ _ Hd) as [P1 P2]. cbn [spec_params params_of sp_config sp_gate sp_holdEOF].
  unfold unit_config, unit_gated, holds_eof. rewrite (dir_deliver _ _ _ _ _ Hd), P1, P2. done.
Qed.

Lemma absNet_pipe n ds (i : nat) lk w p :
  n_conns n !! i = Some lk ->
  absNet (upd_pipe i w p n) ds = with_conns (<[i := set_stream w (stream_of p) (absConn lk)]> (ns_conns (absNet n ds))) (absNet n ds).
Proof.
  intros Hi. rewrite <- (set_conns_pipe _ _ lk) by done. unfold absNet, with_conns. cbn.
  by rewrite abs_insert, absConn_set_writePipe.
Qed.

(** What is known of a call that has been told of an error. *)
Definition io_known (cs : list specConn) (t : ioThread) : Prop :=
  exists sc, cs !! fst (io_ref t) = Some sc /\
    let s := snd (io_ref t) in
    match io_call t with
    | ReadCall _ (ErrCheckClosed out err) =>
        out = [] /\ err = EOF /\ (bs_ended (stream_out sc (other s)) = true \/ bs_aborted (stream_out sc (other s)) = true)
    | ReadCall _ (ErrCheckReset out err) =>
        out = [] /\ err = EOF /\ (bs_ended (stream_out sc (other s)) = true \/ se_reset (sc_end sc s) = true)
    | WriteCall _ (ErrCheckClosed _ _) => bs_closed (stream_out sc s) = true \/ bs_aborted (stream_out sc s) = true
    | WriteCall _ (ErrCheckReset _ _) => se_closed (sc_end sc (other s)) = true \/ se_reset (sc_end sc s) = true
    | _ => True
    end.

Lemma io_known_le cs cs' t : conns_move cs cs' -> io_known cs t -> io_known cs' t.
Proof.
  intros Hm (sc & Hi & Hk). destruct (conns_move_le _ _ _ _ Hm Hi) as (sc' & Hi' & [_ He]). exists sc'. split; [done|].
  destruct (He (snd (io_ref t))) as [_ _ A1 [A2 A3 A4]], (He (other (snd (io_ref t)))) as [_ B0 B1 [B2 B3 B4]].
  cbn zeta in *. unfold stream_out in *. destruct (io_call t) as [size pc|data pc]; destruct pc; try done.
  - destruct Hk as (-> & -> & [Hk|Hk]); auto.
  - destruct Hk as (-> & -> & [Hk|Hk]); auto.
  - destruct Hk as [Hk|Hk]; auto.
  - destruct Hk as [Hk|Hk]; auto.
Qed.

Lemma read_end P b v size out err b' :
  stream_step P b (LRead v size (Done out (Some err))) b' -> out = [] /\ err = EOF /\ (bs_ended b' = true \/ bs_aborted b' = true).
Proof. intros Hst. inversion Hst; subst; auto. Qed.

Lemma write_refused P b v data k err b' :
  stream_step P b (LWrite v data (Done k (Some err))) b' -> k = 0 /\ err = ErrClosedPipe /\ b' = b /\ bs_closed b || bs_aborted b = true.
Proof. intros Hst. by inversion Hst; subst. Qed.

Lemma read_try_sim n ds (i : nat) lk s now size dch r p :
  net_ok n -> conns_named (n_book n) (n_conns n) -> n_conns n !! i = Some lk ->
  tryRead (viewAt now n) (readPipe lk s) size = (r, p) ->
  let t := mkIoThread (i, s) (ReadCall size (Try dch)) in
  let t' := mkIoThread (i, s) (ReadCall size (match r with Wait ch => Select ch dch | Done out (Some err) => ErrCheckClosed out err | Done out None => Return out None end)) in
  spec_step (absNet n ds) (io_event now t t') (absNet (upd_pipe i (other s) p n) ds) /\
  io_known (ns_conns (absNet (upd_pipe i (other s) p n) ds)) t'.
Proof.
  intros Hok Hnm Hi Et t t'. pose proof (ps_read _ _ _ _ _ Et) as Hst. unfold readPipe in Hst.
  pose proof (pipe_sim n ds i lk (other s) _ p now Hok Hnm Hi Hst ltac:(by intros v [= <-])) as Hs.
  pose proof (abs_lookup absConn _ _ _ Hi) as Hai. rewrite (absNet_pipe _ _ _ lk) by done. split.
  - eapply sp_stream; [exact Hai|exact Hs|]. unfold t, t'. destruct r as [out [err|]|g]; cbn [io_event io_call io_ref].
    + apply read_end in Hs as (-> & -> & _). apply sh_end.
    + rewrite <- (other_other s) at 2. apply (sh_read i (other s) (viewAt now n) size out).
    + rewrite <- (other_other s) at 2. apply (sh_empty i (other s) (viewAt now n) size g).
  - exists (set_stream (other s) (stream_of p) (absConn lk)). split.
    + cbn. apply list_lookup_insert_eq. by eapply lookup_lt_Some.
    + unfold t'. cbn [io_ref io_call snd]. destruct r as [out [err|]|g]; try done.
      apply read_end in Hs as (-> & -> & Hs). rewrite stream_out_set, decide_True by done. done.
Qed.

Lemma write_try_sim n ds (i : nat) lk s now data dch r p :
  net_ok n -> conns_named (n_book n) (n_conns n) -> n_conns n !! i = Some lk -> zlen data < 2 ^ 63 ->
  tryWrite (viewAt now n) (writePipe lk s) data = Ret (r, p) ->
  let t := mkIoThread (i, s) (WriteCall data (Try dch)) in
  let t' := mkIoThread (i, s) (WriteCall data (match r with Wait ch => ExpiredAgain ch dch | Done k (Some err) => ErrCheckClosed k err | Done k None => Return k None end)) in
  spec_step (absNet n ds) (io_event now t t') (absNet (upd_pipe i s p n) ds) /\
  io_known (ns_conns (absNet (upd_pipe i s p n) ds)) t'.
Proof.
  intros Hok Hnm Hi Hlen Et t t'. pose proof (ok_pipes _ Hok i lk Hi s) as Hd.
  pose proof (direction_write_env _ _ _ _ _ (viewAt now n) data Hd eq_refl (ok_faults _ Hok) Hlen) as Henv.
  pose proof (ps_write _ _ _ _ _ Henv Et) as Hst.
  pose proof (pipe_sim n ds i lk s _ p now Hok Hnm Hi Hst ltac:(by intros v [= <-])) as Hs.
  pose proof (abs_lookup absConn _ _ _ Hi) as Hai. rewrite (absNet_pipe _ _ _ lk) by done. split.
  - eapply sp_stream; [exact Hai|exact Hs|]. unfold t, t'. destruct r as [k [err|]|g]; cbn [io_event io_call io_ref].
    + apply write_refused in Hs as (-> & -> & _). apply sh_refused.
    + apply (sh_written i s (viewAt now n) data k).
    + apply (sh_full i s (viewAt now n) data g).
  - exists (set_stream s (stream_of p) (absConn lk)). split.
    + cbn. apply list_lookup_insert_eq. by eapply lookup_lt_Some.
    + unfold t'. cbn [io_ref io_call snd]. destruct r as [k [err|]|g]; try done.
      apply write_refused in Hs as (_ & _ & E & Hs). rewrite stream_out_set, decide_True, E by done. by apply orb_true_iff.
Qed.

(** The steps that look at the end only. *)
Lemma read_stay_sim n ds (i : nat) lk s now size pc pc' :
  n_conns n !! i = Some lk -> conn_sane (absConn lk) -> (forall dch, pc <> Try dch) ->
  readStep (viewAt now n) size s pc lk = (pc', lk) ->
  let t := mkIoThread (i, s) (ReadCall size pc) in
  let t' := mkIoThread (i, s) (ReadCall size pc') in
  io_known (ns_conns (absNet n ds)) t ->
  spec_step (absNet n ds) (io_event now t t') (absNet n ds) /\ io_known (ns_conns (absNet n ds)) t'.
Proof.
  intros Hi Hsane Htry Est t t' (sc & Hsc & Hk). pose proof (abs_lookup absConn _ _ _ Hi) as Hai.
  assert (sc = absConn lk) as -> by (cbn in Hsc; congruence). unfold t, t' in *. cbn [io_ref io_call fst snd] in Hsc, Hk.
  assert (forall pc0, match pc0 with ErrCheckClosed _ _ | ErrCheckReset _ _ => False | _ => True end ->
    io_known (ns_conns (absNet n ds)) (mkIoThread (i, s) (ReadCall size pc0))) as Hfree.
  { intros pc0 Hp. exists (absConn lk). split; [done|]. by destruct pc0. }
  assert (forall err, read_error (absConn lk) s now err -> pc' = Return [] (Some err) -> (forall a e, pc <> Return a e) ->
    spec_step (absNet n ds) (io_event now t t') (absNet n ds) /\ io_known (ns_conns (absNet n ds)) t') as Hfail.
  { intros err He -> Hnr. split; [|by apply Hfree]. unfold t, t'. cbn [io_event io_call io_ref].
    pose proof (sp_read_fails (absNet n ds) now i s (absConn lk) size err Hai He) as Hst. by destruct pc; try destruct (Hnr a err0 eq_refl). }
  assert (forall pc0, pc' = pc0 -> io_event now t t' = ETau -> io_known (ns_conns (absNet n ds)) (mkIoThread (i, s) (ReadCall size pc0)) ->
    spec_step (absNet n ds) (io_event now t t') (absNet n ds) /\ io_known (ns_conns (absNet n ds)) t') as Hgo.
  { intros pc0 <- -> Hk'. split; [apply step_stutter|done]. }
  pose proof (sc_end_abs lk s) as Eend. destruct Hsane as [S1 S2 S3 _]. specialize (S1 (other s)). specialize (S3 (other s)).
  rewrite other_other in S1.
  assert (forall op err, opError (end_of lk s) op err = end_error (sc_end (absConn lk) s) op err) as Eop by (intros; by rewrite Eend).
  destruct pc as [| | |dch|dch|out err|out err|ch dch|ch dch|out err]; cbn [readStep] in Est.
  - destruct (c_closed (end_of lk s)) eqn:Ec; injection Est as <-; [|eapply Hgo; [done|done|by apply Hfree]].
    eapply Hfail; [|by rewrite Eop|done]. apply re_closed. by rewrite Eend.
  - destruct (c_reset (end_of lk s)) eqn:Er; injection Est as <-; [|eapply Hgo; [done|done|by apply Hfree]].
    eapply Hfail; [|by rewrite Eop|done]. apply re_reset. by rewrite Eend.
  - injection Est as <-. eapply Hgo; [done|done|by apply Hfree].
  - destruct (expired _ _) eqn:Ex; injection Est as <-; [|eapply Hgo; [done|done|by apply Hfree]].
    eapply Hfail; [|by rewrite Eop|done]. apply re_late. rewrite Eend. by apply expired_spec.
  - by destruct (Htry dch).
  - destruct Hk as (-> & -> & Hk). destruct (c_closed (end_of lk s)) eqn:Ec; injection Est as <-.
    + eapply Hfail; [|by rewrite Eop|done]. apply re_closed. by rewrite Eend.
    + eapply Hgo; [done|done|]. exists (absConn lk). split; [done|]. cbn. split_and!; [done|done|].
      destruct Hk as [Hk|Hk]; [by left|right]. unfold se_marked in S1. rewrite Eend in S1 |- *. cbn in S1 |- *. rewrite Ec in S1.
      destruct (S1 Hk) as [?|[_ [?|?]]]; done.
  - destruct Hk as (-> & -> & Hk). destruct (c_reset (end_of lk s)) eqn:Er; injection Est as <-.
    + eapply Hfail; [|by rewrite Eop|done]. apply re_reset. by rewrite Eend.
    + eapply Hfail; [|done|done]. rewrite Eend in Hk. cbn [absEnd se_reset] in Hk. rewrite Er in Hk. destruct Hk as [Hk|Hk]; [|done].
      destruct (S3 Hk) as [S4 S5]. apply re_eof; [done|done|]. by rewrite Eend.
  - injection Est as <-. eapply Hgo; [done|done|by apply Hfree].
  - destruct (selectReady _ _ _ _ _ _); injection Est as <-; (eapply Hgo; [done|done|by apply Hfree]).
  - injection Est as <-. eapply Hgo; [done|done|by apply Hfree].
Qed.

Lemma write_stay_sim n ds (i : nat) lk s now data pc pc' :
  n_conns n !! i = Some lk -> conn_sane (absConn lk) -> (forall dch, pc <> Try dch) ->
  writeStep (viewAt now n) data s pc lk = Ret (pc', lk) ->
  let t := mkIoThread (i, s) (WriteCall data pc) in
  let t' := mkIoThread (i, s) (WriteCall data pc') in
  io_known (ns_conns (absNet n ds)) t ->
  spec_step (absNet n ds) (io_event now t t') (absNet n ds) /\ io_known (ns_conns (absNet n ds)) t'.
Proof.
  intros Hi Hsane Htry Est t t' (sc & Hsc & Hk). pose proof (abs_lookup absConn _ _ _ Hi) as Hai.
  assert (sc = absConn lk) as -> by (cbn in Hsc; congruence). unfold t, t' in *. cbn [io_ref io_call fst snd] in Hsc, Hk.
  assert (forall pc0, match pc0 with ErrCheckClosed _ _ | ErrCheckReset _ _ => False | _ => True end ->
    io_known (ns_conns (absNet n ds)) (mkIoThread (i, s) (WriteCall data pc0))) as Hfree.
  { intros pc0 Hp. exists (absConn lk). split; [done|]. by destruct pc0. }
  assert (forall err, write_error (absConn lk) s now err -> pc' = Return 0 (Some err) -> (forall a e, pc <> Return a e) ->
    spec_step (absNet n ds) (io_event now t t') (absNet n ds) /\ io_known (ns_conns (absNet n ds)) t') as Hfail.
  { intros err He -> Hnr. split; [|by apply Hfree]. unfold t, t'. cbn [io_event io_call io_ref].
    pose proof (sp_write_fails (absNet n ds) now i s (absConn lk) data err Hai He) as Hst. by destruct pc; try destruct (Hnr a err0 eq_refl). }
  assert (forall pc0, pc' = pc0 -> io_event now t t' = ETau -> io_known (ns_conns (absNet n ds)) (mkIoThread (i, s) (WriteCall data pc0)) ->
    spec_step (absNet n ds) (io_event now t t') (absNet n ds) /\ io_known (ns_conns (absNet n ds)) t') as Hgo.
  { intros pc0 <- -> Hk'. split; [apply step_stutter|done]. }
  pose proof (sc_end_abs lk s) as Eend. destruct Hsane as [S1 S2 _ _]. specialize (S1 s). specialize (S2 s).
  assert (forall op err, opError (end_of lk s) op err = end_error (sc_end (absConn lk) s) op err) as Eop by (intros; by rewrite Eend).
  destruct pc as [| | |dch|dch|out err|out err|ch dch|ch dch|out err]; cbn [writeStep] in Est.
  - destruct (c_closed (end_of lk s)) eqn:Ec; injection Est as <-; [|eapply Hgo; [done|done|by apply Hfree]].
    eapply Hfail; [|by rewrite Eop|done]. apply we_closed. by rewrite Eend.
  - destruct (c_reset (end_of lk s)) eqn:Er; injection Est as <-; [|eapply Hgo; [done|done|by apply Hfree]].
    eapply Hfail; [|by rewrite Eop|done]. apply we_reset. by rewrite Eend.
  - injection Est as <-. eapply Hgo; [done|done|by apply Hfree].
  - destruct (expired _ _) eqn:Ex; injection Est as <-; [|eapply Hgo; [done|done|by apply Hfree]].
    eapply Hfail; [|by rewrite Eop|done]. apply we_late. rewrite Eend. by apply expired_spec.
  - by destruct (Htry dch).
  - destruct (c_closed (end_of lk s)) eqn:Ec; injection Est as <-.
    + eapply Hfail; [|by rewrite Eop|done]. apply we_closed. by rewrite Eend.
    + eapply Hgo; [done|done|]. exists (absConn lk). split; [done|]. cbn.
      unfold se_marked in S1. rewrite Eend in S1, S2 |- *. cbn in S1, S2 |- *. rewrite Ec in S1, S2.
      assert (bs_aborted (stream_out (absConn lk) s) = true) as Ha by (destruct Hk as [Hk|Hk]; [by destruct (S2 Hk)|done]).
      destruct (S1 Ha) as [?|[[?|?] _]]; auto. done.
  - destruct (c_reset (end_of lk s)) eqn:Er; injection Est as <-.
    + eapply Hfail; [|by rewrite Eop|done]. apply we_reset. by rewrite Eend.
    + eapply Hfail; [|by rewrite Eop|done]. rewrite Eend in Hk. cbn [absEnd se_reset] in Hk. rewrite Er in Hk. destruct Hk as [Hk|Hk]; [|done].
      apply we_broken; [done|]. by rewrite Eend.
  - destruct (expired _ _) eqn:Ex; injection Est as <-; [|eapply Hgo; [done|done|by apply Hfree]].
    eapply Hfail; [|by rewrite Eop|done]. apply we_late. rewrite Eend. by apply expired_spec.
  - destruct (selectReady _ _ _ _ _ _); injection Est as <-; (eapply Hgo; [done|done|by apply Hfree]).
  - injection Est as <-. eapply Hgo; [done|done|by apply Hfree].
Qed.
End refine.
