(* ===== verification/NetSim.v ===== *)
(** * The simulation: every program against a Network is a run of the abstract
    machine *)
From S2P Require Import Prelude GoRuntime Errors Float64 Rand Partition Trace PipeState Faults FaultProps Pipe PipeInv PipeProps.
From S2P Require Import Deadline Options Conn ConnProps ConnRace NetIP NetIPProps NetIP6 Addr Addressing.
From S2P Require Import Replay Directions Listener Network NetworkInv NetworkFrame NetworkListen NetworkDial NetworkFaults.
From S2P Require Import DialThreads DialSystem Ends NetSpec NetSpecProps NetSystem NetAbstract NetRefine.

Section sim.
Context {Src : Type} `{!DrawSource Src} `{!RejectFuel} `{!Platform}.
Implicit Types (n : Network Src) (lk : link Src) (ds : list dialThread) (ios : list ioThread).

(** ** The calls that are one locked section *)

Lemma listen_sim n ds network laddr r n' :
  net_ok n -> Listen network laddr n = Ret (r, n') -> spec_step (absNet n ds) (EListen network laddr r) (absNet n' ds).
Proof.
  intros Hok E. destruct (Listen_kept _ _ _ _ _ E) as (_ & _ & _ & K1 & K2 & K3).
  destruct (Listen_spec network laddr n Hok) as (r0 & n0 & E0 & Hok' & Hle & Hc & _ & Hr). rewrite E in E0. injection E0 as <- <-.
  destruct r as [id|err].
  - destruct Hr as (peer & port & l & [F1 (ip & F2 & F3) (F4 & F5 & F6 & F7)] & (R1 & R2 & R3 & _) & Hs).
    assert (n_heap n' !! id = Some l) as Hi by (rewrite R2, R1; by apply list_lookup_middle).
    destruct (Listen_names _ _ _ _ _ _ Hok E Hi) as [N1 N2].
    assert (absNet n' ds = with_listeners (ns_listeners (absNet n ds) ++ [absListener l]) (with_book (n_book n') (absNet n ds))) as ->.
    { unfold absNet, with_listeners, with_book. cbn. by rewrite R2, map_app, Hc, K1, K2, K3. }
    assert (id = length (ns_listeners (absNet n ds))) as Eid by (rewrite R1; symmetry; apply length_map). rewrite Eid.
    apply sp_listen; [done|]. split.
    + cbn. by rewrite F4, F5.
    + exact N1.
    + exact N2.
    + destruct (ok_addrs _ Hok' id l Hi) as (P1 & P2 & P3). unfold family_of in P3. rewrite N1 in P3. exact (conj P1 (conj P2 P3)).
    + intros id' sl Hi' Ho [E1 E2]. destruct (abs_listener_inv _ _ _ _ Hi') as (l' & Hl & ->). cbn in Ho, E1, E2.
      apply negb_true_iff in Ho. destruct (table_open n Hok) as (_ & A2).
      pose proof (A2 _ _ Hl Ho) as He. rewrite E1, E2 in He. congruence.
  - destruct Hr as (H1 & H2 & cause & ->).
    assert (absNet n' ds = with_book (n_book n') (absNet n ds)) as ->.
    { unfold absNet, with_book. cbn. by rewrite H2, Hc, K1, K2, K3. }
    by apply sp_listen_fails.
Qed.

Lemma close_listener_sim n ds id : net_ok n -> spec_step (absNet n ds) (ECloseListener id) (absNet (listenerClose id n) ds).
Proof.
  intros Hok. unfold listenerClose. destruct (n_heap n !! id) as [l|] eqn:Hi.
  2: { apply sp_close_listener_again. intros sl Hs. destruct (abs_listener_inv _ _ _ _ Hs) as (l & Hl & _). congruence. }
  unfold closeMark. destruct (l_closed l) eqn:Ec; cbn zeta.
  { apply sp_close_listener_again. intros sl Hs. destruct (abs_listener_inv _ _ _ _ Hs) as (l' & Hl & ->). cbn.
    assert (l' = l) as -> by congruence. by rewrite Ec. }
  rewrite deregister_eq. cbn [n_heap set_heap set_listeners]. rewrite list_insert_insert_eq.
  set (m := set_heap _ _).
  assert (net_ok m) as Hm.
  { destruct (Hok) as [Hbk Ha Hl Hh Hb Hr Ho Ht Hp Hf Hpi]. destruct (Hh id l Hi) as [[B1 B2] Hq]. unfold m. split; cbn; try done.
    - by eapply addrs_update.
    - eapply listeners_close; [done|by left| |done]. by intros [?|?%elem_of_nil].
    - apply heap_update; [done| |done]. split; cbn; [done|]. pose proof (zlen_nonneg (l_incoming l)). change (zlen (@nil connRef)) with 0. lia. }
  rewrite absNet_closeAll by done.
  assert (absNet m ds = with_listeners (<[id := mkSpecListener (l_addr l) (l_cap l) false []]> (ns_listeners (absNet n ds))) (absNet n ds)) as ->.
  { unfold m, absNet, with_listeners. cbn. by rewrite abs_insert. }
  apply (sp_close_listener (absNet n ds) id (absListener l)); [by apply abs_listener|cbn; by rewrite Ec].
Qed.

Lemma accept_sim n ds pref id r n' :
  net_ok n -> listenerAccept pref id n = (Some r, n') -> spec_step (absNet n ds) (EAccept id r) (absNet n' ds).
Proof.
  intros Hok. unfold listenerAccept. destruct (n_heap n !! id) as [l|] eqn:Hi; [|done].
  destruct (Accept pref l) as [r0 l'] eqn:Ea. intros [= <- <-]. pose proof (abs_listener n ds id l Hi) as Hai.
  destruct (backlog_drained n id l Hok Hi) as [_ Hq]. unfold Accept in Ea. destruct (l_incoming l) as [|c q] eqn:Eq.
  - assert (l' = l) as -> by (destruct (l_closed l); by injection Ea).
    assert (absNet (set_heap n (<[id := l]> (n_heap n))) ds = absNet n ds) as -> by (unfold absNet; cbn; f_equal; by apply (abs_insert_same _ _ _ l)).
    destruct (l_closed l) eqn:Ec; injection Ea as <-.
    + apply (sp_accept_closed (absNet n ds) id (absListener l) Hai). cbn. by rewrite Ec.
    + apply (sp_accept_blocks (absNet n ds) id (absListener l) Hai); cbn; by rewrite ?Ec.
  - destruct (l_closed l) eqn:Ec; [by discriminate (Hq eq_refl)|]. cbn in Ea. injection Ea as <- <-.
    assert (absNet (set_heap n (<[id := set_incoming l q]> (n_heap n))) ds =
      with_listeners (<[id := mkSpecListener (l_addr l) (l_cap l) true q]> (ns_listeners (absNet n ds))) (absNet n ds)) as ->.
    { unfold absNet, with_listeners. cbn. rewrite abs_insert. unfold absListener. cbn. by rewrite Ec. }
    apply (sp_accept (absNet n ds) id (absListener l) c q Hai); cbn; by rewrite ?Ec.
Qed.

(** *** Deadlines *)

Lemma dl_t_set now t d : dl_t (Deadline.set now t d) = t.
Proof. unfold Deadline.set. by destruct (_ || _). Qed.

Lemma absNet_conn n ds (i : nat) lk' :
  absNet (set_conns n (<[i := lk']> (n_conns n))) ds = with_conns (<[i := absConn lk']> (ns_conns (absNet n ds))) (absNet n ds).
Proof. unfold absNet, with_conns. cbn. by rewrite abs_insert. Qed.

Lemma setDeadlines_abs now r w s lk err lk' :
  setDeadlines now r w s lk = Some (err, lk') ->
  if c_closed (end_of lk s) then lk' = lk /\ err = Some (opError (end_of lk s) "set" ErrClosed)
  else err = None /\
    absConn lk' = on_end s (fun e => se_set_deadlines (default (se_readBy e) r) (default (se_writeBy e) w) e) (absConn lk).
Proof.
  unfold setDeadlines, SetDeadline, SetReadDeadline, SetWriteDeadline.
  destruct r as [t|], w as [t'|]; [destruct (decide (t = t')) as [<-|]; [|done]| | |done]; destruct (c_closed (end_of lk s)); intros [= <- <-]; (split; [done|]); try done.
  - rewrite !absEnd_deadline by done. unfold upd_end. destruct s; cbn; by rewrite !dl_t_set.
  - rewrite absEnd_deadline by done. cbn. rewrite dl_t_set. unfold on_end. by rewrite sc_end_abs.
  - rewrite absEnd_deadline by done. cbn. rewrite dl_t_set. unfold on_end. by rewrite sc_end_abs.
Qed.

Lemma deadlines_sim n ds now (i : nat) s lk r w err lk' :
  n_conns n !! i = Some lk -> setDeadlines now r w s lk = Some (err, lk') ->
  spec_step (absNet n ds) (ESetDeadlines (i, s) r w err) (absNet (set_conns n (<[i := lk']> (n_conns n))) ds).
Proof.
  intros Hi E%setDeadlines_abs. pose proof (abs_lookup absConn _ _ _ Hi) as Hai. destruct (c_closed (end_of lk s)) eqn:Ec.
  - destruct E as [-> ->]. rewrite set_conns_same by done.
    assert (opError (end_of lk s) "set" ErrClosed = end_error (sc_end (absConn lk) s) "set" ErrClosed) as -> by (by rewrite sc_end_abs).
    apply sp_deadlines_closed; [exact Hai|by rewrite sc_end_abs].
  - destruct E as [-> Eabs]. rewrite absNet_conn, Eabs. apply sp_deadlines; [exact Hai|by rewrite sc_end_abs].
Qed.

(** *** Faults *)

Lemma with_faults_abs n ds f : absNet (set_faults n f) ds = with_faults f (absNet n ds).
Proof. done. Qed.

Lemma partition_sim n ds a b n' : net_ok n -> Partition a b n = Ret n' -> spec_step (absNet n ds) (EPartition a b) (absNet n' ds).
Proof.
  intros Hok. unfold Partition. intros ([] & _ & E)%go_bind_ret. destruct (resolvePair a b n) as [k n1] eqn:Ek.
  pose proof (resolvePair_named _ _ _ _ _ Hok Ek) as Hk. destruct (resolvePair_ok _ _ _ _ _ Hok Ek) as (_ & E1 & Hle). injection E as <-.
  assert (absNet (set_part n1 (partition_pair k (n_part n1))) ds =
    with_cut ({[k]} ∪ ns_cut (absNet n ds)) (with_book (n_book n1) (absNet n ds))) as ->.
  { rewrite E1. unfold absNet, with_cut, with_book. cbn. f_equal. unfold partition_pair. case_decide; cbn; [|done]. apply set_eq. intros q. rewrite elem_of_union, elem_of_singleton. split; [auto|]. by intros [->|?]. }
  by apply sp_partition.
Qed.

Lemma heal_sim n ds a b n' : net_ok n -> Heal a b n = Ret n' -> spec_step (absNet n ds) (EHeal a b) (absNet n' ds).
Proof.
  intros Hok. unfold Heal. intros ([] & _ & E)%go_bind_ret. destruct (resolvePair a b n) as [k n1] eqn:Ek.
  pose proof (resolvePair_named _ _ _ _ _ Hok Ek) as Hk. destruct (resolvePair_ok _ _ _ _ _ Hok Ek) as (_ & E1 & Hle). injection E as <-.
  assert (absNet (set_part n1 (heal_pair k (n_part n1))) ds =
    with_cut (ns_cut (absNet n ds) ∖ {[k]}) (with_book (n_book n1) (absNet n ds))) as ->.
  { rewrite E1. unfold absNet, with_cut, with_book. cbn. f_equal. unfold heal_pair. case_decide; cbn; [done|]. apply set_eq. intros q. rewrite elem_of_difference, elem_of_singleton. split; [|by intros [? _]]. intros Hq. split; [done|]. by intros ->. }
  by apply sp_heal.
Qed.

Lemma reset_sim n ds a b n' :
  net_ok n -> conns_named (n_book n) (n_conns n) -> Reset a b n = Ret n' -> spec_step (absNet n ds) (EReset a b) (absNet n' ds).
Proof.
  intros Hok Hnm. rewrite Reset_eq. intros ([] & _ & E)%go_bind_ret. destruct (resolvePair a b n) as [k n1] eqn:Ek.
  pose proof (resolvePair_named _ _ _ _ _ Hok Ek) as Hk. destruct (resolvePair_ok _ _ _ _ _ Hok Ek) as (Hok1 & E1 & Hle). injection E as <-.
  rewrite absNet_resetPair; [|done|].
  - assert (absNet n1 ds = with_book (n_book n1) (absNet n ds)) as -> by (by rewrite E1). by apply sp_reset.
  - assert (n_conns n1 = n_conns n) as -> by (by rewrite E1). eapply conns_named_le; [exact Hle|apply same_conns_refl|done].
Qed.

Lemma setting_sim n ds s n' : applySetting s n = Ret n' -> spec_step (absNet n ds) (ESetting s) (absNet n' ds).
Proof.
  intros E. assert (n' = set_faults n (apply_setting s (n_faults n))) as ->.
  { destruct s; cbn in E; unfold SetLatency, SetPacketLoss, SetDuplication, SetCorruption in E; by apply go_bind_ret in E as (u & _ & [= <-]). }
  rewrite with_faults_abs. apply (sp_setting (absNet n ds)).
Qed.

(** ** Every step *)

Definition abs (s : system Src) : netSpec := absNet (sy_net s) (sy_dials s).

Record known (s : system Src) : Prop := {
  kn_dials : forall d, d ∈ sy_dials s -> dial_known (sy_net s) d;
  kn_ios : forall t, t ∈ sy_ios s -> io_known (ns_conns (abs s)) t
}.

Lemma abs_same_addrs n n' ds ds' ev : spec_step (absNet n ds) ev (absNet n' ds') -> same_addrs (n_heap n) (n_heap n').
Proof.
  intros [_ Hl]%spec_step_grows id l Hi. destruct (Hl id _ (abs_listener n ds id l Hi)) as (sl & Hs & Ea).
  destruct (abs_listener_inv _ _ _ _ Hs) as (l' & Hi' & ->). by exists l'.
Qed.

(** What is known stays known. *)
Lemma known_step s ev s' :
  known s -> spec_step (abs s) ev (abs s') ->
  (forall d, d ∈ sy_dials s' -> d ∈ sy_dials s \/ dial_known (sy_net s') d) ->
  (forall t, t ∈ sy_ios s' -> t ∈ sy_ios s \/ io_known (ns_conns (abs s')) t) -> known s'.
Proof.
  intros [Hd Ht] Hst Hds Hts. destruct (spec_step_grows _ _ _ Hst) as [Hle _]. pose proof (abs_same_addrs _ _ _ _ _ Hst) as Ha. split.
  - intros d [Hin|Hk]%Hds; [|done]. by eapply dial_known_le, Hd.
  - intros t [Hin|Hk]%Hts; [|done]. eapply io_known_le; [by eapply spec_step_conns|by apply Ht].
Qed.

Lemma io_sim n ds (j : nat) ios t now t' n' :
  net_ok n -> conns_named (n_book n) (n_conns n) -> all_sane (ns_conns (absNet n ds)) -> io_known (ns_conns (absNet n ds)) t ->
  io_room t n -> ioStep now t n = Ret (t', n') ->
  spec_step (absNet n ds) (io_event now t t') (absNet n' ds) /\ io_known (ns_conns (absNet n' ds)) t'.
Proof.
  intros Hok Hnm Hsane Hk Hroom E. destruct (ioStep_effect _ _ _ _ _ E) as (lk & Hi & Er & He).
  destruct t as [[i s] call], t' as [r' call']. cbn [io_ref] in Er. subst r'. cbn [io_ref io_call fst snd] in Hi, He.
  pose proof (Hsane i _ (abs_lookup absConn _ _ _ Hi)) as Hs.
  destruct He as [size dch r p Et|size pc pc' Htry Est|data dch r p Et|data pc pc' Htry Est].
  - by apply (read_try_sim n ds i lk s now size dch r p).
  - by apply (read_stay_sim n ds i lk s now size pc pc').
  - apply (write_try_sim n ds i lk s now data dch r p); try done. apply Hroom.
  - by apply (write_stay_sim n ds i lk s now data pc pc').
Qed.

Lemma timer_sim n ds (i : nat) s f lk :
  n_conns n !! i = Some lk ->
  (forall e, (c_network (f e) = c_network e /\ c_local (f e) = c_local e /\ c_remote (f e) = c_remote e /\ c_closed (f e) = c_closed e /\
     c_reset (f e) = c_reset e /\ c_pair (f e) = c_pair e) /\ dl_t (c_rd (f e)) = dl_t (c_rd e) /\ dl_t (c_wd (f e)) = dl_t (c_wd e)) ->
  spec_step (absNet n ds) ETau (absNet (set_conns n (<[i := upd_end s f lk]> (n_conns n))) ds).
Proof.
  intros Hi Hf. rewrite absNet_conn, absEnd_same_deadline; [|intros e; apply Hf|intros e; apply Hf].
  rewrite list_insert_id by (by apply abs_lookup). apply (step_stutter (absNet n ds)).
Qed.

Lemma elem_of_list_insert {A} (l : list A) (k : nat) x y : y ∈ <[k := x]> l -> y = x \/ y ∈ l.
Proof.
  intros [q Hq]%list_elem_of_lookup. apply list_lookup_insert_Some in Hq as [(_ & <- & _)|[_ Hq]]; [by left|right].
  by eapply list_elem_of_lookup_2.
Qed.

(** The start of a call on a connection. *)
Lemma start_sim n ds ios t :
  known (mkSystem n ds ios) -> (forall sc, ns_conns (absNet n ds) !! fst (io_ref t) = Some sc -> io_known (ns_conns (absNet n ds)) t) ->
  is_Some (n_conns n !! fst (io_ref t)) -> spec_step (absNet n ds) ETau (absNet n ds) /\ known (mkSystem n ds (ios ++ [t])).
Proof.
  intros Hk Ht [lk Hi]. pose proof (step_stutter (absNet n ds)) as Hsp. split; [exact Hsp|].
  apply (known_step (mkSystem n ds ios) ETau); [done|exact Hsp|by left|].
  intros t0 [Ht0|Ht0]%elem_of_app; [by left|]. apply list_elem_of_singleton in Ht0 as ->. right.
  apply (Ht (absConn lk)). by apply abs_lookup.
Qed.

Lemma prog_step_sim s ev s' :
  sys_ok (base s) -> named (sy_net s) (sy_dials s) -> all_sane (ns_conns (abs s)) -> known s -> prog_step s ev s' ->
  spec_step (abs s) ev (abs s') /\ known s'.
Proof.
  intros Hsys Hnm Hsane Hk Hst.
  assert (spec_step (abs s) ev (abs s') -> (forall d, d ∈ sy_dials s' -> d ∈ sy_dials s) -> (forall t, t ∈ sy_ios s' -> t ∈ sy_ios s) ->
    spec_step (abs s) ev (abs s') /\ known s') as Hcall.
  { intros Hsp Hd Ht. split; [done|]. eapply known_step; [done|exact Hsp| |]; intros; left; auto. }
  destruct (Hsys) as [Hok Hth]. cbn [base fst snd] in Hok, Hth.
  destruct Hst as [n ds ios network laddr r n' E|n ds ios id|n ds ios pref id r n' E|n ds ios ctx network a
    |n ds ios j d pref pick now d' n' Hj Hpick Hlt E|n ds ios c size Hc|n ds ios c data Hc|n ds ios j t now t' n' Hj Hroom E
    |n ds ios now i lk w Hi|n ds ios c|n ds ios now i s lk r w err lk' Hi E|n ds ios i s lk Hi|n ds ios i s lk Hi
    |n ds ios a b n' E|n ds ios a b n' E|n ds ios a b n' E|n ds ios s n' Ht E]; cbn [sy_net sy_dials sy_ios] in *.
  - apply Hcall; [by apply listen_sim|done|done].
  - apply Hcall; [by apply close_listener_sim|done|done].
  - apply Hcall; [by eapply accept_sim|done|done].
  - assert (spec_step (absNet n ds) (EDial ctx network a) (absNet n (ds ++ [startDial ctx network a]))) as Hsp.
    { assert (absNet n (ds ++ [startDial ctx network a]) = with_dials (ns_dials (absNet n ds) ++ [mkSpecDial ctx network a Dialing]) (absNet n ds)) as ->
        by (unfold absNet, with_dials; cbn; by rewrite map_app). apply sp_dial. }
    split; [exact Hsp|]. eapply known_step; [done|exact Hsp| |by left]. intros d0 [Hd|Hd]%elem_of_app; [by left|].
    apply list_elem_of_singleton in Hd as ->. right. by split.
  - assert (d ∈ ds) as Hd by (by eapply list_elem_of_lookup_2). pose proof (kn_dials _ Hk d Hd) as Hkd. cbn in Hkd.
    assert (spec_step (absNet n ds) (dial_event j (dt_pc d) (dt_pc d')) (absNet n' (<[j := d']> ds))) as Hsp by (by eapply thread_sim).
    split; [exact Hsp|]. eapply known_step; [done|exact Hsp| |by left]. intros d0 [->|Hd0]%elem_of_list_insert; [right|by left].
    destruct (update_perm ds j d d Hj) as (rest & P & _).
    eapply (thread_known pref pick now d rest n d' n'); [|done|done|done|done]. split; [done|]. by eapply threads_perm.
  - apply start_sim; [done| |done]. intros sc Hs. by exists sc.
  - apply start_sim; [done| |done]. intros sc Hs. by exists sc.
  - pose proof (kn_ios _ Hk t ltac:(by eapply list_elem_of_lookup_2)) as Hkt.
    destruct (io_sim n ds j ios t now t' n' Hok (nm_conns _ _ Hnm) Hsane Hkt Hroom E) as [Hsp Hkt'].
    split; [exact Hsp|]. eapply known_step; [done|exact Hsp|by left|]. by intros t0 [->|Ht0]%elem_of_list_insert; [right|left].
  - apply Hcall; [|done|done]. unfold abs. cbn [sy_net sy_dials]. rewrite (absNet_pipe _ _ _ lk) by done.
    eapply sp_stream; [by apply (abs_lookup absConn)| |exact (sh_release i w now)].
    apply (pipe_sim n ds i lk w (LRelease now) _ now Hok (nm_conns _ _ Hnm) Hi (ps_release _ now)). done.
  - apply Hcall; [|done|done]. unfold abs. cbn [sy_net sy_dials]. rewrite absNet_connClose by done. apply sp_close.
  - apply Hcall; [by eapply deadlines_sim|done|done].
  - apply Hcall; [by apply timer_sim|done|done].
  - apply Hcall; [by apply timer_sim|done|done].
  - apply Hcall; [by apply partition_sim|done|done].
  - apply Hcall; [by apply heal_sim|done|done].
  - apply Hcall; [apply reset_sim; [done|apply Hnm|done]|done|done].
  - apply Hcall; [by apply setting_sim|done|done].
Qed.

(** The state the abstract machine starts in for a new Network. *)
Definition start n : netSpec := empty_spec (partitions (n_part n)) (n_faults n) (n_book n) (n_pipeBound n).

Lemma program_sim vs n evs s : program vs n evs s -> spec_run (start n) evs (abs s) /\ all_sane (ns_conns (abs s)) /\ known s.
Proof.
  intros (Hvs & E & Hrun). remember (mkSystem n [] []) as s0. induction Hrun as [s|s evs s1 ev s2 Hrun IH Hst]; subst s.
  - destruct (NewNetwork_empty _ _ E) as (E1 & E2 & _).
    assert (abs (mkSystem n [] []) = start n) as Es by (unfold abs, absNet, start, empty_spec; cbn; by rewrite E1, E2). rewrite Es.
    split; [apply srun_nil|]. split; [by intros i sc Hi|]. split; intros ? Hin; by apply elem_of_nil in Hin.
  - destruct (IH eq_refl) as (H1 & H2 & H3).
    assert (reachable (base s1)) as Hreach by (by apply (program_reachable vs n evs)).
    pose proof (reachable_ok _ Hreach) as Hsys. pose proof (reachable_named _ Hreach) as Hnm. cbn [base fst snd] in Hnm.
    destruct (prog_step_sim s1 ev s2 Hsys Hnm H2 H3 Hst) as [Hsp Hk].
    split; [by eapply srun_snoc|]. split; [|done]. eapply conns_move_sane; [by eapply spec_step_conns|done].
Qed.

End sim.
