(* ===== verification/NetProgram.v ===== *)
(** * What a program against a Network can rely on

    Consequences of [NetSim] for whole programs: every byte read was written on
    the other end, in order; the end of a stream means that nothing is missing;
    and every dial that returns a connection and every Accept give each
    connection to one caller. *)
From S2P Require Import Prelude GoRuntime Errors Float64 Rand Partition Trace PipeState Faults FaultProps Pipe PipeInv PipeProps.
From S2P Require Import Deadline Options Conn ConnProps ConnRace NetIP Addr Addressing Replay Directions Listener Network NetworkInv.
From S2P Require Import DialThreads DialSystem Ends NetSpec NetSpecProps NetTrace NetLedger NetSystem NetAbstract NetRefine NetSim.

(** ** The streams of a run of the abstract machine *)

Section streams.
Context `{!Platform}.
Implicit Types (N : netSpec).

Lemma run_accounted N0 evs N (i : nat) w sc :
  spec_run N0 evs N -> ns_conns N0 = [] -> ns_conns N !! i = Some sc -> accounted carried_as (i, w) evs (stream_out sc w).
Proof.
  intros Hrun He Hi. pose proof (within_accounted carried_as (fun _ => True) N0 evs N) as Hacc.
  specialize (Hacc (fun N sc data us _ => carried_all N sc data us) He (run_within _ _ _ Hrun) i w). by rewrite Hi in Hacc.
Qed.

Lemma run_accounted_plainly N0 evs N (i : nat) w sc :
  spec_run N0 evs N -> ns_conns N0 = [] -> untouched N0 -> Forall harmless evs -> ns_conns N !! i = Some sc ->
  accounted (fun data us => us = [data]) (i, w) evs (stream_out sc w).
Proof.
  intros Hrun He Hu Hc Hi. pose proof (within_accounted (fun data us => us = [data]) untouched N0 evs N untouched_plain He
    (run_untouched _ _ _ Hrun Hc Hu) i w) as Hacc. by rewrite Hi in Hacc.
Qed.

Lemma run_snoc N0 evs ev N : spec_run N0 (evs ++ [ev]) N -> exists N1, spec_run N0 evs N1 /\ spec_step N1 ev N.
Proof.
  intros Hrun. remember (evs ++ [ev]) as tr eqn:E. destruct Hrun as [|? evs0 N1 ev0 N2 Hrun Hst]; [by destruct evs|].
  apply app_inj_tail in E as [-> ->]. by exists N1.
Qed.

(** A Read that says EOF before its own end is closed. *)
Lemma eof_seen N now (i : nat) s size out N' sc :
  spec_step N (ERead now (i, s) size (Got out (Some EOF))) N' -> ns_conns N !! i = Some sc ->
  out = [] /\ N' = N /\ se_closed (sc_end sc (other s)) = true /\ bs_flight (stream_out sc (other s)) = [] /\ se_reset (sc_end sc s) = false.
Proof.
  intros Hst Hi. inversion Hst as [| | | | | | | | | | | | | | | |? ? ? ? ? ? ? Hi0 Hs Hsh|? ? ? ? sc0 ? ? Hi0 He| | | | | | | |]; subst.
  - inversion Hsh.
  - assert (sc0 = sc) as -> by congruence. inversion He; subst. done.
Qed.
End streams.

Section programs.
Context {Src : Type} `{!DrawSource Src} `{!RejectFuel} `{!Platform}.
Implicit Types (n : Network Src) (lk : link Src).

(** A Network whose settings and partitions let every byte through, and stay so. *)
Definition undisturbed n (evs : list event) : Prop := faithful (n_faults n) /\ partitions (n_part n) = ∅ /\ Forall harmless evs.

(** C3: Nothing made up and nothing out of order. In every program, the bytes the
    reader of a direction has been given are a beginning of what the accepted
    writes of the other end became, in the order they were accepted, each of them
    nothing, its payload or its payload twice, with at most one bit flipped.
    While the direction has not been cut off nothing else is missing: what was read
    and what is still in the pipe are all of it. Under settings without loss,
    duplication, corruption and partitions, what was accepted arrives as it is. *)
Theorem program_streams vs n evs s (i : nat) w lk :
  program vs n evs s -> n_conns (sy_net s) !! i = Some lk ->
  let got := received (i, w) evs in
  let p := writePipe lk w in
  (exists uss, Forall2 carried_as (sent (i, w) evs) uss /\ got `prefix_of` concat (concat uss) /\
     (p_readClosed p = false -> got ++ flight p = concat (concat uss))) /\
  (undisturbed n evs ->
     got `prefix_of` concat (sent (i, w) evs) /\ (p_readClosed p = false -> got ++ flight p = concat (sent (i, w) evs))).
Proof.
  intros Hp Hi got p. destruct (program_sim _ _ _ _ Hp) as (Hrun & _ & _). pose proof (abs_lookup absConn _ _ _ Hi) as Hai.
  split.
  - destruct (run_accounted _ _ _ i w _ Hrun eq_refl Hai) as (uss & H1 & H2 & H3). rewrite stream_out_abs in H3. exists uss. done.
  - intros (Hf & Hk & Hc).
    destruct (run_accounted_plainly _ _ _ i w _ Hrun eq_refl (conj Hf Hk) Hc Hai) as (uss & H1 & H2 & H3).
    rewrite stream_out_abs in H3. rewrite (plain_units _ _ H1) in H2, H3. done.
Qed.

(** C5: The end of a stream is the end of what was sent. When a Read says EOF, the peer
    has closed its end, and everything the peer's accepted writes put into the
    connection has been read; without loss, duplication, corruption and
    partitions, the reader has the concatenation of what was written. *)
Theorem eof_means_all vs n evs now (i : nat) r size out s lk :
  program vs n (evs ++ [ERead now (i, r) size (Got out (Some EOF))]) s -> n_conns (sy_net s) !! i = Some lk ->
  c_closed (end_of lk r) = false ->
  out = [] /\ c_closed (end_of lk (other r)) = true /\
  (exists uss, Forall2 carried_as (sent (i, other r) evs) uss /\ received (i, other r) evs = concat (concat uss)) /\
  (undisturbed n evs -> received (i, other r) evs = concat (sent (i, other r) evs)).
Proof.
  intros Hp Hi Ho. destruct (program_sim _ _ _ _ Hp) as (Hrun & Hsane & _). pose proof (abs_lookup absConn _ _ _ Hi) as Hai.
  destruct (run_snoc _ _ _ _ Hrun) as (N1 & Hrun1 & Hst).
  assert (exists sc1, ns_conns N1 !! i = Some sc1) as [sc1 Hi1] by (inversion Hst as [| | | | | | | | | | | | | | | |? ? ? ? ? ? ? ? ? Hsh| | | | | | | | |]; eauto; inversion Hsh).
  destruct (eof_seen _ _ _ _ _ _ _ _ Hst Hi1) as (-> & E & Hcl & Hfl & Hr). subst N1.
  assert (sc1 = absConn lk) as -> by (cbn in Hi1; congruence). pose proof (Hsane i _ Hai) as Hs.
  rewrite sc_end_abs in Hcl, Hr. cbn in Hcl, Hr.
  assert (bs_aborted (stream_out (absConn lk) (other r)) = false) as Hab.
  { apply not_true_is_false. intros Ha. destruct (sane_aborted _ Hs _ Ha) as [Hc|[_ [Hc|Hc]]]; rewrite ?other_other, sc_end_abs in Hc; cbn in Hc; congruence. }
  split; [done|]. split; [done|]. split.
  - destruct (run_accounted _ _ _ i (other r) _ Hrun1 eq_refl Hai) as (uss & H1 & H2 & H3). exists uss. split; [done|].
    rewrite <- (H3 Hab), Hfl. by rewrite app_nil_r.
  - intros (Hf & Hk & Hc).
    destruct (run_accounted_plainly _ _ _ i (other r) _ Hrun1 eq_refl (conj Hf Hk) Hc Hai) as (uss & H1 & H2 & H3).
    rewrite <- (plain_units _ _ H1), <- (H3 Hab), Hfl. by rewrite app_nil_r.
Qed.

(** C4: Every connection goes to one caller. The connections the dials of a program
    return are distinct, and so are the ends its Accepts return. What a listener
    hands out and still queues are acceptors' ends of those connections, in the
    order the dials returned. And no connection is lost: the other end of each has
    the address of one listener, and that listener's Accept has handed it out, or
    it waits in that queue, or it is closed. *)
Theorem handed_out_once vs n evs s :
  program vs n evs s ->
  NoDup (dialed evs) /\ NoDup (map snd (accepted evs)) /\
  (forall id l, n_heap (sy_net s) !! id = Some l -> accepted_at id evs ++ l_incoming l `sublist_of` map far (dialed evs)) /\
  (forall c, c ∈ map snd (accepted evs) -> c ∈ map far (dialed evs)) /\
  (forall i, i ∈ dialed evs -> exists lk id l,
     n_conns (sy_net s) !! i = Some lk /\ n_heap (sy_net s) !! id = Some l /\
     (let e := c_local (lk_server lk) in addr_peer e = addr_peer (l_addr l) /\ addr_port e = addr_port (l_addr l) /\ addr_ip e = addr_ip (l_addr l)) /\
     (forall id', far i ∈ accepted_at id' evs -> id' = id) /\
     (far i ∈ accepted_at id evs ++ l_incoming l \/ c_closed (lk_server lk) = true)).
Proof.
  intros Hp. destruct (program_sim _ _ _ _ Hp) as (Hrun & _ & _).
  destruct (ledger_run _ _ _ Hrun eq_refl eq_refl eq_refl) as [owner [Hd Hq [Hlen Hpl] He]].
  assert (forall id l, n_heap (sy_net s) !! id = Some l -> accepted_at id evs ++ l_incoming l `sublist_of` map far (dialed evs)) as Hf.
  { intros id l Hl. apply (qo_fifo _ _ _ Hq id (absListener l)). by apply abs_lookup. }
  assert (forall id c, c ∈ accepted_at id evs -> exists l, n_heap (sy_net s) !! id = Some l) as Hex.
  { intros id c Hc. destruct (ns_listeners (abs s) !! id) as [sl|] eqn:Hl; [|rewrite (qo_none _ _ _ Hq id Hl) in Hc; by apply elem_of_nil in Hc].
    destruct (abs_listener_inv _ _ _ _ Hl) as (l & Hl' & _). by exists l. }
  split; [apply (do_once _ _ _ Hd)|]. split; [apply (qo_once _ _ _ Hq)|]. split; [exact Hf|]. split.
  { intros c ([id c'] & -> & Hin)%list_elem_of_fmap. apply elem_of_accepted_at in Hin. cbn. destruct (Hex _ _ Hin) as [l Hl].
    eapply elem_of_sublist; [|by apply (Hf id l)]. apply elem_of_app. by left. }
  intros i Hi. destruct (He i Hi) as (id & Ho & Hend). destruct (Hpl i id Ho) as (sc & sl & Hc & Hl & Ha).
  destruct (abs_listener_inv _ _ _ _ Hl) as (l & Hl' & ->). apply list_lookup_fmap_Some in Hc as (lk & -> & Hc).
  exists lk, id, l. split; [exact Hc|]. split; [exact Hl'|]. split; [exact Ha|]. split.
  - intros id' Hin. destruct (Hex _ _ Hin) as [l' Hl2].
    assert (owner !! fst (far i) = Some id') as E by (apply (qo_owner _ _ _ Hq id' (absListener l')); [by apply abs_lookup|apply elem_of_app; by left]).
    cbn in E. congruence.
  - destruct Hend as [(sl & Hsl & Hin)|(sc & Hsc & Hcl)].
    + left. rewrite Hl in Hsl. injection Hsl as <-. exact Hin.
    + right. assert (sc = absConn lk) as -> by (cbn in Hsc; apply list_lookup_fmap_Some in Hsc as (lk' & -> & Hsc); congruence). exact Hcl.
Qed.
End programs.
