(* ===== verification/NetDrain.v ===== *)
(** * A stream can be read to its end

    Once an end is closed, nothing can keep its peer from all that is in flight:
    when the last release time has come, Reads alone hand it out and then say
    EOF, each at once. *)
From S2P Require Import Prelude GoRuntime Errors Float64 Rand Partition Trace PipeState Faults FaultProps Pipe PipeInv PipeProps.
From S2P Require Import Deadline Options Conn ConnProps ConnRace NetIP Addr Addressing Replay Directions Listener Network NetworkInv NetworkFlows.
From S2P Require Import DialThreads DialSystem Ends NetSpec NetSpecProps NetTrace NetSystem NetAbstract NetRefine NetSim NetProgram.

Section drain.
Context {Src : Type} `{!DrawSource Src} `{!RejectFuel} `{!Platform}.
Implicit Types (n : Network Src) (lk : link Src) (p : pipe Src) (ds : list dialThread) (ios : list ioThread).

(** ** One Read *)

(** The read end is not closed, reset or late, whatever the clock says. *)
Definition can_read lk (r : connSide) : Prop :=
  c_closed (end_of lk r) = false /\ c_reset (end_of lk r) = false /\ dl_t (c_rd (end_of lk r)) = 0.

Lemma can_read_not_late lk r now : can_read lk r -> expired now (c_rd (end_of lk r)) = false.
Proof. intros (_ & _ & E). unfold expired. by rewrite E. Qed.

Lemma can_read_set lk r w p : can_read lk r -> can_read (set_writePipe lk w p) r.
Proof. unfold can_read. by rewrite end_of_set_writePipe. Qed.

(** One step of the call that was started last. *)
Lemma io_last n ds ios (now : Time) (i : nat) r size pc pc' lk lk' n' :
  n_conns n !! i = Some lk -> readStep (viewAt now n) size r pc lk = (pc', lk') -> set_conns n (<[i := lk']> (n_conns n)) = n' ->
  prog_step (mkSystem n ds (ios ++ [mkIoThread (i, r) (ReadCall size pc)]))
    (io_event now (mkIoThread (i, r) (ReadCall size pc)) (mkIoThread (i, r) (ReadCall size pc')))
    (mkSystem n' ds (ios ++ [mkIoThread (i, r) (ReadCall size pc')])).
Proof.
  intros Hi E <-.
  assert (ios ++ [mkIoThread (i, r) (ReadCall size pc')] =
    <[length ios := mkIoThread (i, r) (ReadCall size pc')]> (ios ++ [mkIoThread (i, r) (ReadCall size pc)])) as ->
    by (by rewrite insert_app_r_alt, Nat.sub_diag).
  apply pg_io; [by apply list_lookup_middle|done|]. unfold ioStep. cbn [io_ref io_call]. rewrite Hi. cbn [deref mbind go_bind]. by rewrite E.
Qed.

(** The events of a Read that gets [out], and of one that gets the end. *)
Definition read_events (now : Time) (i : nat) (r : connSide) (size : nat) (out : list Z) : list event :=
  replicate 5 ETau ++ [ERead now (i, r) size (Got out None)].
Definition eof_events (now : Time) (i : nat) (r : connSide) (size : nat) : list event :=
  replicate 7 ETau ++ [ERead now (i, r) size (Got [] (Some EOF))].

Lemma prog_run_app s1 evs1 s2 evs2 s3 : prog_run s1 evs1 s2 -> prog_run s2 evs2 s3 -> prog_run s1 (evs1 ++ evs2) s3.
Proof.
  intros H1 H2. induction H2 as [|s2 evs2 s3 ev s4 _ IH Hst]; [by rewrite app_nil_r|]. rewrite app_assoc. eapply prun_snoc; [by apply IH|done].
Qed.

(** The steps of a Read up to its try of the pipe. *)
Lemma read_to_try n ds ios (now : Time) (i : nat) r size lk :
  n_conns n !! i = Some lk -> can_read lk r ->
  exists dch, prog_run (mkSystem n ds ios) (replicate 5 ETau) (mkSystem n ds (ios ++ [mkIoThread (i, r) (ReadCall size (Try dch))])).
Proof.
  intros Hi Hr. destruct (Hr) as (Hc & Hs & _). exists (channel (c_rd (end_of lk r))).
  assert (forall evs s pc pc', prog_run s evs (mkSystem n ds (ios ++ [mkIoThread (i, r) (ReadCall size pc)])) ->
    readStep (viewAt now n) size r pc lk = (pc', lk) ->
    io_event now (mkIoThread (i, r) (ReadCall size pc)) (mkIoThread (i, r) (ReadCall size pc')) = ETau ->
    prog_run s (evs ++ [ETau]) (mkSystem n ds (ios ++ [mkIoThread (i, r) (ReadCall size pc')]))) as Hgo.
  { intros evs s pc pc' Hrun E <-. eapply prun_snoc; [exact Hrun|]. eapply io_last; [exact Hi|exact E|by apply set_conns_same]. }
  apply (Hgo (replicate 4 ETau) _ (Expired (channel (c_rd (end_of lk r))))); [|cbn; by rewrite can_read_not_late|done].
  apply (Hgo (replicate 3 ETau) _ Channel); [|done|done].
  apply (Hgo (replicate 2 ETau) _ CheckReset); [|cbn; by rewrite Hs|done].
  apply (Hgo (replicate 1 ETau) _ CheckClosed); [|cbn; by rewrite Hc|done].
  apply (prun_snoc _ [] _ _ _ (prun_nil _)), (pg_call_read n ds ios (i, r) size). by eexists.
Qed.

Lemma read_gets n ds ios (now : Time) (i : nat) r size lk out p' :
  n_conns n !! i = Some lk -> can_read lk r -> tryRead (viewAt now n) (readPipe lk r) size = (Done out None, p') ->
  exists ios', prog_run (mkSystem n ds ios) (read_events now i r size out) (mkSystem (upd_pipe i (other r) p' n) ds ios').
Proof.
  intros Hi Hr Et. destruct (read_to_try n ds ios now i r size lk Hi Hr) as [dch Hrun]. eexists. eapply prun_snoc; [exact Hrun|].
  apply (io_last n ds ios now i r size (Try dch) (Return out None) lk (set_readPipe lk r p')); [done|cbn; by rewrite Et|].
  by apply set_conns_pipe.
Qed.

Lemma read_ends n ds ios (now : Time) (i : nat) r size lk p' :
  n_conns n !! i = Some lk -> can_read lk r -> tryRead (viewAt now n) (readPipe lk r) size = (Done [] (Some EOF), p') ->
  exists ios', prog_run (mkSystem n ds ios) (eof_events now i r size) (mkSystem (upd_pipe i (other r) p' n) ds ios').
Proof.
  intros Hi Hr Et. destruct (read_to_try n ds ios now i r size lk Hi Hr) as [dch Hrun]. destruct (Hr) as (Hc & Hs & _).
  set (n' := upd_pipe i (other r) p' n). set (lk' := set_writePipe lk (other r) p').
  assert (set_conns n (<[i := lk']> (n_conns n)) = n') as En by (by apply set_conns_pipe).
  assert (n_conns n' !! i = Some lk') as Hi' by (rewrite <- En; cbn; by rewrite list_lookup_insert_eq by (by eapply lookup_lt_Some)).
  assert (set_conns n' (<[i := lk']> (n_conns n')) = n') as En' by (by apply set_conns_same).
  assert (end_of lk' r = end_of lk r) as Ee by apply end_of_set_writePipe.
  eexists. apply (prun_snoc _ (replicate 7 ETau) (mkSystem n' ds (ios ++ [mkIoThread (i, r) (ReadCall size (ErrCheckReset [] EOF))]))).
  2: { apply (io_last n' ds ios now i r size (ErrCheckReset [] EOF) (Return [] (Some EOF)) lk' lk'); [done|cbn; by rewrite Ee, Hs|done]. }
  apply (prun_snoc _ (replicate 6 ETau) (mkSystem n' ds (ios ++ [mkIoThread (i, r) (ReadCall size (ErrCheckClosed [] EOF))]))).
  2: { apply (io_last n' ds ios now i r size (ErrCheckClosed [] EOF) (ErrCheckReset [] EOF) lk' lk'); [done|cbn; by rewrite Ee, Hc|done]. }
  apply (prun_snoc _ (replicate 5 ETau) _ _ _ Hrun).
  apply (io_last n ds ios now i r size (Try dch) (ErrCheckClosed [] EOF) lk lk'); [done|cbn; by rewrite Et|done].
Qed.

(** ** All that is left *)

(** A pipe closed for writing, with nothing held back. *)
Definition winding_up (v : netView) p : Prop :=
  p_readClosed p = false /\ p_closed p = true /\ p_pending p = [] /\ isPartitioned (nv_parts v) (p_partitionPair p) = false.

Lemma winding_up_eof v p : winding_up v p -> exists p', tryReadEOF v p = (Done [] (Some EOF), p').
Proof.
  intros (_ & Hc & Hp & Hg). unfold tryReadEOF. rewrite Hc, Hp. cbn. destruct (p_eofSeen p); [by eexists|].
  unfold checkPartition, isPartitioned in *. rewrite Hg. destruct (p_partitionNetwork p); by eexists.
Qed.

Lemma winding_up_read v p size :
  winding_up v p -> (0 < size)%nat ->
  match concat (p_readable p) with
  | [] => exists p', tryRead v p size = (Done [] (Some EOF), p')
  | bytes => exists p', tryRead v p size = (Done (take size bytes) None, p') /\ concat (p_readable p') = drop size bytes /\ winding_up v p'
  end.
Proof.
  intros Hw Hs. pose proof Hw as (Hrc & Hc & Hp & Hg). unfold tryRead. rewrite Hrc.
  destruct (p_readable p) as [|c cs] eqn:Er; [by apply winding_up_eof|]. rewrite <- Er.
  destruct (copyOut (p_readable p) size) as [out rest] eqn:Ec. pose proof (copyOut_spec _ _ _ _ Ec) as (H1 & H2 & H3).
  assert (concat (p_readable p) = [] \/ out <> []) as Hout.
  { destruct out as [|b out]; [left|by right]. apply copyOut_empty in Ec as [_ E]; [done|lia]. }
  destruct (concat (p_readable p)) as [|b bytes] eqn:Eb.
  - apply app_eq_nil in H1 as [-> _]. rewrite (proj2 (Nat.eqb_neq size 0)) by lia. cbn [zlen length Z.of_nat Z.ltb orb].
    apply (winding_up_eof v). by split_and!.
  - destruct Hout as [|Hne]; [done|].
    assert ((0 <? zlen out) = true) as -> by (apply Z.ltb_lt; unfold zlen; destruct out; [done|cbn; lia]). cbn [orb].
    assert (out = take size (b :: bytes) /\ concat rest = drop size (b :: bytes)) as [-> E2].
    { rewrite <- H1. destruct (Nat.lt_ge_cases (length out) size) as [Hlt|Hge].
      - rewrite (H3 Hlt). cbn. rewrite app_nil_r, firstn_all2, skipn_all2 by lia. done.
      - rewrite take_app_length', drop_app_length' by lia. done. }
    eexists. split; [done|]. split; [exact E2|]. by split_and!.
Qed.

Lemma drains k n ds ios (now : Time) (i : nat) r size lk :
  n_conns n !! i = Some lk -> can_read lk r -> winding_up (viewAt now n) (readPipe lk r) -> (0 < size)%nat ->
  (length (concat (p_readable (readPipe lk r))) <= k)%nat ->
  exists outs s', prog_run (mkSystem n ds ios) (concat (map (read_events now i r size) outs) ++ eof_events now i r size) s' /\
    Forall (fun out => 0 < length out <= size)%nat outs /\ concat outs = concat (p_readable (readPipe lk r)).
Proof.
  intros Hi Hr Hw Hs. revert n ios lk Hi Hr Hw. induction k as [|k IH]; intros n ios lk Hi Hr Hw Hk;
    pose proof (winding_up_read _ _ _ Hw Hs) as Hread; destruct (concat (p_readable (readPipe lk r))) as [|b bytes]; try (cbn in Hk; lia).
  1, 2: destruct Hread as [p' Et]; destruct (read_ends n ds ios now i r size lk p' Hi Hr Et) as [ios' Hrun]; exists []; eexists; by split_and!.
  destruct Hread as (p' & Et & Eb & Hw'). destruct (read_gets n ds ios now i r size lk _ p' Hi Hr Et) as [ios' Hrun].
  set (lk' := set_writePipe lk (other r) p').
  assert (n_conns (upd_pipe i (other r) p' n) !! i = Some lk') as Hi'.
  { rewrite <- (set_conns_pipe n i lk) by done. cbn. by rewrite list_lookup_insert_eq by (by eapply lookup_lt_Some). }
  assert (readPipe lk' r = p') as Ep by (unfold readPipe, lk'; by rewrite writePipe_set_writePipe, decide_True).
  destruct (IH (upd_pipe i (other r) p' n) ios' lk' Hi' (can_read_set _ _ _ _ Hr)) as (outs & s' & Hrun' & Hall & Ecat).
  { by rewrite Ep. }
  { rewrite Ep, Eb, length_drop. cbn in Hk |- *. lia. }
  exists (take size (b :: bytes) :: outs), s'. split_and!.
  - cbn [map concat]. rewrite <- app_assoc. by eapply prog_run_app.
  - constructor; [|done]. rewrite length_take. cbn. lia.
  - cbn [concat]. rewrite Ecat, Ep, Eb. apply take_drop.
Qed.

(** What the release of everything leaves. *)
Lemma released_all now p :
  p_readClosed p = false -> Forall (fun u => pu_releaseAt u <= now) (p_pending p) ->
  let p' := releaseDueLatency now p in
  p_pending p' = [] /\ concat (p_readable p') = flight p /\ p_readClosed p' = false /\ p_closed p' = p_closed p /\
  p_partitionPair p' = p_partitionPair p.
Proof.
  intros Hrc Hall p'. destruct (releaseDueLatency_eq now p Hrc) as (us & rest & Hp & _ & Hrest & E).
  assert (rest = []) as ->.
  { destruct rest as [|u rest]; [done|]. rewrite Hp in Hall. apply Forall_app in Hall as [_ Hall]. inversion Hall; subst. lia. }
  rewrite app_nil_r in Hp. unfold p'. rewrite E. cbn. split_and!; try done.
  unfold flight, bs_flight. cbn. by rewrite Hp, concat_app.
Qed.

(** C2: A stream can be read to its end. In every program, take a connection one end of
    which is closed and the other neither closed, reset nor under a read
    deadline, in a pair that is not partitioned, once the last release time in
    its latency queue has come. Then Reads of any positive size at the open end,
    and nothing but the release before them, each return at once: first all that
    is in flight, in pieces of at most that size, none empty, and then EOF; after
    which the reader has, in order, all that the accepted writes became, and,
    undisturbed, all that was written. *)
Theorem stream_finishes vs n evs s now (i : nat) r lk size :
  program vs n evs s -> n_conns (sy_net s) !! i = Some lk -> can_read lk r -> c_closed (end_of lk (other r)) = true ->
  isPartitioned (n_part (sy_net s)) (c_pair (end_of lk (other r))) = false -> (0 < size)%nat ->
  Forall (fun u => pu_releaseAt u <= now) (p_pending (readPipe lk r)) ->
  exists outs s', prog_run s (ETau :: concat (map (read_events now i r size) outs) ++ eof_events now i r size) s' /\
    Forall (fun out => 0 < length out <= size)%nat outs /\ concat outs = flight (readPipe lk r) /\
    (exists uss, Forall2 carried_as (sent (i, other r) evs) uss /\ received (i, other r) evs ++ concat outs = concat (concat uss)) /\
    (undisturbed n evs -> received (i, other r) evs ++ concat outs = concat (sent (i, other r) evs)).
Proof.
  intros Hp Hi Hr Hcl Hg Hs Hall. destruct (program_sim _ _ _ _ Hp) as (Hrun & Hsane & _).
  pose proof (abs_lookup absConn _ _ _ Hi) as Hai. pose proof (Hsane i _ Hai) as Hsn.
  assert (p_readClosed (readPipe lk r) = false) as Hrc.
  { apply not_true_is_false. intros Ha. change (bs_aborted (stream_of (writePipe lk (other r))) = true) in Ha. rewrite <- stream_out_abs in Ha.
    destruct (Hr) as (A1 & A2 & _).
    destruct (sane_aborted _ Hsn _ Ha) as [Hc|[_ [Hc|Hc]]]; rewrite ?other_other, sc_end_abs in Hc; cbn in Hc; congruence. }
  assert (p_closed (readPipe lk r) = true) as Hpc.
  { pose proof (sane_refuses _ Hsn (other r)) as Hc. rewrite sc_end_abs, stream_out_abs in Hc. by apply Hc. }
  destruct (reachable_ok _ (program_reachable _ _ _ _ Hp)) as [Hok _]. cbn [base fst] in Hok.
  destruct (dir_partition _ _ _ _ _ (ok_pipes _ Hok i lk Hi (other r))) as [_ Epair].
  destruct (released_all now _ Hrc Hall) as (R1 & R2 & R3 & R4 & R5). set (p1 := releaseDueLatency now (readPipe lk r)) in *.
  destruct s as [m ds ios]. cbn [sy_net] in *.
  set (lk1 := set_writePipe lk (other r) p1).
  assert (n_conns (upd_pipe i (other r) p1 m) !! i = Some lk1) as Hi1.
  { rewrite <- (set_conns_pipe m i lk) by done. cbn. by rewrite list_lookup_insert_eq by (by eapply lookup_lt_Some). }
  assert (readPipe lk1 r = p1) as Ep1 by (unfold readPipe, lk1; by rewrite writePipe_set_writePipe, decide_True).
  destruct (drains (length (flight (readPipe lk r))) (upd_pipe i (other r) p1 m) ds ios now i r size lk1 Hi1 (can_read_set _ _ _ _ Hr))
    as (outs & s' & Hrun' & Hpieces & Ecat); rewrite ?Ep1; [|done|by rewrite R2|].
  { split_and!; [done|by rewrite R4|done|]. rewrite R5. unfold readPipe. by rewrite Epair. }
  rewrite Ep1, R2 in Ecat. exists outs, s'. split; [|split; [done|split; [done|rewrite Ecat; split]]].
  - apply (prog_run_app _ [ETau] (mkSystem (upd_pipe i (other r) p1 m) ds ios)); [|exact Hrun'].
    apply (prun_snoc _ [] _ _ _ (prun_nil _)). by apply (pg_release m ds ios now i lk (other r)).
  - destruct (run_accounted _ _ _ i (other r) _ Hrun eq_refl Hai) as (uss & H1 & H2 & H3). rewrite stream_out_abs in H3.
    exists uss. split; [done|]. by apply H3.
  - intros (Hf & Hk & Hc).
    destruct (run_accounted_plainly _ _ _ i (other r) _ Hrun eq_refl (conj Hf Hk) Hc Hai) as (uss & H1 & H2 & H3).
    rewrite stream_out_abs in H3. rewrite <- (plain_units _ _ H1). by apply H3.
Qed.
End drain.
