(* ===== verification/NetProgramExamples.v ===== *)
(** * A concrete program: a server, a client, data both ways and the end of a
    stream; and the witnesses of the properties of programs *)
From S2P Require Import Prelude GoRuntime Errors Float64 Rand Partition Trace PipeState Faults FaultProps Pipe PipeInv PipeProps.
From S2P Require Import Deadline Options Conn ConnProps ConnRace NetIP Addr Addressing Replay Directions Listener Network NetworkInv.
From S2P Require Import NetworkExamples DialThreads DialSystem Ends SystemProps SystemExamples.
From S2P Require Import NetSpec NetSpecProps NetTrace NetLedger NetSystem NetAbstract NetRefine NetSim NetProgram NetDrain.

(** ** Executable programs *)

Inductive command : Type :=
| CListen (network laddr : string)
| CCloseListener (id : nat)
| CAccept (id : nat)
| CDial (ctx : context) (network dialAddr : string)
| CThread (j : nat)                      (** dial [j] runs one section *)
| CRead (c : connRef) (size : nat)
| CWrite (c : connRef) (data : list Z)
| CIo (j : nat)                          (** call [j] takes one step *)
| CClose (c : connRef)
| CPartition (a b : string)
| CHeal (a b : string)
| CReset (a b : string).

Section execution.
Context {Src : Type} `{!DrawSource Src} `{!RejectFuel} `{!Platform}.
Implicit Types (n : Network Src) (lk : link Src).

Definition roomy (t : ioThread) n : bool :=
  match io_call t with
  | ReadCall _ _ => true
  | WriteCall data _ =>
      (zlen data <? 100) &&
      match n_conns n !! fst (io_ref t) with
      | Some lk => match p_trace (writePipe lk (snd (io_ref t))) with Some tr => zlen tr <? 100 | None => true end
      | None => true
      end
  end.

Lemma roomy_ok t n : roomy t n = true -> io_room t n.
Proof.
  unfold roomy, io_room. destruct (io_call t) as [|data pc]; [done|]. intros [Hl Hr]%andb_true_iff. split; [apply Z.ltb_lt in Hl; lia|].
  intros lk Hi tr Htr. rewrite Hi, Htr in Hr. apply Z.ltb_lt in Hr. lia.
Qed.

Definition exec (now : Time) (c : command) (s : system Src) : option (event * system Src) :=
  let '(mkSystem n ds ios) := s in
  match c with
  | CListen network laddr =>
      match Listen network laddr n with
      | Ret (r, n') => Some (EListen network laddr r, mkSystem n' ds ios)
      | _ => None
      end
  | CCloseListener id => Some (ECloseListener id, mkSystem (listenerClose id n) ds ios)
  | CAccept id =>
      match listenerAccept true id n with
      | (Some r, n') => Some (EAccept id r, mkSystem n' ds ios)
      | _ => None
      end
  | CDial ctx network a => Some (EDial ctx network a, mkSystem n (ds ++ [startDial ctx network a]) ios)
  | CThread j =>
      match ds !! j with
      | Some d =>
          if n_nextOrdinal n + 1 <? 2 ^ 64 then
            match threadStep true (fun l => l) now d n with
            | Ret (d', n') => Some (dial_event j (dt_pc d) (dt_pc d'), mkSystem n' (<[j := d']> ds) ios)
            | _ => None
            end
          else None
      | None => None
      end
  | CRead c size => match n_conns n !! fst c with Some _ => Some (ETau, mkSystem n ds (ios ++ [startRead c size])) | None => None end
  | CWrite c data => match n_conns n !! fst c with Some _ => Some (ETau, mkSystem n ds (ios ++ [startWrite c data])) | None => None end
  | CIo j =>
      match ios !! j with
      | Some t =>
          if roomy t n then
            match ioStep now t n with
            | Ret (t', n') => Some (io_event now t t', mkSystem n' ds (<[j := t']> ios))
            | _ => None
            end
          else None
      | None => None
      end
  | CClose c => Some (EClose c, mkSystem (connClose c n) ds ios)
  | CPartition a b => match Partition a b n with Ret n' => Some (EPartition a b, mkSystem n' ds ios) | _ => None end
  | CHeal a b => match Heal a b n with Ret n' => Some (EHeal a b, mkSystem n' ds ios) | _ => None end
  | CReset a b => match Reset a b n with Ret n' => Some (EReset a b, mkSystem n' ds ios) | _ => None end
  end.

(** The commands in turn, the clock at 0. *)
Fixpoint execs (cs : list command) (s : system Src) : option (list event * system Src) :=
  match cs with
  | [] => Some ([], s)
  | c :: cs =>
      match exec 0 c s with
      | Some (ev, s) => match execs cs s with Some (evs, s) => Some (ev :: evs, s) | None => None end
      | None => None
      end
  end.

Lemma exec_step now c s ev s' : exec now c s = Some (ev, s') -> prog_step s ev s'.
Proof.
  destruct s as [n ds ios]. destruct c; cbn [exec].
  - destruct (Listen network laddr n) as [[r n']| |] eqn:E; intros [= <- <-]. by apply pg_listen.
  - intros [= <- <-]. apply pg_close_listener.
  - destruct (listenerAccept true id n) as [[r|] n'] eqn:E; intros [= <- <-]. by apply (pg_accept n ds ios true).
  - intros [= <- <-]. apply pg_dial.
  - destruct (ds !! j) as [d|] eqn:Hj; [|done]. destruct (Z.ltb_spec (n_nextOrdinal n + 1) (2 ^ 64)); [|done].
    destruct (threadStep true (fun l => l) now d n) as [[d' n']| |] eqn:E; intros [= <- <-].
    by apply (pg_thread n ds ios j d true (fun l => l) now d' n').
  - destruct (n_conns n !! fst c) eqn:E; intros [= <- <-]. apply pg_call_read. by rewrite E.
  - destruct (n_conns n !! fst c) eqn:E; intros [= <- <-]. apply pg_call_write. by rewrite E.
  - destruct (ios !! j) as [t|] eqn:Hj; [|done]. destruct (roomy t n) eqn:Hr; [|done].
    destruct (ioStep now t n) as [[t' n']| |] eqn:E; intros [= <- <-]. apply (pg_io n ds ios j t now t' n'); [done|by apply roomy_ok|done].
  - intros [= <- <-]. apply pg_close.
  - destruct (Partition a b n) as [n'| |] eqn:E; intros [= <- <-]. by apply pg_partition.
  - destruct (Heal a b n) as [n'| |] eqn:E; intros [= <- <-]. by apply pg_heal.
  - destruct (Reset a b n) as [n'| |] eqn:E; intros [= <- <-]. by apply pg_reset.
Qed.

Lemma prog_run_cons s ev s1 evs s2 : prog_step s ev s1 -> prog_run s1 evs s2 -> prog_run s (ev :: evs) s2.
Proof.
  intros Hst Hrun. revert s Hst. induction Hrun as [s1|s1 evs s2 ev' s3 _ IH Hst']; intros s Hst.
  - apply (prun_snoc s [] s ev s1); [apply prun_nil|done].
  - eapply (prun_snoc s (ev :: evs)); [by apply IH|done].
Qed.

Lemma execs_run cs s evs s' : execs cs s = Some (evs, s') -> prog_run s evs s'.
Proof.
  revert s evs. induction cs as [|c cs IH]; intros s evs; cbn [execs]; [intros [= <- <-]; apply prun_nil|].
  destruct (exec 0 c s) as [[ev s1]|] eqn:E; [|done]. destruct (execs cs s1) as [[evs1 s2]|] eqn:E2; [|done]. intros [= <- <-].
  eapply prog_run_cons; [by eapply exec_step|by apply IH].
Qed.
End execution.

(** ** The program *)

#[local] Existing Instances example_platform example_fuel.

Definition call (c : command) (j : nat) : list command := c :: replicate 5 (CIo j).

(** A server with room for two, two dials in turn, and what is written on the
    connection of the second, which was made first. *)
Definition demo_start : list command :=
  [CListen "tcp" "server:80"; CDial Background "tcp" "server:80"; CDial Background "tcp" "server:80"] ++
  map CThread [0; 0; 0; 0; 0; 1; 1; 1; 1; 1; 1; 1; 0; 0; 1; 0; 1; 0; 1; 0; 1]%nat ++ [CAccept 0; CAccept 0] ++
  call (CWrite (0%nat, sideDialer) [1; 2; 3]) 0 ++ call (CRead (0%nat, sideAcceptor) 2) 1 ++
  [CClose (0%nat, sideDialer)].
Definition demo_commands : list command :=
  demo_start ++ call (CRead (0%nat, sideAcceptor) 2) 2 ++ call (CRead (0%nat, sideAcceptor) 2) 3 ++ [CIo 3].

Definition demo : option (list event * system unit) := execs demo_commands (mkSystem race_new [] []).
Definition demo_trace : list event := default [] (fst <$> demo).
Definition demo_system : system unit := default (mkSystem race_new [] []) (snd <$> demo).

(** Where the client has just closed: three bytes written, two read. *)
Definition demo_closed : option (list event * system unit) := execs demo_start (mkSystem race_new [] []).
Definition closed_trace : list event := default [] (fst <$> demo_closed).
Definition closed_system : system unit := default (mkSystem race_new [] []) (snd <$> demo_closed).

(** The third Read then returns the end of the stream. *)
Definition demo_eof : event := ERead 0 (0%nat, sideAcceptor) 2 (Got [] (Some EOF)).
Definition demo_end : system unit := default demo_system (snd <$> exec 0 (CIo 3) demo_system).

Definition visible (ev : event) : bool := match ev with ETau => false | _ => true end.

Lemma demo_program : program race_options race_new demo_trace demo_system.
Proof.
  split; [exact race_typed|]. split; [vm_compute; reflexivity|]. apply (execs_run demo_commands). vm_compute. reflexivity.
Qed.

Lemma demo_ended : program race_options race_new (demo_trace ++ [demo_eof]) demo_end.
Proof.
  destruct demo_program as (H1 & H2 & H3). split; [exact H1|]. split; [exact H2|]. eapply prun_snoc; [exact H3|].
  apply (exec_step 0 (CIo 3)). vm_compute. reflexivity.
Qed.

Lemma demo_undisturbed : undisturbed race_new demo_trace.
Proof. split; [vm_compute; repeat split|]. split; [vm_compute; reflexivity|]. vm_compute. repeat constructor. Qed.

Lemma demo_conn : exists lk, n_conns (sy_net demo_end) !! 0%nat = Some lk /\ c_closed (end_of lk sideAcceptor) = false.
Proof.
  assert ((fun lk => c_closed (end_of lk sideAcceptor)) <$> n_conns (sy_net demo_end) !! 0%nat = Some false) as E by (vm_compute; reflexivity).
  destruct (n_conns (sy_net demo_end) !! 0%nat) as [lk|]; [|discriminate E]. exists lk. split; [reflexivity|]. injection E. exact (fun x => x).
Qed.

Lemma closed_program : program race_options race_new closed_trace closed_system.
Proof.
  split; [exact race_typed|]. split; [vm_compute; reflexivity|]. apply (execs_run demo_start). vm_compute. reflexivity.
Qed.

(** ** Witnesses *)


Lemma program_streams_witness :
  exists lk, n_conns (sy_net demo_end) !! 0%nat = Some lk /\
    received (0%nat, sideDialer) (demo_trace ++ [demo_eof]) = [1; 2; 3] /\
    received (0%nat, sideDialer) (demo_trace ++ [demo_eof]) `prefix_of` concat (sent (0%nat, sideDialer) (demo_trace ++ [demo_eof])).
Proof.
  destruct demo_conn as (lk & Hi & _). exists lk. split; [exact Hi|]. split; [vm_compute; reflexivity|].
  assert (undisturbed race_new (demo_trace ++ [demo_eof])) as Hu.
  { destruct demo_undisturbed as (H1 & H2 & H3). split; [exact H1|]. split; [exact H2|]. apply Forall_app. split; [exact H3|]. repeat constructor. }
  exact (proj1 (proj2 (program_streams race_options race_new _ demo_end 0%nat sideDialer lk demo_ended Hi) Hu)).
Defined.

Lemma eof_means_all_witness :
  received (0%nat, sideDialer) demo_trace = concat (sent (0%nat, sideDialer) demo_trace) /\
  sent (0%nat, sideDialer) demo_trace = [[1; 2; 3]].
Proof.
  split; [|vm_compute; reflexivity]. destruct demo_conn as (lk & Hi & Ho).
  exact (proj2 (proj2 (proj2 (eof_means_all race_options race_new demo_trace 0 0%nat sideAcceptor 2 [] demo_end lk demo_ended Hi Ho)))
    demo_undisturbed).
Defined.

Lemma handed_out_once_witness :
  dialed demo_trace = [0; 1]%nat /\ accepted demo_trace = [(0%nat, (0%nat, sideAcceptor)); (0%nat, (1%nat, sideAcceptor))] /\
  NoDup (dialed demo_trace) /\ NoDup (map snd (accepted demo_trace)).
Proof.
  split; [vm_compute; reflexivity|]. split; [vm_compute; reflexivity|].
  destruct (handed_out_once race_options race_new demo_trace demo_system demo_program) as (H1 & H2 & _). exact (conj H1 H2).
Defined.

(** With a buffer of one byte or more: the byte that is left, then the end. *)
Lemma stream_finishes_witness :
  exists outs s', prog_run closed_system
      (ETau :: concat (map (read_events 0 0%nat sideAcceptor 5) outs) ++ eof_events 0 0%nat sideAcceptor 5) s' /\ concat outs = [3].
Proof.
  set (facts (lk : link unit) := (c_closed (end_of lk sideAcceptor), c_reset (end_of lk sideAcceptor), dl_t (c_rd (end_of lk sideAcceptor)),
    c_closed (end_of lk sideDialer), p_pending (readPipe lk sideAcceptor), flight (readPipe lk sideAcceptor))).
  assert (facts <$> n_conns (sy_net closed_system) !! 0%nat = Some (false, false, 0, true, [], [3])) as E by (vm_compute; reflexivity).
  assert (partitions (n_part (sy_net closed_system)) = ∅) as Ep by (vm_compute; reflexivity).
  apply fmap_Some in E as (lk & Hi & E). unfold facts in E. injection E as E1 E2 E3 E4 E5 E6.
  assert (isPartitioned (n_part (sy_net closed_system)) (c_pair (end_of lk sideDialer)) = false) as Eg
    by (unfold isPartitioned; rewrite Ep; apply bool_decide_eq_false_2; apply not_elem_of_empty).
  destruct (stream_finishes race_options race_new closed_trace closed_system 0 0%nat sideAcceptor lk 5 closed_program Hi
    (conj (eq_sym E1) (conj (eq_sym E2) (eq_sym E3))) (eq_sym E4) Eg ltac:(lia) ltac:(rewrite <- E5; constructor)) as (outs & s' & Hrun & _ & Hcat & _).
  exists outs, s'. split; [exact Hrun|]. rewrite Hcat. exact (eq_sym E6).
Defined.
