(* ===== verification/NetCalls.v ===== *)
(** * The calls of a Network, cut at their locked sections

    [conn.Close], [listener.Close], [Partition], [Heal] and [Reset] take several
    locks one after the other. Here each is a thread with the actions it has
    left, and a system is a Network, the dials made in it and these threads, all
    interleaved with every other section. *)
From S2P Require Import Prelude GoRuntime Errors Float64 Rand Partition Trace PipeState Faults FaultProps Pipe.
From S2P Require Import PipeInv Deadline Options Conn ConnProps ConnRace NetIP NetIPProps NetIP6 Addr Addressing.
From S2P Require Import Replay Directions Listener Network NetworkInv NetworkFrame DialThreads DialSystem.

(** ** Actions *)

(** The calls on a pair of peers. *)
Inductive pairCall : Type := PartitionPair | HealPair | ResetPair.

(** One locked section, or one operation of a channel. *)
Inductive netAction : Type :=
| OnConn (i : nat) (a : action)                      (** an action on connection [i], as in [ConnRace] *)
| MarkClosed (id : nat)                              (** [l.mu.Lock()], [closed], [close(l.closedCh)] *)
| Deregister (id : nat)                              (** [l.n.deregister(l.addr)], [l.mu.Unlock()] *)
| DrainQueue (id : nat)                              (** a round of the loop of [listener.Close] *)
| NameFirst (f : pairCall) (a b : string)            (** [n.canonicalPeer(peerName(peerA))] *)
| NameSecond (f : pairCall) (pa b : string)
| ApplyPair (f : pairCall) (k : pairKey).

#[global] Instance connSide_eq_dec : EqDecision connSide.
Proof. solve_decision. Defined.
#[global] Instance action_eq_dec : EqDecision action.
Proof. solve_decision. Defined.
#[global] Instance pairCall_eq_dec : EqDecision pairCall.
Proof. solve_decision. Defined.
#[global] Instance pairKey_eq_dec : EqDecision pairKey.
Proof. solve_decision. Defined.
#[global] Instance netAction_eq_dec : EqDecision netAction.
Proof. solve_decision. Defined.

Definition signalAction (c : connRef) : netAction := OnConn (fst c) (DoSignal (snd c)).
Definition abortAction (c : connRef) : netAction := OnConn (fst c) (DoAbort (snd c)).

(** The two loops of [Reset]: [abortReset] aborts the pipe an end writes, then the
    one it reads. *)
Definition abortTargets (targets : list connRef) : list connRef :=
  concat (map (fun c => [c; (fst c, other (snd c))]) targets).

Definition resetActions (targets : list connRef) : list netAction :=
  map signalAction targets ++ map abortAction (abortTargets targets).

(** The body of [closeOnce.Do] after [close(c.closed)]. *)
Definition closeActions (c : connRef) : list netAction := map (OnConn (fst c)) (tail (closeProgram (snd c))).

Section calls.
Context {Src : Type} `{!DrawSource Src} `{!RejectFuel} `{!Platform}.
Implicit Types (n : Network Src) (lk : link Src) (c : connRef).

(** The actions an action leads to, and the Network after it. *)
Definition runOnConn (i : nat) (a : action) n : list netAction * Network Src :=
  match a with
  | DoClosed s =>
      match n_conns n !! i with
      | Some lk =>
          if c_closed (end_of lk s) then ([], n)
          else (closeActions (i, s), upd_conn i (upd_end s (fun e => set_c_closed e true)) n)
      | None => ([], n)
      end
  | DoDeregister s =>
      match n_conns n !! i with
      | Some lk => ([], if c_nw (end_of lk s) then deregisterReset (c_pair (end_of lk s)) (i, s) n else n)
      | None => ([], n)
      end
  | DoCloseWrite s => ([], upd_conn i (upd_writePipe s close) n)
  | DoAbort w => ([], upd_conn i (upd_writePipe w abort) n)
  | DoStopRead s => ([], upd_conn i (upd_end s (fun e => set_c_rd e (stop (c_rd e)))) n)
  | DoStopWrite s => ([], upd_conn i (upd_end s (fun e => set_c_wd e (stop (c_wd e)))) n)
  | DoTake => ([], n)
  | DoSignal s => ([], upd_conn i (signalReset s) n)
  end.

Definition applyPair (f : pairCall) (k : pairKey) n : list netAction * Network Src :=
  match f with
  | PartitionPair => ([], set_part n (partition_pair k (n_part n)))
  | HealPair => ([], set_part n (heal_pair k (n_part n)))
  | ResetPair => (resetActions (default [] (n_resetTargets n !! k)), set_resetTargets n (delete k (n_resetTargets n)))
  end.

Definition runNetAction (a : netAction) n : list netAction * Network Src :=
  match a with
  | OnConn i a => runOnConn i a n
  | MarkClosed id =>
      match n_heap n !! id with
      | Some l =>
          let '(first, l) := closeMark l in
          if first then ([Deregister id; DrainQueue id], set_heap n (<[id := l]> (n_heap n))) else ([], n)
      | None => ([], n)
      end
  | Deregister id =>
      match n_heap n !! id with Some l => ([], deregister (l_addr l) n) | None => ([], n) end
  | DrainQueue id =>
      match n_heap n !! id with
      | Some l =>
          match drainOne l with
          | (Some c, l) => ([OnConn (fst c) (DoClosed (snd c)); DrainQueue id], set_heap n (<[id := l]> (n_heap n)))
          | (None, _) => ([], n)
          end
      | None => ([], n)
      end
  | NameFirst f a b => let '(pa, n) := resolvePeer a n in ([NameSecond f pa b], n)
  | NameSecond f pa b => let '(pb, n) := resolvePeer b n in ([ApplyPair f (newPairKey pa pb)], n)
  | ApplyPair f k => applyPair f k n
  end.

(** ** Calls *)

Inductive publicCall : Type :=
| CloseConn (c : connRef)
| CloseListener (id : nat)
| CallPair (f : pairCall) (a b : string).

Definition callProgram (p : publicCall) : list netAction :=
  match p with
  | CloseConn c => [OnConn (fst c) (DoClosed (snd c))]
  | CloseListener id => [MarkClosed id]
  | CallPair f a b => [NameFirst f a b]
  end.

Definition pairCallName (f : pairCall) : string :=
  match f with PartitionPair => "Partition" | HealPair => "Heal" | ResetPair => "Reset" end.

(** The check that precedes the first section, and panics. *)
Definition callAllowed (p : publicCall) : Prop :=
  match p with CallPair f a b => validatePartitionPair (pairCallName f) (mkPartitionPair a b) = Ret tt | _ => True end.

(** The call with nothing in between. *)
Definition callWhole (p : publicCall) n : go (Network Src) :=
  match p with
  | CloseConn c => Ret (connClose c n)
  | CloseListener id => Ret (listenerClose id n)
  | CallPair PartitionPair a b => Partition a b n
  | CallPair HealPair a b => Heal a b n
  | CallPair ResetPair a b => Reset a b n
  end.

(** A call in progress, the dial that waits for it if there is one, and what it
    has left. *)
Record callThread : Type := mkCallThread {
  ct_for : option nat;
  ct_acts : list netAction
}.

Record callSys : Type := mkCallSys {
  cs_net : Network Src;
  cs_dials : list dialThread;
  cs_calls : list callThread
}.

(** Inside the once of the Close of [c]; holding the lock of listener [id]. *)
Definition inOnce c (t : callThread) : bool := bool_decide (OnConn (fst c) (DoStopWrite (snd c)) ∈ ct_acts t).
Definition holdsLock (id : nat) (t : callThread) : bool := bool_decide (Deregister id ∈ ct_acts t).

(** A Close waits for the one that runs the once; a Close of a listener for its
    lock. *)
Definition ready (a : netAction) (calls : list callThread) : bool :=
  match a with
  | OnConn i (DoClosed s) => negb (existsb (inOnce (i, s)) calls)
  | MarkClosed id => negb (existsb (holdsLock id) calls)
  | _ => true
  end.

(** The next action of call [k]. *)
Definition callStep (k : nat) (s : callSys) : option callSys :=
  match cs_calls s !! k with
  | Some (mkCallThread w (a :: acts)) =>
      if ready a (cs_calls s) then
        let '(new, n) := runNetAction a (cs_net s) in
        Some (mkCallSys n (cs_dials s) (<[k := mkCallThread w (new ++ acts)]> (cs_calls s)))
      else None
  | _ => None
  end.

(** [reserve] and [fill] take the lock of their listener. *)
Definition dialReady (pc : dialPC) (calls : list callThread) : bool :=
  match pc with
  | Reserving _ id | HandingOff id _ => negb (existsb (holdsLock id) calls)
  | ClosingOff _ => false
  | _ => true
  end.

Inductive calls_step : callSys -> callSys -> Prop :=
| cs_section n n' ds calls : section_step n n' -> calls_step (mkCallSys n ds calls) (mkCallSys n' ds calls)
| cs_dial n ds calls ctx network a : calls_step (mkCallSys n ds calls) (mkCallSys n (ds ++ [startDial ctx network a]) calls)
| cs_thread n ds calls j d pref pick now d' n' :
    ds !! j = Some d -> dialReady (dt_pc d) calls = true -> (forall l, pick l ≡ₚ l) -> n_nextOrdinal n + 1 < 2 ^ 64 ->
    threadStep pref pick now d n = Ret (d', n') -> calls_step (mkCallSys n ds calls) (mkCallSys n' (<[j := d']> ds) calls)
| cs_closeOff n ds calls j d i :                       (** [fill] closes the connection: [c.Close()] *)
    ds !! j = Some d -> dt_pc d = ClosingOff i -> Forall (fun t => ct_for t <> Some j) calls ->
    calls_step (mkCallSys n ds calls) (mkCallSys n ds (calls ++ [mkCallThread (Some j) (callProgram (CloseConn (i, sideAcceptor)))]))
| cs_closedOff n ds calls j d i k :                    (** and the dial returns *)
    ds !! j = Some d -> dt_pc d = ClosingOff i -> calls !! k = Some (mkCallThread (Some j) []) ->
    calls_step (mkCallSys n ds calls) (mkCallSys n (<[j := set_pc d (Connected i)]> ds) calls)
| cs_start n ds calls p :
    callAllowed p -> calls_step (mkCallSys n ds calls) (mkCallSys n ds (calls ++ [mkCallThread None (callProgram p)]))
| cs_run s k s' : callStep k s = Some s' -> calls_step s s'.

(** What a Network leads to, from [NewNetwork] on. *)
Definition calls_reachable (s : callSys) : Prop :=
  exists vs n, Forall option_typed vs /\ NewNetwork (map (fun o => Some (optionOf o)) vs) = Ret n /\
    rtc calls_step (mkCallSys n [] []) s.

(** No call is in progress. *)
Definition calls_over (s : callSys) : Prop := Forall (fun t => ct_acts t = []) (cs_calls s).
End calls.

Arguments callSys Src : clear implicits.
