(* ===== verification/CallsFrame.v ===== *)
(** * What sections leave of the ends, the pipes and the registry

    Between the actions of a cut call every other section of the Network can run:
    none of them closes or resets an end, closes or aborts a pipe, or touches the
    registry but to enter a new connection. *)
From S2P Require Import Prelude GoRuntime Errors Float64 Rand Partition Trace PipeState Faults FaultProps Pipe.
From S2P Require Import PipeInv Deadline Options Conn ConnProps ConnRace NetIP NetIPProps NetIP6 Addr Addressing.
From S2P Require Import Replay Directions Listener Network NetworkInv NetworkFrame NetworkListen NetworkDial DialThreads DialSystem NetCalls.

Section frame.
Context {Src : Type} `{!DrawSource Src} `{!RejectFuel} `{!Platform}.
Implicit Types (n : Network Src) (lk : link Src) (c : connRef).
Context {P : pending}.

(** ** The marks of a connection *)

Definition same_flags lk lk' : Prop :=
  forall s, c_closed (end_of lk' s) = c_closed (end_of lk s) /\ c_reset (end_of lk' s) = c_reset (end_of lk s) /\
    same_marks (writePipe lk s) (writePipe lk' s).

Lemma same_flags_refl lk : same_flags lk lk.
Proof. by intros s. Qed.

Lemma same_flags_trans lk1 lk2 lk3 : same_flags lk1 lk2 -> same_flags lk2 lk3 -> same_flags lk1 lk3.
Proof. intros A B s. destruct (A s) as (A1 & A2 & A3 & A4), (B s) as (B1 & B2 & B3 & B4). unfold same_marks. split_and!; congruence. Qed.

Lemma set_writePipe_flags lk w p : same_marks (writePipe lk w) p -> same_flags lk (set_writePipe lk w p).
Proof.
  intros Hp s. rewrite end_of_set_writePipe, writePipe_set_writePipe. split_and!; [done..|].
  by destruct (decide (s = w)) as [->|].
Qed.

Lemma upd_end_flags s f lk :
  (forall e, c_closed (f e) = c_closed e /\ c_reset (f e) = c_reset e) -> same_flags lk (upd_end s f lk).
Proof.
  intros Hf e. unfold upd_end. rewrite end_of_set_end, writePipe_set_end.
  destruct (decide (e = s)) as [->|]; [|done]. by destruct (Hf (end_of lk s)) as [-> ->].
Qed.

#[local] Hint Resolve same_flags_refl set_writePipe_flags upd_end_flags : core.

Lemma readLoop_flags k v size s pc lk pc' lk' : readLoop k v size s pc lk = (pc', lk') -> same_flags lk lk'.
Proof.
  revert pc lk. induction k as [|k IH]; intros pc lk; cbn [readLoop]; [by intros [= _ <-]|].
  destruct (Conn.settled pc); [by intros [= _ <-]|].
  destruct (readStep v size s pc lk) as [pc1 lk1] eqn:Es. intros E%IH. eapply same_flags_trans; [|exact E].
  destruct pc; cbn [readStep] in Es; try (by injection Es as _ <-).
  destruct (tryRead v (readPipe lk s) size) as [r p] eqn:Et. injection Es as _ <-. apply set_writePipe_flags. by eapply tryRead_marks.
Qed.

Lemma writeLoop_flags k v data s pc lk pc' lk' :
  zlen data < 2 ^ 63 -> writeLoop k v data s pc lk = Ret (pc', lk') -> same_flags lk lk'.
Proof.
  intros Hlen. revert pc lk. induction k as [|k IH]; intros pc lk; cbn [writeLoop]; [by intros [= _ <-]|].
  destruct (Conn.settled pc); [by intros [= _ <-]|].
  intros ([pc1 lk1] & Es & E%IH)%go_bind_ret. eapply same_flags_trans; [|exact E].
  destruct pc; cbn [writeStep] in Es; try (by injection Es as _ <-).
  apply go_bind_ret in Es as ([r p] & Et & Es). injection Es as _ <-. apply set_writePipe_flags. by eapply tryWrite_marks.
Qed.

Lemma io_step_flags lk lk' : io_step lk lk' -> same_flags lk lk'.
Proof.
  intros Hst. destruct Hst as [lk w l p' H1 H2 Hst|lk now t s|lk now t s|lk now t s|lk s|lk s]; auto.
  - apply set_writePipe_flags. by eapply pipe_step_flags.
  - unfold SetDeadline. destruct (c_closed _); cbn [snd]; [done|]. eapply same_flags_trans; apply upd_end_flags; done.
  - unfold SetReadDeadline. destruct (c_closed _); cbn [snd]; [done|]. by apply upd_end_flags.
  - unfold SetWriteDeadline. destruct (c_closed _); cbn [snd]; [done|]. by apply upd_end_flags.
Qed.

(** A connection as it is made. *)
Definition fresh_flags lk : Prop :=
  forall s, c_closed (end_of lk s) = false /\ c_reset (end_of lk s) = false /\
    p_closed (writePipe lk s) = false /\ p_readClosed (writePipe lk s) = false.

Lemma dialPair_fresh local remote ordinal network pair n : fresh_flags (dialPair local remote ordinal network pair n).
Proof.
  assert (forall side, p_closed (wirePipe (n_seed n) ordinal side (n_traceEnabled n) (newPipe (n_pipeBound n))) = false /\
    p_readClosed (wirePipe (n_seed n) ordinal side (n_traceEnabled n) (newPipe (n_pipeBound n))) = false) as Hp
    by (intros side; unfold wirePipe; by destruct (n_traceEnabled n)).
  intros s. pose proof (dialPair_ends local remote ordinal network pair n s) as Hf. cbn zeta in Hf.
  split; [apply Hf|]. split; [apply Hf|]. destruct s; apply Hp.
Qed.

(** ** Sections *)

(** Listeners stay closed, and nothing enters the queue of a closed one. *)
Definition shrinks (heap heap' : list (listener connRef)) : Prop :=
  forall id l, heap !! id = Some l -> l_closed l = true ->
    exists l', heap' !! id = Some l' /\ l_closed l' = true /\ (length (l_incoming l') <= length (l_incoming l))%nat.

Lemma shrinks_refl heap : shrinks heap heap.
Proof. intros id l Hi Hc. by exists l. Qed.

#[local] Hint Resolve shrinks_refl : core.

Lemma shrinks_update heap (id : nat) l l' :
  heap !! id = Some l -> (l_closed l = true -> l_closed l' = true /\ (length (l_incoming l') <= length (l_incoming l))%nat) ->
  shrinks heap (<[id := l']> heap).
Proof.
  intros Hi Hc j l0 Hj Hcl. destruct (decide (id = j)) as [<-|Hne].
  - exists l'. rewrite list_lookup_insert_eq by (by eapply lookup_lt_Some). assert (l0 = l) as -> by congruence. split; [done|]. auto.
  - exists l0. by rewrite list_lookup_insert_ne.
Qed.

Record quiet n n' : Prop := {
  qu_conns : forall i lk, n_conns n !! i = Some lk -> exists lk', n_conns n' !! i = Some lk' /\ same_flags lk lk';
  qu_new : forall i lk', n_conns n !! i = None -> n_conns n' !! i = Some lk' -> fresh_flags lk';
  qu_targets : forall k c, c ∈ targets (n_resetTargets n') k ->
    c ∈ targets (n_resetTargets n) k \/ n_conns n !! fst c = None /\ (fst c, other (snd c)) ∈ targets (n_resetTargets n') k;
  qu_kept : forall k c, c ∈ targets (n_resetTargets n) k -> c ∈ targets (n_resetTargets n') k;
  qu_heap : shrinks (n_heap n) (n_heap n')
}.

(** A section that makes no connection. *)
Lemma quiet_same n n' :
  n_resetTargets n' = n_resetTargets n ->
  (forall i, option_Forall2 same_flags (n_conns n !! i) (n_conns n' !! i)) -> shrinks (n_heap n) (n_heap n') -> quiet n n'.
Proof.
  intros Et Hc Hs. split; [..|done].
  - intros i lk Hi. specialize (Hc i). rewrite Hi in Hc. inversion Hc as [x y Hf E1 E2|]; subst. by exists y.
  - intros i lk' Hi Hi'. specialize (Hc i). rewrite Hi, Hi' in Hc. inversion Hc.
  - intros k c. rewrite Et. by left.
  - intros k c. by rewrite Et.
Qed.

Lemma conns_same (conns : list (link Src)) : forall i : nat, option_Forall2 same_flags (conns !! i) (conns !! i).
Proof. intros i. destruct (conns !! i); constructor. apply same_flags_refl. Qed.

Lemma conns_update (conns : list (link Src)) (j : nat) lk lk' :
  conns !! j = Some lk -> same_flags lk lk' -> forall i : nat, option_Forall2 same_flags (conns !! i) (<[j := lk']> conns !! i).
Proof.
  intros Hj Hf i. destruct (decide (j = i)) as [<-|Hne].
  - rewrite list_lookup_insert_eq, Hj by (by eapply lookup_lt_Some). by constructor.
  - rewrite list_lookup_insert_ne by done. apply conns_same.
Qed.

Lemma quiet_tables n n' : n_resetTargets n' = n_resetTargets n -> n_conns n' = n_conns n -> shrinks (n_heap n) (n_heap n') -> quiet n n'.
Proof. intros Et Ec Hs. apply quiet_same; [done| |done]. rewrite Ec. apply conns_same. Qed.

Lemma quiet_update n (i : nat) lk lk' : n_conns n !! i = Some lk -> same_flags lk lk' -> quiet n (set_conns n (<[i := lk']> (n_conns n))).
Proof. intros Hi Hf. apply quiet_same; [done|by apply (conns_update _ _ lk)|apply shrinks_refl]. Qed.

Lemma quiet_pipe n (i : nat) lk w p : n_conns n !! i = Some lk -> same_marks (writePipe lk w) p -> quiet n (upd_pipe i w p n).
Proof.
  intros Hi Hp. unfold upd_pipe, upd_conn. rewrite (alter_insert _ _ _ lk) by done.
  apply (quiet_update n i lk); [done|by apply set_writePipe_flags].
Qed.

Lemma untouched_quiet n : quiet n n.
Proof. apply quiet_tables; [done|done|apply shrinks_refl]. Qed.

Definition listens n n' : Prop :=
  n_resetTargets n' = n_resetTargets n /\ n_conns n' = n_conns n /\ exists new, n_heap n' = n_heap n ++ new.

Lemma listenRegister_registry network laddr peer port n r n' :
  listenRegister network laddr peer port n = Ret (r, n') -> listens n n'.
Proof.
  unfold listenRegister, listens. destruct (listenerAt n peer port).
  - intros [= _ <-]. split_and!; [done..|]. exists []. by rewrite app_nil_r.
  - intros ([q book] & _ & E)%go_bind_ret. destruct q; injection E as _ <-; (split_and!; [done..|]); [by eexists|exists []; by rewrite app_nil_r].
Qed.

Lemma Listen_registry network laddr n r n' : Listen network laddr n = Ret (r, n') -> listens n n'.
Proof.
  assert (listens n n) as Hn by (split_and!; [done..|]; exists []; by rewrite app_nil_r).
  unfold Listen. destruct (validateNetwork network); [by intros [= _ <-]|].
  destruct (splitAddr laddr) as [[[peer port] explicit]|err]; [|by intros [= _ <-]].
  set (pn := if String.eqb peer "" then _ else _).
  assert (exists peer1 n1, pn = (peer1, n1) /\ n_resetTargets n1 = n_resetTargets n /\ n_conns n1 = n_conns n /\ n_heap n1 = n_heap n)
    as (peer1 & n1 & -> & E1 & E2 & E3) by (unfold pn; destruct (String.eqb peer ""); do 2 eexists; split_and!; done).
  unfold listens in *. rewrite <- E1, <- E2, <- E3 in *. clear E1 E2 E3.
  cbv beta iota zeta. destruct (match parseLiteralIP peer1 with Some _ => _ | None => _ end); [by intros [= _ <-]|].
  destruct (canonicalPeerLocked peer1 (n_book n1)) as [peer2 book].
  destruct (listenPort peer2 port explicit (set_book n1 book)) as [port2 n2] eqn:Ep.
  assert (n_resetTargets n2 = n_resetTargets n1 /\ n_conns n2 = n_conns n1 /\ n_heap n2 = n_heap n1) as (<- & <- & <-).
  { unfold listenPort in Ep. destruct (negb explicit); [|by injection Ep as _ <-].
    destruct (pickPort _ _ _ _ _) as [pt next]. by injection Ep as _ <-. }
  apply listenRegister_registry.
Qed.

Lemma section_quiet n n' : net_okP P n -> section_step n n' -> quiet n n'.
Proof.
  intros Hok Hst. destruct Hst as [n network laddr r n' E|n b id|n now ctx network dialAddr
    |n now c size|n now c data r n' Hlen Hroom E|n now i lk w size Hi|n now i lk w data r p' Hi Hlen Hroom E|n now i lk w Hi
    |n i lk lk' Hi Hio Hp|n min max n' Hm E|n rate n' Hv E|n rate n' Hv E|n rate n' Hv E].
  - destruct (Listen_registry _ _ _ _ _ E) as (E1 & E2 & new & E3). apply quiet_tables; [done..|]. rewrite E3.
    intros id l Hi Hc. exists l. split; [by apply lookup_app_l_Some|done].
  - unfold listenerAccept. destruct (n_heap n !! id) as [l|] eqn:Hi; [|by apply quiet_tables].
    destruct (Accept b l) as [r l'] eqn:Ea. cbn [snd]. apply quiet_tables; [done..|]. apply (shrinks_update _ _ l); [done|].
    unfold Accept in Ea. intros Hc. rewrite Hc in Ea. destruct (l_incoming l) as [|c q] eqn:Eq; cbn in Ea; [injection Ea as _ <-; by rewrite Eq|].
    destruct (negb b); injection Ea as _ <-; cbn; rewrite ?Eq; cbn; (split; [done|lia]).
  - destruct (dialResolve now ctx network dialAddr n) as [r n'] eqn:E. cbn [snd] in *.
    destruct (dialResolve_ok _ _ _ _ _ _ _ Hok E) as (_ & En & _). apply quiet_tables; by rewrite En.
  - unfold connRead. destruct (n_conns n !! fst c) as [lk|] eqn:Ei; [|apply untouched_quiet].
    destruct (Read (viewAt now n) size (snd c) lk) as [pc lk'] eqn:E. apply (quiet_update _ _ lk); [done|]. by eapply readLoop_flags.
  - unfold connWrite in E. destruct (n_conns n !! fst c) as [lk|] eqn:Ei; [|injection E as _ <-; apply untouched_quiet].
    apply go_bind_ret in E as ([pc lk'] & E & Er). injection Er as _ <-. apply (quiet_update _ _ lk); [done|]. by eapply writeLoop_flags.
  - apply (quiet_pipe _ _ lk); [done|]. destruct (tryRead _ _ _) as [r p] eqn:E. by eapply tryRead_marks.
  - apply (quiet_pipe _ _ lk); [done|]. by eapply tryWrite_marks.
  - apply (quiet_pipe _ _ lk); [done|]. apply release_marks.
  - apply (quiet_update _ _ lk); [done|]. by apply io_step_flags.
  - apply go_bind_ret in E as ([] & _ & E). injection E as <-. by apply quiet_tables.
  - apply go_bind_ret in E as ([] & _ & E). injection E as <-. by apply quiet_tables.
  - apply go_bind_ret in E as ([] & _ & E). injection E as <-. by apply quiet_tables.
  - apply go_bind_ret in E as ([] & _ & E). injection E as <-. by apply quiet_tables.
Qed.

(** ** The sections of a dial *)

Lemma publish_quiet pair lk n :
  fresh_flags lk -> quiet n (publish pair lk n).
Proof.
  intros Hf. unfold publish, registerReset. set (i := length (n_conns n)). split; cbn.
  - intros j lk0 Hj. exists lk0. split; [by apply lookup_app_l_Some|apply same_flags_refl].
  - intros j lk' Hj [Hj'|[_ Hj']]%lookup_app_Some; [congruence|]. by apply list_lookup_singleton_Some in Hj' as [_ <-].
  - intros k c. fold (targets (n_resetTargets n) pair). rewrite targets_insert. destruct (decide (k = pair)) as [->|]; [|by left].
    intros [Hc|Hc]%elem_of_app; [by left|right]. assert (fst c = i /\ (i, other (snd c)) ∈ [(i, sideDialer); (i, sideAcceptor)]) as [E Hin].
    { apply elem_of_cons in Hc as [->|Hc%list_elem_of_singleton]; [|subst c]; (split; [done|]); cbn; [right; by left|by left]. }
    split; [apply lookup_ge_None; unfold i in E; lia|]. apply elem_of_app. right. by rewrite E.
  - intros k c Hc. fold (targets (n_resetTargets n) pair). rewrite targets_insert. destruct (decide (k = pair)) as [->|]; [|done].
    apply elem_of_app. by left.
  - apply shrinks_refl.
Qed.

Lemma thread_quiet pref pick now d n d' n' :
  net_okP P n -> (forall i, dt_pc d <> ClosingOff i) -> threadStep pref pick now d n = Ret (d', n') -> quiet n n'.
Proof.
  intros Hok Hn E.
  assert (forall id l l', n_heap n !! id = Some l -> (l_closed l = true -> l_closed l' = true /\ (length (l_incoming l') <= length (l_incoming l))%nat) ->
    quiet n (set_heap n (<[id := l']> (n_heap n)))) as Hheap.
  { intros id l l' Hi Hc. apply quiet_tables; [done..|]. by apply (shrinks_update _ _ l). }
  destruct (dt_pc d) as [|req|req ch|req|req id|req id|req id o|req id o ip|s id i o|id i|id i|i|i|err|id o err] eqn:Ed; at_step E Ed;
    try (injection E as <- <-; by apply quiet_tables).
  - destruct (dialResolve now (dt_ctx d) (dt_network d) (dt_addr d) n) as [r n1] eqn:Er.
    destruct (dialResolve_ok _ _ _ _ _ _ _ Hok Er) as (_ & En & _). destruct r; injection E as <- <-; rewrite En; by apply quiet_tables.
  - destruct (dr_local req); [destruct (checkPartition _ _) as [b ch]|]; injection E as <- <-; apply untouched_quiet.
  - destruct (waitSelect pref now (dt_ctx d) ch n); injection E as <- <-; apply untouched_quiet.
  - destruct (lookupListener _ _ _ _); injection E as <- <-; apply untouched_quiet.
  - apply go_bind_ret in E as (l & Hl & E). destruct (n_heap n !! id) as [l0|] eqn:Hi; [injection Hl as ->|done].
    destruct (reserve l) as [[err|] l'] eqn:Er; injection E as <- <-; [apply untouched_quiet|]. apply (Hheap id l); [done|].
    unfold reserve in Er. destruct (l_closed l) eqn:Ec; done.
  - apply go_bind_ret in E as (l & _ & E). apply go_bind_ret in E as ([r book] & _ & E). destruct r; injection E as <- <-; by apply quiet_tables.
  - apply go_bind_ret in E as (l & _ & E). pose proof (dialPair_fresh (mkAddr (dt_network d) (dialName req o) (ephemeralPort o) (Some ip))
      (mkAddr (dt_network d) (dr_peer req) (addr_port (l_addr l)) (addr_ip (l_addr l))) o (dt_network d) (newPairKey (dialName req o) (dr_peer req)) n) as Hf.
    revert E Hf. generalize (dialPair (mkAddr (dt_network d) (dialName req o) (ephemeralPort o) (Some ip))
      (mkAddr (dt_network d) (dr_peer req) (addr_port (l_addr l)) (addr_ip (l_addr l))) o (dt_network d) (newPairKey (dialName req o) (dr_peer req)) n).
    intros lk E Hf. injection E as _ <-. by apply publish_quiet.
  - apply go_bind_ret in E as (l & Hl & E). destruct (n_heap n !! id) as [l0|] eqn:Hi; [injection Hl as ->|done].
    destruct (fill (i, sideAcceptor) l) as [f l'] eqn:Ef. injection E as <- <-. apply (Hheap id l); [done|].
    unfold fill in Ef. cbn zeta in Ef. intros Hc. cbn in Ef. rewrite Hc in Ef. by injection Ef as _ <-.
  - by destruct (Hn i).
Qed.
End frame.
