(* ===== verification/CallsInv.v ===== *)
(** * The invariant of a Network whose calls are cut

    What the calls in progress have left makes up for what the tables of the
    Network, its connections and its listeners are not yet: [flat_ok] says it of
    the actions left over, taken together, and [call_ok] of the order in which
    each call has them. Every action of a call keeps both. *)
From S2P Require Import Prelude GoRuntime Errors Float64 Rand Partition Trace PipeState Faults FaultProps Pipe.
From S2P Require Import PipeInv Deadline Options Conn ConnProps ConnRace NetIP NetIPProps NetIP6 Addr Addressing.
From S2P Require Import Replay Directions Listener Network NetworkInv NetworkFrame NetworkListen NetworkDial DialThreads DialSystem NetCalls CallsFrame.

(** ** What is left to do *)

Definition endsOf (a : netAction) : list connRef :=
  match a with OnConn i (DoDeregister s) | OnConn i (DoSignal s) => [(i, s)] | _ => [] end.
Definition unlistedOf (a : netAction) : list nat := match a with Deregister id => [id] | _ => [] end.
Definition undrainedOf (a : netAction) : list nat := match a with DrainQueue id => [id] | _ => [] end.

Definition pend_acts (acts : list netAction) : pending :=
  mkPending (concat (map endsOf acts)) (concat (map unlistedOf acts)) (concat (map undrainedOf acts)).

Definition all_acts (calls : list callThread) : list netAction := concat (map ct_acts calls).

(** An action that lets another call go on, and one that never waits itself. *)
Definition releases (a : netAction) : bool :=
  match a with OnConn _ (DoStopWrite _) | Deregister _ => true | _ => false end.
Definition plain (a : netAction) : bool :=
  match a with OnConn _ (DoClosed _) => false | OnConn _ _ | Deregister _ => true | _ => false end.

Section inv.
Context {Src : Type} `{!DrawSource Src} `{!RejectFuel} `{!Platform}.
Implicit Types (n : Network Src) (lk : link Src) (c : connRef) (acts R : list netAction).

Definition closed_end n c : Prop := exists lk, n_conns n !! fst c = Some lk /\ c_closed (end_of lk (snd c)) = true.
Definition ended n c : Prop := exists lk, n_conns n !! fst c = Some lk /\ marked lk (snd c).
Definition closed_listener n (id : nat) : Prop := exists l, n_heap n !! id = Some l /\ l_closed l = true.

(** What holds while an action is left to do. *)
Definition action_ok n (a : netAction) : Prop :=
  match a with
  | OnConn i (DoDeregister s) | OnConn i (DoCloseWrite s) | OnConn i (DoStopRead s) | OnConn i (DoStopWrite s) => closed_end n (i, s)
  | OnConn i (DoSignal s) => is_Some (n_conns n !! i) /\ forall k, (i, s) ∉ targets (n_resetTargets n) k
  | Deregister id | DrainQueue id => closed_listener n id
  | _ => True
  end.

(** A pipe is aborted after its reader closed, or after both ends were marked;
    an end is marked before both its pipes are aborted; and nothing that waits
    comes before what others wait for. *)
Record call_ok n acts : Prop := {
  co_actions : Forall (action_ok n) acts;
  co_abort : forall pre i w post, acts = pre ++ OnConn i (DoAbort w) :: post ->
    closed_end n (i, other w) \/ forall s, ended n (i, s) \/ OnConn i (DoSignal s) ∈ pre;
  co_signal : forall pre i s post w, acts = pre ++ OnConn i (DoSignal s) :: post -> OnConn i (DoAbort w) ∈ post;
  co_tame : forall pre a post, acts = pre ++ a :: post -> releases a = true -> Forall (fun x => plain x = true) pre
}.

(** A closed end has closed the pipe it writes and aborted the one it reads, and
    a reset one has aborted both, or a call is about to. *)
Definition torn lk (left : action -> Prop) : Prop :=
  forall s,
    (c_closed (end_of lk s) = true ->
       (p_closed (writePipe lk s) = true \/ left (DoCloseWrite s)) /\
       (p_readClosed (writePipe lk (other s)) = true \/ left (DoAbort (other s)))) /\
    (c_reset (end_of lk s) = true -> forall w, p_readClosed (writePipe lk w) = true \/ left (DoAbort w)).

Record flat_ok R n : Prop := {
  fl_net : net_okP (pend_acts R) n;
  fl_marks : forall i lk, n_conns n !! i = Some lk -> pipe_marks lk;
  fl_pairs : forall k i s, (i, s) ∈ targets (n_resetTargets n) k ->
    closed_end n (i, other s) \/ (i, other s) ∈ targets (n_resetTargets n) k;
  fl_unlisted : NoDup (pd_unlisted (pend_acts R));
  fl_torn : forall i lk, n_conns n !! i = Some lk -> torn lk (fun a => OnConn i a ∈ R)
}.

(** ** What only grows *)

Record later n n' : Prop := {
  la_flags : forall i lk, n_conns n !! i = Some lk -> exists lk', n_conns n' !! i = Some lk' /\ flags_le lk lk';
  la_targets : forall k c, c ∈ targets (n_resetTargets n') k -> c ∈ targets (n_resetTargets n) k \/ n_conns n !! fst c = None;
  la_heap : shrinks (n_heap n) (n_heap n')
}.

Lemma la_some n n' i : later n n' -> is_Some (n_conns n !! i) -> is_Some (n_conns n' !! i).
Proof. intros Hla [lk Hi]. destruct (la_flags _ _ Hla i lk Hi) as (lk' & Hi' & _). by exists lk'. Qed.

Lemma la_closed n n' c : later n n' -> closed_end n c -> closed_end n' c.
Proof. intros Hla (lk & Hi & Hc). destruct (la_flags _ _ Hla _ lk Hi) as (lk' & Hi' & Hle). exists lk'. split; [done|]. by apply (Hle (snd c)). Qed.

Lemma la_ended n n' c : later n n' -> ended n c -> ended n' c.
Proof. intros Hla (lk & Hi & Hm). destruct (la_flags _ _ Hla _ lk Hi) as (lk' & Hi' & Hle). exists lk'. split; [done|]. by eapply marked_le. Qed.

Lemma la_listener n n' id : later n n' -> closed_listener n id -> closed_listener n' id.
Proof. intros Hla (l & Hi & Hc). destruct (la_heap _ _ Hla id l Hi Hc) as (l' & Hi' & Hc' & _). by exists l'. Qed.

Lemma later_refl n : later n n.
Proof. split; [|auto|apply shrinks_refl]. intros i lk Hi. exists lk. split; [done|apply flags_le_refl]. Qed.

Lemma same_flags_le lk lk' : same_flags lk lk' -> flags_le lk lk'.
Proof. intros Hf s. by destruct (Hf s) as (-> & -> & _). Qed.

Lemma quiet_later n n' : quiet n n' -> later n n'.
Proof.
  intros [Hc _ Ht _ Hh]. split; [| |done].
  - intros i lk Hi. destruct (Hc i lk Hi) as (lk' & Hi' & Hf). exists lk'. split; [done|]. by apply same_flags_le.
  - intros k c Hin. destruct (Ht k c Hin) as [?|[? _]]; auto.
Qed.

Lemma action_later n n' a : later n n' -> action_ok n a -> action_ok n' a.
Proof.
  intros Hla. pose proof (fun c => la_closed n n' c Hla) as H1. pose proof (fun id => la_listener n n' id Hla) as H2.
  destruct a as [i []|id|id|id|f a b|f pa b|f k]; cbn; auto.
  intros [Hs Hnot]. split; [by apply (la_some n n' i Hla)|]. intros k Hin. destruct (la_targets _ _ Hla k _ Hin) as [Hin'|Hno]; [by eapply Hnot|].
  cbn in Hno. destruct Hs. congruence.
Qed.

Lemma call_later n n' acts : later n n' -> call_ok n acts -> call_ok n' acts.
Proof.
  intros Hla [H1 H2 H3 H4]. split; [|..]; try done.
  - eapply Forall_impl; [exact H1|]. intros a. by apply action_later.
  - intros pre i w post E. destruct (H2 pre i w post E) as [Hc|Hm]; [left; by apply (la_closed _ _ _ Hla)|right].
    intros s. destruct (Hm s); [left; by apply (la_ended _ _ _ Hla)|by right].
Qed.

(** The call goes on: its first action is done. *)
Lemma call_tail n n' a acts :
  later n n' -> (forall i s, a = OnConn i (DoSignal s) -> ended n' (i, s)) -> call_ok n (a :: acts) -> call_ok n' acts.
Proof.
  intros Hla Hsig Hok. apply (call_later _ _ _ Hla) in Hok as [H1 H2 H3 H4]. apply Forall_cons in H1 as [_ H1]. split; [done|..].
  - intros pre i w post ->. destruct (H2 (a :: pre) i w post eq_refl) as [Hc|Hm]; [by left|right]. intros s.
    destruct (Hm s) as [Hm'|[E|Hin]%elem_of_cons]; [by left|left; by apply Hsig|by right].
  - intros pre i s post w ->. by apply (H3 (a :: pre) i s post w).
  - intros pre x post ->. intros Hr. apply (Forall_inv_tail (H4 (a :: pre) x post eq_refl Hr)).
Qed.

(** A call that has nothing to wait for at its head has let the others go on. *)
Lemma call_waits n a acts : call_ok n (a :: acts) -> plain a = false -> Forall (fun x => releases x = false) acts.
Proof.
  intros Hok Hp. apply Forall_forall. intros x (pre & post & ->)%list_elem_of_split. destruct (releases x) eqn:E; [|done].
  pose proof (co_tame _ _ Hok (a :: pre) x post eq_refl E) as Ht. apply Forall_cons in Ht as [Ht _]. congruence.
Qed.
End inv.
