(* ===== verification/CallsActs.v ===== *)
(** * Every action of a cut call keeps the invariant *)
From S2P Require Import Prelude GoRuntime Errors Float64 Rand Partition Trace PipeState Faults FaultProps Pipe.
From S2P Require Import PipeInv Deadline Options Conn ConnProps ConnRace NetIP NetIPProps NetIP6 Addr Addressing.
From S2P Require Import Replay Directions Listener Network NetworkInv NetworkFrame NetworkListen NetworkDial DialThreads DialSystem.
From S2P Require Import NetCalls CallsFrame CallsInv.

Section acts.
Context {Src : Type} `{!DrawSource Src} `{!RejectFuel} `{!Platform}.
Implicit Types (n : Network Src) (lk : link Src) (c : connRef) (acts R : list netAction).

Record acted R acts n (new : list netAction) n' : Prop := {
  ac_flat : flat_ok (new ++ R) n';
  ac_later : later n n';
  ac_frame : call_frame n n';
  ac_call : call_ok n' (new ++ acts)
}.

(** ** The Network under other actions left to do *)

Lemma net_okP_change P P' n :
  net_okP P n ->
  (forall c k, c ∈ pd_ends P -> c ∉ pd_ends P' -> c ∈ targets (n_resetTargets n) k <-> live_end (n_conns n) k c) ->
  (forall id, id ∈ pd_unlisted P <-> id ∈ pd_unlisted P') ->
  (forall id l, n_heap n !! id = Some l -> l_closed l = true -> id ∈ pd_undrained P -> id ∉ pd_undrained P' -> l_incoming l = []) ->
  net_okP P' n.
Proof.
  intros [Hbk Ha Hl Hh Hb Hr Ho Ht Hp Hf Hpi] Hends Hun Hdr. split; try done.
  - apply listeners_entries in Hl as (A1 & A2 & A3). apply listeners_entries. unfold listed in *. split_and!; [| |done].
    + intros peer port id He. destruct (A1 peer port id He) as (l & B1 & B2 & B3 & B4). exists l. rewrite <- Hun. done.
    + intros id l Hi. rewrite <- Hun. by apply A2.
  - intros id l Hi. destruct (Hh id l Hi) as [H1 H2]. split; [done|]. intros Hc Hd.
    destruct (decide (id ∈ pd_undrained P)); [by eapply Hdr|by apply H2].
  - intros k. destruct (Hr k) as (H1 & H2 & H3). split; [done|]. split; [done|]. intros c Hc.
    destruct (decide (c ∈ pd_ends P)); [by apply Hends|by apply H3].
Qed.

Lemma elem_concat_map {A B} (f : A -> list B) l y : y ∈ concat (map f l) <-> exists x, x ∈ l /\ y ∈ f x.
Proof.
  induction l as [|a l IH]; cbn; [split; [by intros ?%elem_of_nil|by intros (? & ?%elem_of_nil & _)]|].
  rewrite elem_of_app, IH. split.
  - intros [Hy|(x & Hx & Hy)]; [exists a; split; [by left|done]|exists x; split; [by right|done]].
  - intros (x & [->|Hx]%elem_of_cons & Hy); [by left|right; by exists x].
Qed.

Lemma pend_elem R : (forall c, c ∈ pd_ends (pend_acts R) <-> exists a, a ∈ R /\ c ∈ endsOf a) /\
  (forall id, id ∈ pd_unlisted (pend_acts R) <-> exists a, a ∈ R /\ id ∈ unlistedOf a) /\
  (forall id, id ∈ pd_undrained (pend_acts R) <-> exists a, a ∈ R /\ id ∈ undrainedOf a).
Proof. split_and!; intros; apply elem_concat_map. Qed.

Lemma net_okP_perm R R' n : R ≡ₚ R' -> net_okP (pend_acts R) n -> net_okP (pend_acts R') n.
Proof.
  intros Hp Hok. destruct (pend_elem R) as (E1 & E2 & E3), (pend_elem R') as (F1 & F2 & F3).
  assert (forall a, a ∈ R <-> a ∈ R') as Hin by (intros a; by rewrite Hp). apply (net_okP_change (pend_acts R)); [done|..].
  - intros c k Hc Hc'. exfalso. apply Hc'. rewrite F1. apply E1 in Hc as (a & Ha & Hca). exists a. by rewrite <- Hin.
  - intros id. rewrite E2, F2. split; intros (a & Ha & Hd); exists a; (split; [by apply Hin|done]).
  - intros id l _ _ Hd Hd'. exfalso. apply Hd'. rewrite F3. apply E3 in Hd as (a & Ha & Hda). exists a. by rewrite <- Hin.
Qed.

Lemma torn_left lk (L L' : action -> Prop) :
  (forall s, L (DoCloseWrite s) -> L' (DoCloseWrite s)) -> (forall w, L (DoAbort w) -> L' (DoAbort w)) -> torn lk L -> torn lk L'.
Proof.
  intros Hc Ha Ht s. destruct (Ht s) as [H1 H2]. split.
  - intros [[?|?] [?|?]]%H1; auto.
  - intros Hr w. destruct (H2 Hr w); auto.
Qed.

Lemma flat_perm R R' n : R ≡ₚ R' -> flat_ok R n -> flat_ok R' n.
Proof.
  intros Hp [H1 H2 H3 H4 H5]. split; [by eapply net_okP_perm|done|done| |].
  - cbn in *. eapply NoDup_Permutation_proper; [|exact H4]. by rewrite Hp.
  - intros i lk Hi. eapply torn_left; [..|by apply H5]; intros s; cbn; by rewrite Hp.
Qed.

(** An action the rest of the invariant does not depend on. *)
Definition idle (a : netAction) : Prop :=
  endsOf a = [] /\ unlistedOf a = [] /\ undrainedOf a = [] /\
  forall i s, a <> OnConn i (DoCloseWrite s) /\ a <> OnConn i (DoAbort s).

Lemma flat_idle a R n : idle a -> flat_ok (a :: R) n <-> flat_ok R n.
Proof.
  intros (E1 & E2 & E3 & E4).
  assert (pend_acts (a :: R) = pend_acts R) as Ep by (unfold pend_acts; cbn; by rewrite E1, E2, E3).
  split; intros [H1 H2 H3 H4 H5]; split; rewrite ?Ep in *; try done; intros i lk Hi; (eapply torn_left; [..|by apply H5]); cbn.
  - intros s [E|Hin]%elem_of_cons; [|done]. by destruct (proj1 (E4 i s)).
  - intros s [E|Hin]%elem_of_cons; [|done]. by destruct (proj2 (E4 i s)).
  - intros s Hin. by right.
  - intros s Hin. by right.
Qed.

(** The action was nothing to do. *)
Lemma acted_nothing a R acts n :
  idle a -> (forall i s, a <> OnConn i (DoSignal s)) -> flat_ok (a :: R) n -> call_ok n (a :: acts) -> acted R acts n [] n.
Proof.
  intros Hi Hs Hfl Hc. split; [by eapply flat_idle|apply later_refl|apply call_frame_refl|].
  apply (call_tail n n a); [apply later_refl| |done]. intros i s E. by destruct (Hs i s).
Qed.

(** ** Actions on a connection *)

Lemma upd_conn_later (i : nat) f lk n :
  n_conns n !! i = Some lk -> flags_le lk (f lk) -> later n (upd_conn i f n).
Proof.
  intros Hi Hf. assert (forall j lk0, n_conns n !! j = Some lk0 -> exists lk1, n_conns (upd_conn i f n) !! j = Some lk1 /\ flags_le lk0 lk1) as Hc.
  { intros j lk0 Hj. cbn. destruct (decide (i = j)) as [<-|Hne].
    - rewrite list_lookup_alter_eq, Hj. exists (f lk0). split; [done|]. by simplify_eq.
    - rewrite list_lookup_alter_ne by done. exists lk0. split; [done|apply flags_le_refl]. }
  split; [exact Hc|by left|apply shrinks_refl].
Qed.

Definition same_ids lk lk' : Prop := forall s, conn_id (end_of lk' s) = conn_id (end_of lk s).

(** An action [x] on connection [i] that changes it by [f]. *)
Lemma conn_acted (i : nat) x f lk R acts n new :
  n_conns n !! i = Some lk -> flat_ok (OnConn i x :: R) n ->
  net_okP (pend_acts (new ++ R)) (upd_conn i f n) -> concat (map unlistedOf new) = [] ->
  flags_le lk (f lk) -> same_ids lk (f lk) -> pipe_marks (f lk) ->
  (torn lk (fun a => OnConn i a ∈ OnConn i x :: R) -> torn (f lk) (fun a => OnConn i a ∈ new ++ R)) ->
  (later n (upd_conn i f n) -> call_ok (upd_conn i f n) (new ++ acts)) ->
  acted R acts n new (upd_conn i f n).
Proof.
  intros Hi [H1 H2 H3 H4 H5] Hnet Hun Hle Hid Hm Ht Hcall. pose proof (upd_conn_later i f lk n Hi Hle) as Hla.
  assert (forall j lk1, n_conns (upd_conn i f n) !! j = Some lk1 -> j = i /\ lk1 = f lk \/ j <> i /\ n_conns n !! j = Some lk1) as Hj.
  { intros j lk1. cbn. destruct (decide (i = j)) as [<-|Hne].
    - rewrite list_lookup_alter_eq, Hi. intros [= <-]. by left.
    - rewrite list_lookup_alter_ne by done. by right. }
  split; [split|done| |by apply Hcall].
  - done.
  - intros j lk1 [[-> ->]|[_ Hj1]]%Hj; [done|by eapply H2].
  - intros k j s Hin. destruct (H3 k j s Hin) as [Hc|Hin']; [left; by apply (la_closed _ _ _ Hla)|by right].
  - cbn in *. by rewrite map_app, concat_app, Hun.
  - intros j lk1 [[-> ->]|[Hne Hj1]]%Hj; [by apply Ht, H5|]. eapply torn_left; [..|by apply (H5 j lk1)]; cbn;
      (intros s [E|Hin]%elem_of_cons; [congruence|apply elem_of_app; by right]).
  - unfold upd_conn. rewrite (alter_insert _ _ _ lk) by done. apply frame_conns. intros j.
    destruct (decide (i = j)) as [<-|Hne].
    + rewrite Hi, list_lookup_insert_eq by (by eapply lookup_lt_Some). by constructor.
    + rewrite list_lookup_insert_ne by done. exact (same_conns_refl (n_conns n) j).
Qed.

(** One that changes a pipe, or the deadlines of an end. *)
Lemma upd_same_ok P (i : nat) f lk n :
  n_conns n !! i = Some lk -> same_ends lk (f lk) -> (forall E, link_ok E lk -> link_ok E (f lk)) -> net_okP P n -> net_okP P (upd_conn i f n).
Proof.
  intros Hi Hs Hl Hok. unfold upd_conn. rewrite (alter_insert _ _ _ lk) by done.
  apply net_ok_conns; [by apply (update_same _ _ lk)| |done]. apply pipes_insert; [apply Hok|]. apply Hl. by eapply (ok_pipes _ Hok).
Qed.

Lemma same_ends_ids lk lk' : same_ends lk lk' -> same_ids lk lk'.
Proof. intros Hs s. apply Hs. Qed.

Lemma upd_writePipe_same w f lk : same_ends lk (upd_writePipe w f lk).
Proof. apply set_writePipe_same. Qed.

Lemma end_exists n i s : closed_end n (i, s) -> exists lk, n_conns n !! i = Some lk /\ c_closed (end_of lk s) = true.
Proof. done. Qed.

Lemma close_closed (p : pipe Src) : p_closed (close p) = true /\ p_readClosed (close p) = p_readClosed p.
Proof. unfold close. by destruct (p_closed p) eqn:E. Qed.

Lemma abort_closed (p : pipe Src) : p_readClosed (abort p) = true /\ (p_closed p = true -> p_closed (abort p) = true).
Proof. unfold abort. by destruct (p_readClosed p) eqn:E. Qed.

Lemma act_closeWrite i s R acts n :
  flat_ok (OnConn i (DoCloseWrite s) :: R) n -> call_ok n (OnConn i (DoCloseWrite s) :: acts) ->
  acted R acts n [] (upd_conn i (upd_writePipe s close) n).
Proof.
  intros Hfl Hc. pose proof (co_actions _ _ Hc) as [(lk & Hi & Hcl) _]%Forall_cons. cbn in Hi, Hcl.
  destruct (upd_writePipe_flags s close lk) as [Hle _]. pose proof (fl_marks _ _ Hfl i lk Hi) as Hm.
  apply (conn_acted i (DoCloseWrite s) _ lk); try done.
  - apply (upd_same_ok _ _ _ lk); [done|apply upd_writePipe_same|intros E; apply link_ok_write; intros; by apply direction_close|].
    exact (fl_net _ _ Hfl).
  - apply same_ends_ids, upd_writePipe_same.
  - by apply closeWrite_marks.
  - intros Ht e. destruct (Ht e) as [H1 H2]. unfold upd_writePipe. rewrite !end_of_set_writePipe. split.
    + intros [Ha Hb]%H1. rewrite !writePipe_set_writePipe. split.
      * destruct (decide (e = s)) as [->|Hne]; [left; apply close_closed|].
        destruct Ha as [?|[[= ->]|?]%elem_of_cons]; [by left|done|by right].
      * destruct Hb as [Hb|[[=]|?]%elem_of_cons]; [|by right]. left. destruct (decide (other e = s)) as [<-|]; [|done].
        by rewrite (proj2 (close_closed _)).
    + intros Hr w. rewrite writePipe_set_writePipe. destruct (H2 Hr w) as [Hb|[[=]|?]%elem_of_cons]; [|by right].
      left. destruct (decide (w = s)) as [<-|]; [|done]. by rewrite (proj2 (close_closed _)).
  - intros Hla. by apply (call_tail n _ (OnConn i (DoCloseWrite s))).
Qed.

Lemma act_abort i w R acts n :
  flat_ok (OnConn i (DoAbort w) :: R) n -> call_ok n (OnConn i (DoAbort w) :: acts) ->
  acted R acts n [] (upd_conn i (upd_writePipe w abort) n).
Proof.
  intros Hfl Hc.
  assert (exists lk, n_conns n !! i = Some lk /\ (c_closed (end_of lk (other w)) = true \/ (marked lk w /\ marked lk (other w)))) as (lk & Hi & Hmk).
  { destruct (co_abort _ _ Hc [] i w acts eq_refl) as [(lk & Hi & Hcl)|Hall]; [exists lk; auto|].
    destruct (Hall w) as [(lk & Hi & Ha)|?%elem_of_nil]; [|done]. destruct (Hall (other w)) as [(lk' & Hi' & Hb)|?%elem_of_nil]; [|done].
    cbn in *. assert (lk' = lk) as -> by congruence. exists lk. auto. }
  destruct (upd_writePipe_flags w abort lk) as [Hle _]. pose proof (fl_marks _ _ Hfl i lk Hi) as Hm.
  apply (conn_acted i (DoAbort w) _ lk); try done.
  - apply (upd_same_ok _ _ _ lk); [done|apply upd_writePipe_same|intros E; apply link_ok_write; intros; by apply direction_abort|].
    exact (fl_net _ _ Hfl).
  - apply same_ends_ids, upd_writePipe_same.
  - by apply abort_marks.
  - assert (forall v, p_readClosed (writePipe lk v) = true \/ OnConn i (DoAbort v) ∈ OnConn i (DoAbort w) :: R ->
      p_readClosed (writePipe (upd_writePipe w abort lk) v) = true \/ OnConn i (DoAbort v) ∈ R) as Hrd.
    { intros v Hv. unfold upd_writePipe. rewrite writePipe_set_writePipe. destruct (decide (v = w)) as [->|Hne]; [left; apply abort_closed|].
      destruct Hv as [?|[[= ->]|?]%elem_of_cons]; [by left|done|by right]. }
    intros Ht e. destruct (Ht e) as [H1 H2]. unfold upd_writePipe at 1 4. rewrite !end_of_set_writePipe. split.
    + intros [Ha Hb]%H1. split; [|by apply Hrd]. unfold upd_writePipe. rewrite writePipe_set_writePipe.
      destruct Ha as [Ha|[[=]|?]%elem_of_cons]; [left|by right]. destruct (decide (e = w)) as [<-|]; [by apply abort_closed|done].
    + intros Hr v. by apply Hrd, H2.
  - intros Hla. by apply (call_tail n _ (OnConn i (DoAbort w))).
Qed.

(** An action on an end that is neither closed nor reset by it. *)
Lemma act_end i x s f lk R acts n :
  n_conns n !! i = Some lk -> idle (OnConn i x) -> (forall e, x <> DoSignal e) ->
  (forall e, same_end e (f e)) -> (forall E, link_ok E lk -> link_ok E (upd_end s f lk)) ->
  flat_ok (OnConn i x :: R) n -> call_ok n (OnConn i x :: acts) -> acted R acts n [] (upd_conn i (upd_end s f) n).
Proof.
  intros Hi Hidle Hx Hf Hlk Hfl Hc. pose proof (fl_marks _ _ Hfl i lk Hi) as Hm.
  pose proof (proj1 (flat_idle _ R n Hidle) Hfl) as HR.
  destruct (upd_end_marks s f lk) as [Hle Hp]; [by destruct (Hf (end_of lk s)) as (-> & _)|by destruct (Hf (end_of lk s)) as (_ & -> & _)|].
  pose proof (upd_end_same s f lk Hf) as Hs. apply (conn_acted i x _ lk); try done.
  - apply (upd_same_ok _ _ _ lk); [done|done|done|]. exact (fl_net _ _ HR).
  - by apply same_ends_ids.
  - by apply (pipe_marks_le lk).
  - intros _ e. destruct (fl_torn _ _ HR i lk Hi e) as [H1 H2].
    destruct (Hs e) as (-> & -> & _). destruct (Hp e) as [_ ->]. destruct (Hp (other e)) as [-> _]. split; [done|].
    intros Hr w. destruct (Hp w) as [-> _]. by apply H2.
  - intros Hla. apply (call_tail n _ (OnConn i x)); [done| |done]. intros j e [= <- E]. by destruct (Hx e).
Qed.

Lemma idle_conn i x : (match x with DoDeregister _ | DoSignal _ | DoCloseWrite _ | DoAbort _ => False | _ => True end) -> idle (OnConn i x).
Proof. intros Hx. destruct x; try done; by split_and!. Qed.

Lemma act_stopRead i s R acts n :
  flat_ok (OnConn i (DoStopRead s) :: R) n -> call_ok n (OnConn i (DoStopRead s) :: acts) ->
  acted R acts n [] (upd_conn i (upd_end s (fun e => set_c_rd e (stop (c_rd e)))) n).
Proof.
  intros Hfl Hc. pose proof (co_actions _ _ Hc) as [(lk & Hi & _) _]%Forall_cons.
  apply (act_end i (DoStopRead s) s _ lk); try done; try (by apply idle_conn). intros E. by apply link_ok_end.
Qed.

Lemma act_stopWrite i s R acts n :
  flat_ok (OnConn i (DoStopWrite s) :: R) n -> call_ok n (OnConn i (DoStopWrite s) :: acts) ->
  acted R acts n [] (upd_conn i (upd_end s (fun e => set_c_wd e (stop (c_wd e)))) n).
Proof.
  intros Hfl Hc. pose proof (co_actions _ _ Hc) as [(lk & Hi & _) _]%Forall_cons.
  apply (act_end i (DoStopWrite s) s _ lk); try done; try (by apply idle_conn). intros E. by apply link_ok_end.
Qed.

(** ** Calls put together *)

Lemma app_split {A} (xs ys pre : list A) x post :
  xs ++ ys = pre ++ x :: post ->
  (exists post1, xs = pre ++ x :: post1 /\ post = post1 ++ ys) \/ (exists pre2, pre = xs ++ pre2 /\ ys = pre2 ++ x :: post).
Proof.
  revert pre. induction xs as [|y xs IH]; intros pre E; [right; by exists pre|]. destruct pre as [|z pre]; cbn in E; injection E as -> E.
  - left. by exists xs.
  - destruct (IH pre E) as [(post1 & -> & ->)|(pre2 & -> & ->)]; [left; by exists post1|right; by exists pre2].
Qed.

Lemma call_app n new acts :
  call_ok n new -> call_ok n acts -> Forall (fun x => plain x = true) new \/ Forall (fun x => releases x = false) acts ->
  call_ok n (new ++ acts).
Proof.
  intros [A1 A2 A3 A4] [B1 B2 B3 B4] Hw. split.
  - by apply Forall_app.
  - intros pre i w post [(post1 & -> & ->)|(pre2 & -> & ->)]%app_split; [by apply (A2 pre i w post1)|].
    destruct (B2 pre2 i w post eq_refl) as [Hc|Hm]; [by left|right]. intros s. destruct (Hm s); [by left|right]. apply elem_of_app. by right.
  - intros pre i s post w [(post1 & -> & ->)|(pre2 & -> & ->)]%app_split; [|by apply (B3 pre2 i s post w)].
    apply elem_of_app. left. by apply (A3 pre i s post1 w).
  - intros pre x post [(post1 & -> & ->)|(pre2 & -> & ->)]%app_split Hr; [by apply (A4 pre x post1)|].
    destruct Hw as [Hw|Hw]; [apply Forall_app; split; [done|by apply (B4 pre2 x post)]|].
    apply Forall_app in Hw as [_ [Hx _]%Forall_cons]. congruence.
Qed.

Lemma call_nil n : call_ok n [].
Proof. split; [constructor|..]; intros []; discriminate. Qed.

Lemma call_single n a : action_ok n a -> (forall i w, a <> OnConn i (DoAbort w)) -> (forall i s, a <> OnConn i (DoSignal s)) -> call_ok n [a].
Proof.
  intros Ha H1 H2. split; [by constructor|..].
  - intros [|? []] i w post [= E _]; by destruct (H1 i w).
  - intros [|? []] i s post w [= E _]; by destruct (H2 i s).
  - intros [|? []] x post [= E _] _. constructor.
Qed.

Lemma closeActions_plain c : Forall (fun x => plain x = true) (closeActions c).
Proof. by repeat constructor. Qed.

Lemma closeActions_ok n c : closed_end n c -> call_ok n (closeActions c).
Proof.
  intros Hc. destruct c as [i s]. split.
  - by repeat constructor.
  - intros pre j w post E. left. assert (OnConn j (DoAbort w) ∈ closeActions (i, s)) as Hin by (rewrite E; apply elem_of_app; right; by left).
    unfold closeActions in Hin. cbn in Hin. repeat (apply elem_of_cons in Hin as [[=]|Hin]); [|by apply elem_of_nil in Hin].
    subst. by rewrite other_other.
  - intros pre j e post w E. assert (OnConn j (DoSignal e) ∈ closeActions (i, s)) as Hin by (rewrite E; apply elem_of_app; right; by left).
    unfold closeActions in Hin. cbn in Hin. repeat (apply elem_of_cons in Hin as [[=]|Hin]). by apply elem_of_nil in Hin.
  - intros pre x post E _. pose proof (closeActions_plain (i, s)) as Hp. rewrite E in Hp. by apply Forall_app in Hp as [Hp _].
Qed.

Lemma abortTargets_elem ts c : c ∈ abortTargets ts <-> exists t, t ∈ ts /\ fst c = fst t.
Proof.
  unfold abortTargets. rewrite elem_concat_map. split.
  - intros (t & Ht & Hc). exists t. split; [done|]. by apply elem_of_cons in Hc as [->| ->%list_elem_of_singleton].
  - intros (t & Ht & E). exists t. split; [done|]. destruct c as [i s], t as [j e]. cbn in *. subst j.
    rewrite elem_of_cons, list_elem_of_singleton. destruct s, e; auto.
Qed.

Lemma resetActions_ok n ts :
  (forall c, c ∈ ts -> action_ok n (signalAction c) /\ (closed_end n (fst c, other (snd c)) \/ (fst c, other (snd c)) ∈ ts)) ->
  call_ok n (resetActions ts).
Proof.
  intros Hts. unfold resetActions. split.
  - apply Forall_app. split; apply Forall_forall; intros a (c & -> & Hc)%list_elem_of_fmap; [by apply Hts|done].
  - intros pre i w post [(post1 & E & _)|(pre2 & -> & E)]%app_split.
    + assert (OnConn i (DoAbort w) ∈ map signalAction ts) as (c & [=] & _)%list_elem_of_fmap by (rewrite E; apply elem_of_app; right; by left).
    + right. assert (OnConn i (DoAbort w) ∈ map abortAction (abortTargets ts)) as (c & [= -> ->] & Hc)%list_elem_of_fmap
        by (rewrite E; apply elem_of_app; right; by left).
      apply abortTargets_elem in Hc as ([j e] & Ht & Ej). cbn in Ej. intros s.
      assert (forall x, (fst c, x) ∈ ts -> OnConn (fst c) (DoSignal x) ∈ map signalAction ts ++ pre2) as Hin.
      { intros x Hx. apply elem_of_app. left. apply list_elem_of_fmap. by exists (fst c, x). }
      rewrite <- Ej in Ht. destruct (decide (s = e)) as [->|Hne]; [right; by apply Hin|]. assert (s = other e) as -> by (by destruct s, e).
      destruct (Hts _ Ht) as [_ [Hcl|Ho]]; [|right; by apply Hin]. left. destruct Hcl as (lk & Hi & Hcl). exists lk. split; [done|by left].
  - intros pre i s post w [(post1 & E & ->)|(pre2 & _ & E)]%app_split.
    + assert (OnConn i (DoSignal s) ∈ map signalAction ts) as (c & [= -> ->] & Hc)%list_elem_of_fmap by (rewrite E; apply elem_of_app; right; by left).
      apply elem_of_app. right. apply list_elem_of_fmap. exists (fst c, w). split; [done|]. apply abortTargets_elem. by exists c.
    + assert (OnConn i (DoSignal s) ∈ map abortAction (abortTargets ts)) as (c & [=] & _)%list_elem_of_fmap by (rewrite E; apply elem_of_app; right; by left).
  - intros pre x post E Hr. exfalso. assert (x ∈ map signalAction ts ++ map abortAction (abortTargets ts)) as Hin
      by (rewrite E; apply elem_of_app; right; by left).
    apply elem_of_app in Hin as [(c & -> & _)%list_elem_of_fmap|(c & -> & _)%list_elem_of_fmap]; done.
Qed.
End acts.
