(* ===== verification/CallsSteps.v ===== *)
(** * The actions that change the tables, and every step of a cut system *)
From S2P Require Import Prelude GoRuntime Errors Float64 Rand Partition Trace PipeState Faults FaultProps Pipe.
From S2P Require Import PipeInv Deadline Options Conn ConnProps ConnRace NetIP NetIPProps NetIP6 Addr Addressing.
From S2P Require Import Replay Directions Listener Network NetworkInv NetworkFrame NetworkListen NetworkDial DialThreads DialSystem.
From S2P Require Import NetCalls CallsFrame CallsInv CallsActs.

Section steps.
Context {Src : Type} `{!DrawSource Src} `{!RejectFuel} `{!Platform}.
Implicit Types (n : Network Src) (lk : link Src) (c : connRef) (acts R : list netAction).

(** ** Marks of ends *)

Lemma net_okP_ends P P' n :
  pd_unlisted P' = pd_unlisted P -> pd_undrained P' = pd_undrained P -> registry_ok P' (n_resetTargets n) (n_conns n) ->
  net_okP P n -> net_okP P' n.
Proof.
  intros Eu Ed Hreg [Hbk Ha [A1 A2 A3] Hh Hb Hr Ho Ht Hp Hf Hpi]. split; try done.
  - split; unfold listed in *; rewrite ?Eu; done.
  - intros id l Hi. rewrite Ed. by apply Hh.
Qed.

(** The ends in [D] are marked, and are accounted for. *)
Lemma net_okP_marked P P' D n conns' :
  net_okP P n -> conns_rel D (n_conns n) conns' -> pipes_ok (envOf n) conns' ->
  pd_unlisted P' = pd_unlisted P -> pd_undrained P' = pd_undrained P ->
  (forall k c, c ∉ pd_ends P' -> (~ c ∈ pd_ends P /\ ~ c ∈ D) \/ (c ∈ D /\ c ∉ targets (n_resetTargets n) k)) ->
  net_okP P' (set_conns n conns').
Proof.
  intros [Hbk Ha [A1 A2 A3] Hh Hb Hr Ho Ht Hp Hf Hpi] Hrel Hpi' Eu Ed Hacc. split; cbn; try done.
  - split; unfold listed in *; rewrite ?Eu; done.
  - intros id l Hi. rewrite Ed. by apply Hh.
  - intros k. destruct (Hr k) as (H1 & H2 & H3). split; [done|]. split; [intros c Hc; by eapply end_of_pair_rel, H2|].
    intros c Hc. rewrite (rel_live _ _ _ Hrel). destruct (Hacc k c Hc) as [[Hp1 Hd]|[Hd Hn]].
    + rewrite (H3 c Hp1). tauto.
    + tauto.
  - by eapply ordinals_rel.
  - by eapply traces_rel.
Qed.

Lemma upd_marked P P' (i : nat) s f lk n :
  n_conns n !! i = Some lk -> marks_end s lk (f lk) -> (forall E, link_ok E lk -> link_ok E (f lk)) -> net_okP P n ->
  pd_unlisted P' = pd_unlisted P -> pd_undrained P' = pd_undrained P ->
  (forall k c, c ∉ pd_ends P' -> (~ c ∈ pd_ends P /\ c <> (i, s)) \/ (c = (i, s) /\ c ∉ targets (n_resetTargets n) k)) ->
  net_okP P' (upd_conn i f n).
Proof.
  intros Hi Hm Hl Hok Eu Ed Hacc. unfold upd_conn. rewrite (alter_insert _ _ _ lk) by done.
  apply (net_okP_marked P P' [(i, s)]); try done.
  - by apply (marks_rel _ _ lk).
  - apply pipes_insert; [apply Hok|]. apply Hl. by eapply (ok_pipes _ Hok).
  - intros k c Hc. rewrite list_elem_of_singleton. by apply Hacc.
Qed.

(** The marks of one end, seen from the pipes. *)
Lemma marks_pipes s f lk :
  (forall e, (c_closed e = true -> c_closed (f e) = true) /\ (c_reset e = true -> c_reset (f e) = true)) ->
  pipe_marks lk -> flags_le lk (upd_end s f lk) /\ pipe_marks (upd_end s f lk).
Proof.
  intros Hf Hm. destruct (upd_end_marks s f lk) as [Hle Hp]; [apply Hf..|]. split; [done|]. by apply (pipe_marks_le lk).
Qed.

Lemma act_signal i s R acts n :
  (forall a, a ∈ acts -> a ∈ R) ->
  flat_ok (OnConn i (DoSignal s) :: R) n -> call_ok n (OnConn i (DoSignal s) :: acts) ->
  acted R acts n [] (upd_conn i (signalReset s) n).
Proof.
  intros Hsub Hfl Hc. pose proof (co_actions _ _ Hc) as [[[lk Hi] Hnot] _]%Forall_cons.
  pose proof (fl_marks _ _ Hfl i lk Hi) as Hm.
  destruct (marks_pipes s (fun e => set_c_reset e true) lk ltac:(done) Hm) as [Hle Hm']. fold (signalReset s lk) in Hle, Hm'.
  apply (conn_acted i (DoSignal s) _ lk); try done.
  - apply (upd_marked (pend_acts (OnConn i (DoSignal s) :: R)) _ i s _ lk); try done; [apply signalReset_marks|intros E; apply signalReset_link|exact (fl_net _ _ Hfl)|].
    intros k c Hc'. destruct (decide (c = (i, s))) as [->|Hne]; [right; split; [done|apply Hnot]|left]. split; [|done].
    cbn. rewrite elem_of_cons. intros [?|?]; [done|by apply Hc'].
  - intros e. unfold signalReset, upd_end. rewrite end_of_set_end. by destruct (decide (e = s)) as [->|].
  - intros Ht e. unfold signalReset, upd_end. rewrite end_of_set_end, !writePipe_set_end. destruct (Ht e) as [H1 H2].
    assert (forall x, OnConn i x ∈ OnConn i (DoSignal s) :: R -> x = DoSignal s \/ OnConn i x ∈ R) as Hin
      by (intros x [[= ->]|?]%elem_of_cons; auto).
    split.
    + intros Hcl. assert (c_closed (end_of lk e) = true) as [Ha Hb]%H1 by (by destruct (decide (e = s)) as [->|]).
      split; [destruct Ha as [?|[?|?]%Hin]|destruct Hb as [?|[?|?]%Hin]]; auto; done.
    + intros Hr w. rewrite writePipe_set_end. destruct (decide (e = s)) as [->|].
      * right. apply Hsub. by apply (co_signal _ _ Hc [] i s acts w).
      * destruct (H2 Hr w) as [?|[?|?]%Hin]; auto; done.
  - intros Hla. apply (call_tail n _ (OnConn i (DoSignal s))); [done| |done]. intros j e [= <- <-].
    exists (signalReset s lk). cbn. rewrite list_lookup_alter_eq, Hi. split; [done|]. right.
    unfold signalReset, upd_end. by rewrite end_of_set_end, decide_True.
Qed.

Lemma act_closed i s R acts n lk :
  n_conns n !! i = Some lk -> c_closed (end_of lk s) = false ->
  flat_ok (OnConn i (DoClosed s) :: R) n -> call_ok n (OnConn i (DoClosed s) :: acts) ->
  acted R acts n (closeActions (i, s)) (upd_conn i (upd_end s (fun e => set_c_closed e true)) n).
Proof.
  intros Hi Hcl Hfl Hc. pose proof (fl_marks _ _ Hfl i lk Hi) as Hm.
  destruct (marks_pipes s (fun e => set_c_closed e true) lk ltac:(done) Hm) as [Hle Hm'].
  pose proof (proj1 (flat_idle _ R n (idle_conn i (DoClosed s) I)) Hfl) as HR.
  apply (conn_acted i (DoClosed s) _ lk); try done.
  - apply (upd_marked (pend_acts R) _ i s _ lk); try done; [| |exact (fl_net _ _ HR)|].
    + split_and!; [intros e He|..]; unfold upd_end; rewrite end_of_set_end; [by rewrite decide_False|by rewrite decide_True|].
      left. by rewrite decide_True.
    + intros E. by apply link_ok_end.
    + intros k c Hc'. cbn in Hc'. rewrite elem_of_cons in Hc'. left. split; intros Hx; apply Hc'; auto.
  - intros e. unfold upd_end. rewrite end_of_set_end. by destruct (decide (e = s)) as [->|].
  - intros _ e. destruct (fl_torn _ _ HR i lk Hi e) as [H1 H2]. unfold upd_end. rewrite end_of_set_end, !writePipe_set_end.
    assert (forall x, OnConn i x ∈ R -> OnConn i x ∈ closeActions (i, s) ++ R) as Hin by (intros x Hx; apply elem_of_app; by right).
    split.
    + destruct (decide (e = s)) as [->|Hne]; [intros _|intros [[?|?] [?|?]]%H1; auto].
      split; right; apply elem_of_app; left; unfold closeActions; cbn; rewrite !elem_of_cons; auto.
    + intros Hr w. rewrite writePipe_set_end. assert (c_reset (end_of lk e) = true) as Hr' by (by destruct (decide (e = s)) as [->|]).
      destruct (H2 Hr' w); auto.
  - intros Hla. assert (closed_end (upd_conn i (upd_end s (fun e => set_c_closed e true)) n) (i, s)) as Hce.
    { exists (upd_end s (fun e => set_c_closed e true) lk). cbn. rewrite list_lookup_alter_eq, Hi. split; [done|].
      unfold upd_end. by rewrite end_of_set_end, decide_True. }
    apply call_app; [by apply closeActions_ok|by apply (call_tail n _ (OnConn i (DoClosed s)))|left; apply closeActions_plain].
Qed.

Lemma set_resetTargets_call n rt : call_frame n (set_resetTargets n rt).
Proof. split; try done; [apply same_conns_refl|apply same_slots_refl]. Qed.

Lemma act_deregisterReset i s R acts n :
  flat_ok (OnConn i (DoDeregister s) :: R) n -> call_ok n (OnConn i (DoDeregister s) :: acts) ->
  acted R acts n [] (snd (runOnConn i (DoDeregister s) n)).
Proof.
  intros Hfl Hc. pose proof (co_actions _ _ Hc) as [(lk & Hi & Hcl) _]%Forall_cons. cbn [fst snd] in Hi, Hcl.
  cbn [runOnConn]. rewrite Hi. cbn [snd]. set (c := (i, s)) in *. set (pair := c_pair (end_of lk s)).
  set (n' := if c_nw (end_of lk s) then deregisterReset pair c n else n).
  destruct Hfl as [H1 H2 H3 H4 H5].
  assert (forall k, ~ live_end (n_conns n) k c) as Hdead by (intros k (lk0 & E & _ & _ & E2 & _); cbn in *; congruence).
  assert (exists rt, n' = set_resetTargets n rt /\ forall k, NoDup (targets rt k) /\ forall d, d ∈ targets rt k <-> d ∈ targets (n_resetTargets n) k /\ d <> c)
    as (rt & -> & Hrt).
  { assert (forall k, c ∈ targets (n_resetTargets n) k -> k = pair /\ c_nw (end_of lk s) = true) as Hof.
    { intros k Hin. apply (proj1 (proj2 (ok_registry _ H1 k))) in Hin as (lk0 & E & Hq). cbn in E. assert (lk0 = lk) as -> by congruence. by destruct (Hq s) as [? <-]. }
    assert ((forall k, c ∉ targets (n_resetTargets n) k) -> exists rt, n = set_resetTargets n rt /\
      forall k, NoDup (targets rt k) /\ forall d, d ∈ targets rt k <-> d ∈ targets (n_resetTargets n) k /\ d <> c) as Hsame.
    { intros Hno. exists (n_resetTargets n). split; [by destruct n|]. intros k. split; [apply (ok_registry _ H1 k)|].
      intros d. split; [|by intros [? _]]. intros Hd. split; [done|]. intros ->. by eapply Hno. }
    unfold n'. destruct (c_nw (end_of lk s)) eqn:En; [|apply Hsame; intros k [_ ?]%Hof; congruence].
    unfold deregisterReset. cbn zeta. fold (targets (n_resetTargets n) pair). destruct (decide (c ∈ targets (n_resetTargets n) pair)) as [Hin|Hin].
    2: { apply Hsame. intros k Hk. destruct (Hof k Hk) as [-> _]. done. }
    eexists. split; [done|]. intros k. rewrite targets_insert. destruct (decide (k = pair)) as [->|Hne].
    - apply removeFirst_spec, (ok_registry _ H1 pair).
    - split; [apply (ok_registry _ H1 k)|]. intros d. split; [|by intros [? _]]. intros Hd. split; [done|]. intros ->. by destruct (Hof k Hd). }
  assert (later n (set_resetTargets n rt)) as Hla.
  { split; [apply (la_flags _ _ (later_refl n))| |apply shrinks_refl]. cbn. intros k d Hd. left. by apply Hrt in Hd as [Hd _]. }
  split; [split|done| |].
  - destruct (H1) as [Hbk Ha [A1 A2 A3] Hh Hb Hr Ho Ht Hp Hf Hpi]. split; cbn; try done.
    intros k. destruct (Hr k) as (B1 & B2 & B3), (Hrt k) as [D1 D2]. split; [done|]. split; [intros d [Hd _]%D2; by apply B2|].
    intros d Hd. rewrite D2. destruct (decide (d = c)) as [->|Hne]; [split; [by intros [_ ?]|by intros ?%Hdead]|].
    rewrite <- B3; [tauto|]. cbn. rewrite elem_of_cons. tauto.
  - done.
  - cbn. intros k j e [Hin Hne]%Hrt. destruct (H3 k j e Hin) as [Hcl'|Hin']; [by left|].
    destruct (decide ((j, other e) = c)) as [E|Hne']; [left|right; by apply Hrt].
    unfold c in E. injection E as -> ->. by exists lk.
  - done.
  - intros j lk0 Hj. cbn in Hj. eapply torn_left; [..|by apply H5]; intros e [[=]|?]%elem_of_cons; done.
  - apply set_resetTargets_call.
  - by apply (call_tail n _ (OnConn i (DoDeregister s))).
Qed.

(** ** Listeners *)

Lemma table_flat a R new n n' :
  (forall i x, a <> OnConn i x) -> n_conns n' = n_conns n -> n_resetTargets n' = n_resetTargets n ->
  net_okP (pend_acts (new ++ R)) n' -> NoDup (pd_unlisted (pend_acts (new ++ R))) -> flat_ok (a :: R) n -> flat_ok (new ++ R) n'.
Proof.
  intros Ha Ec Et Hnet Hnd [H1 H2 H3 H4 H5]. split; rewrite ?Ec, ?Et; try done.
  - intros k i s Hin. destruct (H3 k i s Hin) as [(lk & Hi & Hcl)|?]; [left; exists lk; by rewrite Ec|by right].
  - intros i lk Hi. eapply torn_left; [..|by apply H5]; cbn; (intros s [E|Hin]%elem_of_cons; [by destruct (Ha _ _ (eq_sym E))|apply elem_of_app; by right]).
Qed.

Lemma table_later n n' :
  n_conns n' = n_conns n -> n_resetTargets n' = n_resetTargets n -> shrinks (n_heap n) (n_heap n') -> later n n'.
Proof. intros Ec Et Hh. destruct (later_refl n) as [H1 _ _]. split; rewrite ?Ec, ?Et; auto. Qed.

Lemma heap_call n (id : nat) l l' :
  n_heap n !! id = Some l -> l_reserved l' = l_reserved l -> l_addr l' = l_addr l -> (l_closed l = true -> l_closed l' = true) ->
  call_frame n (set_heap n (<[id := l']> (n_heap n))).
Proof. intros Hi Er Ea Hc. split; try done; [apply same_conns_refl|]. by apply (same_slots_update _ _ l). Qed.

Lemma idle_table a : (match a with OnConn _ _ | Deregister _ | DrainQueue _ => False | _ => True end) -> idle a.
Proof. intros Ha. destruct a; try done; by split_and!. Qed.

(** The listener is marked closed, and is still in the table. *)
Lemma net_okP_close P (id : nat) l n :
  net_okP P n -> n_heap n !! id = Some l -> l_closed l = false ->
  net_okP (mkPending (pd_ends P) (id :: pd_unlisted P) (id :: pd_undrained P)) (set_heap n (<[id := set_l_closed l]> (n_heap n))).
Proof.
  intros [Hbk Ha Hl Hh Hb Hr Ho Ht Hp Hf Hpi] Hi Hcl. assert (id < length (n_heap n))%nat as Hlen by (by eapply lookup_lt_Some).
  split; cbn; try done.
  - by eapply addrs_update.
  - apply listeners_entries in Hl as (A1 & A2 & A3). apply listeners_entries. unfold listed in *. cbn. split_and!; [| |done].
    + intros peer port j He. destruct (A1 peer port j He) as (l0 & Hj & B1 & B2 & B3). destruct (decide (id = j)) as [<-|Hne].
      * exists (set_l_closed l). rewrite list_lookup_insert_eq by done. assert (l0 = l) as -> by congruence.
        split_and!; [done..|]. right. by left.
      * exists l0. rewrite list_lookup_insert_ne by done. split_and!; [done..|]. rewrite elem_of_cons. tauto.
    + intros j l0 Hj Hl0. destruct (decide (id = j)) as [<-|Hne].
      * rewrite list_lookup_insert_eq in Hj by done. injection Hj as <-. apply (A2 id l); auto.
      * rewrite list_lookup_insert_ne in Hj by done. apply A2; [done|]. rewrite elem_of_cons in Hl0. destruct Hl0 as [?|[?|?]]; [by left|congruence|by right].
  - intros j l0 Hj. destruct (decide (id = j)) as [<-|Hne].
    + rewrite list_lookup_insert_eq in Hj by done. injection Hj as <-. destruct (Hh id l Hi) as [Hq _]. split; [done|].
      intros _ Hd. exfalso. apply Hd. by left.
    + rewrite list_lookup_insert_ne in Hj by done. destruct (Hh j l0 Hj) as [H1 H2]. split; [done|]. intros Hc Hd. apply H2; [done|].
      intros Hd'. apply Hd. by right.
Qed.

Lemma act_mark id R acts n new n' :
  Forall (action_ok n) R -> runNetAction (MarkClosed id) n = (new, n') ->
  flat_ok (MarkClosed id :: R) n -> call_ok n (MarkClosed id :: acts) -> acted R acts n new n'.
Proof.
  intros Hall E Hfl Hc. cbn in E. pose proof (idle_table (MarkClosed id) I) as Hid.
  destruct (n_heap n !! id) as [l|] eqn:Hi; [|injection E as <- <-; by apply (acted_nothing (MarkClosed id))].
  unfold closeMark in E. destruct (l_closed l) eqn:Ecl; injection E as <- <-; [by apply (acted_nothing (MarkClosed id))|].
  pose proof (shrinks_update _ id l (set_l_closed l) Hi ltac:(done)) as Hh. set (n' := set_heap _ _) in *.
  assert (later n n') as Hla by (by apply table_later).
  assert (closed_listener n' id) as Hcl.
  { exists (set_l_closed l). unfold n'. cbn. by rewrite list_lookup_insert_eq by (by eapply lookup_lt_Some). }
  pose proof (proj1 (flat_idle _ R n Hid) Hfl) as HR. split; [|done|by apply (heap_call n id l)|].
  - apply (table_flat (MarkClosed id) R _ n); try done; [exact (net_okP_close (pend_acts R) id l n (fl_net _ _ HR) Hi Ecl)|]. cbn. constructor; [|exact (fl_unlisted _ _ HR)].
    intros (a & Ha & Hin)%(proj1 (proj2 (pend_elem R)) id). destruct a; try by apply elem_of_nil in Hin. cbn in Hin.
    apply list_elem_of_singleton in Hin as ->. rewrite Forall_forall in Hall. destruct (Hall _ Ha) as (l0 & Hl0 & Hc0). congruence.
  - apply (call_app _ [Deregister id; DrainQueue id]).
    + apply (call_app _ [Deregister id] [DrainQueue id]); [by apply call_single|by apply call_single|left; by constructor].
    + by apply (call_tail n _ (MarkClosed id)).
    + right. by apply (call_waits n (MarkClosed id)).
Qed.

Lemma net_okP_unlist P P' (id : nat) l n :
  net_okP P n -> n_heap n !! id = Some l -> l_closed l = true -> id ∈ pd_unlisted P -> id ∉ pd_unlisted P' ->
  (forall j, j <> id -> j ∈ pd_unlisted P <-> j ∈ pd_unlisted P') -> pd_ends P' = pd_ends P -> pd_undrained P' = pd_undrained P ->
  net_okP P' (deregister (l_addr l) n).
Proof.
  intros [Hbk Ha Hl Hh Hb Hr Ho Ht Hp Hf Hpi] Hi Hcl Hin Hout Hj Ee Ed. rewrite deregister_eq. split; cbn; try done.
  - apply listeners_entries in Hl as (A1 & A2 & A3). apply listeners_entries. unfold listed in *.
    assert (entry (n_listeners n) (addr_peer (l_addr l)) (addr_port (l_addr l)) = Some id) as He by (apply A2; auto).
    split_and!; [| |intros peer ports; by apply dropListener_nonempty].
    + intros peer port j. rewrite dropListener_entry. destruct (decide _) as [|Hn]; [done|]. intros Hje.
      destruct (A1 peer port j Hje) as (l0 & Hl0 & B1 & B2 & B3). exists l0. split_and!; [done..|].
      destruct (decide (j = id)) as [->|Hne]; [|by rewrite <- Hj]. exfalso. apply Hn. assert (l0 = l) as -> by congruence. by subst.
    + intros j l0 Hl0 Hlis. rewrite dropListener_entry. assert (j <> id) as Hne.
      { intros ->. assert (l0 = l) as -> by congruence. destruct Hlis as [?|?]; [congruence|done]. }
      rewrite <- Hj in Hlis by done. pose proof (A2 j l0 Hl0 Hlis) as E. rewrite decide_False; [done|].
      intros [E1 E2]. rewrite E1, E2, He in E. congruence.
  - intros j l0 Hl0. rewrite Ed. by apply Hh.
  - intros k. destruct (Hr k) as (B1 & B2 & B3). by rewrite Ee.
Qed.

Lemma act_deregister id R acts n new n' :
  runNetAction (Deregister id) n = (new, n') ->
  flat_ok (Deregister id :: R) n -> call_ok n (Deregister id :: acts) -> acted R acts n new n'.
Proof.
  intros E Hfl Hc. pose proof (co_actions _ _ Hc) as [(l & Hi & Hcl) _]%Forall_cons. cbn in E. rewrite Hi in E. injection E as <- <-.
  assert (deregister (l_addr l) n = set_listeners n (dropListener (l_addr l) (n_listeners n))) as En by apply deregister_eq.
  pose proof (fl_unlisted _ _ Hfl) as [Hnd1 Hnd2]%NoDup_cons.
  assert (later n (deregister (l_addr l) n)) as Hla by (rewrite En; apply table_later; [done..|apply shrinks_refl]).
  split; [|done| |].
  - apply (table_flat (Deregister id) R _ n); try done; try by rewrite En.
    apply (net_okP_unlist (pend_acts (Deregister id :: R)) _ id); try done; [exact (fl_net _ _ Hfl)|by left|].
    intros j Hne. cbn. rewrite elem_of_cons. tauto.
  - rewrite En. split; try done; [apply same_conns_refl|apply same_slots_refl].
  - by apply (call_tail n _ (Deregister id)).
Qed.

Lemma act_drain id R acts n new n' :
  runNetAction (DrainQueue id) n = (new, n') ->
  flat_ok (DrainQueue id :: R) n -> call_ok n (DrainQueue id :: acts) -> acted R acts n new n'.
Proof.
  intros E Hfl Hc. pose proof (co_actions _ _ Hc) as [(l & Hi & Hcl) _]%Forall_cons. cbn in E. rewrite Hi in E. unfold drainOne in E.
  destruct (l_incoming l) as [|c q] eqn:Eq; injection E as <- <-.
  - split; [|apply later_refl|apply call_frame_refl|apply (call_tail n _ (DrainQueue id)); [apply later_refl|done|done]].
    apply (table_flat (DrainQueue id) R _ n); try done; [|exact (fl_unlisted _ _ Hfl)].
    apply (net_okP_change (pend_acts (DrainQueue id :: R))); [exact (fl_net _ _ Hfl)|done|done|].
    intros j l0 Hj _ Hin Hout. cbn in Hin. apply elem_of_cons in Hin as [->|Hin]; [congruence|done].
  - assert (shrinks (n_heap n) (<[id := set_incoming l q]> (n_heap n))) as Hh
      by (apply (shrinks_update _ _ l); [done|]; cbn; rewrite Eq; cbn; split; [done|lia]). set (n' := set_heap _ _) in *.
    assert (later n n') as Hla by (by apply table_later). split; [|done|by apply (heap_call n id l)|].
    + apply (table_flat (DrainQueue id) R _ n); try done; [|exact (fl_unlisted _ _ Hfl)].
      change (net_okP (pend_acts (DrainQueue id :: R)) n'). destruct (ok_heap _ (fl_net _ _ Hfl) id l Hi) as [[B1 B2] _].
      apply (net_ok_heap _ _ l); try done; [exact (fl_net _ _ Hfl)| |intros _ Hd; exfalso; apply Hd; by left].
      rewrite Eq, zlen_cons in B2. split; cbn; [done|lia].
    + apply (call_app _ [OnConn (fst c) (DoClosed (snd c)); DrainQueue id]).
      * apply (call_app _ [OnConn (fst c) (DoClosed (snd c))] [DrainQueue id]); [by apply call_single|apply call_single; try done|by right; constructor].
        apply (la_listener n); [done|by exists l].
      * by apply (call_tail n _ (DrainQueue id)).
      * right. by apply (call_waits n (DrainQueue id)).
Qed.
End steps.
