(* ===== verification/CallsStep.v ===== *)
(** * The invariant of a cut system, in every state it reaches *)
From S2P Require Import Prelude GoRuntime Errors Float64 Rand Partition Trace PipeState Faults FaultProps Pipe.
From S2P Require Import PipeInv Deadline Options Conn ConnProps ConnRace NetIP NetIPProps NetIP6 Addr Addressing.
From S2P Require Import Replay Directions Listener Network NetworkInv NetworkFrame NetworkListen NetworkDial DialThreads DialSystem.
From S2P Require Import NetCalls CallsFrame CallsInv CallsActs CallsSteps.

Section step.
Context {Src : Type} `{!DrawSource Src} `{!RejectFuel} `{!Platform}.
Implicit Types (n : Network Src) (lk : link Src) (c : connRef) (acts R : list netAction) (ds : list dialThread) (calls : list callThread).

(** ** The calls on a pair *)

(** An action that leaves the connections, the registry and the listeners alone. *)
Lemma act_table a b R acts n n' :
  idle a -> idle b -> (forall i x, a <> OnConn i x) -> (forall i x, b <> OnConn i x) -> action_ok n' b -> plain a = false ->
  n_conns n' = n_conns n -> n_resetTargets n' = n_resetTargets n -> n_heap n' = n_heap n -> call_frame n n' ->
  net_okP (pend_acts R) n' -> flat_ok (a :: R) n -> call_ok n (a :: acts) -> acted R acts n [b] n' /\ acted R acts n [] n'.
Proof.
  intros Ha Hb Na Nb Hok Hp Ec Et Eh Hf Hnet Hfl Hc.
  assert (later n n') as Hla by (apply table_later; [done..|]; rewrite Eh; apply shrinks_refl).
  pose proof (proj1 (flat_idle a R n Ha) Hfl) as HR.
  assert (flat_ok R n') as HR'.
  { apply (table_flat a R [] n); try done. exact (fl_unlisted _ _ HR). }
  assert (call_ok n' acts) as Hc' by (apply (call_tail n n' a); [done|intros i s E; by destruct (Na _ _ E)|done]).
  split; split; try done.
  - by apply flat_idle.
  - apply (call_app _ [b]); [|done|right; by apply (call_waits n a)]. apply call_single; [done|intros i w E; by destruct (Nb _ _ E)|intros i s E; by destruct (Nb _ _ E)].
Qed.

Lemma resetActions_pend ts R :
  (forall c, c ∈ pd_ends (pend_acts (resetActions ts ++ R)) <-> c ∈ ts \/ c ∈ pd_ends (pend_acts R)) /\
  pd_unlisted (pend_acts (resetActions ts ++ R)) = pd_unlisted (pend_acts R) /\
  pd_undrained (pend_acts (resetActions ts ++ R)) = pd_undrained (pend_acts R).
Proof.
  assert (forall (f : netAction -> list nat), (forall c, f (signalAction c) = []) -> (forall c, f (abortAction c) = []) ->
    concat (map f (resetActions ts)) = []) as Hnil.
  { intros f H1 H2. unfold resetActions. rewrite map_app, concat_app, !map_map.
    induction ts as [|t ts' IH] using rev_ind; [done|]. clear IH.
    assert (forall (g : connRef -> list nat) l, (forall c, g c = []) -> concat (map g l) = []) as Hg
      by (intros g l Hg; induction l as [|x l IH]; cbn; [done|by rewrite Hg, IH]).
    by rewrite !Hg. }
  split; [|cbn; rewrite !map_app, !concat_app, !Hnil; done].
  intros c. cbn. rewrite map_app, concat_app, elem_of_app, elem_concat_map. split.
  - intros [(a & Ha & Hc)|?]; [left|by right]. unfold resetActions in Ha.
    apply elem_of_app in Ha as [([i s] & -> & Ht)%list_elem_of_fmap|(t & -> & Ht)%list_elem_of_fmap]; [|by apply elem_of_nil in Hc].
    apply list_elem_of_singleton in Hc as ->. done.
  - intros [Hc|?]; [left|by right]. exists (signalAction c). split; [|destruct c; by left]. unfold resetActions.
    apply elem_of_app. left. apply list_elem_of_fmap. by exists c.
Qed.

(** [Reset] takes the targets of the pair. *)
Lemma act_take k R acts n :
  let ts := targets (n_resetTargets n) k in
  flat_ok (ApplyPair ResetPair k :: R) n -> call_ok n (ApplyPair ResetPair k :: acts) ->
  acted R acts n (resetActions ts) (set_resetTargets n (delete k (n_resetTargets n))).
Proof.
  intros ts Hfl Hc. set (n' := set_resetTargets _ _). pose proof (proj1 (flat_idle _ R n (idle_table (ApplyPair ResetPair k) I)) Hfl) as [H1 H2 H3 H4 H5].
  destruct (resetActions_pend ts R) as (P1 & P2 & P3).
  assert (forall q c, c ∈ targets (n_resetTargets n') q <-> c ∈ targets (n_resetTargets n) q /\ q <> k) as Ht.
  { intros q c. unfold n'. cbn. rewrite targets_delete. destruct (decide (q = k)) as [->|Hne]; [|tauto].
    split; [by intros ?%elem_of_nil|by intros [_ ?]]. }
  assert (forall q c, c ∈ targets (n_resetTargets n) q -> c ∈ ts -> q = k) as Huniq.
  { intros q c Hq Hk. apply (proj1 (proj2 (ok_registry _ H1 q))) in Hq as (lk & E & Hq). apply (proj1 (proj2 (ok_registry _ H1 k))) in Hk as (lk' & E' & Hk).
    assert (lk' = lk) as -> by congruence. destruct (Hq sideDialer), (Hk sideDialer). congruence. }
  assert (later n n') as Hla by (split; [apply (la_flags _ _ (later_refl n))|intros q c [Hin _]%Ht; by left|apply shrinks_refl]).
  split; [split|done|apply set_resetTargets_call|].
  - destruct H1 as [Hbk Ha [A1 A2 A3] Hh Hb Hr Ho Htr Hp Hf Hpi]. split; try done.
    + split; unfold listed in *; rewrite ?P2; done.
    + intros id l Hi. rewrite P3. by apply Hh.
    + intros q. destruct (Hr q) as (B1 & B2 & B3). split; [|split].
      * unfold n'. cbn. rewrite targets_delete. destruct (decide _); [constructor|done].
      * intros c [Hin _]%Ht. by apply B2.
      * intros c Hc'. rewrite P1 in Hc'. rewrite Ht. split; [intros [Hin _]; apply B3; tauto|]. intros Hl.
        apply B3 in Hl; [|tauto]. split; [done|]. intros ->. by apply Hc'; left.
  - done.
  - intros q i s [Hin Hne]%Ht. destruct (H3 q i s Hin) as [?|?]; [by left|right; by apply Ht].
  - by rewrite P2.
  - intros i lk Hi. eapply torn_left; [..|by apply (H5 i lk)]; cbn; intros; apply elem_of_app; by right.
  - apply call_app.
    + apply resetActions_ok. intros c Hin. split.
      * destruct (proj1 (proj2 (ok_registry _ H1 k)) c Hin) as (lk & E & _). split; [by exists lk|]. intros q [Hq Hne]%Ht.
        destruct c as [i s]. by apply Hne, (Huniq q (i, s)).
      * destruct c as [i s]. apply (H3 k i s Hin).
    + by apply (call_tail n n' (ApplyPair ResetPair k)).
    + right. by apply (call_waits n (ApplyPair ResetPair k)).
Qed.

(** ** Every action *)

Lemma act_onConn i x R acts n new n' :
  (forall a, a ∈ acts -> a ∈ R) -> runOnConn i x n = (new, n') ->
  flat_ok (OnConn i x :: R) n -> call_ok n (OnConn i x :: acts) -> acted R acts n new n'.
Proof.
  intros Hsub E Hfl Hc. destruct x as [s|s|s|w|s|s| |s].
  - cbn in E. destruct (n_conns n !! i) as [lk|] eqn:Hi; [|injection E as <- <-; by apply (acted_nothing (OnConn i (DoClosed s))); try apply idle_conn].
    destruct (c_closed (end_of lk s)) eqn:Ecl; injection E as <- <-; [by apply (acted_nothing (OnConn i (DoClosed s))); try apply idle_conn|].
    by eapply act_closed.
  - pose proof (act_deregisterReset i s R acts n Hfl Hc) as Ha. assert (new = []) as ->.
    { cbn in E. by destruct (n_conns n !! i); injection E as <- _. }
    by rewrite E in Ha.
  - injection E as <- <-. by apply act_closeWrite.
  - injection E as <- <-. by apply act_abort.
  - injection E as <- <-. by apply act_stopRead.
  - injection E as <- <-. by apply act_stopWrite.
  - injection E as <- <-. by apply (acted_nothing (OnConn i DoTake)); try apply idle_conn.
  - injection E as <- <-. by apply act_signal.
Qed.

Lemma run_acted a R acts n new n' :
  (forall b, b ∈ acts -> b ∈ R) -> Forall (action_ok n) R -> runNetAction a n = (new, n') ->
  flat_ok (a :: R) n -> call_ok n (a :: acts) -> acted R acts n new n'.
Proof.
  intros Hsub Hall E Hfl Hc. destruct a as [i x|id|id|id|f pa pb|f pa pb|f k].
  - by eapply act_onConn.
  - by eapply act_mark.
  - by eapply act_deregister.
  - by eapply act_drain.
  - cbn in E. destruct (resolvePeer pa n) as [peer n1] eqn:Er. injection E as <- <-.
    pose proof (proj1 (flat_idle _ R n (idle_table (NameFirst f pa pb) I)) Hfl) as HR.
    destruct (resolvePeer_ok _ _ _ _ (fl_net _ _ HR) Er) as (H1 & En & Hle & _). set (book := n_book n1) in *. clearbody book. subst n1.
    apply (act_table (NameFirst f pa pb) (NameSecond f peer pb)); try done; try (by apply idle_table). by apply set_book_call.
  - cbn in E. destruct (resolvePeer pb n) as [peer n1] eqn:Er. injection E as <- <-.
    pose proof (proj1 (flat_idle _ R n (idle_table (NameSecond f pa pb) I)) Hfl) as HR.
    destruct (resolvePeer_ok _ _ _ _ (fl_net _ _ HR) Er) as (H1 & En & Hle & _). set (book := n_book n1) in *. clearbody book. subst n1.
    apply (act_table (NameSecond f pa pb) (ApplyPair f (newPairKey pa peer))); try done; try (by apply idle_table). by apply set_book_call.
  - destruct f; injection E as <- <-; [| |by apply act_take].
    + pose proof (proj1 (flat_idle _ R n (idle_table (ApplyPair PartitionPair k) I)) Hfl) as HR.
      apply (act_table (ApplyPair PartitionPair k) (ApplyPair PartitionPair k)); try done; try (by apply idle_table); [apply set_part_call|].
      apply net_ok_part, HR.
    + pose proof (proj1 (flat_idle _ R n (idle_table (ApplyPair HealPair k) I)) Hfl) as HR.
      apply (act_table (ApplyPair HealPair k) (ApplyPair HealPair k)); try done; try (by apply idle_table); [apply set_part_call|].
      apply net_ok_part, HR.
Qed.

(** ** Systems *)

Record cut_ok (s : callSys Src) : Prop := {
  cu_flat : flat_ok (all_acts (cs_calls s)) (cs_net s);
  cu_threads : threads_ok (cs_net s) (cs_dials s);
  cu_calls : Forall (fun t => call_ok (cs_net s) (ct_acts t)) (cs_calls s)
}.

Lemma flat_quiet R n n' : quiet n n' -> net_okP (pend_acts R) n' -> flat_ok R n -> flat_ok R n'.
Proof.
  intros Hq Hnet [H1 H2 H3 H4 H5].
  assert (forall i lk', n_conns n' !! i = Some lk' -> fresh_flags lk' \/ exists lk, n_conns n !! i = Some lk /\ same_flags lk lk') as Hcase.
  { intros i lk' Hi'. destruct (n_conns n !! i) as [lk|] eqn:Hi; [right|left; by eapply (qu_new _ _ Hq)].
    destruct (qu_conns _ _ Hq i lk Hi) as (lk1 & Hi1 & Hf). exists lk. split; [done|]. by assert (lk' = lk1) as -> by congruence. }
  split; [done| | |done|].
  - intros i lk' [Hf|(lk & Hi & Hf)]%Hcase.
    + intros w. destruct (Hf w) as (_ & _ & -> & ->). done.
    + apply (pipe_marks_le lk); [by apply same_flags_le| |by eapply H2]. intros w. destruct (Hf w) as (_ & _ & Ha & Hb). done.
  - intros k i s Hin. destruct (qu_targets _ _ Hq k _ Hin) as [Hold|[_ Ho]]; [|by right].
    destruct (H3 k i s Hold) as [Hc|Ho]; [left|right; by apply (qu_kept _ _ Hq)]. by apply (la_closed _ _ _ (quiet_later _ _ Hq)).
  - intros i lk' [Hf|(lk & Hi & Hf)]%Hcase s.
    + destruct (Hf s) as (-> & -> & _). done.
    + destruct (H5 i lk Hi s) as [A1 A2], (Hf s) as (-> & -> & -> & _), (Hf (other s)) as (_ & _ & _ & ->). split; [done|].
      intros Hr w. destruct (Hf w) as (_ & _ & _ & ->). by apply A2.
Qed.

Lemma cut_later n n' calls : later n n' -> Forall (fun t => call_ok n (ct_acts t)) calls -> Forall (fun t => call_ok n' (ct_acts t)) calls.
Proof. intros Hla Hc. eapply Forall_impl; [exact Hc|]. intros t. by apply call_later. Qed.

Lemma program_idle p : exists a, callProgram p = [a] /\ idle a /\ forall n, call_ok n [a].
Proof.
  destruct p as [c|id|f a b]; cbn; eexists; (split; [done|]); (split; [try (by apply idle_conn); by apply idle_table|]);
    intros n; by apply call_single.
Qed.

Lemma cut_started n ds calls w p : cut_ok (mkCallSys n ds calls) -> cut_ok (mkCallSys n ds (calls ++ [mkCallThread w (callProgram p)])).
Proof.
  intros [Hfl Hth Hc]. destruct (program_idle p) as (a & -> & Hi & Ha). cbn in *. split; cbn; [|done|].
  - unfold all_acts in *. rewrite map_app, concat_app. cbn. eapply flat_perm; [|by apply flat_idle, Hfl]. by rewrite Permutation_app_comm.
  - apply Forall_app. split; [done|]. apply Forall_singleton, Ha.
Qed.

Lemma cut_quiet n ds calls n' ds' :
  quiet n n' -> sys_okP (pend_acts (all_acts calls)) (n', ds') -> cut_ok (mkCallSys n ds calls) -> cut_ok (mkCallSys n' ds' calls).
Proof.
  intros Hq [Hok Hth'] [Hfl Hth Hc]. split; cbn in *; [by eapply flat_quiet|done|]. eapply cut_later; [by apply quiet_later|done].
Qed.

Lemma cut_run k s s' : cut_ok s -> callStep k s = Some s' -> cut_ok s' /\ later (cs_net s) (cs_net s').
Proof.
  intros [Hfl Hth Hc] E. destruct s as [n ds calls]. unfold callStep in E. cbn in *.
  destruct (calls !! k) as [[w [|a acts]]|] eqn:Hk; [done| |done]. destruct (ready a calls); [|done].
  destruct (runNetAction a n) as [new n'] eqn:Er. injection E as <-.
  destruct (update_perm calls k _ (mkCallThread w (new ++ acts)) Hk) as (rest & P1 & P2).
  assert (all_acts calls ≡ₚ a :: acts ++ all_acts rest) as Q1 by (unfold all_acts; by rewrite P1).
  assert (new ++ acts ++ all_acts rest ≡ₚ all_acts (<[k := mkCallThread w (new ++ acts)]> calls)) as Q2
    by (unfold all_acts; rewrite P2; cbn; by rewrite app_assoc).
  rewrite P1 in Hc. apply Forall_cons in Hc as [Hcall Hrest]. cbn in Hcall.
  destruct (run_acted a (acts ++ all_acts rest) acts n new n') as [F1 F2 F3 F4]; try done.
  - intros b Hb. apply elem_of_app. by left.
  - apply Forall_app. split; [exact (Forall_inv_tail (co_actions _ _ Hcall))|]. apply Forall_forall. intros b (t & Ht & Hb)%elem_concat_map.
    rewrite Forall_forall in Hrest. pose proof (co_actions _ _ (Hrest t Ht)) as Hf. rewrite Forall_forall in Hf. by apply Hf.
  - by apply (flat_perm (all_acts calls)).
  - split; [|done]. split; cbn.
    + by apply (flat_perm (new ++ acts ++ all_acts rest)).
    + by eapply threads_call.
    + rewrite P2. constructor; [done|]. by apply (cut_later n).
Qed.

Lemma cut_closedOff n ds (j : nat) d i : threads_ok n ds -> ds !! j = Some d -> dt_pc d = ClosingOff i -> threads_ok n (<[j := set_pc d (Connected i)]> ds).
Proof.
  intros Hth Hj Ed. destruct (update_perm ds j d (set_pc d (Connected i)) Hj) as (rest & P1 & P2).
  apply (threads_perm n (set_pc d (Connected i) :: rest)); [by rewrite P2|]. apply (threads_place n d); [|by eapply threads_perm].
  rewrite Ed. split; cbn; try done; auto.
Qed.

Lemma calls_step_ok s s' : cut_ok s -> calls_step s s' -> cut_ok s' /\ later (cs_net s) (cs_net s').
Proof.
  intros Hs Hst. destruct Hst as [n n' ds calls Hst|n ds calls ctx network a|n ds calls j d pref pick now d' n' Hj Hr Hpick Hlt E
    |n ds calls j d i Hj Ed Hno|n ds calls j d i k Hj Ed Hk|n ds calls p Hp|s k s' E].
  - destruct (Hs) as [[Hnet _ _ _ _] Hth _]. cbn in *. pose proof (section_quiet _ _ Hnet Hst) as Hq. split; [|by apply quiet_later].
    eapply cut_quiet; [done| |done]. split; cbn; [by eapply section_step_ok|].
    eapply threads_call; [by eapply section_step_frame|done].
  - split; [|apply later_refl]. eapply cut_quiet; [apply untouched_quiet| |done]. apply start_ok. split; apply Hs.
  - destruct (Hs) as [[Hnet _ _ _ _] Hth _]. cbn in *.
    assert (quiet n n') as Hq by (eapply thread_quiet; [done| |done]; intros i Ed; by rewrite Ed in Hr). split; [|by apply quiet_later].
    eapply cut_quiet; [done| |done]. eapply thread_step_ok; [|done..]. by split.
  - split; [by apply cut_started|apply later_refl].
  - split; [|apply later_refl]. destruct Hs as [Hfl Hth Hc]. cbn in *. split; cbn; [done|by apply cut_closedOff|done].
  - split; [by apply cut_started|apply later_refl].
  - by eapply cut_run.
Qed.

Lemma calls_run_ok s s' : cut_ok s -> rtc calls_step s s' -> cut_ok s'.
Proof. intros Hs. induction 1 as [|s1 s2 s3 Hst _ IH]; [done|]. apply IH. by apply (calls_step_ok _ _ Hs Hst). Qed.

Lemma new_cut_ok vs n : Forall option_typed vs -> NewNetwork (map (fun o => Some (optionOf o)) vs) = Ret n -> cut_ok (mkCallSys n [] []).
Proof.
  intros Hvs E. destruct (new_system_ok vs n Hvs E) as [Hnet Hth]. destruct (NewNetwork_empty _ _ E) as (E1 & E2 & E3).
  cbn in *. split; cbn; [|done|constructor]. split; cbn; try done.
  - intros i lk. by rewrite E2.
  - intros k i s Hin. apply (proj1 (proj2 (ok_registry _ Hnet k))) in Hin as (lk & Hi & _). by rewrite E2 in Hi.
  - constructor.
  - intros i lk. by rewrite E2.
Qed.

Lemma calls_reachable_ok s : calls_reachable s -> cut_ok s.
Proof. intros (vs & n & Hvs & E & Hrun). eapply calls_run_ok; [|exact Hrun]. by eapply new_cut_ok. Qed.
End step.
