(* ===== verification/CallsProps.v ===== *)
(** * What holds of a Network whose calls are cut

    The invariant of a Network in between the actions of Close, Reset and the
    others; what they leave behind once they are over; and what a Read or a Write
    among them reports. *)
From S2P Require Import Prelude GoRuntime Errors Float64 Rand Partition Trace PipeState Faults FaultProps Pipe PipeInv.
From S2P Require Import Deadline Options Conn ConnProps ConnRace NetIP NetIPProps NetIP6 Addr Addressing.
From S2P Require Import Replay Directions Listener Network NetworkInv NetworkFrame DialThreads DialSystem NetSpec NetSystem.
From S2P Require Import NetCalls CallsFrame CallsInv CallsActs CallsSteps CallsStep.

Section props.
Context {Src : Type} `{!DrawSource Src} `{!RejectFuel} `{!Platform}.
Implicit Types (n : Network Src) (lk : link Src) (s : callSys Src) (t : ioThread).

Lemma over_acts s : calls_over s -> all_acts (cs_calls s) = [].
Proof.
  unfold calls_over, all_acts. induction 1 as [|t calls E _ IH]; [done|]. cbn. by rewrite E.
Qed.

(** C6: whatever the interleaving of the sections of Close, of a Close of a
    listener, of Partition, Heal and Reset with one another, with dials and with
    every other call, the Network is well formed up to what the calls in progress
    have left to do, the dials' accounts hold, and once no call is in progress
    the Network is well formed, as if each call had run in one piece. *)
Theorem cut_calls_invariant s :
  calls_reachable s ->
  net_okP (pend_acts (all_acts (cs_calls s))) (cs_net s) /\ threads_ok (cs_net s) (cs_dials s) /\
  (calls_over s -> net_ok (cs_net s)).
Proof.
  intros Hs. destruct (calls_reachable_ok s Hs) as [Hfl Hth _]. split; [apply Hfl|]. split; [done|].
  intros Hover. pose proof (fl_net _ _ Hfl) as Hnet. by rewrite (over_acts s Hover) in Hnet.
Qed.

(** C7: no teardown is lost. Once no call is in progress, an end that was closed
    has closed the pipe it writes, aborted the one it reads and left the
    registry; an end that was reset has left it too, and both its pipes are
    aborted; a listener that was closed has an empty queue and is out of the
    table; and only these ends and listeners are. *)
Theorem teardown_complete s :
  calls_reachable s -> calls_over s ->
  (forall i lk e, n_conns (cs_net s) !! i = Some lk ->
     (c_closed (end_of lk e) = true -> p_closed (writePipe lk e) = true /\ p_readClosed (readPipe lk e) = true) /\
     (c_reset (end_of lk e) = true -> forall w, p_readClosed (writePipe lk w) = true)) /\
  (forall k c, c ∈ targets (n_resetTargets (cs_net s)) k <-> live_end (n_conns (cs_net s)) k c) /\
  (forall id l, n_heap (cs_net s) !! id = Some l ->
     (l_closed l = true -> l_incoming l = []) /\
     (l_closed l = false <-> entry (n_listeners (cs_net s)) (addr_peer (l_addr l)) (addr_port (l_addr l)) = Some id)).
Proof.
  intros Hs Hover. pose proof (calls_reachable_ok s Hs) as [Hfl _ _]. rewrite (over_acts s Hover) in Hfl.
  pose proof (fl_net _ _ Hfl) as Hnet. change (net_ok (cs_net s)) in Hnet. split; [|split].
  - intros i lk e Hi. destruct (fl_torn _ _ Hfl i lk Hi e) as [H1 H2]. split.
    + intros [[?|?%elem_of_nil] [?|?%elem_of_nil]]%H1; done.
    + intros Hr w. by destruct (H2 Hr w) as [?|?%elem_of_nil].
  - intros k c. by apply registry_live.
  - intros id l Hi. split; [by apply (backlog_drained _ id l Hnet Hi)|]. destruct (table_open _ Hnet) as [A1 A2].
    split; [by apply A2|]. intros (l' & Hi' & _ & _ & Hc)%A1. congruence.
Qed.

(** ** A Read or a Write among them *)

Inductive io_among : ioThread * callSys Src -> ioThread * callSys Src -> Prop :=
| ia_others t s s' : calls_step s s' -> io_among (t, s) (t, s')
| ia_own now t t' n n' ds calls :
    io_room t n -> ioStep now t n = Ret (t', n') -> io_among (t, mkCallSys n ds calls) (t', mkCallSys n' ds calls).

(** What is known of a call where it is. *)
Definition io_truth t n : Prop :=
  exists lk, n_conns n !! fst (io_ref t) = Some lk /\
    match io_call t with ReadCall _ pc => read_pc_ok (snd (io_ref t)) pc lk | WriteCall _ pc => write_pc_ok (snd (io_ref t)) pc lk end.

Lemma io_truth_later t n n' : later n n' -> io_truth t n -> io_truth t n'.
Proof.
  intros Hla (lk & Hi & Ht). destruct (la_flags _ _ Hla _ lk Hi) as (lk' & Hi' & Hle). exists lk'. split; [done|].
  destruct (io_call t); [by eapply read_pc_le|by eapply write_pc_le].
Qed.

Lemma ioStep_section now t n t' n' : io_room t n -> ioStep now t n = Ret (t', n') -> n' = n \/ section_step n n'.
Proof.
  intros Hroom E. destruct (ioStep_effect now t n t' n' E) as (lk & Hi & Er & He). unfold io_room in Hroom.
  destruct He as [size dch r p Et|size pc pc' Htry Est|data dch r p Et|data pc pc' Htry Est]; [right|by left|right|by left].
  - change p with (snd (r, p)). unfold readPipe in Et. rewrite <- Et. by apply st_tryRead.
  - destruct Hroom as [Hlen Hroom]. eapply st_tryWrite; [exact Hi|exact Hlen| |exact Et]. by apply Hroom.
Qed.

Lemma io_truth_own P now t n t' n' :
  net_okP P n -> (forall i lk, n_conns n !! i = Some lk -> pipe_marks lk) -> io_room t n -> ioStep now t n = Ret (t', n') ->
  io_truth t n -> io_truth t' n'.
Proof.
  intros Hnet Hm Hroom E (lk & Hi & Ht). destruct t as [[i e] call]. cbn in Hi. unfold ioStep in E. cbn in E. rewrite Hi in E. cbn in E.
  assert ((i < length (n_conns n))%nat) as Hlen by (by eapply lookup_lt_Some). destruct call as [size pc|data pc].
  - destruct (readStep (viewAt now n) size e pc lk) as [pc' lk'] eqn:Es. injection E as <- <-.
    exists lk'. cbn. rewrite list_lookup_insert_eq by done. split; [done|]. by eapply readStep_ok; [by eapply Hm|exact Ht|exact Es].
  - apply go_bind_ret in E as ([pc' lk'] & Es & [= <- <-]). exists lk'. cbn. rewrite list_lookup_insert_eq by done. split; [done|].
    destruct Hroom as [Hz _]. eapply writeStep_ok; [by eapply Hm| |exact Ht|exact Es].
    eapply direction_write_env; [exact (ok_pipes _ Hnet i lk Hi e)|done|apply Hnet|done].
Qed.

Lemma io_among_ref x y : rtc io_among x y -> io_ref (fst y) = io_ref (fst x).
Proof.
  induction 1 as [|x y z Hst _ IH]; [done|]. rewrite IH. destruct Hst as [t s s' _|now t t' n n' ds calls _ E]; [done|].
  by destruct (ioStep_effect _ _ _ _ _ E) as (lk & _ & Er & _).
Qed.

Lemma io_among_ok t s t' s' :
  cut_ok s -> io_truth t (cs_net s) -> io_among (t, s) (t', s') -> cut_ok s' /\ io_truth t' (cs_net s').
Proof.
  intros Hs Ht Hst. inversion Hst as [? ? ? Hstep|now ? ? n n' ds calls Hroom E]; subst.
  - destruct (calls_step_ok _ _ Hs Hstep) as [Hs' Hla]. split; [done|]. by eapply io_truth_later.
  - pose proof (cu_flat _ Hs) as Hfl. cbn in *. split; [|by eapply io_truth_own; [apply Hfl|apply Hfl|done|done|done]].
    destruct (ioStep_section _ _ _ _ _ Hroom E) as [->|Hst']; [done|]. by eapply calls_step_ok, cs_section.
Qed.

(** C8: in a whole Network whose calls are cut at their sections, a Read or a
    Write that fails tells the truth. From its start to its return, with any
    Close, Reset and Close of a listener in the middle of their work: a Read
    reports EOF, and a Write a broken pipe, only if the peer has closed, never
    because of a Reset or of this end's own Close, although both tear the same
    pipes down; net.ErrClosed only if this end was closed, ECONNRESET only if it
    was reset; and no data moved. *)
Theorem io_failures_truthful t s t' s' :
  calls_reachable s -> is_Some (n_conns (cs_net s) !! fst (io_ref t)) ->
  (exists size, io_call t = ReadCall size CheckClosed) \/ (exists data, io_call t = WriteCall data CheckClosed) ->
  rtc io_among (t, s) (t', s') ->
  exists lk, n_conns (cs_net s') !! fst (io_ref t) = Some lk /\
    match io_call t' with
    | ReadCall _ (Return out (Some err)) => read_failure lk (snd (io_ref t)) out err
    | WriteCall _ (Return k (Some err)) => write_failure lk (snd (io_ref t)) k err
    | _ => True
    end.
Proof.
  intros Hs [lk Hi] Hstart Hrun.
  assert (io_truth t (cs_net s)) as Ht by (exists lk; split; [done|]; by destruct Hstart as [[size ->]|[data ->]]).
  assert (forall x y, rtc io_among x y -> cut_ok (snd x) -> io_truth (fst x) (cs_net (snd x)) -> io_truth (fst y) (cs_net (snd y))) as Hgen.
  { intros x y Hxy. induction Hxy as [x|[t1 s1] [t2 s2] z H1 H2 IH]; [done|]. cbn. intros Hs1 Ht1.
    destruct (io_among_ok _ _ _ _ Hs1 Ht1 H1) as [Hs2 Ht2]. by apply IH. }
  destruct (Hgen _ _ Hrun (calls_reachable_ok s Hs) Ht) as (lk' & Hi' & Ht').
  cbn [fst snd] in Hi', Ht'. pose proof (io_among_ref _ _ Hrun) as Er. cbn [fst] in Er. rewrite Er in Hi', Ht'. exists lk'. split; [done|].
  destruct (io_call t') as [size pc|data pc]; destruct pc as [| | | | | | | | |out [err|]]; done.
Qed.
End props.
