(* ===== verification/CallsDone.v ===== *)
(** * Calls end

    A call takes finitely many actions, whatever runs in between, and calls in
    progress never all wait for one another. With nothing in between, a call is
    the operation of [Network]. *)
From S2P Require Import Prelude GoRuntime Errors Float64 Rand Partition Trace PipeState Faults FaultProps Pipe PipeInv.
From S2P Require Import Deadline Options Conn ConnProps ConnRace NetIP NetIPProps NetIP6 Addr Addressing.
From S2P Require Import Replay Directions Listener Network NetworkInv NetworkFrame DialThreads DialSystem.
From S2P Require Import NetCalls CallsFrame CallsInv CallsActs CallsSteps CallsStep.

(** ** Measures *)

(** The phases a call has yet to enter. *)
Definition phases (a : netAction) : nat :=
  match a with NameFirst _ _ _ => 3 | NameSecond _ _ _ => 2 | ApplyPair _ _ | MarkClosed _ => 1 | _ => 0 end.

Definition total (f : netAction -> nat) (acts : list netAction) : nat := list_sum (map f acts).

Lemma total_app f xs ys : total f (xs ++ ys) = (total f xs + total f ys)%nat.
Proof. unfold total. by rewrite map_app, list_sum_app. Qed.

Lemma total_cons f a acts : total f (a :: acts) = (f a + total f acts)%nat.
Proof. done. Qed.

Section done.
Context {Src : Type} `{!DrawSource Src} `{!RejectFuel} `{!Platform}.
Implicit Types (n : Network Src) (lk : link Src) (s : callSys Src) (acts R : list netAction).

(** The actions of its phase: a Close is six, and the drain of a queue closes
    each connection in it. *)
Definition queued n (id : nat) : nat := match n_heap n !! id with Some l => length (l_incoming l) | None => 0 end.

Definition size n (a : netAction) : nat :=
  match a with
  | OnConn _ (DoClosed _) => 6
  | OnConn _ _ | Deregister _ => 1
  | DrainQueue id => 1 + 7 * queued n id
  | _ => 0
  end.

Definition measure n acts : nat * nat := (total phases acts, total (size n) acts).

Definition smaller (x y : nat * nat) : Prop := (fst x < fst y \/ fst x = fst y /\ snd x < snd y)%nat.

Lemma smaller_wf : well_founded smaller.
Proof.
  intros [a b]. revert b. induction (lt_wf a) as [a _ IHa]. intros b. induction (lt_wf b) as [b _ IHb].
  constructor. intros [a' b'] [Hlt|[E Hlt]]; cbn in *; [by apply IHa|]. subst. by apply IHb.
Qed.

(** What other steps do to the actions left over: nothing grows. *)
Lemma size_later n n' acts : later n n' -> Forall (action_ok n) acts -> (total (size n') acts <= total (size n) acts)%nat.
Proof.
  intros Hla. induction 1 as [|a acts Ha _ IH]; [done|]. rewrite !total_cons.
  assert (size n' a <= size n a)%nat; [|lia]. destruct a as [i []|id|id|id|f x y|f x y|f k]; cbn; try lia.
  destruct Ha as (l & Hi & Hc). destruct (la_heap _ _ Hla id l Hi Hc) as (l' & Hi' & _ & Hle). unfold queued. rewrite Hi, Hi'. lia.
Qed.

Lemma total_size_map n (f : connRef -> netAction) cs :
  (forall c, phases (f c) = 0%nat) -> total phases (map f cs) = 0%nat.
Proof. intros Hf. induction cs as [|c cs IH]; [done|]. cbn [map]. by rewrite total_cons, Hf, IH. Qed.

(** An action goes down. *)
Lemma run_smaller a n new n' : runNetAction a n = (new, n') -> smaller (measure n' new) (measure n [a]).
Proof.
  unfold smaller, measure, total. destruct a as [i x|id|id|id|f x y|f x y|f k]; cbn -[Nat.mul].
  - destruct x; cbn; try (intros [= <- <-]; cbn; lia); destruct (n_conns n !! i) as [lk|]; try (intros [= <- <-]; cbn; lia).
    destruct (c_closed _); intros [= <- <-]; cbn; lia.
  - destruct (n_heap n !! id) as [l|]; [|intros [= <- <-]; cbn; lia]. destruct (closeMark l) as [[] l']; intros [= <- <-]; cbn; lia.
  - destruct (n_heap n !! id) as [l|]; intros [= <- <-]; cbn; lia.
  - unfold queued at 1. destruct (n_heap n !! id) as [l|] eqn:Hi; [|intros [= <- <-]; cbn; lia]. unfold drainOne.
    destruct (l_incoming l) as [|c q] eqn:Eq; intros [= <- <-]; cbn -[Nat.mul]; [lia|].
    unfold queued. cbn. rewrite list_lookup_insert_eq by (by eapply lookup_lt_Some). cbn -[Nat.mul]. lia.
  - destruct (resolvePeer x n). intros [= <- <-]. cbn. lia.
  - destruct (resolvePeer y n). intros [= <- <-]. cbn. lia.
  - destruct f; intros [= <- <-]; cbn; try lia. left. change (total phases (resetActions (default [] (n_resetTargets n !! k))) < 1)%nat.
    unfold resetActions. rewrite total_app, !(total_size_map n) by done. lia.
Qed.

Lemma measure_run a acts n new n' :
  later n n' -> Forall (action_ok n) acts -> runNetAction a n = (new, n') -> smaller (measure n' (new ++ acts)) (measure n (a :: acts)).
Proof.
  intros Hla Hall E. pose proof (size_later n n' acts Hla Hall) as Hle.
  assert (forall m, measure m (a :: acts) = (total phases [a] + total phases acts, total (size m) [a] + total (size m) acts)%nat) as ->
    by (intros m; unfold measure; by rewrite <- !total_app).
  unfold measure at 1. rewrite !total_app. destruct (run_smaller a n new n' E) as [Hlt|[E1 Hlt]]; unfold smaller, measure in *; cbn [fst snd] in *; lia.
Qed.

(** ** Every call ends *)

(** One action of some call. *)
Definition callRuns s s' : Prop := exists k, callStep k s = Some s'.

(** One action of call [k], after anything else. *)
Definition round (k : nat) s s' : Prop := exists s1, rtc calls_step s s1 /\ callStep k s1 = Some s'.

Definition rest_of (k : nat) s : list netAction := match cs_calls s !! k with Some t => ct_acts t | None => [] end.

Definition no_larger (x y : nat * nat) : Prop := (fst x < fst y \/ fst x = fst y /\ snd x <= snd y)%nat.

Lemma no_larger_trans x y z : no_larger x y -> no_larger y z -> no_larger x z.
Proof. unfold no_larger. lia. Qed.

Lemma smaller_no_larger x y z : smaller x y -> no_larger y z -> smaller x z.
Proof. unfold smaller, no_larger. lia. Qed.

Lemma callStep_inv k s s' :
  callStep k s = Some s' ->
  exists w a acts new n', cs_calls s !! k = Some (mkCallThread w (a :: acts)) /\ runNetAction a (cs_net s) = (new, n') /\
    s' = mkCallSys n' (cs_dials s) (<[k := mkCallThread w (new ++ acts)]> (cs_calls s)).
Proof.
  unfold callStep. destruct (cs_calls s !! k) as [[w [|a acts]]|]; [done| |done]. destruct (ready a (cs_calls s)); [|done].
  destruct (runNetAction a (cs_net s)) as [new n'] eqn:E. intros [= <-]. by exists w, a, acts, new, n'.
Qed.

Lemma rest_ok k s : cut_ok s -> Forall (action_ok (cs_net s)) (rest_of k s).
Proof.
  intros [_ _ Hc]. unfold rest_of. destruct (cs_calls s !! k) as [t|] eqn:Hk; [|constructor].
  apply co_actions. rewrite Forall_forall in Hc. apply Hc. by eapply list_elem_of_lookup_2.
Qed.

Lemma own_measure k s s' :
  cut_ok s -> callStep k s = Some s' -> smaller (measure (cs_net s') (rest_of k s')) (measure (cs_net s) (rest_of k s)).
Proof.
  intros Hs E. destruct (cut_run k s s' Hs E) as [_ Hla]. pose proof (rest_ok k s Hs) as Hall.
  destruct (callStep_inv k s s' E) as (w & a & acts & new & n' & Hk & Er & ->). unfold rest_of in *. cbn in *.
  rewrite list_lookup_insert_eq by (by eapply lookup_lt_Some). rewrite Hk in *. cbn in *.
  apply measure_run; [done|exact (Forall_inv_tail Hall)|done].
Qed.

(** The list of calls only grows, and only a call's own action changes it. *)
Lemma others_rest k s s' :
  cut_ok s -> calls_step s s' -> (k < length (cs_calls s))%nat ->
  (k < length (cs_calls s'))%nat /\ (rest_of k s' = rest_of k s \/ callStep k s = Some s').
Proof.
  intros Hs Hst Hk. destruct Hst as [n n' ds calls Hst|n ds calls ctx network a|n ds calls j d pref pick now d' n' Hj Hr Hpick Hlt E
    |n ds calls j d i Hj Ed Hno|n ds calls j d i k' Hj Ed Hk'|n ds calls p Hp|s k' s' E]; cbn in *; auto.
  - rewrite length_app. split; [lia|left]. unfold rest_of. cbn. by rewrite lookup_app_l.
  - rewrite length_app. split; [lia|left]. unfold rest_of. cbn. by rewrite lookup_app_l.
  - destruct (decide (k' = k)) as [->|Hne].
    + split; [|by right]. destruct (callStep_inv k s s' E) as (w & a & acts & new & n' & _ & _ & ->). cbn. by rewrite length_insert.
    + destruct (callStep_inv k' s s' E) as (w & a & acts & new & n' & _ & _ & ->). cbn. rewrite length_insert. split; [done|left].
      unfold rest_of. cbn. by rewrite list_lookup_insert_ne.
Qed.

Lemma step_measure k s s' :
  cut_ok s -> (k < length (cs_calls s))%nat -> calls_step s s' -> no_larger (measure (cs_net s') (rest_of k s')) (measure (cs_net s) (rest_of k s)).
Proof.
  intros Hs Hk Hst. destruct (others_rest k s s' Hs Hst Hk) as [_ [E|E]].
  - destruct (calls_step_ok s s' Hs Hst) as [_ Hla]. right. unfold measure. cbn. rewrite E. split; [done|].
    by apply size_later, rest_ok.
  - destruct (own_measure k s s' Hs E) as [?|[? ?]]; [by left|right]. split; [done|lia].
Qed.

Lemma run_measure k s s' :
  cut_ok s -> (k < length (cs_calls s))%nat -> rtc calls_step s s' ->
  cut_ok s' /\ (k < length (cs_calls s'))%nat /\ no_larger (measure (cs_net s') (rest_of k s')) (measure (cs_net s) (rest_of k s)).
Proof.
  intros Hs Hk Hrun. induction Hrun as [s|s1 s2 s3 Hst _ IH]; [split_and!; [done..|right; lia]|].
  destruct (IH (proj1 (calls_step_ok _ _ Hs Hst)) (proj1 (others_rest k _ _ Hs Hst Hk))) as (H1 & H2 & H3). split_and!; [done..|].
  eapply no_larger_trans; [exact H3|by apply step_measure].
Qed.

(** The actions of one call come to an end whatever runs in between. *)
Lemma call_returns k s : calls_reachable s -> (k < length (cs_calls s))%nat -> sn (round k) s.
Proof.
  intros Hs%calls_reachable_ok Hk. remember (measure (cs_net s) (rest_of k s)) as m eqn:Em. revert s Hs Hk Em.
  induction (smaller_wf m) as [m _ IH]. intros s Hs Hk ->. constructor. intros s' (s1 & Hrun & E).
  destruct (run_measure k s s1 Hs Hk Hrun) as (Hs1 & Hk1 & Hle). pose proof (own_measure k s1 s' Hs1 E) as Hlt.
  apply (IH (measure (cs_net s') (rest_of k s'))); [by eapply smaller_no_larger|by apply (cut_run k s1 s' Hs1)| |done].
  destruct (callStep_inv k s1 s' E) as (w & a & acts & new & n' & _ & _ & ->). cbn. by rewrite length_insert.
Qed.

(** ** No deadlock *)

Lemma callStep_ready k s w a acts : cs_calls s !! k = Some (mkCallThread w (a :: acts)) -> ready a (cs_calls s) = true -> exists s', callStep k s = Some s'.
Proof. intros Hk Hr. unfold callStep. rewrite Hk, Hr. destruct (runNetAction a (cs_net s)). by eexists. Qed.

(** A call others wait for does not wait. *)
Lemma holder_runs s t x : cut_ok s -> t ∈ cs_calls s -> x ∈ ct_acts t -> releases x = true -> exists s', callRuns s s'.
Proof.
  intros [_ _ Hc] Ht Hx Hr. rewrite Forall_forall in Hc. pose proof (Hc t Ht) as Hok. apply list_elem_of_lookup in Ht as [k Hk].
  apply list_elem_of_split in Hx as (pre & post & E). pose proof (co_tame _ _ Hok pre x post E Hr) as Hp. destruct t as [w acts]. cbn in E. subst acts.
  assert (exists a rest, pre ++ x :: post = a :: rest /\ plain a = true) as (a & rest & E & Ha).
  { destruct pre as [|a pre]; [exists x, post; split; [done|]|exists a, (pre ++ x :: post); split; [done|by apply Forall_cons in Hp as [? _]]].
    by destruct x as [i []| | | | | |]. }
  rewrite E in Hk. destruct (callStep_ready k s w a rest Hk) as [s' Es]; [|by exists s', k]. by destruct a as [i []| | | | | |].
Qed.

Lemma calls_progress s : cut_ok s -> ~ calls_over s -> exists s', callRuns s s'.
Proof.
  intros Hs Hn. apply not_Forall_Exists in Hn; [|intros t; apply _]. apply Exists_exists in Hn as (t & Ht & Hne).
  apply list_elem_of_lookup in Ht as [k Hk]. destruct t as [w [|a acts]]; [by destruct Hne|]. destruct (ready a (cs_calls s)) eqn:Er.
  { destruct (callStep_ready k s w a acts Hk Er) as [s' E]. by exists s', k. }
  assert (exists t x, t ∈ cs_calls s /\ x ∈ ct_acts t /\ releases x = true) as (t & x & Ht & Hx & Hr); [|by eapply holder_runs].
  destruct a as [i []|id| | | | |]; try done; cbn in Er; apply negb_false_iff, existsb_exists in Er as (t & Ht%list_elem_of_In & Hb%bool_decide_eq_true);
    by eexists t, _.
Qed.

Definition whole s : nat * nat := measure (cs_net s) (all_acts (cs_calls s)).

Lemma whole_smaller s s' : cut_ok s -> callRuns s s' -> smaller (whole s') (whole s).
Proof.
  intros Hs [k E]. destruct (cut_run k s s' Hs E) as [_ Hla]. pose proof (cu_calls _ Hs) as Hc.
  destruct (callStep_inv k s s' E) as (w & a & acts & new & n' & Hk & Er & ->). unfold whole. cbn in *.
  destruct (update_perm (cs_calls s) k _ (mkCallThread w (new ++ acts)) Hk) as (rest & P1 & P2).
  assert (forall m xs ys, xs ≡ₚ ys -> measure m xs = measure m ys) as Hperm.
  { intros m xs ys Hp. unfold measure, total. by rewrite !(Permutation_map _ Hp). }
  rewrite (Hperm n' _ (new ++ acts ++ all_acts rest)) by (unfold all_acts; rewrite P2; cbn; by rewrite app_assoc).
  rewrite (Hperm (cs_net s) _ (a :: acts ++ all_acts rest)) by (unfold all_acts; by rewrite P1).
  apply measure_run; [done| |done]. rewrite P1 in Hc. apply Forall_cons in Hc as [Hcall Hrest]. apply Forall_app.
  split; [exact (Forall_inv_tail (co_actions _ _ Hcall))|]. apply Forall_forall. intros b (t & Ht & Hb)%elem_concat_map.
  rewrite Forall_forall in Hrest. pose proof (co_actions _ _ (Hrest t Ht)) as Hf. rewrite Forall_forall in Hf. by apply Hf.
Qed.

Lemma runs_ok s s' : cut_ok s -> rtc callRuns s s' -> cut_ok s'.
Proof. intros Hs. induction 1 as [|x y z [k E] _ IH]; [done|]. by apply IH, (cut_run k x y Hs). Qed.

Lemma runs_end s : cut_ok s -> sn callRuns s.
Proof.
  intros Hs. remember (whole s) as m eqn:Em. revert s Hs Em. induction (smaller_wf m) as [m _ IH]. intros s Hs ->. constructor.
  intros s' Hst. apply (IH (whole s')); [by apply whole_smaller|by apply (runs_ok s); [|apply rtc_once]|done].
Qed.

#[local] Instance calls_over_dec s : Decision (calls_over s).
Proof. unfold calls_over. apply _. Defined.

Lemma runs_over s : cut_ok s -> exists s', rtc callRuns s s' /\ calls_over s'.
Proof.
  intros Hs. induction (runs_end s Hs) as [s _ IH]. destruct (decide (calls_over s)) as [Ho|Hn]; [by exists s|].
  destruct (calls_progress s Hs Hn) as [s1 Hst]. destruct (IH s1 Hst) as (s' & Hr & Ho); [by apply (runs_ok s); [|apply rtc_once]|].
  exists s'. split; [by eapply rtc_l|done].
Qed.

(** C9: every call returns, and there is no deadlock. Whatever else the program
    does in between, the actions of a Close, of a Close of a listener, however
    many connections it finds in its queue, and of a Partition, Heal or Reset,
    however many connections the pair has, come to an end: in no run does a call
    go on for ever. The calls in progress wait for one another (a Close for the
    once of another Close of the same end, a Close of a listener for its lock),
    but never all: from any state they can run, in any order, until they are
    over, after finitely many actions, and they stop only when all are over. *)
Theorem calls_finish s :
  calls_reachable s ->
  (forall k, (k < length (cs_calls s))%nat -> sn (round k) s) /\
  sn callRuns s /\ (exists s', rtc callRuns s s' /\ calls_over s') /\
  (forall s', rtc callRuns s s' -> (forall s2, ~ callRuns s' s2) -> calls_over s').
Proof.
  intros Hre. split; [intros k; by apply call_returns|]. pose proof (calls_reachable_ok s Hre) as Hs.
  split; [by apply runs_end|]. split; [by apply runs_over|]. intros s' Hr Hstop.
  destruct (decide (calls_over s')) as [Ho|Hn]; [done|]. destruct (calls_progress s' (runs_ok _ _ Hs Hr) Hn) as [s2 Hst]. by destruct (Hstop s2).
Qed.
End done.
