(* ===== verification/CallsWhole.v ===== *)
(** * A call with nothing in between

    The cut call, run by itself, does what the operation of [Network] it stands
    for does: the two models of Close, of a Close of a listener, of Partition,
    Heal and Reset agree. *)
From S2P Require Import Prelude GoRuntime Errors Float64 Rand Partition Trace PipeState Faults FaultProps Pipe PipeInv.
From S2P Require Import Deadline Options Conn ConnProps ConnRace NetIP NetIPProps NetIP6 Addr Addressing.
From S2P Require Import Replay Directions Listener Network NetworkInv NetworkFrame DialThreads DialSystem.
From S2P Require Import NetCalls CallsFrame CallsInv CallsActs CallsSteps CallsStep CallsDone.

Section whole.
Context {Src : Type} `{!DrawSource Src} `{!RejectFuel} `{!Platform}.
Implicit Types (n : Network Src) (lk : link Src) (s : callSys Src) (acts rest : list netAction) (c : connRef).

(** ** One call, alone *)

Definition solo (x y : list netAction * Network Src) : Prop :=
  match fst x with
  | a :: acts => ready a [mkCallThread None (fst x)] = true /\ y = (fst (runNetAction a (snd x)) ++ acts, snd (runNetAction a (snd x)))
  | [] => False
  end.

Lemma solo_plain a acts n new n' : plain a = true -> runNetAction a n = (new, n') -> solo (a :: acts, n) (new ++ acts, n').
Proof. intros Hp E. split; [|cbn; by rewrite E]. by destruct a as [i []| | | | | |]. Qed.

Lemma solo_done acts n n' : n = n' -> rtc solo (acts, n) (acts, n').
Proof. by intros ->. Qed.

(** The system in which it runs: every other call is over. *)
Definition alone n (ds : list dialThread) (calls : list callThread) w acts : callSys Src :=
  mkCallSys n ds (calls ++ [mkCallThread w acts]).

Lemma existsb_over (f : callThread -> bool) calls w acts :
  (forall w1 w2 acts, f (mkCallThread w1 acts) = f (mkCallThread w2 acts)) -> (forall w, f (mkCallThread w []) = false) ->
  Forall (fun t => ct_acts t = []) calls -> existsb f (calls ++ [mkCallThread w acts]) = existsb f [mkCallThread None acts].
Proof.
  intros Hf Hnil. induction 1 as [|[w1 acts1] calls E _ IH]; cbn in *; [by rewrite (Hf w None)|]. subst. by rewrite Hnil.
Qed.

Lemma ready_alone a calls w acts :
  Forall (fun t => ct_acts t = []) calls -> ready a (calls ++ [mkCallThread w acts]) = ready a [mkCallThread None acts].
Proof. intros Hc. destruct a as [i []| | | | | |]; try done; cbn [ready]; by rewrite existsb_over. Qed.

Lemma alone_step n ds calls w acts s' :
  Forall (fun t => ct_acts t = []) calls -> callRuns (alone n ds calls w acts) s' <->
  exists acts' n', solo (acts, n) (acts', n') /\ s' = alone n' ds calls w acts'.
Proof.
  intros Hc. assert ((calls ++ [mkCallThread w acts]) !! length calls = Some (mkCallThread w acts)) as Hl by (by rewrite lookup_app_r, Nat.sub_diag).
  assert (forall x, <[length calls := x]> (calls ++ [mkCallThread w acts]) = calls ++ [x]) as Hi
    by (intros x; rewrite insert_app_r_alt, Nat.sub_diag by done; done).
  split.
  - intros [k E]. unfold callStep, alone in E. cbn [cs_calls cs_net cs_dials] in E.
    destruct (decide (k < length calls)%nat) as [Hk|Hk].
    { rewrite lookup_app_l in E by done. destruct (calls !! k) as [[w1 [|a acts1]]|] eqn:Ek; try done.
      rewrite Forall_lookup in Hc. by specialize (Hc k _ Ek). }
    destruct (decide (k = length calls)) as [->|Hne]; [|by rewrite lookup_app_r, lookup_cons_ne_0 in E by lia].
    rewrite Hl in E. destruct acts as [|a acts]; [done|]. rewrite ready_alone in E by done.
    destruct (ready a _) eqn:Er; [|done]. destruct (runNetAction a n) as [new n'] eqn:Ea. injection E as <-. exists (new ++ acts), n'.
    split; [split; [done|cbn; by rewrite Ea]|]. by rewrite Hi.
  - intros (acts' & n' & Hst & ->). destruct acts as [|a acts]; [done|]. destruct Hst as [Hr E]. cbn [fst snd] in *.
    exists (length calls). unfold callStep, alone. cbn [cs_calls cs_net cs_dials]. rewrite Hl, ready_alone, Hr by done.
    destruct (runNetAction a n) as [new n1]. cbn in E. injection E as -> ->. by rewrite Hi.
Qed.

Lemma alone_runs n ds calls w acts acts' n' :
  Forall (fun t => ct_acts t = []) calls -> rtc solo (acts, n) (acts', n') -> rtc callRuns (alone n ds calls w acts) (alone n' ds calls w acts').
Proof.
  intros Hc Hr. remember (acts, n) as x eqn:Ex. remember (acts', n') as y eqn:Ey. revert acts n Ex.
  induction Hr as [x|x [acts1 n1] z Hst _ IH]; intros acts n Ex; [by simplify_eq|]. subst x.
  eapply rtc_l; [|by apply IH]. apply alone_step; [done|]. by exists acts1, n1.
Qed.

(** It can go one way only. *)
Lemma alone_only n ds calls w acts n' s' :
  Forall (fun t => ct_acts t = []) calls -> rtc solo (acts, n) ([], n') -> rtc callRuns (alone n ds calls w acts) s' -> calls_over s' ->
  s' = alone n' ds calls w [].
Proof.
  intros Hc Hr Hs Hov. remember (acts, n) as x eqn:Ex. remember ([], n') as y eqn:Ey. revert acts n Ex Hs.
  induction Hr as [x|x [acts1 n1] z Hst _ IH]; intros acts n Ex Hs; subst.
  - injection Ex as <- <-. inversion Hs as [|? s1 ? H1]; [done|]. apply alone_step in H1 as (? & ? & [] & _). done.
  - inversion Hs as [|? s1 ? H1 H2]; subst.
    + destruct acts as [|a acts]; [by destruct Hst|]. apply Forall_app in Hov as [_ Hov]. by apply Forall_inv in Hov.
    + apply alone_step in H1 as (acts2 & n2 & Hst2 & ->); [|done]. apply (IH eq_refl acts1 n1 eq_refl).
      assert ((acts2, n2) = (acts1, n1)) as [= <- <-]; [|done]. destruct acts as [|a acts]; [done|].
      destruct Hst as [_ ->], Hst2 as [_ ->]. done.
Qed.

(** ** Close *)

Lemma upd_conn_twice (i : nat) f g n : upd_conn i f (upd_conn i g n) = upd_conn i (fun lk => f (g lk)) n.
Proof. unfold upd_conn. cbn. rewrite list_alter_alter_eq. by destruct n. Qed.

Lemma deregister_upd pair c (i : nat) f n : deregisterReset pair c (upd_conn i f n) = upd_conn i f (deregisterReset pair c n).
Proof. unfold deregisterReset. cbn. by destruct (decide _). Qed.

Lemma upd_conn_ext (i : nat) f g n : (forall lk, n_conns n !! i = Some lk -> f lk = g lk) -> upd_conn i f n = upd_conn i g n.
Proof. intros Hf. unfold upd_conn. f_equal. by apply list_alter_ext. Qed.

Lemma solo_close c rest n :
  inOnce c (mkCallThread None rest) = false -> rtc solo (OnConn (fst c) (DoClosed (snd c)) :: rest, n) (rest, connClose c n).
Proof.
  destruct c as [i e]. intros Hno. cbn [fst snd]. unfold connClose. cbn [fst snd].
  assert (ready (OnConn i (DoClosed e)) [mkCallThread None (OnConn i (DoClosed e) :: rest)] = true) as Hr.
  { cbn -[inOnce]. unfold inOnce in *. cbn [ct_acts fst snd] in *. apply bool_decide_eq_false in Hno. rewrite bool_decide_eq_false_2; [done|].
    by intros [?|?]%elem_of_cons. }
  destruct (n_conns n !! i) as [lk|] eqn:Hi; [|apply rtc_once; split; [done|]; cbn; by rewrite Hi].
  destruct (c_closed (end_of lk e)) eqn:Ec; [apply rtc_once; split; [done|]; cbn; by rewrite Hi, Ec|].
  eapply rtc_l; [split; [done|]; cbn [fst snd runNetAction runOnConn]; rewrite Hi, Ec; reflexivity|].
  cbn [fst snd closeActions closeProgram tail map app].
  assert (n_conns (upd_conn i (upd_end e (fun e0 => set_c_closed e0 true)) n) !! i = Some (upd_end e (fun e0 => set_c_closed e0 true) lk)) as Hi1
    by (cbn; by rewrite list_lookup_alter_eq, Hi).
  eapply rtc_l; [eapply solo_plain; [done|cbn [runNetAction runOnConn]; rewrite Hi1; reflexivity]|].
  do 4 (eapply rtc_l; [by apply solo_plain|]). cbn [app]. apply solo_done.
  assert (forall g, c_nw (g (end_of lk e)) = c_nw (end_of lk e) -> c_pair (g (end_of lk e)) = c_pair (end_of lk e) ->
    c_nw (end_of (upd_end e g lk) e) = c_nw (end_of lk e) /\ c_pair (end_of (upd_end e g lk) e) = c_pair (end_of lk e)) as Hg
    by (intros g; by destruct e).
  destruct (Hg (fun e0 => set_c_closed e0 true)) as [-> ->]; [done..|]. rewrite deregister_upd.
  assert (forall m, n_conns m = n_conns n ->
    upd_conn i (upd_end e (fun e0 => set_c_wd e0 (stop (c_wd e0)))) (upd_conn i (upd_end e (fun e0 => set_c_rd e0 (stop (c_rd e0))))
      (upd_conn i (upd_writePipe (other e) abort) (upd_conn i (upd_writePipe e close)
        (upd_conn i (upd_end e (fun e0 => set_c_closed e0 true)) m)))) = upd_conn i (Close e) m) as Hm.
  { intros m Em. rewrite !upd_conn_twice. apply upd_conn_ext. intros lk0. rewrite Em, Hi. intros [= <-].
    unfold Close. rewrite Ec. by destruct e. }
  destruct (c_nw (end_of lk e)); rewrite Hm; try done. unfold deregisterReset. by destruct (decide _).
Qed.

(** ** A Close of a listener *)

Lemma connClose_heap c n h : connClose c (set_heap n h) = set_heap (connClose c n) h.
Proof.
  unfold connClose, deregisterReset. cbn. destruct (n_conns n !! fst c) as [lk|]; [|done].
  destruct (c_closed _); [done|]. destruct (c_nw _); [|done]. by destruct (decide _).
Qed.

Lemma solo_drain id l n :
  n_heap n !! id = Some l -> rtc solo ([DrainQueue id], n)
    ([], fold_left (fun n c => connClose c n) (l_incoming l) (set_heap n (<[id := set_incoming l []]> (n_heap n)))).
Proof.
  remember (l_incoming l) as q eqn:Eq. revert l n Eq. induction q as [|c q IH]; intros l n Eq Hi.
  - apply rtc_once. split; [done|]. cbn. rewrite Hi. unfold drainOne. rewrite <- Eq. cbn. f_equal.
    replace (set_incoming l []) with l by (destruct l; cbn in *; by subst). rewrite list_insert_id by done. by destruct n.
  - eapply rtc_l; [split; [done|]; cbn [fst snd runNetAction]; rewrite Hi; unfold drainOne; rewrite <- Eq; reflexivity|].
    cbn [fst snd app]. set (n1 := set_heap n (<[id := set_incoming l q]> (n_heap n))).
    etrans; [apply solo_close; by apply bool_decide_eq_false_2; intros [?|?%elem_of_nil]%elem_of_cons|].
    assert (n_heap (connClose c n1) = n_heap n1) as Eh by apply connClose_frame.
    etrans; [apply (IH (set_incoming l q)); [done|]; rewrite Eh; cbn; by rewrite list_lookup_insert_eq by (by eapply lookup_lt_Some)|].
    apply solo_done. cbn [fold_left]. f_equal. rewrite Eh, <- connClose_heap. f_equal. cbn. by rewrite list_insert_insert_eq.
Qed.

Lemma solo_listener id n : rtc solo ([MarkClosed id], n) ([], listenerClose id n).
Proof.
  assert (ready (MarkClosed id) [mkCallThread None [MarkClosed id]] = true) as Hr.
  { cbn -[holdsLock]. unfold holdsLock. cbn -[bool_decide]. rewrite bool_decide_eq_false_2; [done|]. by intros [?|?%elem_of_nil]%elem_of_cons. }
  unfold listenerClose. destruct (n_heap n !! id) as [l|] eqn:Hi; [|apply rtc_once; split; [done|]; cbn; by rewrite Hi].
  destruct (closeMark l) as [[] l1] eqn:Em; [|apply rtc_once; split; [done|]; cbn; by rewrite Hi, Em].
  eapply rtc_l; [split; [done|]; cbn [fst snd runNetAction]; rewrite Hi, Em; reflexivity|]. cbn [fst snd app].
  set (n1 := set_heap n (<[id := l1]> (n_heap n))).
  assert (n_heap n1 !! id = Some l1) as Hi1 by (cbn; by rewrite list_lookup_insert_eq by (by eapply lookup_lt_Some)).
  eapply rtc_l; [apply solo_plain; [done|]; cbn [runNetAction]; rewrite Hi1; reflexivity|]. cbn [app].
  rewrite deregister_eq. by apply solo_drain.
Qed.

(** ** Partition, Heal and Reset *)

Lemma solo_each (g : netAction -> Network Src -> Network Src) acts rest n :
  (forall a m, a ∈ acts -> plain a = true /\ runNetAction a m = ([], g a m)) ->
  rtc solo (acts ++ rest, n) (rest, fold_left (fun m a => g a m) acts n).
Proof.
  revert n. induction acts as [|a acts IH]; intros n Ha; [done|]. destruct (Ha a n) as [Hp E]; [by left|].
  eapply rtc_l; [by eapply solo_plain|]. apply IH. intros b m Hb. apply Ha. by right.
Qed.

Lemma fold_map {A B C} (f : A -> B) (g : B -> C -> C) xs m :
  fold_left (fun m b => g b m) (map f xs) m = fold_left (fun m a => g (f a) m) xs m.
Proof. revert m. induction xs as [|x xs IH]; intros m; [done|]. apply IH. Qed.

Lemma solo_reset ts n :
  rtc solo (resetActions ts, n)
    ([], fold_left (fun n c => upd_conn (fst c) (abortReset (snd c)) n) ts
          (fold_left (fun n c => upd_conn (fst c) (signalReset (snd c)) n) ts n)).
Proof.
  set (g := fun a (m : Network Src) => snd (runNetAction a m)).
  assert (forall (f : connRef -> netAction) cs (m : Network Src), (forall c (m : Network Src), plain (f c) = true /\ fst (runNetAction (f c) m) = []) ->
    forall rest, rtc solo (map f cs ++ rest, m) (rest, fold_left (fun m c => g (f c) m) cs m)) as Hmap.
  { intros f cs m Hf rest. rewrite <- (fold_map f g). apply solo_each. intros a m' (c & -> & _)%list_elem_of_fmap.
    destruct (Hf c m') as [Hp E]. split; [done|]. by rewrite (surjective_pairing (runNetAction _ _)), E. }
  unfold resetActions. etrans; [by apply Hmap|]. rewrite <- (app_nil_r (map abortAction _)). etrans; [by apply Hmap|].
  apply solo_done.
  change (fold_left (fun n c => upd_conn (fst c) (signalReset (snd c)) n) ts n) with (fold_left (fun m c => g (signalAction c) m) ts n).
  generalize (fold_left (fun m c => g (signalAction c) m) ts n). clear -g. induction ts as [|[i e] ts IH]; intros n; [done|].
  unfold abortTargets. cbn [map concat app fold_left]. rewrite <- IH. f_equal. unfold g. cbn. by rewrite upd_conn_twice.
Qed.

Lemma solo_names f a b n :
  rtc solo ([NameFirst f a b], n) ([ApplyPair f (fst (resolvePair a b n))], snd (resolvePair a b n)).
Proof.
  unfold resolvePair. destruct (resolvePeer a n) as [pa n1] eqn:Ea. destruct (resolvePeer b n1) as [pb n2] eqn:Eb.
  eapply rtc_l; [split; [done|]; cbn [fst snd runNetAction]; rewrite Ea; reflexivity|].
  eapply rtc_l; [split; [done|]; cbn [fst snd runNetAction app]; rewrite Eb; reflexivity|]. done.
Qed.

Lemma solo_whole p n n' : callWhole p n = Ret n' -> rtc solo (callProgram p, n) ([], n').
Proof.
  intros E. destruct p as [c|id|f a b]; cbn in E.
  - injection E as <-. by apply solo_close, bool_decide_eq_false_2, not_elem_of_nil.
  - injection E as <-. apply solo_listener.
  - etrans; [apply solo_names|]. destruct f; cbn in E; apply go_bind_ret in E as ([] & _ & E);
      destruct (resolvePair a b n) as [k n1]; cbn [fst snd]; injection E as <-.
    + by apply rtc_once.
    + by apply rtc_once.
    + eapply rtc_l; [by split|]. cbn. rewrite app_nil_r. apply solo_reset.
Qed.

Lemma whole_allowed p n n' : callWhole p n = Ret n' -> callAllowed p.
Proof. destruct p as [| |[] a b]; [done..| | |]; cbn; intros ([] & E & _)%go_bind_ret; done. Qed.

(** ** Systems whose calls run in one piece *)

Lemma callRuns_step s s' : rtc callRuns s s' -> rtc calls_step s s'.
Proof. induction 1 as [|x y z [k E] _ IH]; [done|]. eapply rtc_l; [by apply (cs_run _ k)|done]. Qed.

Lemma one_piece_run p n n' ds calls :
  Forall (fun t => ct_acts t = []) calls -> callWhole p n = Ret n' ->
  rtc calls_step (mkCallSys n ds calls) (mkCallSys n' ds (calls ++ [mkCallThread None []])).
Proof.
  intros Hc E. eapply rtc_l; [by apply cs_start, (whole_allowed p n n')|]. by apply callRuns_step, alone_runs, solo_whole.
Qed.

(** The calls there were are over, and those a dial made have let it return. *)
Definition settled (ds : list dialThread) (calls : list callThread) : Prop :=
  Forall (fun t => ct_acts t = []) calls /\
  forall t j, t ∈ calls -> ct_for t = Some j -> exists d i, ds !! j = Some d /\ dt_pc d = Connected i.

Lemma settled_over ds calls w acts :
  settled ds calls -> acts = [] -> (forall j, w = Some j -> exists d i, ds !! j = Some d /\ dt_pc d = Connected i) ->
  settled ds (calls ++ [mkCallThread w acts]).
Proof.
  intros [H1 H2] -> Hw. split; [apply Forall_app; by split; [|repeat constructor]|].
  intros t j [Ht| ->%list_elem_of_singleton]%elem_of_app; [by apply H2|apply Hw].
Qed.

Lemma settled_dials ds ds' calls :
  (forall j d i, ds !! j = Some d -> dt_pc d = Connected i -> ds' !! j = Some d) -> settled ds calls -> settled ds' calls.
Proof. intros Hd [H1 H2]. split; [done|]. intros t j Ht Ej. destruct (H2 t j Ht Ej) as (d & i & Hj & Ed). exists d, i. by split; [eapply Hd|]. Qed.

Lemma settled_ready ds calls pc : settled ds calls -> (forall i, pc <> ClosingOff i) -> dialReady pc calls = true.
Proof.
  intros [Hc _] Hpc. assert (forall id, existsb (holdsLock id) calls = false) as Hl.
  { intros id. induction Hc as [|[w acts] calls E _ IH]; [done|]. cbn in E |- *. subst. by rewrite IH. }
  destruct pc as [| | | | | | | | | | |i| | |]; try done; cbn; [by rewrite Hl|by rewrite Hl|by destruct (Hpc i)].
Qed.

Lemma update_connected (ds : list dialThread) (j : nat) d d' :
  ds !! j = Some d -> (forall i, dt_pc d = Connected i -> d' = d) ->
  forall j1 d1 i, ds !! j1 = Some d1 -> dt_pc d1 = Connected i -> <[j := d']> ds !! j1 = Some d1.
Proof.
  intros Hj Hd j1 d1 i Hj1 E. destruct (decide (j = j1)) as [<-|Hne]; [|by rewrite list_lookup_insert_ne].
  rewrite list_lookup_insert_eq by (by eapply lookup_lt_Some). simplify_eq. by rewrite (Hd i E).
Qed.

Lemma thread_cut n ds calls j d pref pick now d' n' :
  settled ds calls -> ds !! j = Some d -> (forall l, pick l ≡ₚ l) -> n_nextOrdinal n + 1 < 2 ^ 64 -> threadStep pref pick now d n = Ret (d', n') ->
  exists calls', settled (<[j := d']> ds) calls' /\ rtc calls_step (mkCallSys n ds calls) (mkCallSys n' (<[j := d']> ds) calls').
Proof.
  intros Hs Hj Hpick Hlt E. assert ((exists i, dt_pc d = ClosingOff i) \/ forall i, dt_pc d <> ClosingOff i) as [[i Ed]|Hno]
    by (destruct (dt_pc d); (by right) || (left; by eexists)).
  - unfold threadStep in E. rewrite Ed in E. injection E as <- <-. exists (calls ++ [mkCallThread (Some j) []]). split.
    + apply settled_over; [|done|].
      * eapply settled_dials; [|exact Hs]. apply (update_connected ds j d); [done|]. intros i1 E1. congruence.
      * intros j1 [= <-]. exists (set_pc d (Connected i)), i. by rewrite list_lookup_insert_eq by (by eapply lookup_lt_Some).
    + eapply rtc_l; [apply (cs_closeOff n ds calls j d i); [done..|]|].
      { apply Forall_forall. intros t Ht Ej. destruct Hs as [_ Hs]. destruct (Hs t j Ht Ej) as (d1 & i1 & Hj1 & E1). congruence. }
      eapply rtc_r; [by apply callRuns_step, alone_runs, solo_whole; [apply Hs|]|].
      apply (cs_closedOff _ _ _ j d i (length calls)); [done..|]. by rewrite lookup_app_r, Nat.sub_diag.
  - exists calls. split.
    + eapply settled_dials; [|exact Hs]. apply (update_connected ds j d); [done|]. intros i Ed. unfold threadStep in E. rewrite Ed in E. by injection E.
    + apply rtc_once. apply (cs_thread n ds calls j d pref pick now d' n'); try done. by eapply settled_ready.
Qed.

Lemma system_cut x y calls :
  rtc sys_step x y -> settled (snd x) calls ->
  exists calls', settled (snd y) calls' /\ rtc calls_step (mkCallSys (fst x) (snd x) calls) (mkCallSys (fst y) (snd y) calls').
Proof.
  intros Hr. revert calls. induction Hr as [x|x y z Hst _ IH]; intros calls Hs; [by exists calls|].
  assert (exists calls1, settled (snd y) calls1 /\ rtc calls_step (mkCallSys (fst x) (snd x) calls) (mkCallSys (fst y) (snd y) calls1)) as (calls1 & Hs1 & H1).
  2: { destruct (IH calls1 Hs1) as (calls2 & Hs2 & H2). exists calls2. split; [done|by etrans]. }
  assert (forall n ds n', (exists p, callWhole p n = Ret n') -> settled ds calls ->
    exists calls1, settled ds calls1 /\ rtc calls_step (mkCallSys n ds calls) (mkCallSys n' ds calls1)) as Hcall.
  { intros n ds n' [p E] Hds. exists (calls ++ [mkCallThread None []]). split; [by apply settled_over|]. apply (one_piece_run p); [apply Hds|done]. }
  destruct Hst as [n ts n' Hc|n ts ctx network a|n ts j d pref pick now d' n' Hj Hpick Hlt E]; cbn [fst snd] in *.
  - destruct Hc as [n n' Hc|n id|n c|n a b n' E|n a b n' E|n a b n' E].
    + exists calls. split; [done|]. by apply rtc_once, cs_section.
    + apply Hcall; [by exists (CloseListener id)|done].
    + apply Hcall; [by exists (CloseConn c)|done].
    + apply Hcall; [by exists (CallPair PartitionPair a b)|done].
    + apply Hcall; [by exists (CallPair HealPair a b)|done].
    + apply Hcall; [by exists (CallPair ResetPair a b)|done].
  - exists calls. split; [|apply rtc_once, cs_dial]. eapply settled_dials; [|exact Hs]. intros. by apply lookup_app_l_Some.
  - by eapply thread_cut.
Qed.

End whole.
