(* ===== verification/CallsExamples.v ===== *)
(** * Calls in the middle of one another: a concrete interleaving, and the
    witnesses of the properties of cut calls *)
From S2P Require Import Prelude GoRuntime Errors Float64 Rand Partition Trace PipeState Faults FaultProps Pipe PipeInv.
From S2P Require Import Deadline Options Conn ConnProps ConnRace NetIP NetIPProps NetIP6 Addr Addressing.
From S2P Require Import Replay Directions Listener Network NetworkInv NetworkFrame NetworkFaults NetworkExamples DialThreads DialSystem.
From S2P Require Import SystemProps SystemExamples NetSpec NetSystem NetCalls CallsFrame CallsInv CallsActs CallsSteps CallsStep.
From S2P Require Import CallsProps CallsDone CallsWhole.

(** ** Executable schedules *)

Inductive order : Type :=
| ODial (ctx : context) (network a : string)
| OThread (j : nat)              (** a section of dial [j] *)
| OStart (p : publicCall)
| ORun (k : nat).                (** an action of call [k] *)

Section schedules.
Context {Src : Type} `{!DrawSource Src} `{!RejectFuel} `{!Platform}.
Implicit Types (n : Network Src) (s : callSys Src).

Definition allowed (p : publicCall) : bool :=
  match p with
  | CallPair f a b => match validatePartitionPair (pairCallName f) (mkPartitionPair a b) with Ret _ => true | _ => false end
  | _ => true
  end.

Definition obey (o : order) s : callSys Src :=
  let '(mkCallSys n ds calls) := s in
  match o with
  | ODial ctx network a => mkCallSys n (ds ++ [startDial ctx network a]) calls
  | OThread j =>
      match ds !! j with
      | Some d =>
          if dialReady (dt_pc d) calls && (n_nextOrdinal n + 1 <? 2 ^ 64) then
            match threadStep true (fun l => l) 0 d n with
            | Ret (d', n') => mkCallSys n' (<[j := d']> ds) calls
            | _ => s
            end
          else s
      | None => s
      end
  | OStart p => if allowed p then mkCallSys n ds (calls ++ [mkCallThread None (callProgram p)]) else s
  | ORun k => default s (callStep k s)
  end.

Definition obeyAll (os : list order) s : callSys Src := fold_left (fun s o => obey o s) os s.

Lemma obey_run o s : rtc calls_step s (obey o s).
Proof.
  destruct s as [n ds calls]. destruct o as [ctx network a|j|p|k]; cbn [obey].
  - apply rtc_once, cs_dial.
  - destruct (ds !! j) as [d|] eqn:Ej; [|done]. destruct (dialReady _ _) eqn:Ed; [|done]. cbn [andb].
    destruct (Z.ltb_spec (n_nextOrdinal n + 1) (2 ^ 64)) as [Hlt|]; [|done].
    destruct (threadStep true (fun l => l) 0 d n) as [[d' n']| |] eqn:E; [|done..].
    apply rtc_once. by apply (cs_thread n ds calls j d true (fun l => l) 0 d' n').
  - destruct (allowed p) eqn:Ea; [|done]. apply rtc_once, cs_start. destruct p as [| |f a b]; [done..|]. cbn in Ea |- *.
    by destruct (validatePartitionPair _ _) as [[]| |].
  - destruct (callStep k _) as [s'|] eqn:E; [|done]. by eapply rtc_once, cs_run.
Qed.

Lemma obeyAll_run os s : rtc calls_step s (obeyAll os s).
Proof. revert s. induction os as [|o os IH]; intros s; [done|]. etrans; [apply obey_run|apply IH]. Qed.

Lemma calls_reachable_run s s' : calls_reachable s -> rtc calls_step s s' -> calls_reachable s'.
Proof. intros (vs & n & Hvs & E & H1) H2. exists vs, n. split; [done|]. split; [done|]. by etrans. Qed.
End schedules.

(** ** A Reset, a Close and a Close of the listener *)

#[local] Existing Instances example_platform example_fuel.

(** A client dials the server, whose end waits in the queue. *)
Definition cut_start : callSys unit :=
  obeyAll (ODial (WithPeerName Background "client") "tcp" "server:80" :: replicate 11 (OThread 0)) (mkCallSys race_listening [] []).

(** A Reset of the pair signals the first of its targets; the client closes its
    end, up to the registry; the server closes its listener, up to the queue. *)
Definition cut_mid : callSys unit :=
  obeyAll ([OStart (CallPair ResetPair "client" "server"); OStart (CloseConn (0%nat, sideDialer)); OStart (CloseListener 0)] ++
    map ORun [0; 1; 2; 0; 0; 0; 1; 2]%nat) cut_start.

(** And all go on to the end. *)
Definition cut_end : callSys unit := obeyAll (map ORun ([2; 2; 2; 2; 2; 2; 2; 2] ++ replicate 8 0 ++ replicate 5 1)%nat) cut_mid.

Lemma cut_start_reachable : calls_reachable cut_start.
Proof.
  eapply calls_reachable_run; [|apply obeyAll_run]. exists race_options, race_new. split; [exact race_typed|].
  split; [vm_compute; reflexivity|]. apply rtc_once, cs_section, (st_listen race_new "tcp" "server:80" (inl 0%nat)). vm_compute. reflexivity.
Qed.

Lemma cut_mid_reachable : calls_reachable cut_mid.
Proof. eapply calls_reachable_run; [exact cut_start_reachable|apply obeyAll_run]. Qed.

Lemma cut_end_reachable : calls_reachable cut_end.
Proof. eapply calls_reachable_run; [exact cut_mid_reachable|apply obeyAll_run]. Qed.

(** Half-way: the client's end is closed and both to be closed and cut, the
    listener is closed and out of the table, and its queue is still full. *)
Lemma cut_mid_shape :
  map (fun t => length (ct_acts t)) (cs_calls cut_mid) = [5; 4; 1]%nat /\
  pend_acts (all_acts (cs_calls cut_mid)) = mkPending [(0%nat, sideAcceptor)] [] [0%nat] /\
  map (fun lk => map (fun e => (c_closed (end_of lk e), c_reset (end_of lk e))) [sideDialer; sideAcceptor]) (n_conns (cs_net cut_mid)) =
    [[(true, true); (false, false)]] /\
  map (fun l => (l_closed l, l_incoming l)) (n_heap (cs_net cut_mid)) = [(true, [(0%nat, sideAcceptor)])].
Proof. vm_compute. repeat split. Qed.

Lemma cut_end_over : calls_over cut_end.
Proof.
  apply (Forall_map ct_acts (fun acts => acts = [])).
  assert (map ct_acts (cs_calls cut_end) = [[]; []; []]) as -> by (vm_compute; reflexivity). by repeat constructor.
Qed.

(** A Read at the server's end, which blocks before the Reset signals its end and
    wakes when it does. *)
Definition readAt (x : ioThread * callSys unit) : ioThread * callSys unit :=
  match io_call (fst x), ioStep 0 (fst x) (cs_net (snd x)) with
  | ReadCall _ _, Ret (t, n) => (t, mkCallSys n (cs_dials (snd x)) (cs_calls (snd x)))
  | _, _ => x
  end.
Definition readFor (k : nat) (x : ioThread * callSys unit) : ioThread * callSys unit := Nat.iter k readAt x.

(** [k] steps of the Read, orders to the others, and [j] steps more. *)
Definition readAmong (k : nat) (os : list order) (j : nat) (x : ioThread * callSys unit) : ioThread * callSys unit :=
  readFor j (fst (readFor k x), obeyAll os (snd (readFor k x))).

Lemma readAt_run x : rtc io_among x (readAt x).
Proof.
  destruct x as [t [n ds calls]]. unfold readAt. cbn [fst snd cs_net cs_dials cs_calls].
  destruct (io_call t) as [size pc|] eqn:Et; [|apply rtc_refl]. destruct (ioStep 0 t n) as [[t1 n1]| |] eqn:E; [|apply rtc_refl..].
  apply rtc_once. apply (ia_own 0); [|done]. unfold io_room. by rewrite Et.
Qed.

Lemma readFor_run k x : rtc io_among x (readFor k x).
Proof. induction k as [|k IH]; [apply rtc_refl|]. etrans; [exact IH|apply readAt_run]. Qed.

Lemma others_run t s s' : rtc calls_step s s' -> rtc io_among (t, s) (t, s').
Proof. induction 1 as [|s1 s2 s3 H1 _ IH]; [done|]. eapply rtc_l; [by apply ia_others|done]. Qed.

Lemma readAmong_run k os j x : rtc io_among x (readAmong k os j x).
Proof.
  etrans; [apply (readFor_run k)|]. etrans; [|apply readFor_run]. destruct (readFor k x) as [t s]. apply others_run, obeyAll_run.
Qed.

Definition read_start : ioThread * callSys unit := (startRead (0%nat, sideAcceptor) 4, cut_mid).
Definition read_blocked : ioThread * callSys unit := readFor 5 read_start.
Definition read_failed : ioThread * callSys unit := readAmong 5 [ORun 0; ORun 0]%nat 8 read_start.

Definition read_error : option goerror :=
  match io_call (fst read_failed) with ReadCall _ (Return _ err) => err | _ => None end.

(** It waits, and fails once the Reset has signalled its end and aborted a pipe. *)
Definition read_reset : goerror :=
  opError (mkConn (mkAddr "tcp" "server" 80 (Some [198; 18; 0; 0])) (mkAddr "tcp" "client" 32768 (Some [198; 18; 0; 1])) "tcp" 0 sideAcceptor
    false false false (mkPairKey "" "") newDeadline newDeadline) "read" errConnReset.

Lemma read_shape : io_call (fst read_failed) = ReadCall 4 (Return [] (Some read_reset)).
Proof. vm_compute. reflexivity. Qed.

Lemma blocked_shape : io_call (fst read_blocked) = ReadCall 4 (Select (onPipe 0%nat) 0%nat).
Proof. vm_compute. reflexivity. Qed.

(** ** Witnesses *)

Lemma cut_calls_invariant_witness :
  net_okP (mkPending [(0%nat, sideAcceptor)] [] [0%nat]) (cs_net cut_mid) /\ threads_ok (cs_net cut_mid) (cs_dials cut_mid).
Proof.
  destruct (cut_calls_invariant cut_mid cut_mid_reachable) as (H1 & H2 & _). split; [|exact H2].
  rewrite (proj1 (proj2 cut_mid_shape)) in H1. exact H1.
Defined.

(** The client's end and the server's, both closed and reset. *)
Lemma teardown_complete_witness :
  exists lk, n_conns (cs_net cut_end) !! 0%nat = Some lk /\ c_closed (end_of lk sideDialer) = true /\
    p_closed (writePipe lk sideDialer) = true /\ p_readClosed (readPipe lk sideDialer) = true /\
    (0%nat, sideDialer) ∉ targets (n_resetTargets (cs_net cut_end)) (mkPairKey "client" "server").
Proof.
  assert ((fun lk => (c_closed (end_of lk sideDialer))) <$> (n_conns (cs_net cut_end) !! 0%nat) = Some true) as E by (vm_compute; reflexivity).
  destruct (n_conns (cs_net cut_end) !! 0%nat) as [lk|] eqn:Hi; [|discriminate E]. injection E as E. exists lk.
  destruct (teardown_complete cut_end cut_end_reachable cut_end_over) as (H1 & H2 & _).
  destruct (proj1 (H1 0%nat lk sideDialer Hi) E) as [Hw Hr]. split; [reflexivity|]. split; [exact E|]. split; [exact Hw|]. split; [exact Hr|].
  intros Hin. apply H2 in Hin as (lk' & Hi' & _ & _ & Hc & _). cbn [fst snd] in Hi', Hc. rewrite Hi in Hi'. injection Hi' as <-. exact (eq_true_false_abs _ E Hc).
Defined.

(** A Read that the Reset wakes says so, and the end was reset. *)
Lemma io_failures_truthful_witness :
  exists lk err, n_conns (cs_net (snd read_failed)) !! 0%nat = Some lk /\ read_error = Some err /\
    reset_error "read" err /\ read_failure lk sideAcceptor [] err.
Proof.
  destruct (io_failures_truthful (fst read_start) (snd read_start) (fst read_failed) (snd read_failed) cut_mid_reachable) as (lk & Hi & H).
  - apply (bool_decide_unpack (is_Some (n_conns (cs_net cut_mid) !! 0%nat))). vm_compute. exact I.
  - left. exists 4%nat. reflexivity.
  - rewrite <- !surjective_pairing. exact (readAmong_run 5 [ORun 0; ORun 0]%nat 8 read_start).
  - exists lk. rewrite read_shape in H. exists read_reset. split; [exact Hi|]. split; [unfold read_error; rewrite read_shape; reflexivity|].
    split; [eexists; reflexivity|exact H].
Defined.

Lemma calls_finish_witness :
  sn (round 0) cut_mid /\ sn callRuns cut_mid /\ exists s', rtc callRuns cut_mid s' /\ calls_over s'.
Proof.
  destruct (calls_finish cut_mid cut_mid_reachable) as (H0 & H1 & H2 & _). split; [|split; [exact H1|exact H2]].
  apply H0. assert (length (cs_calls cut_mid) = 3%nat) as E by (vm_compute; reflexivity). rewrite E. lia.
Defined.

